(* ===== verification/_CoqProject ===== *)
-Q . S2P
Prelude.v
Bytes.v
Crates.v
CrateModels.v
Results.v
Reactor.v
Io.v
RingFacts.v
Mailbox.v
Refinement.v
RefineOps.v
System.v
ReactorProps.v
ReactorLimits.v
Sqe.v
Libc.v
LibcModel.v
Futures.v
SockAddr.v
Event.v
ReadWrite.v
Fs.v
Timer.v
Tcp.v
Udp.v
Mutex.v
FuturesProps.v
Task.v
TaskProps.v
TaskLoop.v
ExecutorProps.v
Progress.v
Awaits.v
Script.v
ScriptProgress.v
Text.v
Async.v
Joins.v
AsyncProps.v
Borrow.v
AsyncFns.v
Programs.v
ProgramProps.v
Output.v
Seen.v
History.v
Recorded.v
Transcript.v
Prompt.v
ProgramOutput.v
Sleepers.v
Monitor.v
Critical.v
Threads.v
ThreadProps.v
WebServer.v
RouteProps.v
ServerProps.v
ServerHistory.v
Handlers.v
Console.v
ReactorTests.v
FutureTests.v
TaskTests.v
UnitTests.v
DocTests.v
EventThreads.v
DocProps.v
MutexData.v
ProgramTests.v
SleepRuns.v
BorrowTests.v
ServerTests.v
UnitRuns.v
DocRuns.v
MutexRuns.v
ThreadRuns.v
