(* ===== verification/Prelude.v ===== *)
(** * trale: an executor and its futures on io_uring

    This library models trale, a small asynchronous runtime with an executor per thread, in
    Rust, and proves what makes it correct: its reactor keeps the completions
    of one I/O handle apart from those of the others, its executor loses no task
    and returns, its mutex is exclusive, and its futures ask the kernel for what their
    documentation says and answer what the kernel said.  The six programs under
    src/examples/ are modelled too, and run by the modelled executor.  Where the code
    does not do what it means to, the theorem states what it does.

    ** The program, and where it is modelled

    A thread has a _reactor_ (src/src/reactor/) and an _executor_ (src/src/task.rs).
    A task is a future; when it awaits an operation, the future polls an I/O
    handle, which puts a submission in the ring of the reactor, with the waker
    of the task, and answers [Pending]; the executor parks the task in a slab.
    When no task can run the executor calls [Reactor::react], which waits for
    the kernel, stores each completion in the slot of its operation, and wakes
    the task; its next poll finds the result in the slot.

    - Results.v: reactor/uring/result.rs, the two stores of results (modules
      [OneshotStore], [MultishotStore], [RingResults]).
    - Reactor.v: reactor/uring.rs and reactor/mod.rs: the record [ReactorInner],
      [submit_io], [react], the completion iterator [next], and the loop
      [for_each] of [Reactor::react].
    - Io.v: reactor/uring/io/: the handles [Oneshot] and [Multishot], each a state
      with [submit_or_get_result] and the [Drop].
    - Task.v: task.rs: [spawn], the joiners, the wrapper of a task ([poll_task]),
      [wake], one round of the loop ([executor_round]), [executor_loop], [run],
      [block_on], on the state [world] of a thread.
    - Threads.v: several threads of one process.  [Proc] has a [world] for each thread, and one system;
      [step] is one call, one poll of a future of the library, the start or the end of the
      poll of a task, or a wake from another thread; [steps] interleaves them in any order, [act] and [acts]
      compute a schedule.  A round, or a call of [run], that nothing interrupts
      is a sequence of steps ([round_steps], [run_steps]).
    - Event.v, Timer.v, ReadWrite.v, Fs.v, SockAddr.v, Tcp.v, Udp.v, Mutex.v: the file of
      src/src/futures/ with this name (ReadWrite.v: read.rs and write.rs, with the traits
      [AsyncRead] and [AsyncWrite] as classes that files and streams implement; Mutex.v
      also has the protocol between the holders of a mutex).
    - Sqe.v: the submissions the futures build, with the memory they point to.
    - Programs.v: examples/timer.rs, sub_tasks.rs, udp.rs, tcp.rs and tcp_serv.rs
      (modules [TimerExample], [SubTasks], [UdpExample], [TcpExample], [TcpServ]).
      WebServer.v: examples/web_server.rs.  UnitTests.v: the unit tests of
      event.rs, mutex.rs, timer.rs, udp.rs and fs.rs.  DocTests.v: the examples
      in the documentation of lib.rs, task.rs and the futures, which rustdoc tests.
    - Borrow.v: the two thread-locals again, with the borrow flag of each
      [RefCell] and each [borrow] and [borrow_mut] of the source.

    A method [f] of the type [T] is [T.f] or, where there is one type, [f].  What
    the source mutates is passed and returned; the thread-locals and the
    system are arguments.  An [async fn] is the type of its suspension points with
    a [poll] and a [drop] ([Mutex.lock_state], [Connect.state]).  A function that can panic or block
    answers an [outcome] (below): a value, a panic with its cause, [Hang] when it
    blocks for ever, or [NoFuel].  Integers are in [Z], each [as] cast written as
    [as_u] or [as_s] of its width.

    The [async] blocks of the programs are interaction trees (Async.v): [Await] is an [.await]
    of a future of the library, [Call] a call of it, [Crash] a panic.  [poll_body]
    polls a tree in a [world]; [poll_block], over the code a program can spawn, is the
    function the executor polls its tasks with, so a program is its blocks and a
    [main] that calls [spawn], [run] and [block_on] of Task.v.  AsyncFns.v has [Mutex::lock] and
    [TcpStream::connect] in this form also, and the two forms are the same.

    ** What is not under src/

    The crates are interfaces (Crates.v): [Slab], [RingBuffer] and [IoUring] are the calls,
    [SlabSpec], [RingBufferSpec] and [IoUringSpec] their documented behaviour on
    a view of their state; for io_uring the view is the queue, the requests in
    flight and the completions, and [kstep] is what the kernel may do.  Libc.v
    does the same for the system calls (on the table of descriptors),
    Bytes.v for the byte order.  For the programs, [Process] (Async.v) is the rest of the process:
    what it prints, its shared objects, what a read leaves in its buffer,
    [UdpSocket::bind], [Instant::now]; [Anyhow] (Programs.v) makes errors of the crate
    anyhow; [Output] (Output.v) says what a program has printed.  Text.v has the text routines of the
    standard library the programs call (UTF-8, [split], [trim], [strip_prefix],
    [join], formatting).  All theorems hold for all
    implementations of the interfaces; CrateModels.v, LibcModel.v and Console.v have executable ones, on
    which the tests of the repository and the witnesses run.

    ** What the theorems show

    - The reactor.  Mailbox.v is its specification: a mailbox per handle.
      Refinement.v (the invariant), RefineOps.v (each operation keeps it) and System.v (the
      operations as one system) prove that the code implements it; RingFacts.v is the
      discipline of the user data.  ReactorProps.v: every run is a run of the
      specification, no call hits a missing or foreign slot, user data is
      unique, nothing is kept for nobody, one call of [react] processes all the completions.
      ReactorLimits.v: how many operations fit, the closure runs once, the
      pending entries of multishot operations are kept for ever, dropping a multishot handle may
      panic.  Results.v: the life of a slot in the stores.
    - The futures.  Futures.v is the interface between the reactor and a
      future built on a oneshot handle ([UringFuture], [UringFutureSpec]), and its theory: such a
      future follows the mailbox of its handle.  Each future has an instance,
      and theorems on what it submits and answers on every branch,
      errors included.  FuturesProps.v: the memory the operations point into, and the operations
      of dropped futures.  SockAddr.v: the layout of addresses, and the
      round trip.
    - The mutex.  [mstep] is the protocol, with the notification
      in exactly one place; [lock_implements] says [Mutex::lock] follows it.
    - The executor.  TaskProps.v: the invariant [wf], each task in exactly one
      place.  TaskLoop.v and ExecutorProps.v: when the loop returns every task
      is over and [block_on] has a value of its future, for any safe futures ([user_safe]).
      Progress.v: the loop does return, and nothing panics, for
      futures of the contract [Behaved] (they await one operation at a time),
      a kernel that completes operations ([KernelLive]) and a process
      below its limits ([Roomy]).  Awaits.v: what awaiting one operation does.
      Script.v and ScriptProgress.v: a language of tasks that keep these contracts.
      Sleepers.v: so do the blocks that sleep and print, if the clock moves slowly
      while a task runs ([SlowClock]); so timer.rs returns.
    - Blocks.  AsyncProps.v: the traces of a block ([trace], [halts]: the answers it
      got and how it ended), the rules that compute them, and that polling a block
      is safe for the executor and follows its trace.  Joins.v: a joined value
      comes from the task's own future.
    - What a thread does over time.  Seen.v: the part of a trace that shows.  Output.v:
      what of the process is seen ([Quiet], [Output], [Memory]).  History.v: the [history]
      of a thread, poll by poll.  Recorded.v: at any time the history
      is that of its tasks, each along its text ([explains]).  Transcript.v: the same
      for [run], and for what was printed.  Monitor.v: a logic for what a block
      may do at each step ([keeps]).  Critical.v: what is done
      under a mutex is a sequence of critical sections.  Prompt.v: tasks that never wait.
    - Threads.  ThreadProps.v: in every interleaving the tables of each thread are well formed, the
      history of each thread is that of its own tasks, the output and the shared objects are
      what all threads together make them, an object behind a mutex is used in one
      critical section after the other, and a waker used on another thread does not wake its
      task.  EventThreads.v: notifications queue up, whichever thread they come from.
    - The borrows.  Borrow.v: no borrow of the library conflicts with
      another, and a waker that used the reactor would.
    - The programs.  ProgramProps.v: what the greeting tasks do, and the echo loop.
      ProgramOutput.v: the output of timer.rs and sub_tasks.rs.  RouteProps.v: the
      route of a request.  ServerProps.v: how a connection is read and answered, the
      length of a body, a client that leaves, what the accepting loop spawns.
      ServerHistory.v: the server at any time.  MutexData.v: the tests
      of mutex.rs pass in every order.  DocProps.v: what the examples of the documentation do.
    - ReactorTests.v, FutureTests.v, TaskTests.v, ProgramTests.v, ServerTests.v, BorrowTests.v, SleepRuns.v,
      UnitRuns.v, DocRuns.v, MutexRuns.v, ThreadRuns.v: the
      unit tests replayed, runs of the executor, the programs, the examples and
      connections of the server, and each theorem applied to a concrete state.
      Handlers.v runs a block alone, against a script of answers.

    ** Bounds and fuel

    Two loops of the source have no structural measure.  [for_each] (and so
    [react_exec] and [react_collect]) takes one unit of fuel per completion of a wait and one
    to see the end: more fuel than completions is enough ([for_each_ok]), and more
    than 1024 always is when no more than 1024 tasks live ([run_returns]).
    [executor_loop] takes one unit of [rounds] per poll of a task: the
    [work] of the futures is enough.  [poll_body] takes one unit of fuel per step of a
    block between two waits; the loops of the programs ([ITree.iter]) may run for ever and have no bound of their own.
    The theorems on results hold for any fuel, those on traces need none.
    The steps of threads have no bound; one that polls the reactor has the fuel of [for_each].
    A theorem on a mutex over time supposes that its event is a semaphore ([semaphore 1]):
    it gives out no more notifications than it was given, as the manual of eventfd says.

    ** What is not modelled

    What threads do within one step at the same time (a call, or a poll of one future of the library, is
    atomic); that other threads go on when one has panicked; that they
    all end, which would need what the kernel answers each read of an event (a thread whose task was woken
    elsewhere waits for ever); a thread of an example that is joined runs in
    one piece in DocTests.v ([TaskDocs.in_thread]), and interleaved in ThreadRuns.v; memory safety beyond which memory each operation
    points to; which bytes the kernel reads and writes (a parameter, [buffer_of]);
    [UdpSocket::bind], which only calls the standard library; the reference counts of [Arc];
    slab keys and descriptors beyond their machine width (keys
    are [nat]); logging and the parsing of the command line; what a panic
    unwinds (a panic ends the thread). *)
From stdpp Require Export prelude gmap strings list.
From Stdlib Require Export ZArith Lia.

#[export] Set Warnings "-clear-no-such-hyp,-level-tolerance".

(** ** Outcomes of running a piece of Rust code *)

Inductive panic :=
  | UnwrapNone            (* Option::unwrap on None *)
  | UnwrapErr             (* Result::unwrap / expect on Err *)
  | InvalidKey            (* slab: remove of a vacant key *)
  | IndexOutOfBounds      (* slice / Vec indexing *)
  | ArithOverflow         (* checked arithmetic *)
  | UnreachableCode       (* unreachable!() *)
  | Explicit (msg : string).

Inductive outcome (A : Type) :=
  | Ret (a : A)
  | Panic (p : panic)
  | Hang                  (* blocks forever *)
  | NoFuel.               (* the fuel of a loop was not enough *)
Arguments Ret {A} a.
Arguments Panic {A} p.
Arguments Hang {A}.
Arguments NoFuel {A}.

#[export] Instance outcome_ret : MRet outcome := fun A a => Ret a.
#[export] Instance outcome_bind : MBind outcome := fun A B f m =>
  match m with
  | Ret a => f a
  | Panic p => Panic p
  | Hang => Hang
  | NoFuel => NoFuel
  end.
#[export] Instance outcome_fmap : FMap outcome := fun A B f m =>
  match m with
  | Ret a => Ret (f a)
  | Panic p => Panic p
  | Hang => Hang
  | NoFuel => NoFuel
  end.

#[export] Instance panic_eq_dec : EqDecision panic.
Proof. solve_decision. Defined.
#[export] Instance outcome_eq_dec {A} `{EqDecision A} : EqDecision (outcome A).
Proof. solve_decision. Defined.

Lemma bind_Ret_iff {A B} (m : outcome A) (f : A -> outcome B) b :
  m ≫= f = Ret b <-> exists a, m = Ret a /\ f a = Ret b.
Proof. destruct m; cbn; split; naive_solver. Qed.

Lemma bind_assoc {A B C} (m : outcome A) (f : A -> outcome B) (g : B -> outcome C) :
  (m ≫= f) ≫= g = m ≫= (fun a => f a ≫= g).
Proof. by destruct m. Qed.

Lemma outcome_bind_ext {A B} (m1 m2 : outcome A) (f1 f2 : A -> outcome B) :
  m1 = m2 -> (forall a, f1 a = f2 a) -> m1 ≫= f1 = m2 ≫= f2.
Proof. intros ->. destruct m2; cbn; auto. Qed.

(** [returns m Q]: the code terminates normally with a value in [Q]. *)
Definition returns {A} (m : outcome A) (Q : A -> Prop) : Prop :=
  match m with Ret a => Q a | _ => False end.

Lemma returns_iff {A} (m : outcome A) Q :
  returns m Q <-> exists a, m = Ret a /\ Q a.
Proof. destruct m; cbn; naive_solver. Qed.

Lemma returns_bind {A B} (m : outcome A) (f : A -> outcome B) Q :
  returns m (fun a => returns (f a) Q) -> returns (m ≫= f) Q.
Proof. by destruct m. Qed.

Lemma returns_mono {A} (m : outcome A) (Q R : A -> Prop) :
  (forall a, Q a -> R a) -> returns m Q -> returns m R.
Proof. destruct m; cbn; naive_solver. Qed.

(** ** Rust's Option, Result and Poll *)

Inductive result (A E : Type) := Ok (a : A) | Err (e : E).
Arguments Ok {A E} a.
Arguments Err {A E} e.

#[export] Instance result_eq_dec {A E} `{EqDecision A, EqDecision E} :
  EqDecision (result A E).
Proof. solve_decision. Defined.

Definition result_map {A B E} (f : A -> B) (r : result A E) : result B E :=
  match r with Ok a => Ok (f a) | Err e => Err e end.

Definition unwrap {A} (o : option A) : outcome A :=
  match o with Some a => Ret a | None => Panic UnwrapNone end.

Definition unwrap_result {A E} (r : result A E) : outcome A :=
  match r with Ok a => Ret a | Err _ => Panic UnwrapErr end.

Inductive poll (A : Type) := Ready (a : A) | Pending.
Arguments Ready {A} a.
Arguments Pending {A}.

#[export] Instance poll_eq_dec {A} `{EqDecision A} : EqDecision (poll A).
Proof. solve_decision. Defined.

Definition poll_map {A B} (f : A -> B) (p : poll A) : poll B :=
  match p with Ready a => Ready (f a) | Pending => Pending end.

(** [std::io::Error]: an errno or one of the kinds the code builds. *)
Inductive error_kind := NotFound | InvalidData | InvalidInput | UnexpectedEof.
Inductive io_error :=
  | OsError (errno : Z)
  | KindError (k : error_kind).

#[export] Instance error_kind_eq_dec : EqDecision error_kind.
Proof. solve_decision. Defined.
#[export] Instance io_error_eq_dec : EqDecision io_error.
Proof. solve_decision. Defined.

Abbreviation io_result A := (result A io_error).

(** ** Machine integers: values in [Z], casts written out *)
Open Scope Z_scope.

Definition u16_max : Z := 2 ^ 16 - 1.
Definition u32_max : Z := 2 ^ 32 - 1.
Definition u64_max : Z := 2 ^ 64 - 1.
Definition i32_min : Z := - 2 ^ 31.

Definition is_u (w z : Z) : Prop := 0 <= z < 2 ^ w.
Definition is_s (w z : Z) : Prop := - 2 ^ (w - 1) <= z < 2 ^ (w - 1).

(** [x as uN] and [x as iN]: reduction modulo 2^N into the target range. *)
Definition as_u (w z : Z) : Z := z mod 2 ^ w.
Definition as_s (w z : Z) : Z := (z + 2 ^ (w - 1)) mod 2 ^ w - 2 ^ (w - 1).

Lemma as_u_id w z : is_u w z -> as_u w z = z.
Proof. unfold is_u, as_u. intros. by apply Z.mod_small. Qed.

Lemma as_u_range w z : 0 <= w -> is_u w (as_u w z).
Proof. unfold is_u, as_u. intros. apply Z.mod_pos_bound. lia. Qed.

Lemma as_s_id w z : 0 < w -> is_s w z -> as_s w z = z.
Proof.
  unfold is_s, as_s. intros Hw Hz.
  assert (2 ^ w = 2 * 2 ^ (w - 1)) as E
    by (rewrite <- Z.pow_succ_r by lia; f_equal; lia).
  rewrite Z.mod_small; lia.
Qed.

Lemma as_s_range w z : 0 < w -> is_s w (as_s w z).
Proof.
  unfold is_s, as_s. intros Hw.
  assert (2 ^ w = 2 * 2 ^ (w - 1)) as E
    by (rewrite <- Z.pow_succ_r by lia; f_equal; lia).
  pose proof (Z.mod_pos_bound (z + 2 ^ (w - 1)) (2 ^ w)). lia.
Qed.

Close Scope Z_scope.

(** ** Lists: the last [n] elements *)
Definition lastn {A} (n : nat) (l : list A) : list A := drop (length l - n) l.

Arguments lastn : simpl never.

Lemma length_lastn {A} n (l : list A) : length (lastn n l) = min n (length l).
Proof. unfold lastn. rewrite length_drop. lia. Qed.

Lemma lastn_all {A} n (l : list A) : length l <= n -> lastn n l = l.
Proof. intros. unfold lastn. replace (length l - n) with 0 by lia. done. Qed.

Lemma tail_drop {A} n (l : list A) : tail (drop n l) = drop (S n) l.
Proof. revert n. induction l as [|x l IH]; intros [|n]; cbn; auto. Qed.

(** Appending to a bounded queue that forgets its oldest element. *)
Lemma lastn_snoc {A} n (l : list A) x :
  0 < n ->
  lastn n (l ++ [x]) =
    (if decide (length (lastn n l) < n) then lastn n l else tail (lastn n l)) ++ [x].
Proof.
  intros Hn. rewrite length_lastn. unfold lastn at 1. rewrite length_app. cbn.
  case_decide.
  - rewrite lastn_all by lia. replace (length l + 1 - n) with 0 by lia. done.
  - unfold lastn. rewrite tail_drop, drop_app_le by lia.
    by replace (length l + 1 - n) with (S (length l - n)) by lia.
Qed.

(** ** Automation *)

(** Take apart [m ≫= f = Ret b] hypotheses. *)
Ltac inv_bind :=
  repeat match goal with
  | H : _ ≫= _ = Ret _ |- _ =>
      apply bind_Ret_iff in H;
      let a := fresh "a" in let Ha := fresh "H" a in
      destruct H as (a & Ha & H)
  | H : Ret _ = Ret _ |- _ => injection H as H; try subst
  | H : mret _ = Ret _ |- _ => injection H as H; try subst
  end.

Create HintDb trale.
(** Values in the range of a machine integer. *)
Ltac in_range := unfold is_u, is_s in *; lia.

#[export] Hint Resolve as_u_id as_u_range as_s_id as_s_range : trale.
#[export] Hint Extern 1 (is_u _ _) => in_range : trale.
#[export] Hint Extern 1 (is_s _ _) => in_range : trale.
