(* ===== verification/Bytes.v ===== *)
(** Integers as sequences of bytes, in the two byte orders and in that of the
    host ([to_ne_bytes], [to_be_bytes] and their inverses). *)
From S2P Require Import Prelude.

Open Scope Z_scope.

Fixpoint le_bytes (n : nat) (v : Z) : list Z :=
  match n with
  | O => []
  | S n => v mod 256 :: le_bytes n (v / 256)
  end.

Fixpoint le_value (l : list Z) : Z :=
  match l with
  | [] => 0
  | b :: l => b + 256 * le_value l
  end.

Definition be_bytes (n : nat) (v : Z) : list Z := rev (le_bytes n v).
Definition be_value (l : list Z) : Z := le_value (rev l).

Lemma length_le_bytes n v : length (le_bytes n v) = n.
Proof. revert v. induction n as [|n IH]; intros v; cbn; [done|]. by rewrite IH. Qed.

Lemma length_be_bytes n v : length (be_bytes n v) = n.
Proof. unfold be_bytes. by rewrite length_rev, length_le_bytes. Qed.

Lemma le_value_bytes n v : 0 <= v < 256 ^ Z.of_nat n -> le_value (le_bytes n v) = v.
Proof.
  revert v. induction n as [|n IH]; intros v Hv; cbn [le_bytes le_value].
  - cbn in Hv. lia.
  - rewrite Nat2Z.inj_succ, Z.pow_succ_r in Hv by lia. rewrite IH.
    + pose proof (Z.div_mod v 256). lia.
    + split; [apply Z.div_pos; lia|]. apply Z.div_lt_upper_bound; lia.
Qed.

Lemma be_value_bytes n v : 0 <= v < 256 ^ Z.of_nat n -> be_value (be_bytes n v) = v.
Proof. unfold be_value, be_bytes. rewrite rev_involutive. apply le_value_bytes. Qed.

(** The native representation of an unsigned integer. *)
Class Host := host_big_endian : bool.

Section native.
Context `{Host}.

Definition ne_bytes (n : nat) (v : Z) : list Z :=
  if host_big_endian then be_bytes n v else le_bytes n v.
Definition ne_value (l : list Z) : Z :=
  if host_big_endian then be_value l else le_value l.

Lemma length_ne_bytes n v : length (ne_bytes n v) = n.
Proof. unfold ne_bytes. case_match; [apply length_be_bytes|apply length_le_bytes]. Qed.

Lemma ne_value_bytes n v : 0 <= v < 256 ^ Z.of_nat n -> ne_value (ne_bytes n v) = v.
Proof.
  unfold ne_bytes, ne_value. case_match; [apply be_value_bytes|apply le_value_bytes].
Qed.

Lemma ne_bytes_cases n v : ne_bytes n v = be_bytes n v \/ ne_bytes n v = le_bytes n v.
Proof. unfold ne_bytes. case_match; auto. Qed.
End native.

(** Exchanging the byte orders. *)
Definition swap (n : nat) (v : Z) : Z := le_value (be_bytes n v).

Definition is_byte (b : Z) : Prop := 0 <= b < 256.

Lemma Forall_le_bytes n v : Forall is_byte (le_bytes n v).
Proof.
  revert v. induction n as [|n IH]; intros v; cbn [le_bytes]; constructor; [|done].
  unfold is_byte. apply Z.mod_pos_bound. lia.
Qed.

Lemma le_value_range l : Forall is_byte l -> 0 <= le_value l < 256 ^ Z.of_nat (length l).
Proof.
  induction 1 as [|b l Hb _ IH]; cbn [le_value length]; [done|].
  rewrite Nat2Z.inj_succ, Z.pow_succ_r by lia. unfold is_byte in Hb. nia.
Qed.

Lemma le_bytes_value l : Forall is_byte l -> le_bytes (length l) (le_value l) = l.
Proof.
  induction 1 as [|b l Hb Hl IH]; cbn [le_value length le_bytes]; [done|]. unfold is_byte in Hb.
  rewrite (Z.mul_comm 256), Z.mod_add, Z.div_add, Z.mod_small, Z.div_small by lia.
  by rewrite Z.add_0_l, IH.
Qed.

Lemma Forall_be_bytes n v : Forall is_byte (be_bytes n v).
Proof.
  unfold be_bytes. apply Forall_rev, Forall_le_bytes.
Qed.

Lemma le_bytes_swap n v : le_bytes n (swap n v) = be_bytes n v.
Proof.
  unfold swap. rewrite <- (length_be_bytes n v) at 1. apply le_bytes_value, Forall_be_bytes.
Qed.

Lemma swap_range n v : 0 <= swap n v < 256 ^ Z.of_nat n.
Proof.
  unfold swap. pose proof (le_value_range _ (Forall_be_bytes n v)) as Hr.
  by rewrite length_be_bytes in Hr.
Qed.

Lemma swap_swap n v : 0 <= v < 256 ^ Z.of_nat n -> swap n (swap n v) = v.
Proof.
  intros Hv. unfold swap at 1, be_bytes at 1. rewrite le_bytes_swap.
  unfold be_bytes. rewrite rev_involutive. by apply le_value_bytes.
Qed.

Close Scope Z_scope.
