(* ===== verification/Crates.v ===== *)
(** Interfaces of the third-party crates the reactor and the executor are
    built on: [slab::Slab], [ringbuffer::ConstGenericRingBuffer] and
    [io_uring].  Each crate is an operational class (the calls the code
    makes) and a specification class (the documented behaviour the code
    relies on, stated on a view of the crate's state).  No definition of the
    crates' code is made up here: every theorem of the development is proved
    for all instances, and CrateModels.v gives one executable instance of
    each, so that the theorems can be applied to concrete runs. *)
From S2P Require Import Prelude.

(** ** [slab::Slab<A>] *)
Class Slab (S : Type -> Type) := {
  slab_new : forall {A}, S A;
  slab_insert : forall {A}, S A -> A -> nat * S A;
  slab_vacant_key : forall {A}, S A -> nat;          (* vacant_entry().key() *)
  slab_get : forall {A}, S A -> nat -> option A;     (* get / get_mut *)
  slab_put : forall {A}, S A -> nat -> A -> S A;     (* a write through get_mut *)
  slab_try_remove : forall {A}, S A -> nat -> option (A * S A);
  slab_is_empty : forall {A}, S A -> bool;
}.

(** The contents of a slab, as listed by its [iter]. *)
Class SlabSpec (S : Type -> Type) `{Slab S} := {
  slab_view : forall {A}, S A -> gmap nat A;
  slab_new_spec : forall A, slab_view (slab_new (A:=A)) = ∅;
  slab_insert_spec : forall A (s : S A) x k s',
    slab_insert s x = (k, s') ->
    slab_view s !! k = None /\ slab_view s' = <[k:=x]> (slab_view s);
  slab_vacant_key_spec : forall A (s : S A) x,
    (slab_insert s x).1 = slab_vacant_key s;
  slab_get_spec : forall A (s : S A) k, slab_get s k = slab_view s !! k;
  slab_put_spec : forall A (s : S A) k x y,
    slab_view s !! k = Some y -> slab_view (slab_put s k x) = <[k:=x]> (slab_view s);
  slab_try_remove_some : forall A (s : S A) k x s',
    slab_try_remove s k = Some (x, s') ->
    slab_view s !! k = Some x /\ slab_view s' = delete k (slab_view s);
  slab_try_remove_none : forall A (s : S A) k,
    slab_try_remove s k = None <-> slab_view s !! k = None;
  slab_is_empty_spec : forall A (s : S A), slab_is_empty s = true <-> slab_view s = ∅;
}.

(** [Slab::remove] panics on a vacant key. *)
Definition slab_remove {S} `{Slab S} {A} (s : S A) (k : nat) : outcome (A * S A) :=
  match slab_try_remove s k with
  | Some r => Ret r
  | None => Panic InvalidKey
  end.

Section slab_lemmas.
Context {S : Type -> Type} `{SlabSpec S} {A : Type}.
Implicit Types (s : S A) (k : nat).

Lemma slab_get_None s k : slab_get s k = None <-> slab_view s !! k = None.
Proof. by rewrite slab_get_spec. Qed.

Lemma slab_remove_returns s k x :
  slab_view s !! k = Some x ->
  exists s', slab_remove s k = Ret (x, s') /\ slab_view s' = delete k (slab_view s).
Proof.
  intros Hk. unfold slab_remove.
  destruct (slab_try_remove s k) as [[y s']|] eqn:E.
  - apply slab_try_remove_some in E as [E1 E2]. naive_solver congruence.
  - apply slab_try_remove_none in E. congruence.
Qed.

Lemma slab_remove_Ret s k x s' :
  slab_remove s k = Ret (x, s') ->
  slab_view s !! k = Some x /\ slab_view s' = delete k (slab_view s).
Proof.
  unfold slab_remove. intros E. apply slab_try_remove_some.
  destruct (slab_try_remove s k); congruence.
Qed.

Lemma slab_try_remove_is_some s k x :
  slab_view s !! k = Some x ->
  exists s', slab_try_remove s k = Some (x, s') /\
             slab_view s' = delete k (slab_view s).
Proof.
  intros Hk. destruct (slab_try_remove s k) as [[y s']|] eqn:E.
  - apply slab_try_remove_some in E as [E1 E2]. naive_solver congruence.
  - apply slab_try_remove_none in E. congruence.
Qed.
End slab_lemmas.

(** ** [ringbuffer::ConstGenericRingBuffer<i32, CAP>] *)
Class RingBuffer (B : Type) := {
  rb_new : nat -> B;
  rb_push : B -> Z -> B;
  rb_dequeue : B -> option Z * B;
}.

(** [push] on a full buffer overwrites the oldest element. *)
Class RingBufferSpec (B : Type) `{RingBuffer B} := {
  rb_view : B -> list Z;
  rb_cap : B -> nat;
  rb_new_spec : forall n, rb_view (rb_new n) = [] /\ rb_cap (rb_new n) = n;
  rb_push_spec : forall b z,
    rb_view (rb_push b z) =
      (if decide (length (rb_view b) < rb_cap b)
       then rb_view b else tail (rb_view b)) ++ [z] /\
    rb_cap (rb_push b z) = rb_cap b;
  rb_dequeue_spec : forall b,
    (rb_dequeue b).1 = head (rb_view b) /\
    rb_view (rb_dequeue b).2 = tail (rb_view b) /\
    rb_cap (rb_dequeue b).2 = rb_cap b;
}.

(** ** [io_uring::IoUring] and the kernel behind it *)

(** A completion queue entry: [user_data()], [result()] and [flags()]. *)
Record cqe := Cqe { cqe_user_data : nat; cqe_result : Z; cqe_flags : Z }.

Inductive wait_result (U : Type) :=
  | WaitOk (u : U)
  | WaitErr (e : io_error)
  | WaitForever.            (* nothing ever completes *)
Arguments WaitOk {U} u.
Arguments WaitErr {U} e.
Arguments WaitForever {U}.

Class IoUring (U Entry : Type) := {
  uring_new : nat -> option U;
  (* submission().push(&entry.user_data(ud)); [None] is PushError *)
  sq_push : U -> Entry -> nat -> option U;
  submit_and_wait : U -> nat -> wait_result U;
  (* completion(): take a snapshot of the tail of the completion queue *)
  completion : U -> U;
  cq_next : U -> option (cqe * U);
  cq_more : Z -> bool;              (* cqueue::more(flags) *)
  (* submitter().register_sync_cancel(None, user_data(ud)) *)
  register_sync_cancel : U -> nat -> option U;
}.

(** What can be said of a ring from outside: the requests queued for
    submission, the requests the kernel works on (each with the user data it
    was given and whether its opcode may post several completions), and the
    completions not consumed yet. *)
Record ring_view := RingView {
  rv_sq : list (nat * bool);
  rv_fly : list (nat * bool);
  rv_cq : list cqe;
}.

Definition rv_empty : ring_view := RingView [] [] [].
Definition rv_push (r : nat * bool) (v : ring_view) : ring_view :=
  RingView (rv_sq v ++ [r]) (rv_fly v) (rv_cq v).
Definition rv_submit (v : ring_view) : ring_view :=
  RingView [] (rv_fly v ++ rv_sq v) (rv_cq v).

Section kernel.
Context (more : Z -> bool).

(** One step of the kernel: it posts the last completion of a request, or
    one more completion of a multishot request that stays in flight. *)
Inductive kstep : ring_view -> ring_view -> Prop :=
  | kstep_final sq f1 ud b f2 cq res fl :
      more fl = false -> is_s 32 res ->
      kstep (RingView sq (f1 ++ (ud, b) :: f2) cq)
            (RingView sq (f1 ++ f2) (cq ++ [Cqe ud res fl]))
  | kstep_more sq fly ud cq res fl :
      more fl = true -> is_s 32 res -> (ud, true) ∈ fly ->
      kstep (RingView sq fly cq) (RingView sq fly (cq ++ [Cqe ud res fl])).

(** An invariant of kernel steps holds after any number of them. *)
Lemma kstep_rtc_ind (P : ring_view -> Prop) v v' :
  (forall a b, kstep a b -> P a -> P b) -> rtc kstep v v' -> P v -> P v'.
Proof. intros HP. induction 1; eauto. Qed.

Lemma kstep_fly_sub v v' : rtc kstep v v' -> forall r, r ∈ rv_fly v' -> r ∈ rv_fly v.
Proof.
  induction 1 as [|a b c Hab _ IH]; [done|]. intros r Hr. specialize (IH r Hr).
  destruct Hab; cbn in *; set_solver.
Qed.

Lemma kstep_sq v v' : rtc kstep v v' -> rv_sq v' = rv_sq v.
Proof. induction 1 as [|a b c Hab _ IH]; [done|]. rewrite IH. by destruct Hab. Qed.

(** The kernel posts completions and takes none back. *)
Lemma kstep_posted v v' : rtc kstep v v' -> length (rv_cq v) <= length (rv_cq v').
Proof.
  induction 1 as [|? ? ? Hab _ IH]; [done|]. destruct Hab; cbn in *; rewrite length_app in IH; lia.
Qed.

(** Completions come only from requests in flight. *)
Lemma kstep_quiet v v' : rtc kstep v v' -> rv_fly v = [] -> v' = v.
Proof.
  induction 1 as [|a b c Hab _ IH]; [done|]. intros Hf.
  destruct Hab as [sq f1 ud ? f2|sq fly]; cbn in Hf; [by destruct f1|set_solver].
Qed.
End kernel.

Class IoUringSpec (U Entry : Type) `{IoUring U Entry} := {
  entry_multishot : Entry -> bool;
  uring_view : U -> ring_view;
  uring_cap : U -> nat;
  (* the number of entries is rounded up to a power of two *)
  uring_new_spec : forall k u,
    uring_new (2 ^ k) = Some u -> uring_view u = rv_empty /\ uring_cap u = 2 ^ k;
  sq_push_some : forall u e ud u',
    sq_push u e ud = Some u' ->
    uring_view u' = rv_push (ud, entry_multishot e) (uring_view u) /\
    uring_cap u' = uring_cap u;
  sq_push_none : forall u e ud,
    sq_push u e ud = None <-> uring_cap u <= length (rv_sq (uring_view u));
  (* io_uring_enter: submits the queue, returns once [n] completions are there *)
  submit_and_wait_ok : forall u n u',
    submit_and_wait u n = WaitOk u' ->
    rtc (kstep cq_more) (rv_submit (uring_view u)) (uring_view u') /\
    n <= length (rv_cq (uring_view u')) /\ uring_cap u' = uring_cap u;
  completion_spec : forall u,
    rtc (kstep cq_more) (uring_view u) (uring_view (completion u)) /\
    uring_cap (completion u) = uring_cap u;
  cq_next_none : forall u, cq_next u = None <-> rv_cq (uring_view u) = [];
  cq_next_some : forall u c u',
    cq_next u = Some (c, u') ->
    rv_cq (uring_view u) = c :: rv_cq (uring_view u') /\
    rv_sq (uring_view u') = rv_sq (uring_view u) /\
    rv_fly (uring_view u') = rv_fly (uring_view u) /\ uring_cap u' = uring_cap u;
  (* a synchronous cancel succeeds on a request the kernel still works on,
     and returns once that request is over; it fails with ENOENT otherwise *)
  register_sync_cancel_some : forall u ud u',
    register_sync_cancel u ud = Some u' ->
    ud ∈ (rv_fly (uring_view u)).*1 /\
    rtc (kstep cq_more) (uring_view u) (uring_view u') /\
    ud ∉ (rv_fly (uring_view u')).*1 /\ uring_cap u' = uring_cap u;
  (* ... or on one that finished between two calls *)
  register_sync_cancel_none : forall u ud,
    register_sync_cancel u ud = None ->
    exists v, rtc (kstep cq_more) (uring_view u) v /\ ud ∉ (rv_fly v).*1;
}.

Section uring_lemmas.
Context `{IoUringSpec U Entry}.

Lemma sq_push_room u e ud :
  length (rv_sq (uring_view u)) < uring_cap u -> is_Some (sq_push u e ud).
Proof.
  intros Hlt. destruct (sq_push u e ud) as [?|] eqn:E; [by eexists|].
  apply sq_push_none in E. lia.
Qed.

(** A request the kernel does not work on cannot be cancelled. *)
Lemma cancel_not_in_flight u ud :
  ud ∉ (rv_fly (uring_view u)).*1 -> register_sync_cancel u ud = None.
Proof.
  intros Hn. destruct (register_sync_cancel u ud) as [u'|] eqn:E; [|done].
  apply register_sync_cancel_some in E. naive_solver.
Qed.

(** With nothing queued, in flight or completed there is nothing to wait for. *)
Lemma submit_and_wait_idle u n u' :
  uring_view u = rv_empty -> submit_and_wait u (S n) <> WaitOk u'.
Proof.
  intros Hv E. apply submit_and_wait_ok in E as (Hk & Hn & _).
  rewrite Hv in Hk. apply kstep_quiet in Hk; [|done]. rewrite Hk in Hn. cbn in Hn. lia.
Qed.
End uring_lemmas.
