(* ===== verification/CrateModels.v ===== *)
(** One executable instance of each interface of Crates.v, with its laws.
    They are not models of the crates' code: they show that the interfaces
    can be implemented, and let the witnesses and the replayed unit tests of
    the repository run by evaluation. *)
From S2P Require Import Prelude Crates.

(** ** A slab: a finite map, inserting at the lowest vacant key *)
Definition gslab (A : Type) := gmap nat A.

Fixpoint lowest_vacant {A} (m : gmap nat A) (fuel k : nat) : nat :=
  match fuel with
  | O => fresh (dom m)
  | S fuel => match m !! k with None => k | Some _ => lowest_vacant m fuel (S k) end
  end.

Lemma lowest_vacant_spec {A} (m : gmap nat A) fuel k :
  m !! lowest_vacant m fuel k = None.
Proof.
  revert k. induction fuel as [|fuel IH]; intros k; cbn.
  - apply not_elem_of_dom, is_fresh.
  - destruct (m !! k) eqn:E; auto.
Qed.

Definition gslab_key {A} (m : gmap nat A) : nat := lowest_vacant m (S (size m)) 0.

#[export] Instance gslab_slab : Slab gslab := {
  slab_new A := (∅ : gmap nat A);
  slab_insert A m x := let k := gslab_key m in (k, <[k:=x]> (m : gmap nat A));
  slab_vacant_key A m := gslab_key m;
  slab_get A m k := (m : gmap nat A) !! k;
  slab_put A m k x := <[k:=x]> (m : gmap nat A);
  slab_try_remove A m k :=
    match (m : gmap nat A) !! k with
    | Some x => Some (x, delete k (m : gmap nat A))
    | None => None
    end;
  slab_is_empty A m := size (m : gmap nat A) =? 0;
}.

#[export] Instance gslab_spec : SlabSpec gslab.
Proof.
  refine {| slab_view A (m : gslab A) := (m : gmap nat A) |}; cbn.
  - done.
  - intros A s x k s' [= <- <-]. split; [exact (lowest_vacant_spec s (S (size s)) 0)|done].
  - done.
  - done.
  - done.
  - intros A s k x s'. case_match; naive_solver.
  - intros A s k. case_match; naive_solver.
  - intros A s. rewrite Nat.eqb_eq. apply map_size_empty_iff.
Defined.

(** ** A ring buffer: its capacity and the list of its elements *)
Definition lring := (nat * list Z)%type.

#[export] Instance lring_ring : RingBuffer lring := {
  rb_new n := (n, []);
  rb_push b z :=
    (b.1, (if decide (length b.2 < b.1) then b.2 else tail b.2) ++ [z]);
  rb_dequeue b := (head b.2, (b.1, tail b.2));
}.

#[export] Instance lring_spec : RingBufferSpec lring.
Proof. by refine {| rb_view := snd; rb_cap := fst |}. Defined.

(** ** A ring driven by a script

    Each [submit_and_wait] plays the next round of the script: the
    completions [(user_data, result, more)] the kernel posts. *)
Class Multishot (Entry : Type) := is_multishot : Entry -> bool.

Class KernelScript := kernel_script : list (list (nat * Z * bool)).

Record sring := SRing {
  sr_view : ring_view;
  sr_cap : nat;
  sr_script : list (list (nat * Z * bool));
}.

Fixpoint take_flight (ud : nat) (f : list (nat * bool)) : option (list (nat * bool)) :=
  match f with
  | [] => None
  | r :: f => if decide (r.1 = ud) then Some f else (r ::.) <$> take_flight ud f
  end.

Definition kernel_act (v : ring_view) (a : nat * Z * bool) : ring_view :=
  let '(ud, res, more) := a in
  let c := Cqe ud (as_s 32 res) (if more then 2 else 0)%Z in
  if more : bool then
    if decide ((ud, true) ∈ rv_fly v)
    then RingView (rv_sq v) (rv_fly v) (rv_cq v ++ [c]) else v
  else
    match take_flight ud (rv_fly v) with
    | Some f => RingView (rv_sq v) f (rv_cq v ++ [c])
    | None => v
    end.

Definition cancel_all (v : ring_view) (ud : nat) : ring_view :=
  Nat.iter (length (rv_fly v)) (fun v => kernel_act v (ud, -125, false)%Z) v.

#[export] Instance sring_uring {Entry} `{Multishot Entry} `{KernelScript} :
    IoUring sring Entry := {
  uring_new n := Some (SRing rv_empty n kernel_script);
  sq_push u e ud :=
    if decide (length (rv_sq (sr_view u)) < sr_cap u)
    then Some (SRing (rv_push (ud, is_multishot e) (sr_view u)) (sr_cap u) (sr_script u))
    else None;
  submit_and_wait u n :=
    let v := foldl kernel_act (rv_submit (sr_view u)) (default [] (head (sr_script u))) in
    if decide (n <= length (rv_cq v))
    then WaitOk (SRing v (sr_cap u) (tail (sr_script u))) else WaitForever;
  completion u := u;
  cq_next u :=
    match rv_cq (sr_view u) with
    | [] => None
    | c :: cq => Some (c, SRing (RingView (rv_sq (sr_view u)) (rv_fly (sr_view u)) cq)
                                (sr_cap u) (sr_script u))
    end;
  cq_more fl := Z.testbit fl 1;
  register_sync_cancel u ud :=
    if decide (ud ∈ (rv_fly (sr_view u)).*1)
    then Some (SRing (cancel_all (sr_view u) ud) (sr_cap u) (sr_script u)) else None;
}.

Abbreviation smore := (fun fl : Z => Z.testbit fl 1).

Lemma take_flight_some ud f f' :
  take_flight ud f = Some f' ->
  exists f1 b f2, f = f1 ++ (ud, b) :: f2 /\ f' = f1 ++ f2.
Proof.
  revert f'. induction f as [|[ud' b] f IH]; intros f' E; cbn in E; [done|].
  case_decide as D; cbn in D.
  - simplify_eq. by exists [], b, f'.
  - destruct (take_flight ud f) as [g|]; cbn in E; [|done]. simplify_eq.
    destruct (IH g eq_refl) as (f1 & b' & f2 & -> & ->).
    by exists ((ud', b) :: f1), b', f2.
Qed.

Lemma take_flight_none ud f : take_flight ud f = None <-> ud ∉ f.*1.
Proof.
  induction f as [|[ud' b] f IH]; cbn; [set_solver|].
  case_decide as D; cbn in D; [set_solver|].
  destruct (take_flight ud f); cbn; set_solver.
Qed.

Lemma kernel_act_kstep v a : rtc (kstep smore) v (kernel_act v a).
Proof.
  destruct a as [[ud res] more], v as [sq fly cq]. unfold kernel_act. cbn.
  assert (is_s 32 (as_s 32 res)) by (apply as_s_range; lia).
  destruct more.
  - case_decide; [|done]. apply rtc_once. by apply kstep_more.
  - destruct (take_flight ud fly) as [f|] eqn:E; [|done].
    apply take_flight_some in E as (f1 & b & f2 & -> & ->).
    apply rtc_once. by apply kstep_final.
Qed.

Lemma kernel_acts_kstep l v : rtc (kstep smore) v (foldl kernel_act v l).
Proof.
  revert v. induction l as [|a l IH]; intros v; cbn; [done|].
  etrans; [apply kernel_act_kstep|apply IH].
Qed.

Lemma cancel_iter_kstep n v ud :
  rtc (kstep smore) v (Nat.iter n (fun v => kernel_act v (ud, -125, false)%Z) v).
Proof.
  induction n as [|n IH]; cbn [Nat.iter]; [done|].
  etrans; [apply IH|apply kernel_act_kstep].
Qed.

Lemma cancel_iter_fly n v ud :
  length (rv_fly v) <= n ->
  ud ∉ (rv_fly (Nat.iter n (fun v => kernel_act v (ud, -125, false)%Z) v)).*1.
Proof.
  revert v. induction n as [|n IH]; intros v Hn.
  - destruct v as [sq [|] cq]; cbn in *; [set_solver|lia].
  - rewrite Nat.iter_succ_r. destruct (take_flight ud (rv_fly v)) as [f|] eqn:E.
    + apply IH. unfold kernel_act. rewrite E.
      apply take_flight_some in E as (f1 & b & f2 & Ef & ->). rewrite Ef in Hn.
      rewrite length_app in Hn. cbn in *. rewrite length_app. lia.
    + replace (kernel_act v (ud, -125, false)%Z) with v
        by (unfold kernel_act; by rewrite E).
      apply take_flight_none in E. intros Hin. apply E.
      apply list_elem_of_fmap in Hin as (r & -> & Hr).
      apply list_elem_of_fmap. exists r. split; [done|].
      eapply kstep_fly_sub; [apply cancel_iter_kstep|exact Hr].
Qed.

#[export] Instance sring_spec {Entry} `{Multishot Entry} `{KernelScript} :
  IoUringSpec sring Entry.
Proof.
  refine {| entry_multishot := is_multishot; uring_view := sr_view; uring_cap := sr_cap |}.
  - intros k u [= <-]. done.
  - intros u e ud u'. cbn. case_decide; [|done]. by intros [= <-].
  - intros u e ud. cbn. case_decide; split; naive_solver lia.
  - intros u n u'. cbn. case_decide; [|done]. intros [= <-]. cbn.
    split; [apply kernel_acts_kstep|done].
  - done.
  - intros u. cbn. by destruct (rv_cq (sr_view u)).
  - intros u c u'. cbn. destruct (rv_cq (sr_view u)) eqn:E; [done|]. by intros [= <- <-].
  - intros u ud u'. cbn. case_decide; [|done]. intros [= <-]. cbn.
    split; [done|]. split; [apply cancel_iter_kstep|].
    split; [by apply cancel_iter_fly|done].
  - intros u ud. cbn. case_decide; [done|]. intros _. by exists (sr_view u).
Defined.

(** ** A ring whose kernel is quick: each wait completes every operation, with the value 1 *)
Record ering := ERing { er_view : ring_view; er_cap : nat }.

Definition complete_all (v : ring_view) : ring_view :=
  foldl kernel_act v ((fun r => (r.1, 1%Z, false)) <$> rv_fly v).

#[export] Instance ering_uring {Entry} `{Multishot Entry} : IoUring ering Entry | 100 := {
  uring_new n := Some (ERing rv_empty n);
  sq_push u e ud :=
    if decide (length (rv_sq (er_view u)) < er_cap u)
    then Some (ERing (rv_push (ud, is_multishot e) (er_view u)) (er_cap u)) else None;
  submit_and_wait u n :=
    let v := complete_all (rv_submit (er_view u)) in
    if decide (n <= length (rv_cq v)) then WaitOk (ERing v (er_cap u)) else WaitForever;
  completion u := u;
  cq_next u :=
    match rv_cq (er_view u) with
    | [] => None
    | c :: cq => Some (c, ERing (RingView (rv_sq (er_view u)) (rv_fly (er_view u)) cq) (er_cap u))
    end;
  cq_more fl := Z.testbit fl 1;
  register_sync_cancel u ud :=
    if decide (ud ∈ (rv_fly (er_view u)).*1)
    then Some (ERing (cancel_all (er_view u) ud) (er_cap u)) else None;
}.

#[export] Instance ering_spec {Entry} `{Multishot Entry} : IoUringSpec ering Entry | 100.
Proof.
  refine {| entry_multishot := is_multishot; uring_view := er_view; uring_cap := er_cap |}.
  - intros k u [= <-]. done.
  - intros u e ud u'. cbn. case_decide; [|done]. by intros [= <-].
  - intros u e ud. cbn. case_decide; split; naive_solver lia.
  - intros u n u'. cbn. case_decide; [|done]. intros [= <-]. cbn.
    split; [apply kernel_acts_kstep|done].
  - done.
  - intros u. cbn. by destruct (rv_cq (er_view u)).
  - intros u c u'. cbn. destruct (rv_cq (er_view u)) eqn:E; [done|]. by intros [= <- <-].
  - intros u ud u'. cbn. case_decide; [|done]. intros [= <-]. cbn.
    split; [done|]. split; [apply cancel_iter_kstep|].
    split; [by apply cancel_iter_fly|done].
  - intros u ud. cbn. case_decide; [done|]. intros _. by exists (er_view u).
Defined.

Lemma complete_all_posts v : rv_fly v <> [] -> 0 < length (rv_cq (complete_all v)).
Proof.
  unfold complete_all. destruct v as [sq [|[ud b] fly] cq]; [done|]. intros _.
  cbn [rv_fly fmap list_fmap foldl]. eapply Nat.lt_le_trans; [|eapply kstep_posted, kernel_acts_kstep].
  unfold kernel_act. cbn. rewrite decide_True by done. cbn. rewrite length_app. cbn. lia.
Qed.

(** All its completions have the value 1. *)
Lemma complete_all_ones v (P : cqe -> Prop) :
  (forall ud, P (Cqe ud 1 0)) -> Forall P (rv_cq v) -> Forall P (rv_cq (complete_all v)).
Proof.
  intros HP. unfold complete_all. generalize (rv_fly v) as l. intros l. revert v.
  induction l as [|[ud b] l IH]; intros v Hv; cbn; [done|]. apply IH. unfold kernel_act.
  destruct (take_flight ud (rv_fly v)); [|done]. cbn. apply Forall_app. split; [done|].
  constructor; [|done]. apply HP.
Qed.
