(* ===== verification/Results.v ===== *)
(** The result stores of the reactor: src/src/reactor/uring/result.rs.

    [OneshotStore] and [MultishotStore] keep, per submitted operation, the
    result(s) the kernel has posted until the I/O handle fetches or drops
    them.  Each operation is a total function into [outcome]: the panics of
    [unwrap], [Slab::remove] and [panic!] are values. *)
From S2P Require Import Prelude Crates.

Inductive ResultState :=
  | RsPending
  | RsSet (result : Z)
  | RsDropped.

#[export] Instance ResultState_eq_dec : EqDecision ResultState.
Proof. solve_decision. Defined.

Inductive MultishotResult :=
  | MrValue (v : Z)
  | MrPending
  | MrFinished.

#[export] Instance MultishotResult_eq_dec : EqDecision MultishotResult.
Proof. solve_decision. Defined.

(** [ConstGenericRingBuffer<i32, 1024>] *)
Definition RESULTS_CAP : nat := 1024.

Record MultishotResultState (B : Type) := MkMultishot {
  results : B;
  dropped : bool;
  finished : bool;
}.
Arguments MkMultishot {B} results dropped finished.
Arguments results {B} _.
Arguments dropped {B} _.
Arguments finished {B} _.

Module OneshotStore.
Section ops.
Context {S : Type -> Type} `{Slab S}.

Definition new : S ResultState := slab_new.

Definition is_empty (st : S ResultState) : bool := slab_is_empty st.

Definition set_result (st : S ResultState) (result : Z) (idx : nat) :
    outcome (S ResultState) :=
  r_entry ← unwrap (slab_get st idx);
  match r_entry with
  | RsDropped => '(_, st) ← slab_remove st idx; mret st
  | _ => mret (slab_put st idx (RsSet result))
  end.

Definition get_result (st : S ResultState) (idx : nat) :
    outcome (option Z * S ResultState) :=
  r_entry ← unwrap (slab_get st idx);
  match r_entry with
  | RsPending => mret (None, st)
  | RsSet result => '(_, st) ← slab_remove st idx; mret (Some result, st)
  | RsDropped => Panic (Explicit "Should not be able to get a dropped result")
  end.

Definition drop_result (st : S ResultState) (idx : nat) : outcome (S ResultState) :=
  r_entry ← unwrap (slab_get st idx);
  match r_entry with
  | RsSet _ => '(_, st) ← slab_remove st idx; mret st
  | _ => mret (slab_put st idx RsDropped)
  end.

Definition create_slot (st : S ResultState) : nat * S ResultState :=
  slab_insert st RsPending.
End ops.
End OneshotStore.

Module MultishotStore.
Section ops.
Context {S : Type -> Type} `{Slab S} {B : Type} `{RingBuffer B}.
Abbreviation state := (MultishotResultState B).

Definition new : S state := slab_new.

Definition is_empty (st : S state) : bool := slab_is_empty st.

Definition push_result (st : S state) (result : Z) (idx : nat) : outcome (S state) :=
  e ← unwrap (slab_get st idx);
  mret (slab_put st idx (MkMultishot (rb_push (results e) result) (dropped e) (finished e))).

Definition pop_result (st : S state) (idx : nat) : outcome (MultishotResult * S state) :=
  e ← unwrap (slab_get st idx);
  let (v, rb) := rb_dequeue (results e) in
  let st := slab_put st idx (MkMultishot rb (dropped e) (finished e)) in
  match v with
  | Some v => mret (MrValue v, st)
  | None => mret (if finished e then MrFinished else MrPending, st)
  end.

Definition drop_result (st : S state) (idx : nat) : outcome (S state) :=
  e ← unwrap (slab_get st idx);
  if finished e then
    '(_, st) ← slab_remove st idx; mret st
  else
    e ← unwrap (slab_get st idx);
    mret (slab_put st idx (MkMultishot (results e) true (finished e))).

Definition create_slot (st : S state) : nat * S state :=
  slab_insert st (MkMultishot (rb_new RESULTS_CAP) false false).

Definition set_finished (st : S state) (idx : nat) : outcome (S state) :=
  e ← unwrap (slab_get st idx);
  if dropped e then
    '(_, st) ← slab_remove st idx; mret st
  else
    e ← unwrap (slab_get st idx);
    mret (slab_put st idx (MkMultishot (results e) (dropped e) true)).
End ops.
End MultishotStore.

(** [RingResults]: [get_oneshot] and [get_multishot] lend one of the stores;
    the update of the lent store is the record update. *)
Record RingResults (S : Type -> Type) (B : Type) := MkResults {
  oneshot : S ResultState;
  multishot : S (MultishotResultState B);
}.
Arguments MkResults {S B} oneshot multishot.
Arguments oneshot {S B} _.
Arguments multishot {S B} _.

Module RingResults.
Section ops.
Context {S : Type -> Type} `{Slab S} {B : Type}.

Definition new : RingResults S B := MkResults OneshotStore.new MultishotStore.new.

Definition is_empty (r : RingResults S B) : bool :=
  OneshotStore.is_empty (oneshot r) && MultishotStore.is_empty (multishot r).

(* [get_oneshot()] and [get_multishot()] lend a store mutably: reading the
   lent store is the projection, what is written to it replaces it. *)
Definition get_oneshot (r : RingResults S B) : S ResultState := oneshot r.
Definition put_oneshot (r : RingResults S B) (o : S ResultState) : RingResults S B :=
  MkResults o (multishot r).
Definition get_multishot (r : RingResults S B) : S (MultishotResultState B) := multishot r.
Definition put_multishot (r : RingResults S B) (m : S (MultishotResultState B)) :
    RingResults S B :=
  MkResults (oneshot r) m.
End ops.
End RingResults.

(** ** What each operation does, stated on the view of the slab *)
Section oneshot_lemmas.
Context {S : Type -> Type} `{SlabSpec S}.
Implicit Types (st : S ResultState) (k : nat).

Lemma oneshot_vacant_panics st v k :
  slab_view st !! k = None ->
  OneshotStore.set_result st v k = Panic UnwrapNone /\
  OneshotStore.get_result st k = Panic UnwrapNone /\
  OneshotStore.drop_result st k = Panic UnwrapNone.
Proof.
  intros Hk. unfold OneshotStore.set_result, OneshotStore.get_result,
    OneshotStore.drop_result. by rewrite !slab_get_spec, Hk.
Qed.

Lemma set_result_spec st v k r :
  slab_view st !! k = Some r ->
  exists st', OneshotStore.set_result st v k = Ret st' /\
    slab_view st' = match r with
                    | RsDropped => delete k (slab_view st)
                    | _ => <[k := RsSet v]> (slab_view st)
                    end.
Proof.
  intros Hk. unfold OneshotStore.set_result. rewrite slab_get_spec, Hk. cbn.
  destruct r as [|w|].
  1,2: eexists; split; [done|]; by eapply slab_put_spec.
  destruct (slab_remove_returns st k _ Hk) as (st' & E & Ev). rewrite E. cbn. eauto.
Qed.

Lemma get_result_pending st k :
  slab_view st !! k = Some RsPending -> OneshotStore.get_result st k = Ret (None, st).
Proof. intros Hk. unfold OneshotStore.get_result. by rewrite slab_get_spec, Hk. Qed.

Lemma get_result_set st k v :
  slab_view st !! k = Some (RsSet v) ->
  exists st', OneshotStore.get_result st k = Ret (Some v, st') /\
    slab_view st' = delete k (slab_view st).
Proof.
  intros Hk. unfold OneshotStore.get_result. rewrite slab_get_spec, Hk. cbn.
  destruct (slab_remove_returns st k _ Hk) as (st' & E & Ev). rewrite E. cbn. eauto.
Qed.

Lemma oneshot_drop_result_spec st k r :
  slab_view st !! k = Some r ->
  exists st', OneshotStore.drop_result st k = Ret st' /\
    slab_view st' = match r with
                    | RsSet _ => delete k (slab_view st)
                    | _ => <[k := RsDropped]> (slab_view st)
                    end.
Proof.
  intros Hk. unfold OneshotStore.drop_result. rewrite slab_get_spec, Hk. cbn.
  destruct r as [|w|].
  1,3: eexists; split; [done|]; by eapply slab_put_spec.
  destruct (slab_remove_returns st k _ Hk) as (st' & E & Ev). rewrite E. cbn. eauto.
Qed.

Lemma oneshot_create_slot_spec st k st' :
  OneshotStore.create_slot st = (k, st') ->
  slab_view st !! k = None /\ slab_view st' = <[k := RsPending]> (slab_view st).
Proof. apply slab_insert_spec. Qed.

Lemma oneshot_is_empty_spec st : OneshotStore.is_empty st = true <-> slab_view st = ∅.
Proof. apply slab_is_empty_spec. Qed.
End oneshot_lemmas.

Section multishot_lemmas.
Context {S : Type -> Type} `{SlabSpec S} {B : Type} `{RingBufferSpec B}.
Implicit Types (st : S (MultishotResultState B)) (k : nat) (e : MultishotResultState B).

Lemma push_result_spec st v k e :
  slab_view st !! k = Some e ->
  exists st', MultishotStore.push_result st v k = Ret st' /\
    slab_view st' =
      <[k := MkMultishot (rb_push (results e) v) (dropped e) (finished e)]> (slab_view st).
Proof.
  intros Hk. unfold MultishotStore.push_result. rewrite slab_get_spec, Hk. cbn.
  eexists; split; [done|]. by eapply slab_put_spec.
Qed.

(** What [pop_result] answers for a slot. *)
Definition pop_answer e : MultishotResult :=
  match rb_view (results e) with
  | v :: _ => MrValue v
  | [] => if finished e then MrFinished else MrPending
  end.

Lemma pop_result_spec st k e :
  slab_view st !! k = Some e ->
  exists st', MultishotStore.pop_result st k = Ret (pop_answer e, st') /\
    slab_view st' =
      <[k := MkMultishot (rb_dequeue (results e)).2 (dropped e) (finished e)]>
        (slab_view st).
Proof.
  intros Hk. unfold MultishotStore.pop_result, pop_answer.
  rewrite slab_get_spec, Hk. cbn.
  destruct (rb_dequeue_spec (results e)) as (E1 & E2 & _).
  destruct (rb_dequeue (results e)) as [o rb]. cbn in *. subst o.
  destruct (rb_view (results e)); cbn.
  all: eexists; split; [done|]; by eapply slab_put_spec.
Qed.

Lemma multishot_drop_result_spec st k e :
  slab_view st !! k = Some e ->
  exists st', MultishotStore.drop_result st k = Ret st' /\
    slab_view st' = if finished e then delete k (slab_view st)
                    else <[k := MkMultishot (results e) true (finished e)]> (slab_view st).
Proof.
  intros Hk. unfold MultishotStore.drop_result. rewrite !slab_get_spec, Hk. cbn.
  destruct (finished e) eqn:Ef.
  - destruct (slab_remove_returns st k _ Hk) as (st' & E & Ev). rewrite E. cbn. eauto.
  - eexists; split; [done|]. rewrite ?Ef. by eapply slab_put_spec.
Qed.

Lemma set_finished_spec st k e :
  slab_view st !! k = Some e ->
  exists st', MultishotStore.set_finished st k = Ret st' /\
    slab_view st' = if dropped e then delete k (slab_view st)
                    else <[k := MkMultishot (results e) (dropped e) true]> (slab_view st).
Proof.
  intros Hk. unfold MultishotStore.set_finished. rewrite !slab_get_spec, Hk. cbn.
  destruct (dropped e) eqn:Ed.
  - destruct (slab_remove_returns st k _ Hk) as (st' & E & Ev). rewrite E. cbn. eauto.
  - eexists; split; [done|]. rewrite ?Ed. by eapply slab_put_spec.
Qed.

Lemma multishot_create_slot_spec st k st' :
  MultishotStore.create_slot st = (k, st') ->
  slab_view st !! k = None /\
  slab_view st' = <[k := MkMultishot (rb_new RESULTS_CAP) false false]> (slab_view st).
Proof. apply slab_insert_spec. Qed.
End multishot_lemmas.

(** ** Life cycle of a slot *)
Section oneshot_lifecycle.
Context {S : Type -> Type} `{SlabSpec S}.

(** C32: a slot of the oneshot store is a rendezvous between the kernel and
    the I/O handle.  Before the completion a fetch finds nothing and changes
    nothing; the completion's value is fetched exactly once; and whether
    the handle fetches the result, drops it after the completion or drops
    it before, the store ends as it was before the slot was created, after
    which the slot cannot be used (every access panics). *)
Theorem oneshot_lifecycle (st : S ResultState) (v w : Z) :
  let (k, st0) := OneshotStore.create_slot st in
  let gone st' := slab_view st' = slab_view st /\
                  OneshotStore.get_result st' k = Panic UnwrapNone /\
                  OneshotStore.set_result st' w k = Panic UnwrapNone /\
                  OneshotStore.drop_result st' k = Panic UnwrapNone in
  OneshotStore.get_result st0 k = Ret (None, st0) /\
  returns (s1 ← OneshotStore.set_result st0 v k; OneshotStore.get_result s1 k)
          (fun '(r, s2) => r = Some v /\ gone s2) /\
  returns (s1 ← OneshotStore.set_result st0 v k; OneshotStore.drop_result s1 k) gone /\
  returns (s1 ← OneshotStore.drop_result st0 k; OneshotStore.set_result s1 v k) gone.
Proof.
  destruct (OneshotStore.create_slot st) as [k st0] eqn:E.
  apply oneshot_create_slot_spec in E as [Hk E0]. intros gone.
  assert (forall s, slab_view s = slab_view st -> gone s) as Hgone.
  { intros s Hs. subst gone. cbn.
    destruct (oneshot_vacant_panics s w k) as (? & ? & ?); [by rewrite Hs|done]. }
  assert (slab_view st0 !! k = Some RsPending) as Hs0 by (rewrite E0; by simplify_map_eq).
  destruct (set_result_spec st0 v k _ Hs0) as (s1 & Es & Vs).
  assert (slab_view s1 !! k = Some (RsSet v)) as Hs1 by (rewrite Vs; by simplify_map_eq).
  destruct (oneshot_drop_result_spec st0 k _ Hs0) as (s2 & Ed & Vd).
  assert (slab_view s2 !! k = Some RsDropped) as Hs2 by (rewrite Vd; by simplify_map_eq).
  assert (forall r : ResultState, delete k (<[k:=r]> (slab_view st0)) = slab_view st) as Hdel.
  { intros r. rewrite E0, insert_insert_eq. by apply delete_insert_id. }
  split; [by apply get_result_pending|]. rewrite Es, Ed. cbn. repeat split.
  - destruct (get_result_set s1 k v Hs1) as (s3 & -> & V3). cbn.
    split; [done|]. apply Hgone. by rewrite V3, Vs, Hdel.
  - destruct (oneshot_drop_result_spec s1 k _ Hs1) as (s3 & -> & V3). cbn.
    apply Hgone. by rewrite V3, Vs, Hdel.
  - destruct (set_result_spec s2 v k _ Hs2) as (s3 & -> & V3). cbn.
    apply Hgone. by rewrite V3, Vd, Hdel.
Qed.
End oneshot_lifecycle.

Section multishot_lifecycle.
Context {S : Type -> Type} `{SlabSpec S} {B : Type} `{RingBufferSpec B}.
Implicit Types (st : S (MultishotResultState B)) (k : nat).

(** The kernel posting the completions [l], in order, to the slot [k]. *)
Fixpoint push_results st (l : list Z) k : outcome (S (MultishotResultState B)) :=
  match l with
  | [] => mret st
  | v :: l => st ← MultishotStore.push_result st v k; push_results st l k
  end.

(** The handle asking [n] times for the next result of the slot [k]. *)
Fixpoint pop_results (n : nat) st k : outcome (list MultishotResult * S (MultishotResultState B)) :=
  match n with
  | O => mret ([], st)
  | Datatypes.S n =>
      '(r, st) ← MultishotStore.pop_result st k;
      '(rs, st) ← pop_results n st k;
      mret (r :: rs, st)
  end.

Lemma push_results_view st l k e (l0 : list Z) :
  slab_view st !! k = Some e -> 0 < rb_cap (results e) ->
  rb_view (results e) = lastn (rb_cap (results e)) l0 ->
  exists st' rb, push_results st l k = Ret st' /\
    slab_view st' = <[k := MkMultishot rb (dropped e) (finished e)]> (slab_view st) /\
    rb_cap rb = rb_cap (results e) /\
    rb_view rb = lastn (rb_cap (results e)) (l0 ++ l).
Proof.
  revert st e l0. induction l as [|v l IH]; intros st e l0 Hk Hc Hv; cbn.
  - exists st, (results e). rewrite app_nil_r. destruct e. cbn in *.
    by rewrite insert_id.
  - destruct (push_result_spec st v k e Hk) as (s1 & -> & V1). cbn.
    destruct (rb_push_spec (results e) v) as [P1 P2].
    edestruct (IH s1 (MkMultishot (rb_push (results e) v) (dropped e) (finished e))
                 (l0 ++ [v])) as (s2 & rb & -> & V2 & C2 & W2); cbn in *.
    + rewrite V1. by simplify_map_eq.
    + by rewrite P2.
    + rewrite P1, P2, Hv. symmetry. by apply lastn_snoc.
    + exists s2, rb. rewrite V2, V1, insert_insert_eq. rewrite P2 in *.
      rewrite <- app_assoc in W2. done.
Qed.

Lemma pop_results_view st k e n :
  slab_view st !! k = Some e -> n <= length (rb_view (results e)) ->
  exists st' rb, pop_results n st k = Ret (MrValue <$> take n (rb_view (results e)), st') /\
    slab_view st' = <[k := MkMultishot rb (dropped e) (finished e)]> (slab_view st) /\
    rb_cap rb = rb_cap (results e) /\ rb_view rb = drop n (rb_view (results e)).
Proof.
  revert st e. induction n as [|n IH]; intros st e Hk Hn.
  - exists st, (results e). destruct e. cbn. by rewrite insert_id.
  - destruct (pop_result_spec st k e Hk) as (s1 & E1 & V1). cbn. rewrite E1. cbn.
    destruct (rb_dequeue_spec (results e)) as (_ & D2 & D3).
    unfold pop_answer. destruct (rb_view (results e)) as [|v l] eqn:Ev; cbn in *; [lia|].
    edestruct (IH s1 (MkMultishot (rb_dequeue (results e)).2 (dropped e) (finished e)))
      as (s2 & rb & E2 & V2 & C2 & W2).
    { rewrite V1. by simplify_map_eq. }
    { cbn. rewrite D2. cbn. lia. }
    cbn in *. rewrite E2. cbn. rewrite D2 in *.
    exists s2, rb. rewrite V2, V1, insert_insert_eq. repeat split; congruence.
Qed.

Lemma pop_results_app n m st k :
  pop_results (n + m) st k =
    ('(rs, st) ← pop_results n st k; '(rs', st) ← pop_results m st k; mret (rs ++ rs', st)).
Proof.
  revert st. induction n as [|n IH]; intros st; cbn.
  - by destruct (pop_results m st k) as [[]| | |].
  - destruct (MultishotStore.pop_result st k) as [[r s1]| | |]; cbn; [|done..].
    rewrite IH. destruct (pop_results n s1 k) as [[rs s2]| | |]; cbn; [|done..].
    by destruct (pop_results m s2 k) as [[]| | |].
Qed.

(** Asking until nothing is left, and once more. *)
Lemma pop_results_drain st k e :
  slab_view st !! k = Some e ->
  exists st',
    pop_results (length (rb_view (results e)) + 1) st k =
      Ret ((MrValue <$> rb_view (results e)) ++
           [if finished e then MrFinished else MrPending], st').
Proof.
  intros Hk. rewrite pop_results_app.
  destruct (pop_results_view st k e (length (rb_view (results e))) Hk)
    as (s1 & rb & -> & V & _ & W); [done|].
  rewrite drop_all in W. rewrite firstn_all. cbn.
  edestruct (pop_result_spec s1 k) as (s2 & -> & _); [rewrite V; by simplify_map_eq|].
  cbn. unfold pop_answer. cbn. rewrite W. by eexists.
Qed.

(** C33: a multishot slot is a bounded queue.  After the kernel has posted the
    completions [l], the handle fetches, in posting order, the last 1024 of
    them and nothing else (with at most 1024 waiting, all of them; with more,
    the oldest are lost without any error), and then learns that more may
    come, or, once the request is finished, that no more will come. *)
Theorem multishot_queue st (l : list Z) (fin : bool) :
  let (k, st0) := MultishotStore.create_slot st in
  let kept := lastn RESULTS_CAP l in
  returns (s1 ← push_results st0 l k;
           s2 ← (if fin then MultishotStore.set_finished s1 k else mret s1);
           pop_results (Datatypes.S (length kept)) s2 k)
          (fun '(rs, _) =>
             rs = (MrValue <$> kept) ++ [if fin then MrFinished else MrPending]).
Proof.
  destruct (MultishotStore.create_slot st) as [k st0] eqn:E.
  apply multishot_create_slot_spec in E as [Hk E0].
  destruct (rb_new_spec RESULTS_CAP) as [N1 N2].
  destruct (push_results_view st0 l k (MkMultishot (rb_new RESULTS_CAP) false false) [])
    as (s1 & rb & -> & V1 & C1 & W1).
  { rewrite E0. by simplify_map_eq. }
  { cbn. rewrite N2. unfold RESULTS_CAP. lia. }
  { cbn. by rewrite N1. }
  cbn in C1, W1, V1. rewrite N2 in *.
  assert (exists s2, (if fin then MultishotStore.set_finished s1 k else mret s1) = Ret s2 /\
            slab_view s2 !! k = Some (MkMultishot rb false fin)) as (s2 & E2 & V2).
  { assert (slab_view s1 !! k = Some (MkMultishot rb false false)) as Hs
      by (rewrite V1; by simplify_map_eq).
    destruct fin; [|by eexists].
    destruct (set_finished_spec s1 k _ Hs) as (s2 & -> & V2). cbn in V2.
    exists s2. split; [done|]. rewrite V2. by simplify_map_eq. }
  cbn [mbind outcome_bind]. rewrite E2. cbn [mbind outcome_bind].
  destruct (pop_results_drain s2 k _ V2) as (s3 & E3). cbn in E3.
  cbn [app] in W1. cbn zeta. rewrite <- Nat.add_1_r, <- W1, E3. cbn. done.
Qed.
End multishot_lifecycle.
