(* ===== verification/Reactor.v ===== *)
(** The reactor: src/src/reactor/uring.rs and src/src/reactor/mod.rs.

    The reactor owns the io_uring instance, the slab of pending operations
    (keyed by the user data of their submission) and the result stores.  It is
    shared through [Rc<RefCell<..>>] by every I/O handle: here it is the state
    that the operations of all the handles take and return. *)
From S2P Require Import Prelude Crates Results.

Inductive IoKind := Oneshot | Multi.

#[export] Instance IoKind_eq_dec : EqDecision IoKind.
Proof. solve_decision. Defined.

Record PendingIo (T : Type) := MkPending {
  assoc_obj : T;
  result_slab_idx : nat;
  kind : IoKind;
}.
Arguments MkPending {T} assoc_obj result_slab_idx kind.
Arguments assoc_obj {T} _.
Arguments result_slab_idx {T} _.
Arguments kind {T} _.

(** The number of submission queue entries asked for. *)
Definition RING_ENTRIES : nat := 2 ^ 10.

Record ReactorInner (S : Type -> Type) (B U T : Type) := MkReactor {
  uring : U;
  pending : S (PendingIo T);
  ring_results : RingResults S B;
}.
Arguments MkReactor {S B U T} uring pending ring_results.
Arguments uring {S B U T} _.
Arguments pending {S B U T} _.
Arguments ring_results {S B U T} _.

Section reactor.
Context {S : Type -> Type} `{Slab S} {B : Type} `{RingBuffer B}.
Context {U Entry : Type} `{IoUring U Entry} {T : Type}.
Abbreviation reactor := (ReactorInner S B U T).

(** [ReactorInner::new] *)
Definition reactor_new : outcome reactor :=
  u ← unwrap (uring_new RING_ENTRIES);
  mret (MkReactor u slab_new RingResults.new).

(** [ReactorInner::submit_io] *)
Definition submit_io (self : reactor) (entry : Entry) (obj : T) (k : IoKind) :
    outcome (nat * nat * reactor) :=
  let '(result_slab_idx, res) :=
    match k with
    | Oneshot =>
        let (i, o) := OneshotStore.create_slot (RingResults.get_oneshot (ring_results self)) in
        (i, RingResults.put_oneshot (ring_results self) o)
    | Multi =>
        let (i, m) := MultishotStore.create_slot (RingResults.get_multishot (ring_results self)) in
        (i, RingResults.put_multishot (ring_results self) m)
    end in
  let (slot, pend) := slab_insert (pending self) (MkPending obj result_slab_idx k) in
  u ← match sq_push (uring self) entry slot with
      | Some u => mret u
      | None => Panic UnwrapErr
      end;
  mret (slot, result_slab_idx, MkReactor u pend res).

(** [ReactorUring::react]: the returned iterator owns the borrowed ring and
    a snapshot of its completion queue. *)
Definition react (self : reactor) : outcome reactor :=
  match submit_and_wait (uring self) 1 with
  | WaitOk u => mret (MkReactor (completion u) (pending self) (ring_results self))
  | WaitErr _ => Panic UnwrapErr
  | WaitForever => Hang
  end.

(** [IoCompletionIter::next] *)
Definition next (self : reactor) : outcome (option T * reactor) :=
  match cq_next (uring self) with
  | None => mret (None, self)
  | Some (entry, u) =>
      pending_io ← unwrap (slab_get (pending self) (cqe_user_data entry));
      let idx := result_slab_idx pending_io in
      match kind pending_io with
      | Oneshot =>
          o ← OneshotStore.set_result
                (RingResults.get_oneshot (ring_results self)) (cqe_result entry) idx;
          '(_, pend) ← slab_remove (pending self) (cqe_user_data entry);
          mret (Some (assoc_obj pending_io),
                MkReactor u pend (RingResults.put_oneshot (ring_results self) o))
      | Multi =>
          m ← MultishotStore.push_result
                (RingResults.get_multishot (ring_results self)) (cqe_result entry) idx;
          m ← (if negb (cq_more (cqe_flags entry))
               then MultishotStore.set_finished m idx else mret m);
          mret (Some (assoc_obj pending_io),
                MkReactor u (pending self) (RingResults.put_multishot (ring_results self) m))
      end
  end.

(** [for waker in r.react() { waker.wake() }]: [wake] acts on the executor's
    state [W] only, which is why it may run while the ring is borrowed. *)
Section for_loop.
Context {W : Type} (wake : T -> W -> outcome W).

Fixpoint for_each (fuel : nat) (it : reactor) (w : W) : outcome (reactor * W) :=
  match fuel with
  | O => NoFuel
  | Datatypes.S fuel =>
      '(item, it) ← next it;
      match item with
      | None => mret (it, w)
      | Some waker => w ← wake waker w; for_each fuel it w
      end
  end.

(** [Reactor::react] *)
Definition Reactor_react (fuel : nat) (r : reactor) (w : W) : outcome (reactor * W) :=
  it ← react r; for_each fuel it w.
End for_loop.

(** [uring.react().collect()] *)
Definition react_collect (fuel : nat) (r : reactor) : outcome (reactor * list T) :=
  Reactor_react (fun t ts => mret (ts ++ [t])) fuel r [].
End reactor.
