(* ===== verification/Io.v ===== *)
(** The I/O handles: src/src/reactor/uring/io/{mod,oneshot,multishot}.rs.

    A handle submits one operation when it is first polled, then waits for
    its result(s) and releases what the reactor keeps for it when dropped.
    The closure that builds the operation runs on (and may change) a state
    [C]: the fields of the future it belongs to, or the system. *)
From S2P Require Import Prelude Crates Results Reactor.

(** [v.abs()] overflows on [i32::MIN]: the debug build panics there. *)
Definition reactor_value_to_result (v : Z) : outcome (io_result Z) :=
  if (v <? 0)%Z then
    if decide (v = i32_min) then Panic ArithOverflow
    else mret (Err (OsError (Z.abs v)))
  else mret (Ok v).

Module Oneshot.
Inductive IoState :=
  | New
  | Submitted (slot : nat)
  | Finished (result : Z).

#[global] Instance IoState_eq_dec : EqDecision IoState.
Proof. solve_decision. Defined.

(** [impl From<&IoState> for Poll<io::Result<i32>>] *)
Definition state_to_poll (value : IoState) : outcome (poll (io_result Z)) :=
  match value with
  | New => mret Pending
  | Submitted _ => mret Pending
  | Finished result => r ← reactor_value_to_result result; mret (Ready r)
  end.

(** [OneshotUringIo::new] *)
Definition new : IoState := New.

Section io.
Context {S : Type -> Type} `{Slab S} {B : Type} `{RingBuffer B}.
Context {U Entry : Type} `{IoUring U Entry} {T : Type}.
Abbreviation reactor := (ReactorInner S B U T).

Definition submit_or_get_result {C} (self : IoState) (ring : reactor) (c : C)
    (f : C -> outcome (Entry * T * C)) :
    outcome (poll (io_result Z) * IoState * reactor * C) :=
  '(self, ring, c) ←
    match self with
    | New =>
        '(entry, obj, c) ← f c;
        '(_, result_slot, ring) ← submit_io ring entry obj Oneshot;
        mret (Submitted result_slot, ring, c)
    | Submitted slot =>
        '(res, o) ← OneshotStore.get_result
                      (RingResults.get_oneshot (ring_results ring)) slot;
        let ring := MkReactor (uring ring) (pending ring)
                      (RingResults.put_oneshot (ring_results ring) o) in
        match res with
        | Some res => mret (Finished res, ring, c)
        | None => mret (self, ring, c)
        end
    | Finished _ => mret (self, ring, c)
    end;
  p ← state_to_poll self;
  mret (p, self, ring, c).

(** [impl Drop for OneshotUringIo] *)
Definition drop (self : IoState) (ring : reactor) : outcome reactor :=
  match self with
  | Submitted slot =>
      o ← OneshotStore.drop_result (RingResults.get_oneshot (ring_results ring)) slot;
      mret (MkReactor (uring ring) (pending ring)
              (RingResults.put_oneshot (ring_results ring) o))
  | _ => mret ring
  end.
End io.
End Oneshot.

Module Multishot.
Inductive IoState :=
  | New
  | Submitted (slot user_data : nat).

#[global] Instance IoState_eq_dec : EqDecision IoState.
Proof. solve_decision. Defined.

(** [MultishotUringIo::new] *)
Definition new : IoState := New.

Section io.
Context {S : Type -> Type} `{Slab S} {B : Type} `{RingBuffer B}.
Context {U Entry : Type} `{IoUring U Entry} {T : Type}.
Abbreviation reactor := (ReactorInner S B U T).

Definition submit_or_get_result {C} (self : IoState) (ring : reactor) (c : C)
    (f : C -> outcome (Entry * T * C)) :
    outcome (poll (option (io_result Z)) * IoState * reactor * C) :=
  match self with
  | New =>
      '(entry, obj, c) ← f c;
      '(user_data, result_slot, ring) ← submit_io ring entry obj Multi;
      mret (Pending, Submitted result_slot user_data, ring, c)
  | Submitted slot _ =>
      '(r, m) ← MultishotStore.pop_result
                  (RingResults.get_multishot (ring_results ring)) slot;
      let ring := MkReactor (uring ring) (pending ring)
                    (RingResults.put_multishot (ring_results ring) m) in
      match r with
      | MrValue v =>
          r ← reactor_value_to_result v;
          mret (Ready (Some r), self, ring, c)
      | MrPending => mret (Pending, self, ring, c)
      | MrFinished => mret (Ready None, self, ring, c)
      end
  end.

(** [impl Drop for MultishotUringIo] *)
Definition drop (self : IoState) (ring : reactor) : outcome reactor :=
  match self with
  | Submitted slot user_data =>
      u ← match register_sync_cancel (uring ring) user_data with
          | Some u => mret u
          | None => Panic UnwrapErr
          end;
      m ← MultishotStore.drop_result (RingResults.get_multishot (ring_results ring)) slot;
      mret (MkReactor u (pending ring) (RingResults.put_multishot (ring_results ring) m))
  | _ => mret ring
  end.
End io.
End Multishot.
