(* ===== verification/RingFacts.v ===== *)
(** The discipline the reactor keeps with the ring: every request it submits
    carries user data no other live request has, so that a completion names
    its request.  [live] maps the user data of the requests that are not over
    (their last completion has not been consumed) to whether they may
    complete several times. *)
From S2P Require Import Prelude Crates.

Section ring.
Context (more : Z -> bool).

(** The user data of the last completions among [cq]. *)
Definition finals (cq : list cqe) : list nat :=
  cqe_user_data <$> filter (fun c => more (cqe_flags c) = false) cq.

Arguments finals : simpl never.

(** Each live request is in exactly one place: queued, in flight, or over
    with its last completion waiting to be consumed. *)
Definition places (v : ring_view) : list nat :=
  (rv_sq v).*1 ++ (rv_fly v).*1 ++ finals (rv_cq v).

Record ring_ok (v : ring_view) (live : gmap nat bool) : Prop := {
  ro_nodup : NoDup (places v);
  ro_live : forall ud, ud ∈ places v <-> is_Some (live !! ud);
  ro_flag : forall ud b, (ud, b) ∈ rv_sq v ++ rv_fly v -> live !! ud = Some b;
  (* a completion announcing more ones is of a multishot request, whose
     last completion is still to be posted or further down the queue *)
  ro_more : forall l1 c l2,
    rv_cq v = l1 ++ c :: l2 -> more (cqe_flags c) = true ->
    live !! cqe_user_data c = Some true /\
    cqe_user_data c ∈ (rv_fly v).*1 ++ finals l2;
}.

Lemma finals_app l1 l2 : finals (l1 ++ l2) = finals l1 ++ finals l2.
Proof. unfold finals. by rewrite filter_app, fmap_app. Qed.

Lemma finals_final c l :
  more (cqe_flags c) = false -> finals (c :: l) = cqe_user_data c :: finals l.
Proof. intros. unfold finals. by rewrite filter_cons_True. Qed.

Lemma finals_more c l : more (cqe_flags c) = true -> finals (c :: l) = finals l.
Proof. intros E. unfold finals. by rewrite filter_cons_False by congruence. Qed.

Lemma ring_ok_empty : ring_ok rv_empty ∅.
Proof.
  split; cbn; [constructor| | |].
  - intros ud. rewrite lookup_empty. unfold places, finals. cbn.
    split; [set_solver|by intros []].
  - set_solver.
  - intros l1 c l2 E. by destruct l1.
Qed.

(** Submitting moves the queue to the kernel. *)
Lemma ring_ok_submit v live : ring_ok v live -> ring_ok (rv_submit v) live.
Proof.
  intros [H1 H2 H3 H4].
  assert (places (rv_submit v) ≡ₚ places v) as Hp.
  { unfold places. cbn. rewrite fmap_app. solve_Permutation. }
  split.
  - by rewrite Hp.
  - intros ud. rewrite <- H2. by rewrite Hp.
  - cbn. intros ud b Hin. apply H3. set_solver.
  - cbn. intros l1 c l2 E Em. destruct (H4 _ _ _ E Em) as [Ha Hb].
    split; [done|]. rewrite fmap_app. set_solver.
Qed.

(** The kernel keeps the discipline. *)
Lemma ring_ok_kstep v v' live : kstep more v v' -> ring_ok v live -> ring_ok v' live.
Proof.
  intros Hk [H1 H2 H3 H4].
  destruct Hk as [sq f1 ud b f2 cq res fl Hm Hr|sq fly ud cq res fl Hm Hr Hin].
  - assert (places (RingView sq (f1 ++ f2) (cq ++ [Cqe ud res fl])) ≡ₚ
            places (RingView sq (f1 ++ (ud, b) :: f2) cq)) as Hp.
    { unfold places. cbn. rewrite finals_app, finals_final by done.
      unfold finals at 2. cbn. rewrite !fmap_app, fmap_cons. cbn. solve_Permutation. }
    split.
    + by rewrite Hp.
    + intros x. rewrite <- H2. by rewrite Hp.
    + cbn in *. intros x c Hx. apply H3. set_solver.
    + cbn in *. intros l1 c l2 E Em.
      destruct l2 as [|c' l2 _] using rev_ind.
      * apply app_inj_tail in E as [-> <-]. cbn in Em. congruence.
      * rewrite app_comm_cons, app_assoc in E. apply app_inj_tail in E as [-> <-].
        destruct (H4 l1 c l2 eq_refl Em) as [Ha Hb]. split; [done|].
        rewrite finals_app, finals_final by done.
        rewrite !fmap_app, ?fmap_cons in *. set_solver.
  - assert (places (RingView sq fly (cq ++ [Cqe ud res fl])) = places (RingView sq fly cq)) as Hp.
    { unfold places. cbn. rewrite finals_app, finals_more by done. cbn. by rewrite app_nil_r. }
    split.
    + by rewrite Hp.
    + intros x. by rewrite Hp.
    + done.
    + cbn in *. intros l1 c l2 E Em.
      destruct l2 as [|c' l2 _] using rev_ind.
      * apply app_inj_tail in E as [-> <-]. cbn.
        assert (ud ∈ fly.*1) by (apply list_elem_of_fmap; by exists (ud, true)).
        split; [apply H3; set_solver|set_solver].
      * rewrite app_comm_cons, app_assoc in E. apply app_inj_tail in E as [-> <-].
        destruct (H4 l1 c l2 eq_refl Em) as [Ha Hb]. split; [done|].
        rewrite finals_app, finals_more by done. cbn. by rewrite app_nil_r.
Qed.

Lemma ring_ok_ksteps v v' live : rtc (kstep more) v v' -> ring_ok v live -> ring_ok v' live.
Proof.
  apply (kstep_rtc_ind more (fun v => ring_ok v live)).
  intros a b Hk Ho. by eapply ring_ok_kstep.
Qed.

(** Queueing a request under user data no live request has. *)
Lemma ring_ok_push v live ud b :
  live !! ud = None -> ring_ok v live -> ring_ok (rv_push (ud, b) v) (<[ud := b]> live).
Proof.
  intros Hud [H1 H2 H3 H4].
  assert (places (rv_push (ud, b) v) ≡ₚ ud :: places v) as Hp.
  { unfold places. cbn. rewrite fmap_app. cbn. solve_Permutation. }
  assert (ud ∉ places v) as Hn by (rewrite H2, Hud; by intros []).
  split.
  - rewrite Hp. by constructor.
  - intros x. rewrite Hp, elem_of_cons, H2.
    destruct (decide (x = ud)) as [->|]; simplify_map_eq; naive_solver.
  - cbn. intros x c Hx. destruct (decide (x = ud)) as [->|].
    + rewrite lookup_insert_eq. assert (ud ∉ (rv_sq v ++ rv_fly v).*1) as Hn'.
      { rewrite fmap_app. unfold places in Hn. set_solver. }
      assert ((ud, c) ∉ rv_sq v ++ rv_fly v) as Hn2.
      { intros Hc. apply Hn'. apply list_elem_of_fmap. by exists (ud, c). }
      set_solver.
    + rewrite lookup_insert_ne by done. apply H3. set_solver.
  - cbn. intros l1 c l2 E Em. destruct (H4 _ _ _ E Em) as [Ha Hb].
    split; [|done]. rewrite lookup_insert_ne; [done|]. congruence.
Qed.

(** Consuming the completion at the head of the queue. *)
Lemma ring_ok_consume v live c cq :
  rv_cq v = c :: cq -> ring_ok v live ->
  exists b, live !! cqe_user_data c = Some b /\
    (if more (cqe_flags c)
     then b = true /\ ring_ok (RingView (rv_sq v) (rv_fly v) cq) live
     else ring_ok (RingView (rv_sq v) (rv_fly v) cq) (delete (cqe_user_data c) live)).
Proof.
  intros E [H1 H2 H3 H4]. destruct (more (cqe_flags c)) eqn:Em.
  - destruct (H4 [] c cq E Em) as [Ha _]. exists true.
    split; [done|]. split; [done|].
    unfold places in *. rewrite E, finals_more in * by done.
    split; cbn; [done..|]. intros l1 c' l2 ->. by apply (H4 (c :: l1)).
  - unfold places in *. rewrite E, finals_final in * by done.
    assert ((rv_sq v).*1 ++ (rv_fly v).*1 ++ cqe_user_data c :: finals cq ≡ₚ
            cqe_user_data c :: (rv_sq v).*1 ++ (rv_fly v).*1 ++ finals cq) as Hp
      by solve_Permutation.
    rewrite Hp in H1. apply NoDup_cons in H1 as [Hn H1].
    assert (is_Some (live !! cqe_user_data c)) as [b Hb].
    { apply H2. rewrite Hp. set_solver. }
    exists b. split; [done|]. split; cbn.
    + done.
    + intros x. specialize (H2 x). rewrite Hp, elem_of_cons in H2.
      destruct (decide (x = cqe_user_data c)) as [->|Hx].
      * rewrite lookup_delete_eq. split; [done|by intros []].
      * rewrite lookup_delete_ne by done. rewrite <- H2. naive_solver.
    + intros x d Hx. rewrite lookup_delete_ne; [by apply H3|].
      intros <-. apply Hn. apply (list_elem_of_fmap_2 fst) in Hx. rewrite fmap_app in Hx.
      set_solver.
    + intros l1 c' l2 -> Em'. destruct (H4 (c :: l1) c' l2 eq_refl Em') as [Ha Hb'].
      split; [|done]. rewrite lookup_delete_ne; [done|].
      intros Heq. apply Hn. rewrite Heq, finals_app, finals_more by done. set_solver.
Qed.
End ring.
Arguments finals : simpl never.
