(* ===== verification/Mailbox.v ===== *)
(** What the reactor promises to its I/O handles: the abstract specification.

    Seen from the futures there are no slabs, no slots and no user data: each
    handle has a private mailbox.  A oneshot mailbox is empty until the
    completion of its own operation is delivered, and then holds its value for
    ever once fetched; a multishot mailbox is a bounded queue.  Dropping a
    handle throws its mailbox away; the operation itself may still complete,
    which then only wakes the task that had submitted it.

    [AReactor] is the state of that specification and [astep] its steps,
    labelled with what a client sees.  Refinement.v proves that the reactor,
    the stores and the handles of the source implement it. *)
From S2P Require Import Prelude Crates Results Io.

(** The mailbox of a oneshot handle. *)
Inductive amail :=
  | AOneNew
  | AOneWait
  | AOneReady (v : Z)      (* delivered, not fetched *)
  | AOneDone (v : Z)       (* fetched: every later poll gives it again *)
  | AMultiNew
  | AMultiLive (queue : list Z) (fin : bool).

#[export] Instance amail_eq_dec : EqDecision amail.
Proof. solve_decision. Defined.

(** A bounded queue that forgets its oldest element. *)
Definition bq_push (q : list Z) (v : Z) : list Z :=
  (if decide (length q < RESULTS_CAP) then q else tail q) ++ [v].

(** A completion of the operation of a handle reaches its mailbox. *)
Definition deliver (v : Z) (more : bool) (m : amail) : amail :=
  match m with
  | AOneWait => AOneReady v
  | AMultiLive q _ => AMultiLive (bq_push q v) (negb more)
  | m => m
  end.

Record areactor (T : Type) := AReactor {
  a_mail : gmap nat amail;            (* live handles *)
  a_out : gmap nat (T * bool);        (* operations not over: waker, multishot *)
}.
Arguments AReactor {T} a_mail a_out.
Arguments a_mail {T} _.
Arguments a_out {T} _.

(** What a client of the reactor sees of a step. *)
Inductive label (T : Type) :=
  | LNew (h : nat) (multi : bool)
  | LPollOne (h : nat) (t : T) (p : poll (io_result Z))
  | LPollMulti (h : nat) (t : T) (p : poll (option (io_result Z)))
  | LDrop (h : nat)
  | LReact                                  (* the reactor waits for the kernel *)
  | LComplete (t : T) (v : Z) (more : bool). (* one completion processed, [t] is woken *)
Arguments LNew {T}.
Arguments LPollOne {T}.
Arguments LPollMulti {T}.
Arguments LDrop {T}.
Arguments LReact {T}.
Arguments LComplete {T}.

Section spec.
Context {T : Type}.
Implicit Types (a : areactor T) (h : nat) (t : T).

Definition put_mail h m a : areactor T := AReactor (<[h := m]> (a_mail a)) (a_out a).
Definition put_out h t b a : areactor T := AReactor (a_mail a) (<[h := (t, b)]> (a_out a)).

Inductive astep : areactor T -> label T -> areactor T -> Prop :=
  | A_new a h multi :
      a_mail a !! h = None -> a_out a !! h = None ->
      astep a (LNew h multi) (put_mail h (if multi then AMultiNew else AOneNew) a)
  | A_one_submit a h t :
      a_mail a !! h = Some AOneNew -> a_out a !! h = None ->
      astep a (LPollOne h t Pending) (put_out h t false (put_mail h AOneWait a))
  | A_one_wait a h t :
      a_mail a !! h = Some AOneWait ->
      astep a (LPollOne h t Pending) a
  | A_one_ready a h t v r :
      a_mail a !! h = Some (AOneReady v) -> reactor_value_to_result v = Ret r ->
      astep a (LPollOne h t (Ready r)) (put_mail h (AOneDone v) a)
  | A_one_again a h t v r :
      a_mail a !! h = Some (AOneDone v) -> reactor_value_to_result v = Ret r ->
      astep a (LPollOne h t (Ready r)) a
  | A_multi_submit a h t :
      a_mail a !! h = Some AMultiNew -> a_out a !! h = None ->
      astep a (LPollMulti h t Pending) (put_out h t true (put_mail h (AMultiLive [] false) a))
  | A_multi_item a h t v q fin r :
      a_mail a !! h = Some (AMultiLive (v :: q) fin) -> reactor_value_to_result v = Ret r ->
      astep a (LPollMulti h t (Ready (Some r))) (put_mail h (AMultiLive q fin) a)
  | A_multi_wait a h t :
      a_mail a !! h = Some (AMultiLive [] false) ->
      astep a (LPollMulti h t Pending) a
  | A_multi_end a h t :
      a_mail a !! h = Some (AMultiLive [] true) ->
      astep a (LPollMulti h t (Ready None)) a
  | A_drop a h m :
      a_mail a !! h = Some m ->
      astep a (LDrop h) (AReactor (delete h (a_mail a)) (a_out a))
  | A_react a :
      astep a LReact a
  | A_complete a h t b v more :
      a_out a !! h = Some (t, b) -> (more = true -> b = true) ->
      astep a (LComplete t v more)
        (AReactor (alter (deliver v more) h (a_mail a))
                  (if more then a_out a else delete h (a_out a))).
End spec.
