(* ===== verification/Refinement.v ===== *)
(** The reactor and its handles as a transition system, and the proof that it
    implements the mailboxes of Mailbox.v. *)
From S2P Require Import Prelude Crates Results Reactor Io RingFacts Mailbox.

Inductive handle :=
  | HOne (io : Oneshot.IoState)
  | HMulti (io : Multishot.IoState).

#[export] Instance handle_eq_dec : EqDecision handle.
Proof. solve_decision. Defined.

(** Ghost description of a live request: the handle that submitted it, the
    result slot it was given, its kind and the waker stored with it. *)
Record request (T : Type) := Req {
  rq_owner : nat;
  rq_slot : nat;
  rq_multi : bool;
  rq_waker : T;
}.
Arguments Req {T}.
Arguments rq_owner {T} _.
Arguments rq_slot {T} _.
Arguments rq_multi {T} _.
Arguments rq_waker {T} _.

Definition kind_of (multi : bool) : IoKind := if multi then Multi else Oneshot.

Definition pending_of {T} (rq : request T) : PendingIo T :=
  MkPending (rq_waker rq) (rq_slot rq) (kind_of (rq_multi rq)).

(** A multishot slot, its ring buffer replaced by its contents. *)
Abbreviation mslot := (list Z * bool * bool)%type.

(** ** The invariant, on views *)
Section invariant.
Context (more : Z -> bool) {T : Type}.

(** The result slot a handle refers to. *)
Definition handle_slot (hd : handle) : option (bool * nat) :=
  match hd with
  | HOne (Oneshot.Submitted s) => Some (false, s)
  | HMulti (Multishot.Submitted s _) => Some (true, s)
  | _ => None
  end.

(** Who a result slot belongs to: the live handle that refers to it, or the
    request of a handle that was dropped. *)
Definition claim (hs : gmap nat handle) (own : gmap nat (request T))
    (multi : bool) (s h : nat) : Prop :=
  (exists hd, hs !! h = Some hd /\ handle_slot hd = Some (multi, s)) \/
  (hs !! h = None /\
   exists ud rq, own !! ud = Some rq /\ rq_owner rq = h /\ rq_slot rq = s /\
                 rq_multi rq = multi).

Definition no_request (own : gmap nat (request T)) (h : nat) : Prop :=
  forall ud rq, own !! ud = Some rq -> rq_owner rq <> h.

Definition has_request (own : gmap nat (request T)) (h s : nat) (multi : bool) : Prop :=
  exists ud t, own !! ud = Some (Req h s multi t).

(** A live handle and its mailbox. *)
Definition handle_ok (P : gmap nat (PendingIo T)) (O : gmap nat ResultState)
    (M : gmap nat mslot) (own : gmap nat (request T)) (h : nat)
    (hd : option handle) (m : option amail) : Prop :=
  match hd, m with
  | None, None => True
  | Some (HOne Oneshot.New), Some AOneNew => no_request own h
  | Some (HOne (Oneshot.Submitted s)), Some AOneWait =>
      O !! s = Some RsPending /\ has_request own h s false
  | Some (HOne (Oneshot.Submitted s)), Some (AOneReady v) =>
      O !! s = Some (RsSet v) /\ no_request own h
  | Some (HOne (Oneshot.Finished v)), Some (AOneDone w) => v = w /\ no_request own h
  | Some (HMulti Multishot.New), Some AMultiNew => no_request own h
  | Some (HMulti (Multishot.Submitted s ud)), Some (AMultiLive q fin) =>
      M !! s = Some (q, false, fin) /\
      (exists t, P !! ud = Some (MkPending t s Multi)) /\
      if fin then no_request own h /\ own !! ud = None
      else exists t, own !! ud = Some (Req h s true t)
  | _, _ => False
  end.

(** The slot of a request whose handle was dropped is marked so. *)
Definition orphan_ok (O : gmap nat ResultState) (M : gmap nat mslot)
    (rq : request T) : Prop :=
  if rq_multi rq then exists q, M !! rq_slot rq = Some (q, true, false)
  else O !! rq_slot rq = Some RsDropped.

(** Each slot in use belongs to exactly one handle or request. *)
Definition slots_ok {V} (D : gmap nat V) (cl : nat -> nat -> Prop) : Prop :=
  (forall s, is_Some (D !! s) <-> exists h, cl s h) /\
  (forall s h1 h2, cl s h1 -> cl s h2 -> h1 = h2).

Record inv (v : ring_view) (P : gmap nat (PendingIo T)) (O : gmap nat ResultState)
    (M : gmap nat mslot) (hs : gmap nat handle) (nxt : nat)
    (own : gmap nat (request T)) (a : areactor T) : Prop := {
  i_ring : ring_ok more v (rq_multi <$> own);
  i_pend : forall ud rq, own !! ud = Some rq -> P !! ud = Some (pending_of rq);
  i_pend_one : forall ud p,
    P !! ud = Some p -> kind p = Oneshot -> is_Some (own !! ud);
  i_inj : forall ud1 ud2 r1 r2, own !! ud1 = Some r1 -> own !! ud2 = Some r2 ->
    rq_owner r1 = rq_owner r2 -> ud1 = ud2;
  i_out : forall h x, a_out a !! h = Some x <->
    exists ud rq, own !! ud = Some rq /\ rq_owner rq = h /\ x = (rq_waker rq, rq_multi rq);
  i_fresh_h : forall h, is_Some (hs !! h) -> h < nxt;
  i_fresh_r : forall ud rq, own !! ud = Some rq -> rq_owner rq < nxt;
  i_handle : forall h, handle_ok P O M own h (hs !! h) (a_mail a !! h);
  i_orphan : forall ud rq, own !! ud = Some rq -> hs !! rq_owner rq = None ->
    orphan_ok O M rq;
  i_one : slots_ok O (claim hs own false);
  i_multi : slots_ok M (claim hs own true);
}.

Implicit Types (P : gmap nat (PendingIo T)) (O : gmap nat ResultState)
  (M : gmap nat mslot) (hs : gmap nat handle) (own : gmap nat (request T)) (h s ud : nat).

Lemma claim_live hs own h hd m s :
  hs !! h = Some hd -> claim hs own m s h <-> handle_slot hd = Some (m, s).
Proof.
  intros Hh. split.
  - intros [(hd' & E & ?)|[E _]]; rewrite Hh in E; congruence.
  - intros Hs. left. by exists hd.
Qed.

Lemma claim_dropped hs own h m s :
  hs !! h = None -> claim hs own m s h <->
    exists ud rq, own !! ud = Some rq /\ rq_owner rq = h /\ rq_slot rq = s /\ rq_multi rq = m.
Proof.
  intros Hh. split.
  - intros [(hd' & E & ?)|[E ?]]; [congruence|done].
  - intros Hs. by right.
Qed.

Lemma claim_ne hs hs' own own' h m s h' :
  h' <> h -> (forall k, k <> h -> hs' !! k = hs !! k) ->
  (forall ud rq, rq_owner rq <> h -> own' !! ud = Some rq <-> own !! ud = Some rq) ->
  claim hs' own' m s h' <-> claim hs own m s h'.
Proof.
  intros Hne Hhs Hown. unfold claim. rewrite Hhs by done.
  assert (forall ud rq, own' !! ud = Some rq /\ rq_owner rq = h' /\ rq_slot rq = s /\ rq_multi rq = m <->
           own !! ud = Some rq /\ rq_owner rq = h' /\ rq_slot rq = s /\ rq_multi rq = m) as Hx.
  { intros ud rq. split; intros (E & ? & ?); (split; [apply Hown; [congruence|exact E]|done]). }
  setoid_rewrite Hx. done.
Qed.

(** The updates of [own] touch only requests of one owner. *)
Lemma own_insert_ne (own : gmap nat (request T)) (ud : nat) rq :
  own !! ud = None ->
  forall ud' rq', rq_owner rq' <> rq_owner rq ->
    <[ud := rq]> own !! ud' = Some rq' <-> own !! ud' = Some rq'.
Proof.
  intros Hud ud' rq' Hne. destruct (decide (ud' = ud)) as [->|].
  - rewrite lookup_insert_eq, Hud. split; [|done]. congruence.
  - by rewrite lookup_insert_ne.
Qed.

Lemma own_delete_ne (own : gmap nat (request T)) (ud : nat) rq :
  own !! ud = Some rq ->
  forall ud' rq', rq_owner rq' <> rq_owner rq ->
    delete ud own !! ud' = Some rq' <-> own !! ud' = Some rq'.
Proof.
  intros Hud ud' rq' Hne. destruct (decide (ud' = ud)) as [->|].
  - rewrite lookup_delete_eq, Hud. split; [done|]. congruence.
  - by rewrite lookup_delete_ne.
Qed.

(** *** What an operation of the handle [h] leaves alone *)
Lemma handle_ok_frame P O M own P' O' M' own' h hd m :
  handle_ok P O M own h hd m ->
  (forall s, (handle_slot <$> hd) = Some (Some (false, s)) -> O' !! s = O !! s) ->
  (forall s, (handle_slot <$> hd) = Some (Some (true, s)) -> M' !! s = M !! s) ->
  (forall ud p, P !! ud = Some p -> kind p = Multi ->
     P' !! ud = Some p /\ (own !! ud = None -> own' !! ud = None)) ->
  (forall ud rq, rq_owner rq = h -> own' !! ud = Some rq <-> own !! ud = Some rq) ->
  handle_ok P' O' M' own' h hd m.
Proof.
  intros Hok HO HM HP Hown.
  assert (no_request own h -> no_request own' h) as Hno.
  { intros Hn ud rq Hrq Ho. apply (Hn ud rq); [|done]. by apply Hown. }
  destruct hd as [[[|s|v]|[|s ud]]|]; cbn in *.
  - destruct m as [[]|]; auto.
  - destruct m as [[]|]; try done; rewrite (HO s) by done; [|naive_solver].
    destruct Hok as (? & ud & t & Ht). split; [done|]. exists ud, t. by apply Hown.
  - destruct m as [[]|]; naive_solver.
  - destruct m as [[]|]; auto.
  - destruct m as [[| | | | |q fin]|]; try done. rewrite (HM s) by done.
    destruct Hok as (? & [t Ht] & Hf). destruct (HP _ _ Ht eq_refl) as [HP1 HP2].
    split_and!; [done|by exists t|]. destruct fin; [naive_solver|].
    destruct Hf as [t' Hf]. exists t'. by apply Hown.
  - by destruct m.
Qed.

(** *** Slots under an operation that acts for the handle [h] *)
Definition slot_upd {V} (D D' : gmap nat V) (cl cl' : nat -> nat -> Prop) (h : nat) : Prop :=
  (forall s h', h' <> h -> cl s h' -> D' !! s = D !! s) /\
  (forall s, cl' s h -> is_Some (D' !! s) /\ forall h', h' <> h -> ~ cl s h') /\
  (forall s, is_Some (D' !! s) -> cl' s h \/ exists h', h' <> h /\ cl s h').

Lemma slot_upd_same {V} (D : gmap nat V) cl cl' h :
  slots_ok D cl -> (forall s, cl' s h <-> cl s h) -> slot_upd D D cl cl' h.
Proof.
  intros [H1 H2] Hcl. split_and!; [done| |].
  - intros s Hs%Hcl. split; [apply H1; eauto|]. intros h' Hne Hh'. by apply Hne, (H2 s).
  - intros s Hs. apply H1 in Hs as [h' Hh']. destruct (decide (h' = h)) as [->|];
      [left; by apply Hcl|eauto].
Qed.

Lemma slot_upd_add {V} (D : gmap nat V) cl cl' h s x :
  slots_ok D cl -> D !! s = None -> (forall s', cl' s' h <-> s' = s) ->
  (forall s', ~ cl s' h) -> slot_upd D (<[s := x]> D) cl cl' h.
Proof.
  intros [H1 H2] Hs Hcl' Hcl.
  assert (forall h', ~ cl s h') as Hno.
  { intros h' Hh'. assert (is_Some (D !! s)) as [? ?] by (apply H1; eauto). congruence. }
  split_and!.
  - intros s' h' _ Hc. rewrite lookup_insert_ne; [done|]. intros <-. by apply (Hno h').
  - intros s' ->%Hcl'. rewrite lookup_insert_eq. eauto.
  - intros s' Hs'. destruct (decide (s' = s)) as [->|]; [left; by apply Hcl'|].
    rewrite lookup_insert_ne in Hs' by done. apply H1 in Hs' as [h' Hh'].
    right. exists h'. split; [|done]. intros ->. by apply (Hcl s').
Qed.

Lemma slot_upd_del {V} (D : gmap nat V) cl cl' h s :
  slots_ok D cl -> (forall s', cl s' h <-> s' = s) -> (forall s', ~ cl' s' h) ->
  slot_upd D (delete s D) cl cl' h.
Proof.
  intros [H1 H2] Hcl Hcl'.
  assert (cl s h) as Hs by by apply Hcl. split_and!.
  - intros s' h' Hne Hc. rewrite lookup_delete_ne; [done|]. intros <-. by apply Hne, (H2 s).
  - intros s' Hc. by apply Hcl' in Hc.
  - intros s' Hs'. destruct (decide (s' = s)) as [->|].
    { rewrite lookup_delete_eq in Hs'. by destruct Hs'. }
    rewrite lookup_delete_ne in Hs' by done. apply H1 in Hs' as [h' Hh'].
    right. exists h'. split; [|done]. intros ->. by apply Hcl in Hh'.
Qed.

Lemma slot_upd_set {V} (D : gmap nat V) cl cl' h s x :
  slots_ok D cl -> cl s h -> (forall s', cl' s' h <-> cl s' h) ->
  slot_upd D (<[s := x]> D) cl cl' h.
Proof.
  intros [H1 H2] Hs Hcl. split_and!.
  - intros s' h' Hne Hc. rewrite lookup_insert_ne; [done|]. intros <-. by apply Hne, (H2 s).
  - intros s' Hc%Hcl. split.
    + destruct (decide (s' = s)) as [->|]; [by rewrite lookup_insert_eq|].
      rewrite lookup_insert_ne by done. apply H1. eauto.
    + intros h' Hne Hc'. by apply Hne, (H2 s').
  - intros s' Hs'. assert (is_Some (D !! s')) as [h' Hh']%H1.
    { destruct (decide (s' = s)) as [->|]; [apply H1; eauto|].
      by rewrite lookup_insert_ne in Hs'. }
    destruct (decide (h' = h)) as [->|]; [left; by apply Hcl|eauto].
Qed.

Lemma slot_upd_ok {V} (D D' : gmap nat V) (cl cl' : nat -> nat -> Prop) h :
  slots_ok D cl -> slot_upd D D' cl cl' h ->
  (forall s h', h' <> h -> cl' s h' <-> cl s h') -> slots_ok D' cl'.
Proof.
  intros [H1 H2] (U1 & U2 & U3) Hne. split.
  - intros s. split.
    + intros [Hs|(h' & Hn & Hs)]%U3; [eauto|]. exists h'. by apply Hne.
    + intros [h' Hh']. destruct (decide (h' = h)) as [->|Hn]; [by apply U2|].
      apply Hne in Hh'; [|done]. rewrite (U1 s h') by done. apply H1. eauto.
  - intros s h1 h2 Hc1 Hc2.
    destruct (decide (h1 = h)) as [->|Hn1], (decide (h2 = h)) as [->|Hn2]; [done|..].
    + apply Hne in Hc2; [|done]. by apply (U2 s) in Hc2.
    + apply Hne in Hc1; [|done]. by apply (U2 s) in Hc1.
    + apply Hne in Hc1, Hc2; [|done..]. by apply (H2 s).
Qed.

(** *** The frame rule: an operation that acts for the handle [h] has to be
    checked at [h] only. *)
Record local_step (P P' : gmap nat (PendingIo T)) (O O' : gmap nat ResultState)
    (M M' : gmap nat mslot) (hs hs' : gmap nat handle)
    (own own' : gmap nat (request T)) (a a' : areactor T) (h : nat) : Prop := {
  l_hs : forall k, k <> h -> hs' !! k = hs !! k;
  l_mail : forall k, k <> h -> a_mail a' !! k = a_mail a !! k;
  l_aout : forall k, k <> h -> a_out a' !! k = a_out a !! k;
  l_own : forall ud rq, rq_owner rq <> h -> own' !! ud = Some rq <-> own !! ud = Some rq;
  l_P : forall ud p, P !! ud = Some p -> kind p = Multi ->
    P' !! ud = Some p /\ (own !! ud = None -> own' !! ud = None);
  l_pend : forall ud rq, own' !! ud = Some rq -> P' !! ud = Some (pending_of rq);
  l_pend_one : forall ud p,
    P' !! ud = Some p -> kind p = Oneshot -> is_Some (own' !! ud);
  l_inj : forall ud1 ud2 r1 r2, own' !! ud1 = Some r1 -> own' !! ud2 = Some r2 ->
    rq_owner r1 = h -> rq_owner r2 = h -> ud1 = ud2;
  l_out : forall x, a_out a' !! h = Some x <->
    exists ud rq, own' !! ud = Some rq /\ rq_owner rq = h /\ x = (rq_waker rq, rq_multi rq);
  l_handle : handle_ok P' O' M' own' h (hs' !! h) (a_mail a' !! h);
  l_orphan : forall ud rq, own' !! ud = Some rq -> rq_owner rq = h -> hs' !! h = None ->
    orphan_ok O' M' rq;
  l_one : slot_upd O O' (claim hs own false) (claim hs' own' false) h;
  l_multi : slot_upd M M' (claim hs own true) (claim hs' own' true) h;
}.

Lemma inv_local v v' P P' O O' M M' hs hs' nxt nxt' own own' a a' h :
  inv v P O M hs nxt own a ->
  ring_ok more v' (rq_multi <$> own') -> nxt <= nxt' -> h < nxt' ->
  local_step P P' O O' M M' hs hs' own own' a a' h ->
  inv v' P' O' M' hs' nxt' own' a'.
Proof.
  intros I Hv Hn Hh L.
  assert (forall b s h', h' <> h -> claim hs' own' b s h' <-> claim hs own b s h') as Hcl.
  { intros b s h' Hne. apply (claim_ne _ _ _ _ h); [done|apply L|apply L]. }
  split.
  - done.
  - apply L.
  - apply L.
  - intros ud1 ud2 r1 r2 E1 E2 Eo. destruct (decide (rq_owner r1 = h)) as [E|E].
    + apply (l_inj _ _ _ _ _ _ _ _ _ _ _ _ _ L ud1 ud2 r1 r2); congruence.
    + apply L in E1; [|done]. apply L in E2; [|congruence].
      by apply (i_inj _ _ _ _ _ _ _ _ I _ _ r1 r2).
  - intros k x. destruct (decide (k = h)) as [->|Hk]; [apply L|].
    rewrite (l_aout _ _ _ _ _ _ _ _ _ _ _ _ _ L) by done.
    rewrite (i_out _ _ _ _ _ _ _ _ I).
    split; intros (ud & rq & E & Eo & Ex); exists ud, rq; (split; [|done]);
      apply (l_own _ _ _ _ _ _ _ _ _ _ _ _ _ L); congruence.
  - intros k [x Hx]. destruct (decide (k = h)) as [->|Hk]; [done|].
    rewrite (l_hs _ _ _ _ _ _ _ _ _ _ _ _ _ L) in Hx by done.
    assert (k < nxt) by (eapply i_fresh_h; eauto). lia.
  - intros ud rq E. destruct (decide (rq_owner rq = h)) as [->|Hk]; [done|].
    apply L in E; [|done]. apply (i_fresh_r _ _ _ _ _ _ _ _ I) in E. lia.
  - intros k. destruct (decide (k = h)) as [->|Hk]; [apply L|].
    rewrite (l_hs _ _ _ _ _ _ _ _ _ _ _ _ _ L), (l_mail _ _ _ _ _ _ _ _ _ _ _ _ _ L) by done.
    eapply handle_ok_frame; [apply I| | | |].
    + intros s Hs. destruct (l_one _ _ _ _ _ _ _ _ _ _ _ _ _ L) as [U _].
      apply (U s k Hk). left. destruct (hs !! k) as [hd|]; [|done]. exists hd.
      split; [done|]. cbn in Hs. congruence.
    + intros s Hs. destruct (l_multi _ _ _ _ _ _ _ _ _ _ _ _ _ L) as [U _].
      apply (U s k Hk). left. destruct (hs !! k) as [hd|]; [|done]. exists hd.
      split; [done|]. cbn in Hs. congruence.
    + apply L.
    + intros ud rq Ho. apply L. congruence.
  - intros ud rq E Ek. destruct (decide (rq_owner rq = h)) as [Eh|Hk].
    + eapply (l_orphan _ _ _ _ _ _ _ _ _ _ _ _ _ L); [done..|congruence].
    + apply L in E; [|done]. rewrite (l_hs _ _ _ _ _ _ _ _ _ _ _ _ _ L) in Ek by done.
      pose proof (i_orphan _ _ _ _ _ _ _ _ I _ _ E Ek) as Ho.
      assert (claim hs own (rq_multi rq) (rq_slot rq) (rq_owner rq)) as Hc.
      { right. split; [done|]. eauto 10. }
      unfold orphan_ok in *. destruct (rq_multi rq) eqn:Em.
      * destruct (l_multi _ _ _ _ _ _ _ _ _ _ _ _ _ L) as [U _]. by rewrite (U _ _ Hk Hc).
      * destruct (l_one _ _ _ _ _ _ _ _ _ _ _ _ _ L) as [U _]. by rewrite (U _ _ Hk Hc).
  - eapply slot_upd_ok; [apply I|apply L|apply Hcl].
  - eapply slot_upd_ok; [apply I|apply L|apply Hcl].
Qed.
End invariant.

Arguments i_ring {more T v P O M hs nxt own a} _.
Arguments i_pend {more T v P O M hs nxt own a} _.
Arguments i_pend_one {more T v P O M hs nxt own a} _.
Arguments i_inj {more T v P O M hs nxt own a} _.
Arguments i_out {more T v P O M hs nxt own a} _.
Arguments i_fresh_h {more T v P O M hs nxt own a} _.
Arguments i_fresh_r {more T v P O M hs nxt own a} _.
Arguments i_handle {more T v P O M hs nxt own a} _.
Arguments i_orphan {more T v P O M hs nxt own a} _.
Arguments i_one {more T v P O M hs nxt own a} _.
Arguments i_multi {more T v P O M hs nxt own a} _.
