(* ===== verification/RefineOps.v ===== *)
(** Each operation of the reactor and of its handles preserves the invariant
    of Refinement.v: the pure part, on views. *)
From S2P Require Import Prelude Crates Results Reactor Io RingFacts Mailbox Refinement.

Section ops.
Context (more : Z -> bool) {T : Type}.
Implicit Types (v : ring_view) (P : gmap nat (PendingIo T)) (O : gmap nat ResultState)
  (M : gmap nat mslot) (hs : gmap nat handle) (own : gmap nat (request T))
  (a : areactor T) (h s ud nxt : nat) (t : T).
Abbreviation inv := (inv more).

(** A step of the ring alone. *)
Lemma inv_ring v v' P O M hs nxt own a :
  inv v P O M hs nxt own a -> ring_ok more v' (rq_multi <$> own) ->
  inv v' P O M hs nxt own a.
Proof. intros [] Hv. by split. Qed.

Lemma inv_fresh_owner v P O M hs nxt own a :
  inv v P O M hs nxt own a -> hs !! nxt = None /\ no_request own nxt.
Proof.
  intros I. split.
  - destruct (hs !! nxt) eqn:E; [|done].
    assert (nxt < nxt) by (eapply i_fresh_h; [done|by eexists]). lia.
  - intros ud rq E Ho. apply (i_fresh_r I) in E. lia.
Qed.

Lemma inv_out_none v P O M hs nxt own a h :
  inv v P O M hs nxt own a -> no_request own h -> a_out a !! h = None.
Proof.
  intros I Hn. destruct (a_out a !! h) eqn:E; [|done].
  apply (i_out I) in E as (ud & rq & E & Ho & _). by apply Hn in E.
Qed.

Lemma inv_mail_none v P O M hs nxt own a h :
  inv v P O M hs nxt own a -> hs !! h = None <-> a_mail a !! h = None.
Proof.
  intros I. pose proof (i_handle I h) as Hh.
  destruct (hs !! h) as [[[]|[]]|], (a_mail a !! h) as [[]|]; cbn in Hh; naive_solver.
Qed.

(** No claim on any slot by a handle without slot and without request. *)
Lemma no_claim hs own h b s :
  no_request own h -> (hs !! h) ≫= handle_slot = None -> ~ claim hs own b s h.
Proof.
  intros Hn Hs [(hd & E & Hd)|(_ & ud & rq & E & Ho & _)].
  - rewrite E in Hs. cbn in Hs. congruence.
  - by apply Hn in E.
Qed.

Ltac same_slots I := apply slot_upd_same; [apply I|].

(** A new handle. *)
Lemma inv_new v P O M hs nxt own a (multi : bool) :
  inv v P O M hs nxt own a ->
  inv v P O M
    (<[nxt := if multi then HMulti Multishot.New else HOne Oneshot.New]> hs) (S nxt) own
    (put_mail nxt (if multi then AMultiNew else AOneNew) a).
Proof.
  intros I. destruct (inv_fresh_owner _ _ _ _ _ _ _ _ I) as [Hh Hn].
  eapply (inv_local _ _ _ _ _ _ _ _ _ _ _ _ _ _ _ _ _ nxt); [exact I|apply I|lia|lia|].
  split; cbn.
  - intros k Hk. by rewrite lookup_insert_ne.
  - intros k Hk. by rewrite lookup_insert_ne.
  - done.
  - done.
  - auto.
  - apply I.
  - apply I.
  - intros ud1 ud2 r1 r2 E1 _ Eo _. by apply Hn in E1.
  - apply I.
  - rewrite !lookup_insert_eq. by destruct multi.
  - intros ud rq E Eo. by apply Hn in E.
  - same_slots I. intros s. split; intros Hc; exfalso; revert Hc; apply no_claim; try done.
    + by rewrite lookup_insert_eq; destruct multi.
    + by rewrite Hh.
  - same_slots I. intros s. split; intros Hc; exfalso; revert Hc; apply no_claim; try done.
    + by rewrite lookup_insert_eq; destruct multi.
    + by rewrite Hh.
Qed.

(** A handle's first poll submits its operation. *)
Lemma inv_submit v P O M hs nxt own a h s ud t (b : bool) :
  inv v P O M hs nxt own a ->
  hs !! h = Some (if b then HMulti Multishot.New else HOne Oneshot.New) ->
  P !! ud = None -> (if b then M !! s = None else O !! s = None) ->
  inv (rv_push (ud, b) v) (<[ud := MkPending t s (kind_of b)]> P)
    (if b then O else <[s := RsPending]> O)
    (if b then <[s := ([], false, false)]> M else M)
    (<[h := if b then HMulti (Multishot.Submitted s ud) else HOne (Oneshot.Submitted s)]> hs)
    nxt (<[ud := Req h s b t]> own)
    (put_out h t b (put_mail h (if b then AMultiLive [] false else AOneWait) a)).
Proof.
  intros I Hh HP Hs.
  assert (own !! ud = None) as Hud.
  { destruct (own !! ud) eqn:E; [|done]. apply (i_pend I) in E. congruence. }
  assert (no_request own h /\ (hs !! h) ≫= handle_slot = None) as [Hn Hsl].
  { pose proof (i_handle I h) as Hok. rewrite Hh in *.
    destruct b, (a_mail a !! h) as [[]|]; cbn in Hok; naive_solver. }
  assert (h < nxt) as Hlt by (eapply i_fresh_h; eauto).
  pose proof (fun b s => no_claim hs own h b s Hn Hsl) as Hnc.
  set (hd' := if b then HMulti (Multishot.Submitted s ud) else HOne (Oneshot.Submitted s)).
  assert (handle_slot hd' = Some (b, s)) as Hsl' by by destruct b.
  assert (forall own' c s', claim (<[h := hd']> hs) own' c s' h <-> b = c /\ s = s') as Hcl.
  { intros own' c s'. rewrite claim_live by apply lookup_insert_eq. rewrite Hsl'. naive_solver. }
  eapply (inv_local _ _ _ _ _ _ _ _ _ _ _ _ _ _ _ _ _ h); [exact I| |lia|lia|].
  { rewrite fmap_insert. cbn. apply ring_ok_push; [|apply I]. by rewrite lookup_fmap, Hud. }
  split; cbn.
  - intros k Hk. by rewrite lookup_insert_ne.
  - intros k Hk. by rewrite lookup_insert_ne.
  - intros k Hk. by rewrite lookup_insert_ne.
  - by apply (own_insert_ne own ud (Req h s b t)).
  - intros u p E Ek. rewrite !lookup_insert_ne by congruence. auto.
  - intros u rq E. destruct (decide (u = ud)) as [->|]; simplify_map_eq; [done|by apply I].
  - intros u p E Ek. destruct (decide (u = ud)) as [->|]; simplify_map_eq; [done|by eapply I].
  - intros u1 u2 r1 r2 E1 E2 Eo1 Eo2.
    rewrite lookup_insert_Some in E1, E2.
    destruct E1 as [[<- <-]|[? E1]], E2 as [[<- <-]|[? E2]]; try done;
      [by apply Hn in E2|by apply Hn in E1..].
  - intros x. rewrite lookup_insert_eq. split.
    + intros [= <-]. exists ud, (Req h s b t). by rewrite lookup_insert_eq.
    + intros (u & rq & E & Eo & ->). rewrite lookup_insert_Some in E.
      destruct E as [[<- <-]|[? E]]; [done|]. by apply Hn in E.
  - rewrite !lookup_insert_eq. destruct b; cbn.
    + rewrite !lookup_insert_eq. eauto.
    + rewrite lookup_insert_eq. split; [done|]. exists ud, t. by rewrite lookup_insert_eq.
  - intros u rq _ _. by rewrite lookup_insert_eq.
  - destruct b.
    + same_slots I. intros s'. rewrite Hcl. split; [naive_solver|]. intros []%Hnc.
    + apply slot_upd_add; [apply I|done| |auto]. intros s'. rewrite Hcl. naive_solver.
  - destruct b.
    + apply slot_upd_add; [apply I|done| |auto]. intros s'. rewrite Hcl. naive_solver.
    + same_slots I. intros s'. rewrite Hcl. split; [naive_solver|]. intros []%Hnc.
Qed.

Lemma inv_one_submitted v P O M hs nxt own a h s :
  inv v P O M hs nxt own a -> hs !! h = Some (HOne (Oneshot.Submitted s)) ->
  (a_mail a !! h = Some AOneWait /\ O !! s = Some RsPending /\ has_request own h s false) \/
  (exists r, a_mail a !! h = Some (AOneReady r) /\ O !! s = Some (RsSet r) /\
             no_request own h).
Proof.
  intros I Hh. pose proof (i_handle I h) as Hok. rewrite Hh in Hok.
  destruct (a_mail a !! h) as [[]|]; cbn in Hok; naive_solver.
Qed.

Lemma inv_multi_submitted v P O M hs nxt own a h s ud :
  inv v P O M hs nxt own a -> hs !! h = Some (HMulti (Multishot.Submitted s ud)) ->
  exists q fin, a_mail a !! h = Some (AMultiLive q fin) /\ M !! s = Some (q, false, fin) /\
    (exists t, P !! ud = Some (MkPending t s Multi)) /\
    if fin then no_request own h /\ own !! ud = None
    else exists t, own !! ud = Some (Req h s true t).
Proof.
  intros I Hh. pose proof (i_handle I h) as Hok. rewrite Hh in Hok.
  destruct (a_mail a !! h) as [[]|]; cbn in Hok; naive_solver.
Qed.

Lemma inv_slotless v P O M hs nxt own a h hd :
  inv v P O M hs nxt own a -> hs !! h = Some hd -> handle_slot hd = None ->
  no_request own h.
Proof.
  intros I Hh Hs. pose proof (i_handle I h) as Hok. rewrite Hh in Hok.
  destruct hd as [[]|[]], (a_mail a !! h) as [[]|]; cbn in *; naive_solver.
Qed.

(** A live handle whose operation is over gives up its oneshot slot. *)
Lemma inv_release v P O M hs hs' nxt own a a' h s :
  inv v P O M hs nxt own a ->
  hs !! h = Some (HOne (Oneshot.Submitted s)) -> no_request own h ->
  (forall k, k <> h -> hs' !! k = hs !! k) ->
  (forall k, k <> h -> a_mail a' !! k = a_mail a !! k) ->
  a_out a' = a_out a -> (hs' !! h) ≫= handle_slot = None ->
  (forall O' : gmap nat ResultState, handle_ok P O' M own h (hs' !! h) (a_mail a' !! h)) ->
  inv v P (delete s O) M hs' nxt own a'.
Proof.
  intros I Hh Hn Hhs Hm Ho Hs Hok.
  pose proof (fun b s => no_claim hs' own h b s Hn Hs) as Hnc.
  assert (forall b s', claim hs own b s' h <-> b = false /\ s' = s) as Hcl.
  { intros b s'. rewrite (claim_live hs own h _ b s' Hh). cbn. naive_solver. }
  eapply (inv_local _ _ _ _ _ _ _ _ _ _ _ _ _ _ _ _ _ h);
    [exact I|apply I|lia|eapply i_fresh_h; eauto|].
  split; try done; try solve [apply I].
  - intros k Hk. by rewrite Ho.
  - intros u1 u2 r1 r2 E1 _ Eo _. by apply Hn in E1.
  - rewrite Ho. apply (i_out I).
  - intros ud rq E Eo. by apply Hn in E.
  - apply slot_upd_del; [apply I| |apply Hnc]. intros s'. rewrite Hcl. naive_solver.
  - same_slots I. intros s'. rewrite Hcl. split; [by intros []%Hnc|naive_solver].
Qed.

(** Dropping a handle that has no slot. *)
Lemma inv_drop_idle v P O M hs nxt own a h hd :
  inv v P O M hs nxt own a -> hs !! h = Some hd -> handle_slot hd = None ->
  inv v P O M (delete h hs) nxt own (AReactor (delete h (a_mail a)) (a_out a)).
Proof.
  intros I Hh Hs. pose proof (inv_slotless _ _ _ _ _ _ _ _ _ _ I Hh Hs) as Hn.
  assert ((delete h hs !! h) ≫= handle_slot = None) as Hs'
    by by rewrite lookup_delete_eq.
  pose proof (fun b s => no_claim (delete h hs) own h b s Hn Hs') as Hnc.
  assert ((hs !! h) ≫= handle_slot = None) as Hs0 by by rewrite Hh.
  pose proof (fun b s => no_claim hs own h b s Hn Hs0) as Hnc0.
  eapply (inv_local _ _ _ _ _ _ _ _ _ _ _ _ _ _ _ _ _ h);
    [exact I|apply I|lia|eapply i_fresh_h; eauto|].
  split; cbn; try done; try solve [apply I].
  - intros k Hk. by rewrite lookup_delete_ne.
  - intros k Hk. by rewrite lookup_delete_ne.
  - intros u1 u2 r1 r2 E1 _ Eo _. by apply Hn in E1.
  - by rewrite !lookup_delete_eq.
  - intros ud rq E Eo. by apply Hn in E.
  - same_slots I. intros s. split; [by intros []%Hnc|by intros []%Hnc0].
  - same_slots I. intros s. split; [by intros []%Hnc|by intros []%Hnc0].
Qed.

(** Dropping a handle whose operation is not over marks its slot. *)
Lemma inv_orphan v P O M hs nxt own a h hd s (b : bool) q :
  inv v P O M hs nxt own a -> hs !! h = Some hd -> handle_slot hd = Some (b, s) ->
  has_request own h s b ->
  inv v P (if b then O else <[s := RsDropped]> O)
    (if b then <[s := (q, true, false)]> M else M)
    (delete h hs) nxt own (AReactor (delete h (a_mail a)) (a_out a)).
Proof.
  intros I Hh Hs (ud & t & Hud).
  assert (forall ud' rq, own !! ud' = Some rq -> rq_owner rq = h -> rq = Req h s b t) as Hu.
  { intros ud' rq E Eo.
    assert (ud' = ud) as -> by by eapply (i_inj I).
    congruence. }
  assert (forall c s', claim hs own c s' h <-> b = c /\ s = s') as Hcl.
  { intros c s'. rewrite (claim_live hs own h _ c s' Hh), Hs. naive_solver. }
  assert (forall c s', claim (delete h hs) own c s' h <-> b = c /\ s = s') as Hcl'.
  { intros c s'. rewrite claim_dropped by apply lookup_delete_eq. split.
    - intros (ud' & rq & E & Eo & <- & <-). by rewrite (Hu _ _ E Eo).
    - intros [<- <-]. exists ud, (Req h s b t). done. }
  eapply (inv_local _ _ _ _ _ _ _ _ _ _ _ _ _ _ _ _ _ h);
    [exact I|apply I|lia|eapply i_fresh_h; eauto|].
  split; cbn; try done; try solve [apply I].
  - intros k Hk. by rewrite lookup_delete_ne.
  - intros k Hk. by rewrite lookup_delete_ne.
  - intros u1 u2 r1 r2 E1 E2 Eo1 Eo2. eapply (i_inj I); [done..|congruence].
  - by rewrite !lookup_delete_eq.
  - intros ud' rq E Eo _. rewrite (Hu _ _ E Eo). unfold orphan_ok.
    destruct b; cbn; rewrite lookup_insert_eq; eauto.
  - destruct b; [same_slots I|apply slot_upd_set; [apply I| |]].
    + intros s'. by rewrite Hcl, Hcl'.
    + by apply Hcl.
    + intros s'. by rewrite Hcl, Hcl'.
  - destruct b; [apply slot_upd_set; [apply I| |]|same_slots I].
    + by apply Hcl.
    + intros s'. by rewrite Hcl, Hcl'.
    + intros s'. by rewrite Hcl, Hcl'.
Qed.

(** Changing the queue of a live multishot handle. *)
Lemma inv_queue v P O M hs nxt own a h s ud q q' fin :
  inv v P O M hs nxt own a -> hs !! h = Some (HMulti (Multishot.Submitted s ud)) ->
  a_mail a !! h = Some (AMultiLive q fin) ->
  inv v P O (<[s := (q', false, fin)]> M) hs nxt own (put_mail h (AMultiLive q' fin) a).
Proof.
  intros I Hh Hm.
  assert (forall c s', claim hs own c s' h <-> true = c /\ s = s') as Hcl.
  { intros c s'. rewrite (claim_live hs own h _ c s' Hh). cbn. naive_solver. }
  pose proof (i_handle I h) as Hok. rewrite Hh, Hm in Hok.
  eapply (inv_local _ _ _ _ _ _ _ _ _ _ _ _ _ _ _ _ _ h);
    [exact I|apply I|lia|eapply i_fresh_h; eauto|].
  split; cbn; try done; try solve [apply I].
  - intros k Hk. by rewrite lookup_insert_ne.
  - intros u1 u2 r1 r2 E1 E2 Eo1 Eo2. eapply (i_inj I); [done..|congruence].
  - rewrite Hh, !lookup_insert_eq. cbn. rewrite lookup_insert_eq. by destruct Hok as [_ ?].
  - intros ud' rq E Eo Hd. congruence.
  - same_slots I. done.
  - apply slot_upd_set; [apply I|by apply Hcl|done].
Qed.

(** *** Completions *)
Lemma inv_request_live v P O M hs nxt own a ud rq hd :
  inv v P O M hs nxt own a -> own !! ud = Some rq -> hs !! rq_owner rq = Some hd ->
  if rq_multi rq
  then hd = HMulti (Multishot.Submitted (rq_slot rq) ud) /\
       exists q, a_mail a !! rq_owner rq = Some (AMultiLive q false) /\
                 M !! rq_slot rq = Some (q, false, false)
  else hd = HOne (Oneshot.Submitted (rq_slot rq)) /\
       a_mail a !! rq_owner rq = Some AOneWait /\ O !! rq_slot rq = Some RsPending.
Proof.
  intros I E Eh. pose proof (i_handle I (rq_owner rq)) as Hok. rewrite Eh in Hok.
  assert (forall u r, own !! u = Some r -> rq_owner r = rq_owner rq -> u = ud /\ r = rq) as Hu.
  { intros u r Er Eo. assert (u = ud) as -> by by eapply (i_inj I). naive_solver congruence. }
  assert (~ no_request own (rq_owner rq)) as Hn by (intros Hn; by apply Hn in E).
  destruct hd as [[|s|]|[|s u]], (a_mail a !! rq_owner rq) as [[]|]; cbn in Hok;
    try done; try (exfalso; naive_solver).
  - destruct Hok as (Hs & u & t & Er). destruct (Hu _ _ Er eq_refl) as [-> <-]. done.
  - destruct Hok as (Hs & _ & Hf). destruct fin; [naive_solver|].
    destruct Hf as [t Er]. destruct (Hu _ _ Er eq_refl) as [-> <-]. cbn. eauto.
Qed.

Lemma no_request_finished v P O M hs nxt own a ud rq :
  inv v P O M hs nxt own a -> own !! ud = Some rq ->
  no_request (delete ud own) (rq_owner rq).
Proof.
  intros I E u r Er Eo. apply lookup_delete_Some in Er as [Hne Er].
  by apply Hne, (i_inj I ud u rq r).
Qed.

(** The last completion of a request: only its owner is concerned. *)
Lemma inv_finish v v' P P' O O' M M' hs nxt own a ud rq m' :
  inv v P O M hs nxt own a -> own !! ud = Some rq ->
  ring_ok more v' (rq_multi <$> delete ud own) ->
  (P' = if rq_multi rq then P else delete ud P) ->
  let h := rq_owner rq in
  let own' := delete ud own in
  handle_ok P' O' M' own' h (hs !! h) (m' !! h) ->
  (forall k, k <> h -> m' !! k = a_mail a !! k) ->
  slot_upd O O' (claim hs own false) (claim hs own' false) h ->
  slot_upd M M' (claim hs own true) (claim hs own' true) h ->
  inv v' P' O' M' hs nxt own' (AReactor m' (delete h (a_out a))).
Proof.
  intros I E Hv EP h own' Hok Hm HO HM.
  pose proof (no_request_finished _ _ _ _ _ _ _ _ _ _ I E) as Hn. fold h own' in Hn.
  pose proof (i_pend I _ _ E) as EPud.
  assert (forall u p, P !! u = Some p -> (u = ud -> rq_multi rq = true) -> P' !! u = Some p) as HP.
  { intros u p Ep Hu. subst P'. destruct (rq_multi rq); [done|].
    rewrite lookup_delete_ne; [done|]. naive_solver. }
  eapply (inv_local _ _ _ _ _ _ _ _ _ _ _ _ _ _ _ _ _ h);
    [exact I|done|lia|by eapply (i_fresh_r I)|].
  split; cbn; try done.
  - intros k Hk. by rewrite lookup_delete_ne.
  - by apply (own_delete_ne own ud rq).
  - intros u p Ep Ek. split.
    + apply HP; [done|]. intros ->. rewrite EPud in Ep. injection Ep as <-.
      cbn in Ek. by destruct (rq_multi rq).
    + intros Hu. unfold own'. by rewrite lookup_delete_None; right.
  - intros u r Er. apply lookup_delete_Some in Er as [Hne Er].
    apply HP; [by apply (i_pend I)|]. by intros ->.
  - intros u p Ep Ek. unfold own'. rewrite lookup_delete_ne.
    + apply (i_pend_one I _ p); [|done]. subst P'.
      destruct (rq_multi rq); [done|]. by apply lookup_delete_Some in Ep as [_ ?].
    + intros <-. subst P'. destruct (rq_multi rq) eqn:Em.
      * rewrite EPud in Ep. injection Ep as <-. cbn in Ek. by rewrite Em in Ek.
      * by rewrite lookup_delete_eq in Ep.
  - intros u1 u2 r1 r2 E1 _ Eo _. by apply Hn in E1.
  - intros x. rewrite lookup_delete_eq. split; [done|].
    intros (u & r & Er & Eo & _). by apply Hn in Er.
  - intros u r Er Eo. by apply Hn in Er.
Qed.

Lemma claim_finished v P O M hs nxt own a ud rq :
  inv v P O M hs nxt own a -> own !! ud = Some rq ->
  (forall c s, claim hs own c s (rq_owner rq) <-> c = rq_multi rq /\ s = rq_slot rq) /\
  (hs !! rq_owner rq = None -> forall c s, ~ claim hs (delete ud own) c s (rq_owner rq)) /\
  (is_Some (hs !! rq_owner rq) -> forall c s,
     claim hs (delete ud own) c s (rq_owner rq) <-> c = rq_multi rq /\ s = rq_slot rq).
Proof.
  intros I E. pose proof (no_request_finished _ _ _ _ _ _ _ _ _ _ I E) as Hn.
  assert (forall hd, hs !! rq_owner rq = Some hd ->
            handle_slot hd = Some (rq_multi rq, rq_slot rq)) as Hl.
  { intros hd Eh. pose proof (inv_request_live _ _ _ _ _ _ _ _ _ _ _ I E Eh) as Hr.
    destruct (rq_multi rq); by destruct Hr as [-> _]. }
  split_and!.
  - intros c s. destruct (hs !! rq_owner rq) as [hd|] eqn:Eh.
    + rewrite (claim_live hs own _ hd c s Eh), (Hl hd) by done. naive_solver.
    + rewrite claim_dropped by done. split.
      * intros (u & r & Er & Eo & <- & <-).
        assert (u = ud) as -> by by eapply (i_inj I). naive_solver congruence.
      * intros [-> ->]. by exists ud, rq.
  - intros Eh c s. apply no_claim; [done|]. by rewrite Eh.
  - intros [hd Eh] c s. rewrite (claim_live hs _ _ hd c s Eh), (Hl hd) by done. naive_solver.
Qed.

(** The completion of a oneshot request. *)
Lemma inv_complete_one v v' P O M hs nxt own a ud rq r :
  inv v P O M hs nxt own a -> own !! ud = Some rq -> rq_multi rq = false ->
  ring_ok more v' (rq_multi <$> delete ud own) ->
  exists st, O !! rq_slot rq = Some st /\ (st = RsPending \/ st = RsDropped) /\
    inv v' (delete ud P)
      (match st with
       | RsDropped => delete (rq_slot rq) O
       | _ => <[rq_slot rq := RsSet r]> O
       end) M hs nxt (delete ud own)
      (AReactor (alter (deliver r false) (rq_owner rq) (a_mail a))
                (delete (rq_owner rq) (a_out a))).
Proof.
  intros I E Em Hv. pose proof (no_request_finished _ _ _ _ _ _ _ _ _ _ I E) as Hn.
  destruct (claim_finished _ _ _ _ _ _ _ _ _ _ I E) as (Hc & Hcn & Hcl).
  assert (delete ud P = if rq_multi rq then P else delete ud P) as EP by by rewrite Em.
  assert (forall k, k <> rq_owner rq ->
    alter (deliver r false) (rq_owner rq) (a_mail a) !! k = a_mail a !! k) as Hm.
  { intros k Hk. by rewrite lookup_alter_ne. }
  destruct (hs !! rq_owner rq) as [hd|] eqn:Eh.
  - pose proof (inv_request_live _ _ _ _ _ _ _ _ _ _ _ I E Eh) as Hr. rewrite Em in Hr.
    destruct Hr as (-> & Ema & Es). exists RsPending. split; [done|]. split; [by left|].
    specialize (Hcl ltac:(by eexists)).
    eapply (inv_finish v v'); try done.
    + rewrite Eh, lookup_alter_eq, Ema. cbn. by rewrite lookup_insert_eq.
    + apply slot_upd_set; [apply I|by apply Hc|]. intros s. by rewrite Hc, Hcl.
    + same_slots I. intros s. by rewrite Hc, Hcl.
  - pose proof (i_orphan I _ _ E Eh) as Ho. unfold orphan_ok in Ho. rewrite Em in Ho.
    exists RsDropped. split; [done|]. split; [by right|]. specialize (Hcn eq_refl).
    assert (a_mail a !! rq_owner rq = None) as Ema by by apply (inv_mail_none _ _ _ _ _ _ _ _ _ I).
    eapply (inv_finish v v'); try done.
    + by rewrite Eh, lookup_alter_eq, Ema.
    + apply slot_upd_del; [apply I| |apply Hcn]. intros s. rewrite Hc, Em. naive_solver.
    + same_slots I. intros s. rewrite Hc, Em. split; [by intros []%Hcn|naive_solver].
Qed.

(** The last completion of a multishot request. *)
Lemma inv_complete_multi v v' P O M hs nxt own a ud rq r :
  inv v P O M hs nxt own a -> own !! ud = Some rq -> rq_multi rq = true ->
  ring_ok more v' (rq_multi <$> delete ud own) ->
  exists q d, M !! rq_slot rq = Some (q, d, false) /\
    inv v' P O
      (if d : bool then delete (rq_slot rq) M
       else <[rq_slot rq := (bq_push q r, false, true)]> M) hs nxt (delete ud own)
      (AReactor (alter (deliver r false) (rq_owner rq) (a_mail a))
                (delete (rq_owner rq) (a_out a))).
Proof.
  intros I E Em Hv. pose proof (no_request_finished _ _ _ _ _ _ _ _ _ _ I E) as Hn.
  destruct (claim_finished _ _ _ _ _ _ _ _ _ _ I E) as (Hc & Hcn & Hcl).
  assert (P = if rq_multi rq then P else delete ud P) as EP by by rewrite Em.
  assert (forall k, k <> rq_owner rq ->
    alter (deliver r false) (rq_owner rq) (a_mail a) !! k = a_mail a !! k) as Hm.
  { intros k Hk. by rewrite lookup_alter_ne. }
  destruct (hs !! rq_owner rq) as [hd|] eqn:Eh.
  - pose proof (inv_request_live _ _ _ _ _ _ _ _ _ _ _ I E Eh) as Hr. rewrite Em in Hr.
    destruct Hr as (-> & q & Ema & Es). exists q, false. split; [done|].
    specialize (Hcl ltac:(by eexists)).
    eapply (inv_finish v v'); try done.
    + rewrite Eh, lookup_alter_eq, Ema. cbn. rewrite lookup_insert_eq, lookup_delete_eq.
      split; [done|]. split; [|done]. exists (rq_waker rq).
      rewrite (i_pend I _ _ E). unfold pending_of. by rewrite Em.
    + same_slots I. intros s. by rewrite Hc, Hcl.
    + apply slot_upd_set; [apply I|by apply Hc|]. intros s. by rewrite Hc, Hcl.
  - pose proof (i_orphan I _ _ E Eh) as Ho. unfold orphan_ok in Ho. rewrite Em in Ho.
    destruct Ho as [q Ho]. exists q, true. split; [done|]. specialize (Hcn eq_refl).
    assert (a_mail a !! rq_owner rq = None) as Ema by by apply (inv_mail_none _ _ _ _ _ _ _ _ _ I).
    eapply (inv_finish v v'); try done.
    + by rewrite Eh, lookup_alter_eq, Ema.
    + same_slots I. intros s. rewrite Hc, Em. split; [by intros []%Hcn|naive_solver].
    + apply slot_upd_del; [apply I| |apply Hcn]. intros s. rewrite Hc, Em. naive_solver.
Qed.

(** A completion that announces more of them. *)
Lemma inv_complete_more v v' P O M hs nxt own a ud rq r :
  inv v P O M hs nxt own a -> own !! ud = Some rq -> rq_multi rq = true ->
  ring_ok more v' (rq_multi <$> own) ->
  exists q d, M !! rq_slot rq = Some (q, d, false) /\
    inv v' P O (<[rq_slot rq := (bq_push q r, d, false)]> M) hs nxt own
      (AReactor (alter (deliver r true) (rq_owner rq) (a_mail a)) (a_out a)).
Proof.
  intros I E Em Hv.
  destruct (claim_finished _ _ _ _ _ _ _ _ _ _ I E) as (Hc & _ & _).
  assert (exists q d, M !! rq_slot rq = Some (q, d, false) /\
    handle_ok P O (<[rq_slot rq := (bq_push q r, d, false)]> M) own (rq_owner rq)
      (hs !! rq_owner rq) (alter (deliver r true) (rq_owner rq) (a_mail a) !! rq_owner rq) /\
    (hs !! rq_owner rq = None -> d = true)) as (q & d & Es & Hok & Hd).
  { rewrite lookup_alter_eq. destruct (hs !! rq_owner rq) as [hd|] eqn:Eh.
    - pose proof (inv_request_live _ _ _ _ _ _ _ _ _ _ _ I E Eh) as Hr. rewrite Em in Hr.
      destruct Hr as (-> & q & Ema & Es). exists q, false. split; [done|]. split; [|done].
      rewrite Ema. cbn. rewrite lookup_insert_eq. split; [done|].
      pose proof (i_handle I (rq_owner rq)) as Hok. rewrite Eh, Ema in Hok. apply Hok.
    - pose proof (i_orphan I _ _ E Eh) as Ho. unfold orphan_ok in Ho. rewrite Em in Ho.
      destruct Ho as [q Ho]. exists q, true. split; [done|]. split; [|done].
      assert (a_mail a !! rq_owner rq = None) as -> by by apply (inv_mail_none _ _ _ _ _ _ _ _ _ I).
      done. }
  exists q, d. split; [done|].
  eapply (inv_local _ _ _ _ _ _ _ _ _ _ _ _ _ _ _ _ _ (rq_owner rq));
    [exact I|done|lia|by eapply (i_fresh_r I)|].
  split; cbn; try done; try solve [apply I].
  - intros k Hk. by rewrite lookup_alter_ne.
  - intros u1 u2 r1 r2 E1 E2 Eo1 Eo2. eapply (i_inj I); [done..|congruence].
  - intros u x Ex Eo Eh. assert (u = ud) as -> by by eapply (i_inj I).
    assert (x = rq) as -> by congruence. unfold orphan_ok. rewrite Em, lookup_insert_eq.
    exists (bq_push q r). by rewrite (Hd Eh).
  - same_slots I. done.
  - apply slot_upd_set; [apply I|by apply Hc|done].
Qed.
End ops.
