(* ===== verification/System.v ===== *)
(** The reactor with its handles as one system, and the theorem that it
    implements the mailboxes of Mailbox.v.

    A state is the shared [ReactorInner] and the live handles (named by
    numbers never used twice); an operation is a call the futures or the
    executor can make.  [run_op] is built from the definitions of Io.v and
    Reactor.v only. *)
From S2P Require Import Prelude Crates Results Reactor Io RingFacts Mailbox Refinement RefineOps.

Inductive op (Entry T : Type) :=
  | ONew (multi : bool)
  | OPoll (h : nat) (e : Entry) (t : T)
  | ODrop (h : nat)
  | OReact
  | ONext.
Arguments ONew {Entry T}.
Arguments OPoll {Entry T}.
Arguments ODrop {Entry T}.
Arguments OReact {Entry T}.
Arguments ONext {Entry T}.

Section system.
Context {S : Type -> Type} `{SlabSpec S} {B : Type} `{RingBufferSpec B}.
Context {U Entry : Type} `{IoUringSpec U Entry} {T : Type}.

Record sys := Sys {
  s_ring : ReactorInner S B U T;
  s_hs : gmap nat handle;
  s_next : nat;
}.

Implicit Types (s : sys) (o : op Entry T).

Definition run_op s o : outcome (label T * sys) :=
  let '(Sys r hs n) := s in
  match o with
  | ONew multi =>
      let hd := if multi then HMulti Multishot.new else HOne Oneshot.new in
      mret (LNew n multi, Sys r (<[n := hd]> hs) (Datatypes.S n))
  | OPoll h e t =>
      match hs !! h with
      | Some (HOne io) =>
          '(p, io, r, _) ← Oneshot.submit_or_get_result io r tt (fun _ => mret (e, t, tt));
          mret (LPollOne h t p, Sys r (<[h := HOne io]> hs) n)
      | Some (HMulti io) =>
          '(p, io, r, _) ← Multishot.submit_or_get_result io r tt (fun _ => mret (e, t, tt));
          mret (LPollMulti h t p, Sys r (<[h := HMulti io]> hs) n)
      | None => Panic (Explicit "no such handle")
      end
  | ODrop h =>
      match hs !! h with
      | Some (HOne io) => r ← Oneshot.drop io r; mret (LDrop h, Sys r (delete h hs) n)
      | Some (HMulti io) => r ← Multishot.drop io r; mret (LDrop h, Sys r (delete h hs) n)
      | None => Panic (Explicit "no such handle")
      end
  | OReact => r ← react r; mret (LReact, Sys r hs n)
  | ONext =>
      '(item, r') ← next r;
      match item, cq_next (uring r) with
      | Some t, Some (c, _) =>
          mret (LComplete t (cqe_result c) (cq_more (cqe_flags c)), Sys r' hs n)
      | _, _ => mret (LReact, Sys r' hs n)
      end
  end.

(** The calls a well-typed client makes: on live handles, and with
    operations of the kind of the handle. *)
Definition enabled s o : Prop :=
  match o with
  | OPoll h e _ =>
      match s_hs s !! h with
      | Some (HOne _) => entry_multishot e = false
      | Some (HMulti _) => entry_multishot e = true
      | None => False
      end
  | ODrop h => is_Some (s_hs s !! h)
  | _ => True
  end.

(** The panics that depend on the kernel or on the load: the submission
    queue is full; [io_uring_enter] fails; a multishot operation to cancel
    is already over; a result is [i32::MIN]. *)
Definition may_panic s o (p : panic) : Prop :=
  match o with
  | OPoll h e t =>
      (p = UnwrapErr /\ RING_ENTRIES <= length (rv_sq (uring_view (uring (s_ring s)))) /\
       (s_hs s !! h = Some (HOne Oneshot.New) \/ s_hs s !! h = Some (HMulti Multishot.New))) \/
      p = ArithOverflow
  | ODrop h => p = UnwrapErr /\ exists slot ud,
      s_hs s !! h = Some (HMulti (Multishot.Submitted slot ud)) /\
      register_sync_cancel (uring (s_ring s)) ud = None
  | OReact => p = UnwrapErr
  | _ => False
  end.

Definition mview (m : S (MultishotResultState B)) : gmap nat mslot :=
  (fun e => (rb_view (results e), dropped e, finished e)) <$> slab_view m.

Definition caps_ok (m : S (MultishotResultState B)) : Prop :=
  forall k e, slab_view m !! k = Some e -> rb_cap (results e) = RESULTS_CAP.

(** The simulation relation. *)
Definition inv_sys (r : ReactorInner S B U T) (hs : gmap nat handle) (n : nat)
    (own : gmap nat (request T)) (a : areactor T) : Prop :=
  inv cq_more (uring_view (uring r)) (slab_view (pending r))
      (slab_view (oneshot (ring_results r))) (mview (multishot (ring_results r)))
      hs n own a /\
  caps_ok (multishot (ring_results r)) /\ uring_cap (uring r) = RING_ENTRIES.

Definition refines s (a : areactor T) : Prop :=
  exists own, inv_sys (s_ring s) (s_hs s) (s_next s) own a.

(** What has to be shown of each operation. *)
Definition op_ok s o (a : areactor T) : Prop :=
  match run_op s o with
  | Ret (l, s') => exists a', astep a l a' /\ refines s' a'
  | Panic p => may_panic s o p
  | Hang => o = OReact
  | NoFuel => False
  end.

Lemma mview_lookup m k e :
  slab_view m !! k = Some e ->
  mview m !! k = Some (rb_view (results e), dropped e, finished e).
Proof. intros E. unfold mview. by rewrite lookup_fmap, E. Qed.

Lemma mview_lookup_inv m k q d f :
  mview m !! k = Some (q, d, f) ->
  exists e, slab_view m !! k = Some e /\ rb_view (results e) = q /\
            dropped e = d /\ finished e = f.
Proof.
  unfold mview. rewrite lookup_fmap. destruct (slab_view m !! k) as [e|]; cbn; [|done].
  intros [= <- <- <-]. by exists e.
Qed.

Lemma mview_insert m m' k e :
  slab_view m' = <[k := e]> (slab_view m) ->
  mview m' = <[k := (rb_view (results e), dropped e, finished e)]> (mview m).
Proof. intros E. unfold mview. by rewrite E, fmap_insert. Qed.

Lemma mview_delete m m' k :
  slab_view m' = delete k (slab_view m) -> mview m' = delete k (mview m).
Proof. intros E. unfold mview. by rewrite E, fmap_delete. Qed.

Lemma caps_insert m m' k e :
  slab_view m' = <[k := e]> (slab_view m) -> caps_ok m ->
  rb_cap (results e) = RESULTS_CAP -> caps_ok m'.
Proof.
  intros E Hm He k' e'. rewrite E, lookup_insert_Some. intros [[_ <-]|[_ ?]]; [done|].
  by eapply Hm.
Qed.

Lemma caps_delete m m' k :
  slab_view m' = delete k (slab_view m) -> caps_ok m -> caps_ok m'.
Proof. intros E Hm k' e'. rewrite E, lookup_delete_Some. intros [_ ?]. by eapply Hm. Qed.

Lemma op_ok_new s a multi : refines s a -> op_ok s (ONew multi) a.
Proof.
  destruct s as [r hs n]. intros (own & I & Hc & Hcap). unfold op_ok. cbn in *.
  exists (put_mail n (if multi then AMultiNew else AOneNew) a). split.
  - destruct (inv_fresh_owner _ _ _ _ _ _ _ _ _ I) as [Hh Hn].
    constructor; [|by eapply inv_out_none].
    by apply (inv_mail_none _ _ _ _ _ _ _ _ _ _ I).
  - exists own. split; [|done]. cbn. by apply inv_new.
Qed.

(** A handle that has submitted nothing submits. *)
Lemma submit_io_ok r hs n own a h e t (b : bool) :
  inv_sys r hs n own a ->
  hs !! h = Some (if b then HMulti Multishot.New else HOne Oneshot.New) ->
  entry_multishot e = b ->
  match submit_io r e t (kind_of b) with
  | Ret (ud, slot, r') => exists own',
      inv_sys r' (<[h := if b then HMulti (Multishot.Submitted slot ud)
                         else HOne (Oneshot.Submitted slot)]> hs) n own'
        (put_out h t b (put_mail h (if b then AMultiLive [] false else AOneWait) a))
  | Panic p => p = UnwrapErr /\ RING_ENTRIES <= length (rv_sq (uring_view (uring r)))
  | _ => False
  end.
Proof.
  intros (I & Hc & Hcap) Hh He. unfold submit_io.
  destruct r as [u pend [o m]]. cbn in *.
  destruct b; cbn [kind_of].
  - destruct (MultishotStore.create_slot m) as [slot m'] eqn:Em.
    destruct (multishot_create_slot_spec _ _ _ Em) as [Hs Vm].
    destruct (slab_insert pend (MkPending t slot Multi)) as [ud pend'] eqn:Ep.
    destruct (slab_insert_spec _ _ _ _ _ Ep) as [Hud Vp].
    destruct (sq_push u e ud) as [u'|] eqn:Eu; cbn.
    + destruct (sq_push_some _ _ _ _ Eu) as [Vu Cu].
      destruct (rb_new_spec (B:=B) RESULTS_CAP) as [N1 N2].
      exists (<[ud := Req h slot true t]> own). split; [|split].
      * cbn. rewrite Vu, Vp, He, (mview_insert _ _ _ _ Vm). cbn. rewrite N1.
        refine (inv_submit _ _ _ _ _ _ _ _ _ h slot ud t true I Hh Hud _).
        unfold mview. by rewrite lookup_fmap, Hs.
      * cbn. by eapply caps_insert.
      * cbn. congruence.
    + apply sq_push_none in Eu. by rewrite Hcap in Eu.
  - destruct (OneshotStore.create_slot o) as [slot o'] eqn:Eo.
    destruct (oneshot_create_slot_spec _ _ _ Eo) as [Hs Vo].
    destruct (slab_insert pend (MkPending t slot Oneshot)) as [ud pend'] eqn:Ep.
    destruct (slab_insert_spec _ _ _ _ _ Ep) as [Hud Vp].
    destruct (sq_push u e ud) as [u'|] eqn:Eu; cbn.
    + destruct (sq_push_some _ _ _ _ Eu) as [Vu Cu].
      exists (<[ud := Req h slot false t]> own). split; [|split; [done|cbn; congruence]].
      cbn. rewrite Vu, Vp, He, Vo.
      exact (inv_submit _ _ _ _ _ _ _ _ _ h slot ud t false I Hh Hud Hs).
    + apply sq_push_none in Eu. by rewrite Hcap in Eu.
Qed.

Lemma to_result_panic v p : reactor_value_to_result v = Panic p -> p = ArithOverflow.
Proof. unfold reactor_value_to_result. repeat case_match; intros; by simplify_eq. Qed.

Lemma to_result_ret v :
  (exists r, reactor_value_to_result v = Ret r) \/
  reactor_value_to_result v = Panic ArithOverflow.
Proof. unfold reactor_value_to_result. repeat case_match; eauto. Qed.

Lemma op_ok_poll_one r hs n a h io e t :
  refines (Sys r hs n) a -> hs !! h = Some (HOne io) -> entry_multishot e = false ->
  op_ok (Sys r hs n) (OPoll h e t) a.
Proof.
  intros (own & Hinv) Hh He. cbn in Hinv. unfold op_ok. cbn. rewrite Hh.
  destruct io as [|slot|v]; cbn.
  - pose proof (submit_io_ok r hs n own a h e t false Hinv Hh He) as Hsub.
    cbn [kind_of] in Hsub.
    destruct (submit_io r e t Oneshot) as [[[ud slot] r']|p| |]; cbn; [|naive_solver..].
    destruct Hsub as (own' & I'). destruct Hinv as (I & _).
    eexists. split; [|by exists own'].
    pose proof (inv_slotless _ _ _ _ _ _ _ _ _ _ _ I Hh eq_refl) as Hn.
    constructor; [|by eapply inv_out_none].
    pose proof (i_handle I h) as Hok. rewrite Hh in Hok.
    by destruct (a_mail a !! h) as [[]|].
  - destruct Hinv as (I & Hc & Hcap). destruct r as [u pend [o m]]. cbn in *.
    destruct (inv_one_submitted _ _ _ _ _ _ _ _ _ _ _ I Hh) as [(Em & Es & _)|(v & Em & Es & Hn)].
    + unfold RingResults.get_oneshot. cbn. rewrite get_result_pending by done. cbn.
      exists a. split; [by constructor|]. exists own. split; [|done]. cbn.
      by rewrite insert_id.
    + unfold RingResults.get_oneshot. cbn.
      destruct (get_result_set o slot v Es) as (o' & -> & Vo). cbn.
      destruct (to_result_ret v) as [[x Hx]|Hx]; rewrite Hx; cbn; [|by right].
      eexists. split; [by eapply A_one_ready|]. exists own. split; [|done]. cbn.
      rewrite Vo. eapply (inv_release _ _ _ _ _ _ _ _ _ _ _ h slot I Hh Hn).
      * intros k Hk. by rewrite lookup_insert_ne.
      * intros k Hk. cbn. by rewrite lookup_insert_ne.
      * done.
      * by rewrite lookup_insert_eq.
      * intros O'. cbn. by rewrite !lookup_insert_eq.
  - destruct Hinv as (I & Hc & Hcap).
    destruct (to_result_ret v) as [[x Hx]|Hx]; rewrite Hx; cbn; [|by right].
    exists a. split.
    + pose proof (i_handle I h) as Hok. rewrite Hh in Hok.
      destruct (a_mail a !! h) as [[]|] eqn:Em; try done. destruct Hok as [<- _].
      by eapply A_one_again.
    + exists own. split; [|done]. cbn. by rewrite insert_id.
Qed.

Lemma op_ok_poll_multi r hs n a h io e t :
  refines (Sys r hs n) a -> hs !! h = Some (HMulti io) -> entry_multishot e = true ->
  op_ok (Sys r hs n) (OPoll h e t) a.
Proof.
  intros (own & Hinv) Hh He. cbn in Hinv. unfold op_ok. cbn. rewrite Hh.
  destruct io as [|slot ud]; cbn.
  - pose proof (submit_io_ok r hs n own a h e t true Hinv Hh He) as Hsub.
    cbn [kind_of] in Hsub.
    destruct (submit_io r e t Multi) as [[[ud slot] r']|p| |]; cbn; [|naive_solver..].
    destruct Hsub as (own' & I'). destruct Hinv as (I & _).
    eexists. split; [|by exists own'].
    pose proof (inv_slotless _ _ _ _ _ _ _ _ _ _ _ I Hh eq_refl) as Hn.
    constructor; [|by eapply inv_out_none].
    pose proof (i_handle I h) as Hok. rewrite Hh in Hok.
    by destruct (a_mail a !! h) as [[]|].
  - destruct Hinv as (I & Hc & Hcap). destruct r as [u pend [o m]]. cbn in *.
    destruct (inv_multi_submitted _ _ _ _ _ _ _ _ _ _ _ _ I Hh) as (q & fin & Em & Es & _).
    destruct (mview_lookup_inv _ _ _ _ _ Es) as (x & Hx & Eq & Ed & Ef).
    unfold RingResults.get_multishot. cbn.
    destruct (pop_result_spec m slot x Hx) as (m' & -> & Vm). cbn.
    destruct (rb_dequeue_spec (results x)) as (_ & D2 & D3).
    assert (exists own', inv_sys
              (MkReactor u pend (RingResults.put_multishot (MkResults o m) m'))
              hs n own' (put_mail h (AMultiLive (tail q) fin) a)) as (own' & I').
    { exists own. split; [|split; [|done]]; cbn.
      - rewrite (mview_insert _ _ _ _ Vm). cbn. rewrite D2, Eq, Ed, Ef.
        by eapply inv_queue.
      - eapply caps_insert; [done|done|]. cbn. rewrite D3. by eapply Hc. }
    assert (refines (Sys (MkReactor u pend (RingResults.put_multishot (MkResults o m) m'))
              (<[h := HMulti (Multishot.Submitted slot ud)]> hs) n)
              (put_mail h (AMultiLive (tail q) fin) a)) as R'.
    { exists own'. cbn. by rewrite insert_id. }
    unfold pop_answer. rewrite Eq, Ef. destruct q as [|v q]; cbn [tail] in R'.
    + assert (put_mail h (AMultiLive [] fin) a = a) as Ea.
      { destruct a as [ml ao]. unfold put_mail. cbn in *. by rewrite insert_id. }
      rewrite Ea in R'. destruct fin; cbn; (eexists; split; [by constructor|done]).
    + destruct (to_result_ret v) as [[y Hy]|Hy]; rewrite Hy; cbn; [|by right].
      eexists. split; [by eapply A_multi_item|done].
Qed.

Lemma op_ok_drop_one r hs n a h io :
  refines (Sys r hs n) a -> hs !! h = Some (HOne io) -> op_ok (Sys r hs n) (ODrop h) a.
Proof.
  intros (own & I & Hc & Hcap) Hh. unfold op_ok. cbn in *. rewrite Hh.
  assert (exists m, a_mail a !! h = Some m) as [ml Em].
  { destruct (a_mail a !! h) eqn:E; [by eexists|].
    apply (inv_mail_none _ _ _ _ _ _ _ _ _ _ I) in E. congruence. }
  set (a' := AReactor (delete h (a_mail a)) (a_out a)).
  assert (astep a (LDrop h) a') as Ha by by eapply A_drop.
  destruct r as [u pend [o m]]. cbn in *.
  destruct io as [|slot|v]; cbn.
  - exists a'. split; [done|]. exists own. split; [|done]. cbn. by eapply inv_drop_idle.
  - unfold RingResults.get_oneshot. cbn.
    destruct (inv_one_submitted _ _ _ _ _ _ _ _ _ _ _ I Hh) as [(_ & Es & Hr)|(v & _ & Es & Hn)].
    + destruct (oneshot_drop_result_spec o slot _ Es) as (o' & -> & Vo). cbn.
      exists a'. split; [done|]. exists own. split; [|done]. cbn. rewrite Vo.
      exact (inv_orphan _ _ _ _ _ _ _ _ _ _ _ _ false [] I Hh eq_refl Hr).
    + destruct (oneshot_drop_result_spec o slot _ Es) as (o' & -> & Vo). cbn.
      exists a'. split; [done|]. exists own. split; [|done]. cbn. rewrite Vo.
      eapply (inv_release _ _ _ _ _ _ _ _ _ _ _ h slot I Hh Hn); cbn.
      * intros k Hk. by rewrite lookup_delete_ne.
      * intros k Hk. by rewrite lookup_delete_ne.
      * done.
      * by rewrite lookup_delete_eq.
      * intros O'. by rewrite !lookup_delete_eq.
  - exists a'. split; [done|]. exists own. split; [|done]. cbn. by eapply inv_drop_idle.
Qed.

Lemma op_ok_drop_multi r hs n a h io :
  refines (Sys r hs n) a -> hs !! h = Some (HMulti io) -> op_ok (Sys r hs n) (ODrop h) a.
Proof.
  intros (own & I & Hc & Hcap) Hh. unfold op_ok. cbn in *. rewrite Hh.
  assert (exists m, a_mail a !! h = Some m) as [ml Em].
  { destruct (a_mail a !! h) eqn:E; [by eexists|].
    apply (inv_mail_none _ _ _ _ _ _ _ _ _ _ I) in E. congruence. }
  set (a' := AReactor (delete h (a_mail a)) (a_out a)).
  assert (astep a (LDrop h) a') as Ha by by eapply A_drop.
  destruct r as [u pend [o m]]. cbn in *.
  destruct io as [|slot ud]; cbn.
  - exists a'. split; [done|]. exists own. split; [|done]. cbn. by eapply inv_drop_idle.
  - destruct (register_sync_cancel u ud) as [u'|] eqn:Eu; cbn; [|eauto].
    destruct (register_sync_cancel_some _ _ _ Eu) as (Hfly & Hk & _ & Hcap').
    destruct (inv_multi_submitted _ _ _ _ _ _ _ _ _ _ _ _ I Hh) as (q & fin & _ & Es & _ & Hf).
    destruct fin.
    { (* a request in flight is live *)
      exfalso. destruct Hf as [_ Hf]. apply list_elem_of_fmap in Hfly as ([ud' b] & -> & Hin).
      pose proof (ro_flag _ _ _ (i_ring I) ud' b) as Hfl. cbn in Hf.
      rewrite lookup_fmap, Hf in Hfl. by ospecialize (Hfl _); [set_solver|]. }
    destruct (mview_lookup_inv _ _ _ _ _ Es) as (x & Hx & Eq & Ed & Ef).
    unfold RingResults.get_multishot. cbn.
    destruct (multishot_drop_result_spec m slot x Hx) as (m' & -> & Vm). cbn.
    rewrite Ef in Vm. exists a'. split; [done|]. exists own. split; [|split]; cbn.
    + rewrite (mview_insert _ _ _ _ Vm). cbn.
      apply (inv_ring _ (uring_view u)); [|eapply ring_ok_ksteps; [done|apply I]].
      refine (inv_orphan _ _ _ _ _ _ _ _ _ _ _ _ true _ I Hh eq_refl _).
      destruct Hf as [t Hf]. by exists ud, t.
    + eapply caps_insert; [done|done|]. cbn. by eapply Hc.
    + congruence.
Qed.

Lemma op_ok_react s a : refines s a -> op_ok s OReact a.
Proof.
  destruct s as [r hs n]. intros (own & I & Hc & Hcap). unfold op_ok, run_op, react. cbn in *.
  destruct (submit_and_wait (uring r) 1) as [u| |] eqn:Eu; cbn; [|done..].
  destruct (submit_and_wait_ok _ _ _ Eu) as (Hk & _ & Hcap').
  destruct (completion_spec u) as [Hk' Hcap''].
  exists a. split; [by constructor|]. exists own. split; [|split; cbn; [done|congruence]]. cbn.
  eapply inv_ring; [exact I|]. eapply ring_ok_ksteps; [exact Hk'|].
  eapply ring_ok_ksteps; [exact Hk|]. apply ring_ok_submit, I.
Qed.

Lemma ring_view_eta v cq sq fly :
  rv_cq v = cq -> rv_sq v = sq -> rv_fly v = fly -> v = RingView sq fly cq.
Proof. destruct v. naive_solver. Qed.

(** *** The arms of the completion iterator *)
Section arms.
Context (u u' : U) (pend : S (PendingIo T)) (o : S ResultState) (m : S (MultishotResultState B)).
Context (hs : gmap nat handle) (n : nat) (own : gmap nat (request T)) (a : areactor T).
Context (ud : nat) (rq : request T) (v : Z).
Context (Hinv : inv_sys (MkReactor u pend (MkResults o m)) hs n own a).
Context (Ho : own !! ud = Some rq) (Hcap : uring_cap u' = uring_cap u).

Abbreviation delivered more := (alter (deliver v more) (rq_owner rq) (a_mail a)).

Lemma complete_one_ok :
  rq_multi rq = false -> ring_ok cq_more (uring_view u') (rq_multi <$> delete ud own) ->
  exists (o' : S ResultState) pend', OneshotStore.set_result o v (rq_slot rq) = Ret o' /\
    slab_remove pend ud = Ret (pending_of rq, pend') /\
    refines (Sys (MkReactor u' pend' (MkResults o' m)) hs n)
      (AReactor (delivered false) (delete (rq_owner rq) (a_out a))).
Proof.
  intros Em Hring. destruct Hinv as (I & Hc & Hcap0). cbn in *.
  pose proof (i_pend I _ _ Ho) as Ep.
  destruct (inv_complete_one _ _ _ _ _ _ _ _ _ _ _ rq v I Ho Em Hring) as (st & Es & Hst & I').
  destruct (set_result_spec o v _ st Es) as (o' & -> & Vo).
  destruct (slab_remove_returns pend _ _ Ep) as (pend' & -> & Vp).
  exists o', pend'. split; [done|]. split; [done|].
  exists (delete ud own). split; [|split; [done|cbn; congruence]].
  cbn. rewrite Vo, Vp. destruct Hst as [-> | ->]; exact I'.
Qed.

Lemma complete_more_ok :
  rq_multi rq = true -> ring_ok cq_more (uring_view u') (rq_multi <$> own) ->
  exists m', MultishotStore.push_result m v (rq_slot rq) = Ret m' /\
    refines (Sys (MkReactor u' pend (MkResults o m')) hs n) (AReactor (delivered true) (a_out a)).
Proof.
  intros Em Hring. destruct Hinv as (I & Hc & Hcap0). cbn in *.
  destruct (inv_complete_more _ _ _ _ _ _ _ _ _ _ _ rq v I Ho Em Hring) as (q & d & Es & I').
  destruct (mview_lookup_inv _ _ _ _ _ Es) as (x & Hx & Eq & Ed & Ef).
  destruct (push_result_spec m v _ x Hx) as (m' & -> & Vm).
  destruct (rb_push_spec (results x) v) as [P1 P2].
  exists m'. split; [done|]. exists own. split; [|split]; cbn.
  - rewrite (mview_insert _ _ _ _ Vm). cbn. rewrite P1, Eq, Ed, Ef, (Hc _ _ Hx). exact I'.
  - eapply caps_insert; [done|done|]. cbn. rewrite P2. by eapply Hc.
  - congruence.
Qed.

Lemma complete_last_ok :
  rq_multi rq = true -> ring_ok cq_more (uring_view u') (rq_multi <$> delete ud own) ->
  exists m' m'', MultishotStore.push_result m v (rq_slot rq) = Ret m' /\
    MultishotStore.set_finished m' (rq_slot rq) = Ret m'' /\
    refines (Sys (MkReactor u' pend (MkResults o m'')) hs n)
      (AReactor (delivered false) (delete (rq_owner rq) (a_out a))).
Proof.
  intros Em Hring. destruct Hinv as (I & Hc & Hcap0). cbn in *.
  destruct (inv_complete_multi _ _ _ _ _ _ _ _ _ _ _ rq v I Ho Em Hring) as (q & d & Es & I').
  destruct (mview_lookup_inv _ _ _ _ _ Es) as (x & Hx & Eq & Ed & Ef).
  destruct (push_result_spec m v _ x Hx) as (m' & -> & Vm).
  destruct (rb_push_spec (results x) v) as [P1 P2].
  edestruct (set_finished_spec m' (rq_slot rq)) as (m'' & E & Vm'); [rewrite Vm; by apply lookup_insert_eq|].
  exists m', m''. split; [done|]. split; [done|].
  assert (caps_ok m') as Hc'. { eapply caps_insert; [done|done|]. cbn. rewrite P2. by eapply Hc. }
  exists (delete ud own). cbn in Vm'. rewrite Ed in Vm'. destruct d; (split; [|split; cbn; [|congruence]]); cbn.
  - rewrite (mview_delete _ _ _ Vm'), (mview_insert _ _ _ _ Vm), delete_insert_eq. exact I'.
  - by eapply caps_delete.
  - rewrite (mview_insert _ _ _ _ Vm'), (mview_insert _ _ _ _ Vm), insert_insert_eq.
    cbn. rewrite P1, Eq, (Hc _ _ Hx). exact I'.
  - eapply caps_insert; [done|done|]. cbn. rewrite P2. by eapply Hc.
Qed.
End arms.

Lemma op_ok_next s a : refines s a -> op_ok s ONext a.
Proof.
  destruct s as [[u pend [o m]] hs n]. intros (own & Hinv). pose proof Hinv as (I & _).
  unfold op_ok, run_op, next. cbn in I |- *.
  destruct (cq_next u) as [[c u']|] eqn:Eu; cbn.
  2: { exists a. split; [by constructor|]. by exists own. }
  destruct (cq_next_some _ _ _ Eu) as (Ecq & Esq & Efly & Hcap).
  pose proof (ring_view_eta (uring_view u') _ _ _ eq_refl Esq Efly) as Ev.
  destruct (ring_ok_consume _ _ _ c _ Ecq (i_ring I)) as (b & Hb & Hring). rewrite <- Ev in Hring.
  rewrite lookup_fmap in Hb. destruct (own !! cqe_user_data c) as [rq|] eqn:Eo; [|done].
  cbn in Hb. injection Hb as <-. rewrite slab_get_spec, (i_pend I _ _ Eo). cbn.
  assert (a_out a !! rq_owner rq = Some (rq_waker rq, rq_multi rq)) as Eout by (apply (i_out I); eauto).
  destruct (rq_multi rq) eqn:Em, (cq_more (cqe_flags c)) eqn:Emore; cbn;
    unfold RingResults.get_oneshot, RingResults.get_multishot; cbn.
  - destruct Hring as [_ Hring].
    edestruct (complete_more_ok u u') as (m' & -> & Hr'); [done..|]. cbn.
    eexists. split; [by eapply (A_complete _ _ _ _ _ true)|exact Hr'].
  - rewrite <- fmap_delete in Hring.
    edestruct (complete_last_ok u u') as (m' & m'' & -> & E & Hr'); [done..|]. cbn. rewrite E. cbn.
    eexists. split; [by eapply (A_complete _ _ _ _ _ false)|exact Hr'].
  - by destruct Hring.
  - rewrite <- fmap_delete in Hring.
    edestruct (complete_one_ok u u') as (o' & pend' & -> & E & Hr'); [done..|]. cbn. rewrite E. cbn.
    eexists. split; [by eapply (A_complete _ _ _ _ _ false)|exact Hr'].
Qed.

Theorem run_op_ok s a o : refines s a -> enabled s o -> op_ok s o a.
Proof.
  intros Hr He. destruct o as [multi|h e t|h| |].
  - by apply op_ok_new.
  - destruct s as [r hs n]. cbn in He. destruct (hs !! h) as [[io|io]|] eqn:Eh; [..|done].
    + by eapply op_ok_poll_one.
    + by eapply op_ok_poll_multi.
  - destruct s as [r hs n]. cbn in He. destruct He as [[io|io] Eh].
    + by eapply op_ok_drop_one.
    + by eapply op_ok_drop_multi.
  - by apply op_ok_react.
  - by apply op_ok_next.
Qed.
End system.
Arguments sys S B U T : clear implicits.
