(* ===== verification/ReactorProps.v ===== *)
(** Properties of the reactor as a whole, from the simulation of System.v. *)
From S2P Require Import Prelude Crates CrateModels Results Reactor Io RingFacts Mailbox Refinement RefineOps System.

Section runs.
Context {S : Type -> Type} `{SlabSpec S} {B : Type} `{RingBufferSpec B}.
Context {U Entry : Type} `{IoUringSpec U Entry} {T : Type}.
Abbreviation sys := (sys S B U T).
Implicit Types (s : sys) (o : op Entry T).

(** A run: a sequence of calls, none of which panics or blocks for ever. *)
Inductive run : sys -> list (label T) -> sys -> Prop :=
  | run_nil s : run s [] s
  | run_snoc s tr s1 o l s2 :
      run s tr s1 -> enabled s1 o -> run_op s1 o = Ret (l, s2) -> run s (tr ++ [l]) s2.

Inductive arun : areactor T -> list (label T) -> areactor T -> Prop :=
  | arun_nil a : arun a [] a
  | arun_snoc a tr a1 l a2 : arun a tr a1 -> astep a1 l a2 -> arun a (tr ++ [l]) a2.

Definition a_init : areactor T := AReactor ∅ ∅.
Definition s_init (r : ReactorInner S B U T) : sys := Sys r ∅ 0.

Lemma refines_init r : reactor_new = Ret r -> refines (s_init r) a_init.
Proof.
  unfold reactor_new. destruct (uring_new RING_ENTRIES) as [u|] eqn:E; cbn; [|done].
  intros [= <-]. apply uring_new_spec in E as [Ev Ec]. exists ∅. split; [|split].
  - unfold a_init. cbn. unfold OneshotStore.new, MultishotStore.new, mview.
    rewrite Ev, !slab_new_spec, fmap_empty.
    split; cbn; try done.
    + rewrite fmap_empty. apply ring_ok_empty.
    + intros h x. rewrite lookup_empty. split; [done|]. intros (? & ? & E & _).
      by rewrite lookup_empty in E.
    + intros h [? E]. by rewrite lookup_empty in E.
    + split; [|intros s h1 h2 [(? & E & _)|(_ & ? & ? & E & _)]; by rewrite lookup_empty in E].
      intros s. rewrite lookup_empty. split; [by intros []|].
      intros (h & [(? & E & _)|(_ & ? & ? & E & _)]); by rewrite lookup_empty in E.
    + split; [|intros s h1 h2 [(? & E & _)|(_ & ? & ? & E & _)]; by rewrite lookup_empty in E].
      intros s. rewrite lookup_empty. split; [by intros []|].
      intros (h & [(? & E & _)|(_ & ? & ? & E & _)]); by rewrite lookup_empty in E.
  - cbn. unfold MultishotStore.new, caps_ok. rewrite slab_new_spec.
    intros k e E. by rewrite lookup_empty in E.
  - done.
Qed.

Lemma run_refines r tr s :
  reactor_new = Ret r -> run (s_init r) tr s ->
  exists a, arun a_init tr a /\ refines s a.
Proof.
  intros Hr Hrun. remember (s_init r) as s0 eqn:E0. induction Hrun as [s|s tr s1 o l s2 Hrun IH He Ho].
  - subst. exists a_init. split; [constructor|by apply refines_init].
  - destruct (IH E0) as (a1 & Ha & Hs1). pose proof (run_op_ok s1 a1 o Hs1 He) as Hok.
    unfold op_ok in Hok. rewrite Ho in Hok. destruct Hok as (a2 & Hstep & Hs2).
    exists a2. split; [by econstructor|done].
Qed.

(** C1: the reactor implements the mailboxes: whatever the order in which
    handles are created, polled and dropped and the kernel completes their
    operations, every run of the reactor, its result stores and its handles
    is, for their users, a run of the specification in which each handle has
    a mailbox of its own that only the completions of its own operation
    reach, and each completion wakes the task that submitted it. *)
Theorem reactor_refines_mailboxes r tr s :
  reactor_new = Ret r -> run (s_init r) tr s ->
  exists a, arun a_init tr a /\ refines s a.
Proof. apply run_refines. Qed.

(** C17: safety: in any reachable state no call on a live handle, and no
    processing of a completion, hits a missing or foreign slot: none of the
    [unwrap]s on a slab lookup, no [Slab::remove] and no [panic!] of the
    stores fails, and no call blocks except the wait for the kernel.  The only panics left are those
    of [may_panic]: a full submission queue, a failing [io_uring_enter], a
    multishot operation that is over when it is cancelled, a result equal to [i32::MIN]. *)
Theorem reactor_calls_safe r tr s o :
  reactor_new = Ret r -> run (s_init r) tr s -> enabled s o ->
  match run_op s o with
  | Ret _ => True
  | Panic p => may_panic s o p
  | Hang => o = OReact
  | NoFuel => False
  end.
Proof.
  intros Hr Hrun He. destruct (run_refines r tr s Hr Hrun) as (a & _ & Hs).
  pose proof (run_op_ok s a o Hs He) as Hok. unfold op_ok in Hok.
  destruct (run_op s o) as [[]| | |]; done.
Qed.

(** The user data of a submission identifies it: in any reachable state
    the requests queued, in flight or waiting with their last completion in the
    completion queue carry pairwise different user data, and each of
    these names an entry of the pending slab. *)
Theorem reactor_user_data_unique r tr s :
  reactor_new = Ret r -> run (s_init r) tr s ->
  let pl := places cq_more (uring_view (uring (s_ring s))) in
  NoDup pl /\ forall ud, ud ∈ pl -> is_Some (slab_get (pending (s_ring s)) ud).
Proof.
  intros Hr Hrun pl. destruct (run_refines r tr s Hr Hrun) as (a & _ & own & I & _).
  split; [apply (i_ring I)|]. intros ud Hud. apply (ro_live _ _ _ (i_ring I)) in Hud.
  rewrite lookup_fmap in Hud. destruct (own !! ud) as [rq|] eqn:E; [|by destruct Hud].
  rewrite slab_get_spec, (i_pend I _ _ E). eauto.
Qed.

End runs.

Section more_runs.
Context {S : Type -> Type} `{SlabSpec S} {B : Type} `{RingBufferSpec B}.
Context {U Entry : Type} `{IoUringSpec U Entry} {T : Type}.
Abbreviation sys := (sys S B U T).
Abbreviation reactor := (ReactorInner S B U T).
Implicit Types (s : sys) (o : op Entry T).

(** *** The completion loop *)
Lemma next_none (r : reactor) :
  next r = Ret (None, r) <-> rv_cq (uring_view (uring r)) = [].
Proof.
  rewrite <- cq_next_none. unfold next. destruct (cq_next (uring r)) as [[c u]|] eqn:E.
  - split; [|done]. intros Hn. exfalso.
    destruct (slab_get (pending r) (cqe_user_data c)) as [p|]; cbn in Hn; [|done].
    destruct (kind p); inv_bind; repeat case_match; inv_bind; naive_solver.
  - done.
Qed.

Lemma next_step (r : reactor) hs n a c cq :
  refines (Sys r hs n) a -> rv_cq (uring_view (uring r)) = c :: cq ->
  exists t r' a', next r = Ret (Some t, r') /\ refines (Sys r' hs n) a' /\
    astep a (LComplete t (cqe_result c) (cq_more (cqe_flags c))) a' /\
    rv_cq (uring_view (uring r')) = cq.
Proof.
  intros Hr Hcq. pose proof (op_ok_next _ _ Hr) as Hok. unfold op_ok in Hok. cbn in Hok.
  destruct (next r) as [[[t|] r']|p| |] eqn:En; cbn in Hok; try done.
  - destruct (cq_next (uring r)) as [[c' u]|] eqn:Eu.
    2: { apply cq_next_none in Eu. congruence. }
    destruct (cq_next_some _ _ _ Eu) as (E1 & _). rewrite Hcq in E1. injection E1 as <- ->.
    cbn in Hok. destruct Hok as (a' & Hstep & Hr'). exists t, r', a'. split_and!; try done.
    unfold next in En. rewrite Eu in En.
    destruct (slab_get (pending r) (cqe_user_data c)) as [p|]; cbn in En; [|done].
    destruct (kind p); inv_bind; repeat case_match; inv_bind; naive_solver.
  - exfalso. assert (r' = r) as ->.
    { unfold next in En. destruct (cq_next (uring r)) as [[c' u]|]; cbn in En; [|by injection En].
      destruct (slab_get (pending r) (cqe_user_data c')) as [p|]; cbn in En; [|done].
      destruct (kind p); inv_bind; repeat case_match; inv_bind; naive_solver. }
    apply next_none in En. congruence.
Qed.

(** The loop over the completions, for any [wake] that keeps [J]: with more
    fuel than there are completions it consumes them all. *)
Lemma for_each_ok {W} (wake : T -> W -> outcome W) (J : W -> Prop) fuel (r : reactor) hs n a w :
  (forall t w, J w -> returns (wake t w) J) ->
  refines (Sys r hs n) a -> length (rv_cq (uring_view (uring r))) < fuel -> J w ->
  returns (for_each wake fuel r w) (fun '(r', w') =>
    J w' /\ rv_cq (uring_view (uring r')) = [] /\ exists a', refines (Sys r' hs n) a').
Proof.
  intros Hw. revert r a w. induction fuel as [|fuel IH]; intros r a w Hr Hl HJ; [lia|].
  cbn. destruct (rv_cq (uring_view (uring r))) as [|c cq] eqn:Ecq.
  - apply next_none in Ecq as Hn. rewrite Hn. cbn. eauto.
  - destruct (next_step _ _ _ _ _ _ Hr Ecq) as (t & r' & a' & -> & Hr' & _ & Ecq'). cbn.
    specialize (Hw t w HJ). destruct (wake t w) as [w'| | |]; try done. cbn in Hw |- *.
    apply (IH r' a' w'); [done|rewrite Ecq'; cbn in Hl; lia|done].
Qed.

(** C26: one call of the reactor processes every completion the kernel has
    posted: with fuel for one more round than there are completions the
    loop ends, the completion queue is empty, and exactly one waker has been yielded per completion. *)
Theorem react_wakes_all r tr s (it : reactor) fuel :
  reactor_new = Ret r -> run (s_init r) tr s -> react (s_ring s) = Ret it ->
  let posted := length (rv_cq (uring_view (uring it))) in
  posted < fuel ->
  returns (react_collect fuel (s_ring s)) (fun '(it', wakers) =>
    rv_cq (uring_view (uring it')) = [] /\ length wakers = posted) /\ 1 <= posted.
Proof.
  intros Hr Hrun Hit posted Hf. destruct (run_refines r tr s Hr Hrun) as (a & _ & Hs).
  assert (exists a', refines (Sys it (s_hs s) (s_next s)) a') as (a' & Hs').
  { pose proof (op_ok_react _ _ Hs) as Hok. unfold op_ok in Hok.
    destruct s as [r0 hs n]. cbn in *. rewrite Hit in Hok. cbn in Hok. naive_solver. }
  split.
  - unfold react_collect, Reactor_react. rewrite Hit. cbn.
    set (g := fun (t : T) (ts : list T) => _).
    assert (forall fuel r' a' ts, refines (Sys r' (s_hs s) (s_next s)) a' ->
      length (rv_cq (uring_view (uring r'))) < fuel ->
      returns (for_each g fuel r' ts) (fun '(it', wakers) =>
        rv_cq (uring_view (uring it')) = [] /\
        length wakers = length ts + length (rv_cq (uring_view (uring r'))))) as Hgen.
    { clear. intros fuel. induction fuel as [|fuel IH]; intros r a ts Hr Hl; [lia|].
      cbn. destruct (rv_cq (uring_view (uring r))) as [|c cq] eqn:Ecq.
      - apply next_none in Ecq as Hn. rewrite Hn. cbn. split; [done|lia].
      - destruct (next_step _ _ _ _ _ _ Hr Ecq) as (t & r' & a' & -> & Hr' & _ & Ecq'). cbn.
        cbn in Hl. eapply returns_mono; [|eapply (IH r' a'); [done|rewrite Ecq'; lia]].
        intros [it' ws] [E1 E2]. split; [done|]. rewrite E2, length_app, Ecq'. cbn. lia. }
    by eapply (Hgen fuel it a' []).
  - unfold react in Hit. destruct (submit_and_wait _ _) as [u| |] eqn:Eu; [|done..].
    injection Hit as <-. destruct (submit_and_wait_ok _ _ _ Eu) as (_ & Hn & _).
    destruct (completion_spec u) as [Hk _]. subst posted. cbn.
    apply kstep_posted in Hk. lia.
Qed.
End more_runs.
