(* ===== verification/ReactorLimits.v ===== *)
(** The limits of the reactor: what is submitted when, how many operations
    fit, what is never reclaimed, and when dropping a multishot handle panics. *)
From S2P Require Import Prelude Crates CrateModels Results Reactor Io RingFacts Mailbox Refinement RefineOps System ReactorProps.

Section polls.
Context {S : Type -> Type} `{Slab S} {B : Type} `{RingBuffer B}.
Context {U Entry : Type} `{IoUring U Entry} {T : Type}.
Abbreviation reactor := (ReactorInner S B U T).

(** A handle polled again and again, in whatever state the reactor is at
    each poll; the closure counts its calls. *)
Fixpoint poll_oneshot (io : Oneshot.IoState) (calls : nat)
    (polls : list (reactor * Entry * T)) :
    outcome (list (poll (io_result Z)) * Oneshot.IoState * nat) :=
  match polls with
  | [] => mret ([], io, calls)
  | (r, e, t) :: polls =>
      '(p, io, _, calls) ← Oneshot.submit_or_get_result io r calls
                             (fun c => mret (e, t, Datatypes.S c));
      '(ps, io, calls) ← poll_oneshot io calls polls;
      mret (p :: ps, io, calls)
  end.

Fixpoint poll_multishot (io : Multishot.IoState) (calls : nat)
    (polls : list (reactor * Entry * T)) :
    outcome (list (poll (option (io_result Z))) * Multishot.IoState * nat) :=
  match polls with
  | [] => mret ([], io, calls)
  | (r, e, t) :: polls =>
      '(p, io, _, calls) ← Multishot.submit_or_get_result io r calls
                             (fun c => mret (e, t, Datatypes.S c));
      '(ps, io, calls) ← poll_multishot io calls polls;
      mret (p :: ps, io, calls)
  end.

Lemma oneshot_poll_first {C} (r : reactor) (c : C) f p io r' c' :
  Oneshot.submit_or_get_result Oneshot.New r c f = Ret (p, io, r', c') ->
  p = Pending /\ (exists slot, io = Oneshot.Submitted slot) /\
  exists e t, f c = Ret (e, t, c').
Proof.
  cbn. destruct (f c) as [[[e t] c1]| | |]; cbn; [|done..].
  destruct (submit_io r e t Oneshot) as [[[ud slot] r1]| | |]; cbn; [|done..].
  intros [= <- <- <- <-]. eauto 10.
Qed.

Lemma oneshot_poll_later {C} io (r : reactor) (c : C) f p io' r' c' :
  io <> Oneshot.New ->
  Oneshot.submit_or_get_result io r c f = Ret (p, io', r', c') ->
  c' = c /\ io' <> Oneshot.New.
Proof.
  intros Hio Hp. destruct io as [|slot|v]; cbn in Hp; [done| |].
  - destruct (OneshotStore.get_result _ slot) as [[[v|] o]| | |]; cbn in Hp; try done.
    + destruct (reactor_value_to_result v); cbn in Hp; try done. by injection Hp as <- <- <- <-.
    + by injection Hp as <- <- <- <-.
  - destruct (reactor_value_to_result v); cbn in Hp; try done. by injection Hp as <- <- <- <-.
Qed.

Lemma multishot_poll_first {C} (r : reactor) (c : C) f p io r' c' :
  Multishot.submit_or_get_result Multishot.New r c f = Ret (p, io, r', c') ->
  p = Pending /\ (exists slot ud, io = Multishot.Submitted slot ud) /\
  exists e t, f c = Ret (e, t, c').
Proof.
  cbn. destruct (f c) as [[[e t] c1]| | |]; cbn; [|done..].
  destruct (submit_io r e t Multi) as [[[ud slot] r1]| | |]; cbn; [|done..].
  intros [= <- <- <- <-]. eauto 10.
Qed.

Lemma multishot_poll_later {C} io (r : reactor) (c : C) f p io' r' c' :
  io <> Multishot.New ->
  Multishot.submit_or_get_result io r c f = Ret (p, io', r', c') ->
  c' = c /\ io' = io.
Proof.
  intros Hio Hp. destruct io as [|slot ud]; cbn in Hp; [done|].
  destruct (MultishotStore.pop_result _ slot) as [[[v| |] m]| | |]; cbn in Hp; try done.
  - destruct (reactor_value_to_result v); cbn in Hp; try done. by injection Hp as <- <- <- <-.
  - by injection Hp as <- <- <- <-.
  - by injection Hp as <- <- <- <-.
Qed.

Lemma poll_oneshot_later io calls polls ps io' calls' :
  io <> Oneshot.New -> poll_oneshot io calls polls = Ret (ps, io', calls') ->
  calls' = calls.
Proof.
  revert io calls ps. induction polls as [|[[r e] t] polls IH]; intros io calls ps Hio Hp;
    cbn [poll_oneshot] in Hp; inv_bind; [naive_solver|].
  destruct a as [[[p io1] r1] c1]. inv_bind.
  apply oneshot_poll_later in Ha as [-> Hio1]; [|done].
  destruct a as [[qs io2] c2]. inv_bind. by eapply IH.
Qed.

Lemma poll_multishot_later io calls polls ps io' calls' :
  io <> Multishot.New -> poll_multishot io calls polls = Ret (ps, io', calls') ->
  calls' = calls.
Proof.
  revert io calls ps. induction polls as [|[[r e] t] polls IH]; intros io calls ps Hio Hp;
    cbn [poll_multishot] in Hp; inv_bind; [naive_solver|].
  destruct a as [[[p io1] r1] c1]. inv_bind.
  apply multishot_poll_later in Ha as [-> ->]; [|done].
  destruct a as [[qs io2] c2]. inv_bind. by eapply IH.
Qed.
End polls.

Section closure.
Context {S : Type -> Type} `{Slab S} {B : Type} `{RingBuffer B}.
Context {U Entry : Type} `{IoUring U Entry} {T : Type}.

(** However often a handle is polled, and whatever happens to the reactor
    between the polls, the closure that builds the operation runs exactly
    once, at the first poll, which always answers [Pending]: the operation is submitted
    exactly once. *)
Theorem submit_closure_once (polls : list (ReactorInner S B U T * Entry * T))
    ps1 io1 n1 ps2 io2 n2 :
  poll_oneshot Oneshot.new 0 polls = Ret (ps1, io1, n1) ->
  poll_multishot Multishot.new 0 polls = Ret (ps2, io2, n2) ->
  n1 = min 1 (length polls) /\ head ps1 = (if polls is [] then None else Some Pending) /\
  n2 = min 1 (length polls) /\ head ps2 = (if polls is [] then None else Some Pending).
Proof.
  destruct polls as [|[[r e] t] polls]; cbn [poll_oneshot poll_multishot]; intros H1' H2'.
  - inv_bind. done.
  - inv_bind. destruct a as [[[p1 io1'] r1] c1], a0 as [[[p2 io2'] r2] c2]. inv_bind.
    destruct a as [[qs1 io1''] m1], a0 as [[qs2 io2''] m2]. inv_bind.
    apply multishot_poll_first in Ha as (-> & (sl & ud & ->) & (e1 & t1 & E1)).
    apply oneshot_poll_first in Ha0 as (-> & (sl' & ->) & (e2 & t2 & E2)).
    apply poll_multishot_later in Ha1; [|done]. apply poll_oneshot_later in Ha2; [|done].
    inv_bind. cbn. done.
Qed.
End closure.

Section limits.
Context {S : Type -> Type} `{SlabSpec S} {B : Type} `{RingBufferSpec B}.
Context {U Entry : Type} `{IoUringSpec U Entry} {T : Type}.
Abbreviation sys := (sys S B U T).
Abbreviation reactor := (ReactorInner S B U T).
Implicit Types (s : sys) (o : op Entry T).

(** *** The pending entries of multishot operations are never removed *)
Lemma submit_io_pending (r r' : reactor) e t k ud slot :
  submit_io r e t k = Ret (ud, slot, r') ->
  slab_view (pending r) !! ud = None /\
  slab_view (pending r') = <[ud := MkPending t slot k]> (slab_view (pending r)).
Proof.
  unfold submit_io. destruct k.
  all: match goal with
       | |- context [OneshotStore.create_slot ?x] => destruct (OneshotStore.create_slot x)
       | |- context [MultishotStore.create_slot ?x] => destruct (MultishotStore.create_slot x)
       end.
  all: match goal with
       | |- context [slab_insert ?x ?y] => destruct (slab_insert x y) eqn:E
       end.
  all: apply slab_insert_spec in E as [E1 E2].
  all: destruct (sq_push _ _ _); cbn; [|done]; by intros [= <- <- <-].
Qed.

Lemma oneshot_poll_pending_kept {C} io (r r' : reactor) (c c' : C) f p io' ud x :
  Oneshot.submit_or_get_result io r c f = Ret (p, io', r', c') ->
  slab_view (pending r) !! ud = Some x -> slab_view (pending r') !! ud = Some x.
Proof.
  intros Hp Hx. destruct io as [|slot|v]; cbn in Hp.
  - destruct (f c) as [[[e t] c1]| | |]; cbn in Hp; try done.
    destruct (submit_io r e t Oneshot) as [[[ud' slot] r1]| | |] eqn:E; cbn in Hp; try done.
    injection Hp as <- <- <- <-. apply submit_io_pending in E as [E1 E2].
    rewrite E2, lookup_insert_ne; [done|congruence].
  - destruct (OneshotStore.get_result _ slot) as [[[v|] o]| | |]; cbn in Hp; try done.
    + destruct (reactor_value_to_result v); cbn in Hp; try done. by injection Hp as <- <- <- <-.
    + by injection Hp as <- <- <- <-.
  - destruct (reactor_value_to_result v); cbn in Hp; try done. by injection Hp as <- <- <- <-.
Qed.

Lemma multishot_poll_pending_kept {C} io (r r' : reactor) (c c' : C) f p io' ud x :
  Multishot.submit_or_get_result io r c f = Ret (p, io', r', c') ->
  slab_view (pending r) !! ud = Some x -> slab_view (pending r') !! ud = Some x.
Proof.
  intros Hp Hx. destruct io as [|slot ud0]; cbn in Hp.
  - destruct (f c) as [[[e t] c1]| | |]; cbn in Hp; try done.
    destruct (submit_io r e t Multi) as [[[ud' slot] r1]| | |] eqn:E; cbn in Hp; try done.
    injection Hp as <- <- <- <-. apply submit_io_pending in E as [E1 E2].
    rewrite E2, lookup_insert_ne; [done|congruence].
  - destruct (MultishotStore.pop_result _ slot) as [[[v| |] m]| | |]; cbn in Hp; try done.
    + destruct (reactor_value_to_result v); cbn in Hp; try done. by injection Hp as <- <- <- <-.
    + by injection Hp as <- <- <- <-.
    + by injection Hp as <- <- <- <-.
Qed.

Lemma next_pending_kept (r r' : reactor) item ud x :
  next r = Ret (item, r') ->
  slab_view (pending r) !! ud = Some x -> kind x = Multi ->
  slab_view (pending r') !! ud = Some x.
Proof.
  unfold next. intros Hn Hx Hk. destruct (cq_next (uring r)) as [[c u]|]; [|by inv_bind].
  rewrite slab_get_spec in Hn.
  destruct (slab_view (pending r) !! cqe_user_data c) as [y|] eqn:Ey; cbn in Hn; [|done].
  destruct (kind y) eqn:Eky; inv_bind; repeat case_match; inv_bind; cbn; try done.
  match goal with E : slab_remove _ _ = _ |- _ => apply slab_remove_Ret in E as [_ ->] end.
  rewrite lookup_delete_ne; [done|]. intros <-. congruence.
Qed.

Lemma step_pending_kept s o l s' ud x :
  run_op s o = Ret (l, s') ->
  slab_view (pending (s_ring s)) !! ud = Some x -> kind x = Multi ->
  slab_view (pending (s_ring s')) !! ud = Some x.
Proof.
  destruct s as [r hs n]. intros Ho Hx Hk. destruct o as [multi|h e t|h| |]; cbn in *.
  - inv_bind. done.
  - destruct (hs !! h) as [[io|io]|]; [| |done]; inv_bind; repeat case_match; inv_bind; cbn.
    + by eapply oneshot_poll_pending_kept.
    + by eapply multishot_poll_pending_kept.
  - destruct (hs !! h) as [[io|io]|]; [| |done]; inv_bind; cbn.
    + destruct io; cbn in *; inv_bind; done.
    + destruct io; cbn in *; inv_bind; done.
  - unfold react in *. inv_bind. repeat case_match; inv_bind; done.
  - inv_bind. repeat case_match; inv_bind; cbn; by eapply next_pending_kept.
Qed.

(** The reactor never reclaims the pending entry of a multishot
    operation: from the poll that submitted it on, whatever happens later (the
    operation is over, its handle is dropped, all its completions are
    consumed), the slab of pending operations keeps the entry and the waker
    stored in it, under the same user data. *)
Theorem multishot_pending_never_reclaimed r tr s h slot ud tr' s' :
  reactor_new = Ret r -> run (s_init r) tr s ->
  s_hs s !! h = Some (HMulti (Multishot.Submitted slot ud)) ->
  run s tr' s' ->
  exists t, slab_get (pending (s_ring s')) ud = Some (MkPending t slot Multi).
Proof.
  intros Hr Hrun Hh Hrun'. destruct (run_refines r tr s Hr Hrun) as (a & _ & own & I & _).
  destruct (inv_multi_submitted _ _ _ _ _ _ _ _ _ _ _ _ I Hh) as (_ & _ & _ & _ & [t Ht] & _).
  exists t. rewrite slab_get_spec. clear I Hh Hrun.
  induction Hrun' as [s|s tr' s1 o l s2 _ IH _ Ho]; [done|].
  by eapply step_pending_kept; eauto.
Qed.

(** Dropping a multishot handle panics ([expect] on the failed cancel)
    whenever its operation is over (it has yielded [None], or is about to),
    and also while its submission is still in the queue, that is from its
    first poll until the next call of [react]. *)
Theorem multishot_drop_panics r tr s h slot ud :
  reactor_new = Ret r -> run (s_init r) tr s ->
  s_hs s !! h = Some (HMulti (Multishot.Submitted slot ud)) ->
  (exists e, slab_get (multishot (ring_results (s_ring s))) slot = Some e /\
             finished e = true) \/
  ud ∈ (rv_sq (uring_view (uring (s_ring s)))).*1 ->
  run_op s (ODrop h) = Panic UnwrapErr.
Proof.
  intros Hr Hrun Hh Hcase. destruct (run_refines r tr s Hr Hrun) as (a & _ & own & I & _).
  destruct s as [r0 hs n]. cbn in *. rewrite Hh. cbn.
  rewrite cancel_not_in_flight; [done|].
  destruct Hcase as [(e & He & Hfin)|Hsq].
  - destruct (inv_multi_submitted _ _ _ _ _ _ _ _ _ _ _ _ I Hh) as (q & fin & _ & Es & _ & Hf).
    rewrite slab_get_spec in He. rewrite (mview_lookup _ _ _ He), Hfin in Es.
    injection Es as _ _ <-. destruct Hf as [_ Hud].
    intros Hin. assert (ud ∈ places cq_more (uring_view (uring r0))) as Hp.
    { unfold places. set_solver. }
    apply (ro_live _ _ _ (i_ring I)) in Hp. rewrite lookup_fmap, Hud in Hp. by destruct Hp.
  - pose proof (ro_nodup _ _ _ (i_ring I)) as Hnd. unfold places in Hnd.
    apply NoDup_app in Hnd as (_ & Hd & _). intros Hin. apply (Hd ud Hsq).
    apply elem_of_app. by left.
Qed.

(** *** How many operations fit between two calls of [react] *)
Fixpoint exec (ops : list (op Entry T)) s : outcome (list (label T) * sys) :=
  match ops with
  | [] => mret ([], s)
  | o :: ops =>
      '(l, s) ← run_op s o;
      '(ls, s) ← exec ops s;
      mret (l :: ls, s)
  end.

Lemma exec_app ops1 ops2 s :
  exec (ops1 ++ ops2) s =
    ('(l1, s) ← exec ops1 s; '(l2, s) ← exec ops2 s; mret (l1 ++ l2, s)).
Proof.
  revert s. induction ops1 as [|o ops1 IH]; intros s; cbn.
  - by destruct (exec ops2 s) as [[]| | |].
  - destruct (run_op s o) as [[l s1]| | |]; cbn; [|done..].
    rewrite IH. destruct (exec ops1 s1) as [[ls s2]| | |]; cbn; [|done..].
    by destruct (exec ops2 s2) as [[]| | |].
Qed.

(** [n] fresh handles, numbered from 0, each polled once. *)
Definition submit_many (n : nat) (e : Entry) (t : T) : list (op Entry T) :=
  i ← seq 0 n; [ONew false; OPoll i e t].

Lemma submit_many_S n e t :
  submit_many (Datatypes.S n) e t = submit_many n e t ++ [ONew false; OPoll n e t].
Proof.
  unfold submit_many. by rewrite seq_S, bind_app.
Qed.

(** Polling a fresh handle while the submission queue has room. *)
Lemma poll_new_room (r : reactor) hs n a h e t :
  refines (Sys r hs n) a -> hs !! h = Some (HOne Oneshot.New) ->
  entry_multishot e = false ->
  if decide (length (rv_sq (uring_view (uring r))) < RING_ENTRIES)
  then exists l r' hs' a', run_op (Sys r hs n) (OPoll h e t) = Ret (l, Sys r' hs' n) /\
         length (rv_sq (uring_view (uring r'))) =
           Datatypes.S (length (rv_sq (uring_view (uring r)))) /\
         refines (Sys r' hs' n) a'
  else run_op (Sys r hs n) (OPoll h e t) = Panic UnwrapErr.
Proof.
  intros Hr Hh He.
  assert (enabled (Sys r hs n) (OPoll h e t)) as Hen by by (cbn; rewrite Hh).
  pose proof (run_op_ok _ _ _ Hr Hen) as Hok.
  destruct Hr as (own & _ & _ & Hcap). unfold op_ok in Hok. cbn in Hok, Hcap |- *.
  rewrite Hh in Hok |- *. cbn in Hok |- *. unfold submit_io in Hok |- *.
  destruct (OneshotStore.create_slot _) as [slot o].
  destruct (slab_insert _ _) as [ud pend].
  case_decide as Hroom.
  - rewrite <- Hcap in Hroom. destruct (sq_push_room _ e ud Hroom) as [u Eu].
    rewrite Eu in Hok |- *. cbn in Hok |- *. destruct Hok as (a' & _ & Hr').
    destruct (sq_push_some _ _ _ _ Eu) as [Ev _].
    eexists _, _, _, a'. split; [done|]. split; [|exact Hr'].
    cbn. rewrite Ev. cbn. rewrite length_app. cbn. lia.
  - rewrite <- Hcap in Hroom.
    assert (sq_push (uring r) e ud = None) as -> by (apply sq_push_none; lia). done.
Qed.

Lemma refines_new (r : reactor) hs n a :
  refines (Sys r hs n) a ->
  exists a', refines (Sys r (<[n := HOne Oneshot.new]> hs) (Datatypes.S n)) a'.
Proof.
  intros Hr. pose proof (op_ok_new _ _ false Hr) as Hok. unfold op_ok in Hok. cbn in Hok.
  destruct Hok as (a' & _ & Hr'). by exists a'.
Qed.

Lemma exec_new_poll (r : reactor) hs n e t ops :
  exec ([ONew false; OPoll n e t] ++ ops) (Sys r hs n) =
    ('(l, s) ← run_op (Sys r (<[n := HOne Oneshot.new]> hs) (Datatypes.S n)) (OPoll n e t);
     '(ls, s) ← exec ops s;
     mret (LNew n false :: l :: ls, s)).
Proof.
  cbn [app exec].
  change (run_op (Sys r hs n) (ONew false))
    with (Ret (LNew (T:=T) n false,
               Sys r (<[n := HOne Oneshot.new]> hs) (Datatypes.S n))).
  cbn [mbind outcome_bind].
  destruct (run_op _ (OPoll n e t)) as [[l s1]| | |]; cbn [mbind outcome_bind]; [|done..].
  by destruct (exec ops s1) as [[]| | |].
Qed.

Lemma exec_submit_many r e t n :
  reactor_new = Ret r -> entry_multishot e = false -> n <= RING_ENTRIES ->
  exists tr r' hs a, exec (submit_many n e t) (s_init r) = Ret (tr, Sys r' hs n) /\
    length (rv_sq (uring_view (uring r'))) = n /\ refines (Sys r' hs n) a.
Proof.
  intros Hr He. induction n as [|n IH]; intros Hn.
  - exists [], r, ∅, a_init. split; [done|]. split; [|by apply refines_init].
    unfold reactor_new in Hr. destruct (uring_new RING_ENTRIES) as [u|] eqn:E; [|done].
    injection Hr as <-. apply uring_new_spec in E as [Ev _]. cbn. by rewrite Ev.
  - destruct IH as (tr & r1 & hs & a & E & Hl & Hr1); [lia|].
    rewrite submit_many_S, exec_app, E. cbn [mbind outcome_bind].
    destruct (refines_new _ _ _ _ Hr1) as [a1 Hr2].
    pose proof (poll_new_room r1 _ _ a1 n e t Hr2 (lookup_insert_eq _ _ _) He) as Hp.
    rewrite decide_True in Hp by lia.
    destruct Hp as (l & r3 & hs3 & a3 & Ep & Hl3 & Hr3).
    change [ONew false; OPoll n e t] with ([ONew false; OPoll n e t] ++ []).
    rewrite exec_new_poll, Ep. cbn.
    eexists _, r3, hs3, a3. split; [done|]. split; [lia|done].
Qed.

(** Between two calls of [react], exactly [RING_ENTRIES] = 1024
    operations can be submitted: that many fresh handles can be polled, and the
    first poll of one more panics ([unwrap] on the full submission queue). *)
Theorem submission_limit r e t n :
  reactor_new = Ret r -> entry_multishot e = false ->
  match exec (submit_many n e t) (s_init r) with
  | Ret _ => n <= RING_ENTRIES
  | Panic p => p = UnwrapErr /\ RING_ENTRIES < n
  | _ => False
  end.
Proof.
  intros Hr He. destruct (decide (n <= RING_ENTRIES)) as [Hn|Hn].
  - destruct (exec_submit_many r e t n Hr He Hn) as (tr & r' & hs & a & -> & _). done.
  - assert (exists k, n = Datatypes.S RING_ENTRIES + k) as [k ->]
      by (exists (n - Datatypes.S RING_ENTRIES); lia).
    assert (submit_many (Datatypes.S RING_ENTRIES + k) e t =
            submit_many RING_ENTRIES e t ++ [ONew false; OPoll RING_ENTRIES e t] ++
            (i ← seq (Datatypes.S RING_ENTRIES) k; [ONew false; OPoll i e t])) as ->.
    { unfold submit_many at 1. rewrite seq_app, bind_app, Nat.add_0_l.
      fold (submit_many (Datatypes.S RING_ENTRIES) e t). by rewrite submit_many_S, <- app_assoc. }
    destruct (exec_submit_many r e t RING_ENTRIES Hr He (le_n _))
      as (tr & r1 & hs & a & E & Hl & Hr1).
    rewrite exec_app, E. cbn [mbind outcome_bind].
    destruct (refines_new _ _ _ _ Hr1) as [a1 Hr2].
    pose proof (poll_new_room r1 _ _ a1 RING_ENTRIES e t Hr2 (lookup_insert_eq _ _ _) He) as Hp.
    rewrite decide_False in Hp by lia.
    rewrite exec_new_poll, Hp. cbn. split; [done|lia].
Qed.
End limits.
