(* ===== verification/Sqe.v ===== *)
(** Submission queue entries: the [io_uring::opcode] builders the futures call,
    with the arguments they give them.

    A pointer argument is represented by the place it points into, which is
    what matters for its validity: the kernel reads the entry when the
    submission queue is flushed, that is after the call of [poll] that built
    it has returned. *)
From S2P Require Import Prelude Crates CrateModels.

Inductive place :=
  | InFuture (field : string)      (* a field of the pinned future *)
  | OwnedBy (field : string)       (* heap memory a field of the future owns *)
  | BorrowedBy (field : string)    (* memory a field of the future borrows *)
  | PollFrame (var : string).      (* a local variable of the call of [poll] *)

#[export] Instance place_eq_dec : EqDecision place.
Proof. solve_decision. Defined.

(** Is the place still there once [poll] has returned? *)
Definition outlives_poll (p : place) : bool :=
  match p with PollFrame _ => false | _ => true end.

Inductive sqe :=
  | Read (fd : Z) (buf : place) (len offset : Z)
  | Write (fd : Z) (buf : place) (len offset : Z)
  | OpenAt (dirfd : Z) (pathname : place) (flags mode : Z)
  | MkDirAt (dirfd : Z) (pathname : place) (mode : Z)
  | AcceptMulti (fd : Z)
  | Connect (fd : Z) (addr : place) (addrlen : Z)
  | RecvMsg (fd : Z) (msg : place)
  | SendMsg (fd : Z) (msg : place).

#[export] Instance sqe_eq_dec : EqDecision sqe.
Proof. solve_decision. Defined.

(** The memory an entry refers to. *)
Definition sqe_places (e : sqe) : list place :=
  match e with
  | Read _ p _ _ | Write _ p _ _ | OpenAt _ p _ _ | MkDirAt _ p _
  | Connect _ p _ | RecvMsg _ p | SendMsg _ p => [p]
  | AcceptMulti _ => []
  end.

Definition sqe_survives (e : sqe) : bool := forallb outlives_poll (sqe_places e).

(** [AcceptMulti] is the only opcode used that posts several completions. *)
#[export] Instance sqe_multishot : Multishot sqe := fun e =>
  match e with AcceptMulti _ => true | _ => false end.
