(* ===== verification/Libc.v ===== *)
(** The operating system calls the futures make directly, through [libc] and
    the standard library: an operational class (the calls, on a state [L] of
    the process and its kernel) and a specification class (their documented
    behaviour, stated on a view of the descriptor table).  LibcModel.v gives
    an executable instance. *)
From S2P Require Import Prelude Bytes.

Open Scope Z_scope.

(** Constants of Linux. *)
Definition EFD_SEMAPHORE : Z := 1.
Definition EFD_NONBLOCK : Z := 2048.
Definition TFD_NONBLOCK : Z := 2048.
Definition CLOCK_MONOTONIC : Z := 1.
Definition SOCK_STREAM : Z := 1.
Definition SEEK_SET : Z := 0.
Definition SEEK_CUR : Z := 1.
Definition SEEK_END : Z := 2.
Definition AT_FDCWD : Z := -100.
Definition O_RDWR : Z := 2.
Definition O_CREAT : Z := 64.

(** The largest value of an eventfd counter. *)
Definition EVENTFD_MAX : Z := u64_max - 1.

Class Libc (L : Type) := {
  last_os_error : L -> io_error;                    (* std::io::Error::last_os_error() *)
  sys_eventfd : Z -> Z -> L -> Z * L;               (* eventfd(initval, flags) *)
  sys_write : Z -> list Z -> L -> Z * L;            (* write(fd, bytes, their number) *)
  try_clone : Z -> L -> io_result Z * L;            (* OwnedFd::try_clone *)
  sys_close : Z -> L -> L;                          (* Drop for OwnedFd *)
  sys_socket : Z -> Z -> Z -> L -> Z * L;
  sys_bind : Z -> list Z -> Z -> L -> Z * L;        (* bind(fd, bytes of the address, len) *)
  sys_listen : Z -> Z -> L -> Z * L;
  sys_lseek : Z -> Z -> Z -> L -> Z * L;
  sys_timerfd_create : Z -> Z -> L -> Z * L;
  sys_timerfd_settime : Z -> Z -> Z -> Z -> L -> Z * L; (* fd, flags, it_value: seconds, nanoseconds *)
  sys_now : L -> Z * L;                             (* SystemTime::now(), in nanoseconds *)
}.

(** What a descriptor stands for. *)
Inductive kobj :=
  | KEvent (count : Z) (flags : Z)
  | KTimer (armed : option Z)                 (* nanoseconds to its expiration *)
  | KSocket (family : Z) (bound : option (list Z)) (backlog : option Z)
  | KFile.

#[export] Instance kobj_eq_dec : EqDecision kobj.
Proof. solve_decision. Defined.

(** The descriptor table, and the objects it refers to: descriptors obtained
    by duplication share an object. *)
Record kview := KView { k_fds : gmap Z nat; k_objs : gmap nat kobj }.

Definition set_obj (o : nat) (x : kobj) (v : kview) : kview :=
  KView (k_fds v) (<[o := x]> (k_objs v)).
Definition close_view (fd : Z) (v : kview) : kview :=
  KView (delete fd (k_fds v)) (k_objs v).

(** A call that opens a descriptor: -1 and nothing changes, or a fresh
    descriptor of a fresh object. *)
Definition opens (x : kobj) (r : Z) (v v' : kview) : Prop :=
  (r = -1 /\ v' = v) \/
  (0 <= r /\ k_fds v !! r = None /\ exists o, k_objs v !! o = None /\
   v' = KView (<[r := o]> (k_fds v)) (<[o := x]> (k_objs v))).

(** A call that changes the object of [fd] with [f], or fails with -1. *)
Definition changes (fd : Z) (f : kobj -> kobj) (r : Z) (v v' : kview) : Prop :=
  (r = -1 /\ v' = v) \/
  (r <> -1 /\ exists o x, k_fds v !! fd = Some o /\ k_objs v !! o = Some x /\
   v' = set_obj o (f x) v).

Definition add_count (n : Z) (x : kobj) : kobj :=
  match x with KEvent c fl => KEvent (c + n) fl | x => x end.
Definition bind_to (addr : list Z) (x : kobj) : kobj :=
  match x with KSocket f None b => KSocket f (Some addr) b | x => x end.
Definition listen_on (n : Z) (x : kobj) : kobj :=
  match x with KSocket f a _ => KSocket f a (Some n) | x => x end.
Definition arm (ns : Z) (x : kobj) : kobj :=
  match x with KTimer _ => KTimer (if decide (ns = 0) then None else Some ns) | x => x end.

Class LibcSpec (L : Type) `{Libc L} `{Host} := {
  libc_view : L -> kview;
  last_os_error_spec : forall l : L, exists errno, last_os_error l = OsError errno;
  eventfd_spec : forall n fl (l : L), let '(r, l') := sys_eventfd n fl l in
    opens (KEvent n fl) r (libc_view l) (libc_view l');
  (* write(2) on an eventfd adds its argument to the counter, all or nothing *)
  write_event_spec : forall fd n c fl o (l : L), let '(r, l') := sys_write fd (ne_bytes 8 n) l in
    k_fds (libc_view l) !! fd = Some o -> k_objs (libc_view l) !! o = Some (KEvent c fl) ->
    0 <= n < u64_max ->
    (r = -1 /\ libc_view l' = libc_view l) \/
    (r = 8 /\ c + n <= EVENTFD_MAX /\ libc_view l' = set_obj o (KEvent (c + n) fl) (libc_view l));
  try_clone_spec : forall fd (l : L), let '(r, l') := try_clone fd l in
    match r with
    | Err _ => libc_view l' = libc_view l
    | Ok fd' => exists o, k_fds (libc_view l) !! fd = Some o /\
        0 <= fd' /\ k_fds (libc_view l) !! fd' = None /\
        libc_view l' = KView (<[fd' := o]> (k_fds (libc_view l))) (k_objs (libc_view l))
    end;
  close_spec : forall fd (l : L), libc_view (sys_close fd l) = close_view fd (libc_view l);
  socket_spec : forall fam ty proto (l : L), let '(r, l') := sys_socket fam ty proto l in
    opens (KSocket fam None None) r (libc_view l) (libc_view l');
  bind_spec : forall fd addr n (l : L), let '(r, l') := sys_bind fd addr n l in
    changes fd (bind_to (take (Z.to_nat n) addr)) r (libc_view l) (libc_view l') /\ (r <> -1 -> r = 0);
  listen_spec : forall fd n (l : L), let '(r, l') := sys_listen fd n l in
    changes fd (listen_on n) r (libc_view l) (libc_view l') /\ (r <> -1 -> r = 0);
  (* the file offset is not part of the view *)
  lseek_spec : forall fd off whence (l : L), let '(r, l') := sys_lseek fd off whence l in
    libc_view l' = libc_view l /\ (r <> -1 -> 0 <= r < 2 ^ 63);
  timerfd_create_spec : forall clk fl (l : L), let '(r, l') := sys_timerfd_create clk fl l in
    opens (KTimer None) r (libc_view l) (libc_view l');
  timerfd_settime_spec : forall fd fl s ns (l : L), let '(r, l') := sys_timerfd_settime fd fl s ns l in
    changes fd (arm (s * 10 ^ 9 + ns)) r (libc_view l) (libc_view l');
  now_spec : forall l : L, let '(t, l') := sys_now l in libc_view l' = libc_view l;
}.

Section libc_lemmas.
Context `{LibcSpec L}.

(** Closing the descriptor that was just opened gives the table back. *)
Lemma opens_close x r v v' :
  opens x r v v' -> r <> -1 -> k_fds (close_view r v') = k_fds v.
Proof.
  intros [[-> _]|(_ & Hr & o & _ & ->)] Hne; [done|]. cbn. by rewrite delete_insert_id.
Qed.
End libc_lemmas.
Close Scope Z_scope.
