(* ===== verification/LibcModel.v ===== *)
(** One executable instance of the interface of Libc.v: a descriptor table
    with fresh numbers given in increasing order, a script that says which
    calls fail, and a list of clock readings. *)
From S2P Require Import Prelude Bytes Libc.

Open Scope Z_scope.

Record kernel := Kernel {
  kn_view : kview;
  kn_fail : list (option Z);        (* per call: [Some errno] makes it fail *)
  kn_errno : Z;
  kn_clock : list Z;                (* the readings to come; the last one stays *)
}.

Definition next_fd (v : kview) : Z := map_fold (fun fd _ m => Z.max fd m) 2 (k_fds v) + 1.
Definition next_obj (v : kview) : nat := S (map_fold (fun o _ m => Nat.max o m) O (k_objs v)).

Lemma next_fd_bounds v : 0 <= next_fd v /\ k_fds v !! next_fd v = None.
Proof.
  unfold next_fd.
  assert (2 <= map_fold (fun fd _ m => Z.max fd m) 2 (k_fds v) /\
    forall fd, is_Some (k_fds v !! fd) -> fd <= map_fold (fun fd _ m => Z.max fd m) 2 (k_fds v))
    as [H1 H2].
  { apply (map_fold_weak_ind (fun m (fds : gmap Z nat) =>
      2 <= m /\ forall fd, is_Some (fds !! fd) -> fd <= m)).
    - split; [done|]. intros fd [? E]. by rewrite lookup_empty in E.
    - intros fd o fds m Hn [IH1 IH2]. split; [lia|]. intros fd' [? E].
      apply lookup_insert_Some in E as [[<- _]|[_ E]]; [lia|].
      specialize (IH2 fd' ltac:(eauto)). lia. }
  split; [lia|]. destruct (k_fds v !! _) eqn:E; [|done].
  match type of E with k_fds v !! ?k = _ => specialize (H2 k) end.
  rewrite E in H2. ospecialize (H2 _); [eauto|]. lia.
Qed.

Lemma next_obj_fresh v : k_objs v !! next_obj v = None.
Proof.
  unfold next_obj.
  assert (forall o, is_Some (k_objs v !! o) ->
    (o <= map_fold (fun o _ m => Nat.max o m) O (k_objs v))%nat) as H2.
  { apply (map_fold_weak_ind (fun m (os : gmap nat kobj) =>
      forall o, is_Some (os !! o) -> (o <= m)%nat)).
    - intros o [? E]. by rewrite lookup_empty in E.
    - intros o x os m Hn IH o' [? E].
      apply lookup_insert_Some in E as [[<- _]|[_ E]]; [lia|].
      specialize (IH o' ltac:(eauto)). lia. }
  destruct (k_objs v !! _) eqn:E; [|done].
  match type of E with k_objs v !! ?k = _ => specialize (H2 k) end.
  rewrite E in H2. ospecialize (H2 _); [eauto|]. lia.
Qed.

(** The view seen from outside, with the objects no descriptor stands for. *)
Definition with_view (v : kview) (l : kernel) : kernel :=
  Kernel v (kn_fail l) (kn_errno l) (kn_clock l).

(** A call that may fail: if the script does not make it, run [k]. *)
Definition fallible {A} (fail : A) (l : kernel) (k : kernel -> A * kernel) : A * kernel :=
  match kn_fail l with
  | [] => k l
  | None :: fs => k (Kernel (kn_view l) fs (kn_errno l) (kn_clock l))
  | Some e :: fs => (fail, Kernel (kn_view l) fs e (kn_clock l))
  end.

Definition m_open (x : kobj) (l : kernel) : Z * kernel :=
  fallible (-1) l (fun l => let v := kn_view l in
    (next_fd v, with_view (KView (<[next_fd v := next_obj v]> (k_fds v))
                                 (<[next_obj v := x]> (k_objs v))) l)).

Definition m_change (fd : Z) (f : kobj -> option (Z * kobj)) (l : kernel) : Z * kernel :=
  fallible (-1) l (fun l => let v := kn_view l in
    match k_fds v !! fd with
    | Some o =>
        match k_objs v !! o with
        | Some x => match f x with
                    | Some (r, x') => (r, with_view (set_obj o x' v) l)
                    | None => (-1, l)
                    end
        | None => (-1, l)
        end
    | None => (-1, l)
    end).

Definition m_write (bytes : list Z) `{Host} (x : kobj) : option (Z * kobj) :=
  match x with
  | KEvent c fl =>
      if decide (length bytes = 8%nat /\ c + ne_value bytes <= EVENTFD_MAX)
      then Some (8, KEvent (c + ne_value bytes) fl) else None
  | x => Some (Z.of_nat (length bytes), x)
  end.

#[export] Instance kernel_libc `{Host} : Libc kernel := {
  last_os_error l := OsError (kn_errno l);
  sys_eventfd n fl l := m_open (KEvent n fl) l;
  sys_write fd bytes l := m_change fd (m_write bytes) l;
  try_clone fd l := fallible (Err (OsError 24)) l (fun l => let v := kn_view l in
    match k_fds v !! fd with
    | Some o => (Ok (next_fd v), with_view (KView (<[next_fd v := o]> (k_fds v)) (k_objs v)) l)
    | None => (Err (OsError 9), l)
    end);
  sys_close fd l := with_view (close_view fd (kn_view l)) l;
  sys_socket fam ty proto l := m_open (KSocket fam None None) l;
  sys_bind fd addr n l := m_change fd (fun x => Some (0, bind_to (take (Z.to_nat n) addr) x)) l;
  sys_listen fd n l := m_change fd (fun x => Some (0, listen_on n x)) l;
  sys_lseek fd off whence l := fallible (-1) l (fun l => (Z.max (-1) (as_s 64 off), l));
  sys_timerfd_create clk fl l := m_open (KTimer None) l;
  sys_timerfd_settime fd fl s ns l := m_change fd (fun x => Some (0, arm (s * 10 ^ 9 + ns) x)) l;
  sys_now l :=
    match kn_clock l with
    | t :: ((_ :: _) as ts) => (t, Kernel (kn_view l) (kn_fail l) (kn_errno l) ts)
    | ts => (default 0 (head ts), l)
    end;
}.

Section laws.
Context `{Host}.

Lemma fallible_spec {A} (fail : A) l k (P : A -> kview -> Prop) :
  P fail (kn_view l) ->
  (forall l', kn_view l' = kn_view l -> let '(r, l'') := k l' in P r (kn_view l'')) ->
  let '(r, l') := fallible fail l k in P r (kn_view l').
Proof.
  intros Hf Hk. unfold fallible. destruct (kn_fail l) as [|[e|] fs]; [by apply Hk|done|by apply Hk].
Qed.

Lemma m_open_spec x l :
  let '(r, l') := m_open x l in opens x r (kn_view l) (kn_view l').
Proof.
  apply (fallible_spec _ _ _ (fun r v => opens x r (kn_view l) v)); [by left|].
  intros l' E. cbn. rewrite E. right. destruct (next_fd_bounds (kn_view l)) as [Hb Hf].
  split_and!; [done|done|]. exists (next_obj (kn_view l)). split; [apply next_obj_fresh|done].
Qed.

Lemma m_change_spec fd f l :
  let '(r, l') := m_change fd f l in
  (r = -1 /\ kn_view l' = kn_view l) \/
  (exists o x x', k_fds (kn_view l) !! fd = Some o /\ k_objs (kn_view l) !! o = Some x /\
     f x = Some (r, x') /\ kn_view l' = set_obj o x' (kn_view l)).
Proof.
  apply (fallible_spec _ _ _ (fun r v => (r = -1 /\ v = kn_view l) \/
    (exists o x x', k_fds (kn_view l) !! fd = Some o /\ k_objs (kn_view l) !! o = Some x /\
     f x = Some (r, x') /\ v = set_obj o x' (kn_view l)))); [by left|].
  intros l' E. cbn. rewrite E. destruct (k_fds (kn_view l) !! fd) as [o|] eqn:Eo; [|by left].
  destruct (k_objs (kn_view l) !! o) as [x|] eqn:Ex; [|by left].
  destruct (f x) as [[r x']|] eqn:Ef; [|by left]. right. exists o, x, x'. naive_solver.
Qed.

Lemma m_change_total fd g l :
  let '(r, l') := m_change fd (fun x => Some (0, g x)) l in
  changes fd g r (kn_view l) (kn_view l') /\ (r <> -1 -> r = 0).
Proof.
  pose proof (m_change_spec fd (fun x => Some (0, g x)) l) as Hc.
  destruct (m_change fd _ l) as [r l'].
  destruct Hc as [[-> ->]|(o & x & x' & Ho & Hx & [= <- <-] & ->)].
  - split; [by left|done].
  - split; [|done]. right. split; [done|]. by exists o, x.
Qed.

#[export] Instance kernel_libc_spec : LibcSpec kernel.
Proof.
  refine {| libc_view := kn_view |}.
  - intros l. by eexists.
  - intros n fl l. apply m_open_spec.
  - intros fd n c fl o l. cbn.
    pose proof (m_change_spec fd (m_write (ne_bytes 8 n)) l) as Hc.
    destruct (m_change fd _ l) as [r l']. intros Ho Hx Hn.
    destruct Hc as [[-> ->]|(o' & x & x' & Ho' & Hx' & Hf & ->)]; [by left|right].
    simplify_eq. unfold m_write in Hf. rewrite length_ne_bytes, ne_value_bytes in Hf
      by (unfold u64_max in Hn; change (256 ^ Z.of_nat 8) with (2 ^ 64); lia).
    case_decide; naive_solver.
  - intros fd l. cbn.
    apply (fallible_spec _ _ _ (fun (r : io_result Z) v => match r with
      | Err _ => v = kn_view l
      | Ok fd' => exists o, k_fds (kn_view l) !! fd = Some o /\
        0 <= fd' /\ k_fds (kn_view l) !! fd' = None /\
        v = KView (<[fd' := o]> (k_fds (kn_view l))) (k_objs (kn_view l)) end)); [done|].
    intros l' E. cbn. rewrite E. destruct (k_fds (kn_view l) !! fd) as [o|] eqn:Eo; cbn; [|done].
    exists o. destruct (next_fd_bounds (kn_view l)) as [Hb Hf]. done.
  - done.
  - intros fam ty proto l. apply m_open_spec.
  - intros fd addr n l. apply m_change_total.
  - intros fd n l. apply m_change_total.
  - intros fd off whence l. cbn.
    apply (fallible_spec _ _ _ (fun r v => v = kn_view l /\ (r <> -1 -> 0 <= r < 2 ^ 63))); [done|].
    intros l' E. split; [done|]. intros Hr. pose proof (as_s_range 64 off ltac:(lia)) as Hs.
    unfold is_s in Hs. lia.
  - intros clk fl l. apply m_open_spec.
  - intros fd fl s ns l. cbn.
    pose proof (m_change_total fd (arm (s * 10 ^ 9 + ns)) l) as Hc.
    by destruct (m_change fd _ l) as [r l'], Hc.
  - intros l. cbn. by destruct (kn_clock l) as [|t [|t' ts]].
Defined.
End laws.
Close Scope Z_scope.
