(* ===== verification/Futures.v ===== *)
(** The interface between the reactor and the futures built on one oneshot
    handle (files, sockets, events): what such a future adds to the handle,
    and what every one of them promises because of the reactor.

    A future is polled by [submit_or_get_result] on its handle, with a closure
    that prepares its fields and builds the operation, and a function applied
    to the result.  [poll_future] is this common shape; each future's own
    [poll], written as in its source, is shown to be an instance of it. *)
From S2P Require Import Prelude Crates CrateModels Results Reactor Io RingFacts Mailbox Refinement RefineOps System Sqe.

Class UringFuture (F Out : Type) := {
  io_of : F -> Oneshot.IoState;
  set_io : Oneshot.IoState -> F -> F;
  prepare : F -> outcome (sqe * F);                 (* the closure *)
  finish : F -> io_result Z -> outcome (Out * F);   (* the function given to [map] *)
}.

(** A closure never blocks, builds an operation that completes once, and
    leaves the handle alone. *)
Class UringFutureSpec (F Out : Type) `{UringFuture F Out} : Prop := {
  io_of_set_io : forall io (f : F), io_of (set_io io f) = io;
  set_io_of : forall (f : F), set_io (io_of f) f = f;
  prepare_cases : forall f : F,
    (exists e f', prepare f = Ret (e, f') /\ is_multishot e = false /\ io_of f' = io_of f) \/
    (exists p, prepare f = Panic p);
  finish_cases : forall (f : F) x,
    (exists o f', finish f x = Ret (o, f') /\ io_of f' = io_of f) \/
    (exists p, finish f x = Panic p);
}.

Section poll.
Context {S : Type -> Type} `{Slab S} {B : Type} `{RingBuffer B}.
Context {U : Type} `{IoUring U sqe} {T : Type}.
Context {F Out : Type} `{UringFuture F Out}.
Abbreviation reactor := (ReactorInner S B U T).

Definition finish_poll (f : F) (p : poll (io_result Z)) : outcome (poll Out * F) :=
  match p with
  | Ready x => '(o, f) ← finish f x; mret (Ready o, f)
  | Pending => mret (Pending, f)
  end.

Definition poll_future (self : F) (cx : T) (ring : reactor) :
    outcome (poll Out * F * reactor) :=
  '(p, io, ring, self) ← Oneshot.submit_or_get_result (io_of self) ring self
     (fun self => '(entry, self) ← prepare self; mret (entry, cx, self));
  '(o, self) ← finish_poll (set_io io self) p;
  mret (o, self, ring).
End poll.

(** The reactor used by the futures: its submission queue entries are those
    of Sqe.v, of which only [AcceptMulti] posts several completions. *)
Class FuturesRing (U : Type) `{IoUringSpec U sqe} : Prop :=
  entry_is_multishot : forall e, entry_multishot e = is_multishot e.

(** Creating, submitting and dropping oneshot handles, for futures that
    make their own. *)
Section handles.
Context {S : Type -> Type} `{SlabSpec S} {B : Type} `{RingBufferSpec B}.
Context {U : Type} `{FuturesRing U} {T : Type}.
Abbreviation reactor := (ReactorInner S B U T).
Implicit Types (r : reactor) (hs : gmap nat handle) (n h : nat) (a : areactor T).

Lemma new_handle_ok r hs n a :
  refines (Sys r hs n) a ->
  exists a', astep a (LNew n false) a' /\
    refines (Sys r (<[n := HOne Oneshot.New]> hs) (Datatypes.S n)) a'.
Proof. intros Hr. pose proof (run_op_ok _ _ (ONew (Entry:=sqe) false) Hr I) as Hok. exact Hok. Qed.

Lemma submit_handle_ok r hs n a h e (cx : T) :
  refines (Sys r (<[h := HOne Oneshot.New]> hs) n) a -> is_multishot e = false ->
  match submit_io r e cx Oneshot with
  | Ret (ud, slot, r') => exists a', astep a (LPollOne h cx Pending) a' /\
      refines (Sys r' (<[h := HOne (Oneshot.Submitted slot)]> hs) n) a'
  | Panic p => p = UnwrapErr /\ RING_ENTRIES <= length (rv_sq (uring_view (uring r)))
  | _ => False
  end.
Proof.
  intros Hr He. pose proof (run_op_ok _ _ (OPoll h e cx) Hr) as Hok. unfold op_ok in Hok. cbn in Hok.
  rewrite lookup_insert_eq, entry_is_multishot in Hok. specialize (Hok He). cbn in Hok.
  destruct Hr as (own & Hinv). cbn in Hinv.
  pose proof (submit_io_ok _ _ _ _ _ h e cx false Hinv (lookup_insert_eq _ _ _)) as Hsub.
  rewrite entry_is_multishot in Hsub. specialize (Hsub He). cbn [kind_of] in Hsub.
  destruct (submit_io r e cx Oneshot) as [[[ud slot] r']|p| |]; cbn in Hok; try done.
  by rewrite insert_insert_eq in Hok.
Qed.

Lemma drop_handle_ok r hs n a h io :
  refines (Sys r (<[h := HOne io]> hs) n) a ->
  exists r' a', Oneshot.drop io r = Ret r' /\ astep a (LDrop h) a' /\
    refines (Sys r' (delete h hs) n) a'.
Proof.
  intros Hr. pose proof (run_op_ok _ _ (ODrop (Entry:=sqe) h) Hr) as Hok. unfold op_ok in Hok. cbn in Hok.
  rewrite lookup_insert_eq in Hok. specialize (Hok ltac:(eauto)).
  destruct (Oneshot.drop io r) as [r'|p| |]; cbn in Hok; [|naive_solver..].
  rewrite delete_insert_eq in Hok. destruct Hok as (a' & Ha & Hr'). by exists r', a'.
Qed.
End handles.

Section theory.
Context {S : Type -> Type} `{SlabSpec S} {B : Type} `{RingBufferSpec B}.
Context {U : Type} `{FuturesRing U} {T : Type}.
Context {F Out : Type} `{UringFutureSpec F Out}.
Abbreviation reactor := (ReactorInner S B U T).
Abbreviation sys := (sys S B U T).
Implicit Types (s : sys) (f : F).

(** The answer [p] of a future for the answer [q] of its mailbox. *)
Definition answers f (q : poll (io_result Z)) (p : poll Out) (f' : F) : Prop :=
  match q with
  | Ready x => exists o, finish f x = Ret (o, f') /\ p = Ready o
  | Pending => p = Pending /\ f' = f
  end.

(** What polling the future whose handle is [h] does, in the terms of the
    specification of the reactor: the first poll submits the operation
    prepared and answers [Pending]; the later ones answer what the mailbox of
    the handle holds. *)
Definition poll_spec s (a : areactor T) h f (cx : T) (p : poll Out) f' (r' : reactor) : Prop :=
  exists q a' g,
    astep a (LPollOne h cx q) a' /\
    refines (Sys r' (<[h := HOne (io_of f')]> (s_hs s)) (s_next s)) a' /\
    answers g q p f' /\
    match io_of f with
    | Oneshot.New => exists e ud slot f1, prepare f = Ret (e, f1) /\
        submit_io (s_ring s) e cx Oneshot = Ret (ud, slot, r') /\
        q = Pending /\ g = set_io (Oneshot.Submitted slot) f1
    | _ => g = set_io (io_of f') f
    end.

(** The panics: of the closure, of the function applied to the result, and
    those of the handle (submission queue full, result [i32::MIN]). *)
Definition poll_panics s f (cx : T) (p : panic) : Prop :=
  (io_of f = Oneshot.New /\ prepare f = Panic p) \/
  (exists g x, finish g x = Panic p) \/
  (io_of f = Oneshot.New /\ p = UnwrapErr /\
   RING_ENTRIES <= length (rv_sq (uring_view (uring (s_ring s))))) \/
  p = ArithOverflow.

(** The closure of a handle that has submitted is not run. *)
Lemma submitted_closure {C D} io (r : reactor) (c : C) (d : D)
    (fc : C -> outcome (sqe * T * C)) (fd : D -> outcome (sqe * T * D)) :
  io <> Oneshot.New ->
  Oneshot.submit_or_get_result io r c fc =
    ('(p, io, r, _) ← Oneshot.submit_or_get_result io r d fd; mret (p, io, r, c)).
Proof.
  intros Hio. destruct io as [|slot|v]; [done| |]; cbn.
  - destruct (OneshotStore.get_result _ slot) as [[[v|] o]| | |]; cbn; try done.
    by destruct (reactor_value_to_result v).
  - by destruct (reactor_value_to_result v).
Qed.

Lemma poll_new f cx (r : reactor) e f1 :
  io_of f = Oneshot.New -> prepare f = Ret (e, f1) ->
  poll_future f cx r =
    ('(ud, slot, r') ← submit_io r e cx Oneshot;
     mret (Pending, set_io (Oneshot.Submitted slot) f1, r')).
Proof.
  intros Hio Hp. unfold poll_future. rewrite Hio. cbn. rewrite Hp. cbn.
  by destruct (submit_io r e cx Oneshot) as [[[ud slot] r']| | |].
Qed.

Lemma finish_poll_cases f q :
  (exists p f', finish_poll f q = Ret (p, f') /\ answers f q p f' /\ io_of f' = io_of f) \/
  (exists x p, finish f x = Panic p /\ finish_poll f q = Panic p).
Proof.
  destruct q as [x|]; cbn; [|left; by exists Pending, f].
  destruct (finish_cases f x) as [(o & f' & E & Hio)|(p & E)]; rewrite E; cbn; [left|right].
  - exists (Ready o), f'. split_and!; [done| |done]. by exists o.
  - exists x, p. by rewrite E.
Qed.

(** Every future built on a oneshot handle follows its mailbox. *)
Lemma poll_future_ok s a h f cx :
  refines s a -> s_hs s !! h = Some (HOne (io_of f)) ->
  match poll_future f cx (s_ring s) with
  | Ret (p, f', r') => poll_spec s a h f cx p f' r'
  | Panic p => poll_panics s f cx p
  | _ => False
  end.
Proof.
  intros Hs Hh. destruct (decide (io_of f = Oneshot.New)) as [Hio|Hio].
  - destruct (prepare_cases f) as [(e & f1 & Hp & He & Hf1)|(p & Hp)].
    + rewrite (poll_new _ _ _ _ _ Hio Hp).
      pose proof (run_op_ok s a (OPoll h e cx) Hs) as Hok. unfold op_ok in Hok.
      destruct s as [r hs n]. cbn in *. rewrite Hh, Hio in Hok. cbn in Hok.
      rewrite entry_is_multishot in Hok. specialize (Hok He).
      destruct (submit_io r e cx Oneshot) as [[[ud slot] r']|p| |] eqn:Esub; cbn in *; try done.
      * destruct Hok as (a' & Ha & Hr). exists Pending, a', (set_io (Oneshot.Submitted slot) f1).
        rewrite io_of_set_io. split_and!; try done. rewrite Hio. by exists e, ud, slot, f1.
      * unfold poll_panics. naive_solver.
    + unfold poll_future. rewrite Hio. cbn. rewrite Hp. cbn. by left.
  - unfold poll_future. set (e := Read 0 (PollFrame "") 0 0).
    rewrite (submitted_closure _ _ f tt _ (fun _ => mret (e, cx, tt)) Hio).
    pose proof (run_op_ok s a (OPoll h e cx) Hs) as Hok. unfold op_ok in Hok.
    destruct s as [r hs n]. cbn in *. rewrite Hh in Hok. rewrite entry_is_multishot in Hok.
    specialize (Hok eq_refl).
    destruct (Oneshot.submit_or_get_result (io_of f) r tt _) as [[[[q io] r'] ?]|p| |]; cbn in *; try done.
    + destruct Hok as (a' & Ha & Hr).
      destruct (finish_poll_cases (set_io io f) q) as [(p & f' & E & Hans & Hf')|(x & p & E1 & E2)].
      * rewrite E. cbn. exists q, a', (set_io io f). rewrite Hf', io_of_set_io.
        split_and!; try done. by destruct (io_of f).
      * rewrite E2. cbn. unfold poll_panics. eauto.
    + destruct Hok as [(-> & Hl & [Hn|Hn])| ->]; [|naive_solver|unfold poll_panics; auto].
      cbn in Hn. naive_solver congruence.
Qed.

(** What the store of the handle says of its mailbox. *)
Lemma delivered_mail (r : reactor) hs n a h slot v :
  refines (Sys r hs n) a -> hs !! h = Some (HOne (Oneshot.Submitted slot)) ->
  slab_view (oneshot (ring_results r)) !! slot = Some (RsSet v) ->
  a_mail a !! h = Some (AOneReady v).
Proof.
  intros (own & Inv & _) Hh Hv. cbn in Inv.
  destruct (inv_one_submitted _ _ _ _ _ _ _ _ _ _ _ Inv Hh) as [(_ & E & _)|(v' & E & Es & _)];
    naive_solver congruence.
Qed.

Lemma waiting_mail (r : reactor) hs n a h slot :
  refines (Sys r hs n) a -> hs !! h = Some (HOne (Oneshot.Submitted slot)) ->
  slab_view (oneshot (ring_results r)) !! slot = Some RsPending ->
  a_mail a !! h = Some AOneWait.
Proof.
  intros (own & Inv & _) Hh Hv. cbn in Inv.
  destruct (inv_one_submitted _ _ _ _ _ _ _ _ _ _ _ Inv Hh) as [(E & _)|(v' & _ & Es & _)];
    naive_solver congruence.
Qed.

(** A handle whose result has been delivered gives it at its next poll. *)
Lemma ready_handle_returns {C} (r : reactor) hs n a h io v x (c : C)
    (k : C -> outcome (sqe * T * C)) :
  refines (Sys r hs n) a -> hs !! h = Some (HOne io) -> a_mail a !! h = Some (AOneReady v) ->
  reactor_value_to_result v = Ret x ->
  exists r', Oneshot.submit_or_get_result io r c k = Ret (Ready x, Oneshot.Finished v, r', c).
Proof.
  intros (own & Inv & _) Hh Hm Hx. cbn in Inv. pose proof (i_handle Inv h) as Hok.
  rewrite Hh, Hm in Hok. destruct io as [|slot|v']; [done| |by destruct Hok].
  destruct (inv_one_submitted _ _ _ _ _ _ _ _ _ _ _ Inv Hh) as [(E & _)|(v' & E & Es & _)];
    rewrite Hm in E; simplify_eq.
  cbn. unfold RingResults.get_oneshot.
  destruct (get_result_set _ slot _ Es) as (o' & -> & _). cbn. rewrite Hx. cbn. by eexists.
Qed.

(** Progress: so does the future built on it, unless its function panics. *)
Lemma ready_future_returns s a h f cx v x :
  refines s a -> s_hs s !! h = Some (HOne (io_of f)) -> a_mail a !! h = Some (AOneReady v) ->
  reactor_value_to_result v = Ret x ->
  exists r', poll_future f cx (s_ring s) =
    ('(o, f') ← finish (set_io (Oneshot.Finished v) f) x; Ret (Ready o, f', r')).
Proof.
  intros Hs Hh Hm Hx. destruct s as [r hs n]. cbn in *. unfold poll_future.
  destruct (ready_handle_returns r hs n a h (io_of f) v x f
    (fun self => '(entry, self) ← prepare self; mret (entry, cx, self)) Hs Hh Hm Hx) as [r' ->].
  exists r'. cbn. by destruct (finish _ x) as [[o f']| | |].
Qed.

(** Most futures prepare nothing but their operation [e], and only convert
    the result.  What polling their handle does: *)
Definition handle_polled s (a : areactor T) h (io : Oneshot.IoState) (cx : T) (e : sqe)
    (q : poll (io_result Z)) (io' : Oneshot.IoState) (r' : reactor) : Prop :=
  (exists a', astep a (LPollOne h cx q) a' /\
     refines (Sys r' (<[h := HOne io']> (s_hs s)) (s_next s)) a') /\
  (io = Oneshot.New -> q = Pending /\ exists ud slot,
     submit_io (s_ring s) e cx Oneshot = Ret (ud, slot, r') /\ io' = Oneshot.Submitted slot).

Definition handle_panics s (io : Oneshot.IoState) (p : panic) : Prop :=
  (io = Oneshot.New /\ p = UnwrapErr /\
   RING_ENTRIES <= length (rv_sq (uring_view (uring (s_ring s))))) \/
  p = ArithOverflow.

Lemma simple_future_ok s a h f cx e (g : io_result Z -> Out) :
  refines s a -> s_hs s !! h = Some (HOne (io_of f)) ->
  prepare f = Ret (e, f) -> (forall f x, finish f x = Ret (g x, f)) ->
  match poll_future f cx (s_ring s) with
  | Ret (p, f', r') => exists q, handle_polled s a h (io_of f) cx e q (io_of f') r' /\
      p = poll_map g q /\ f' = set_io (io_of f') f
  | Panic p => handle_panics s (io_of f) p
  | _ => False
  end.
Proof.
  intros Hs Hh Hp Hf. pose proof (poll_future_ok s a h f cx Hs Hh) as Hok.
  destruct (poll_future f cx (s_ring s)) as [[[p f'] r']|p| |]; try done.
  - destruct Hok as (q & a' & k & Ha & Hr & Hans & Hio). exists q.
    assert (f' = k /\ p = poll_map g q) as [-> ->].
    { destruct q as [x|]; cbn in Hans |- *; [|naive_solver].
      destruct Hans as (o & E & ->). rewrite Hf in E. by simplify_eq. }
    split; [|split; [done|]].
    + split; [by exists a'|]. intros E. rewrite E in Hio.
      destruct Hio as (e' & ud & slot & f1 & E1 & E2 & -> & ->). rewrite Hp in E1. simplify_eq.
      split; [done|]. exists ud, slot. by rewrite io_of_set_io.
    + destruct (io_of f); [|exact Hio..].
      destruct Hio as (e' & ud & slot & f1 & E1 & E2 & -> & ->). rewrite Hp in E1. simplify_eq.
      by rewrite io_of_set_io.
  - destruct Hok as [[_ E]|[(k & x & E)|[E|E]]]; [congruence| |by left|by right].
    by rewrite Hf in E.
Qed.
End theory.

Lemma to_result_ok v n : reactor_value_to_result v = Ret (Ok n) -> v = n /\ (0 <= n)%Z.
Proof.
  unfold reactor_value_to_result. destruct (Z.ltb_spec v 0); [by case_decide|].
  intros E. by injection E as ->.
Qed.

(** The results of a mailbox that are not errors are not negative. *)
Lemma mailbox_ok_nonneg {T} (a a' : areactor T) h t n :
  astep a (LPollOne h t (Ready (Ok n))) a' -> (0 <= n)%Z.
Proof.
  intros Ha. inversion Ha; subst;
    match goal with E : reactor_value_to_result _ = _ |- _ => by apply to_result_ok in E as [-> ?] end.
Qed.

(** The [poll] of a future, unfolded, is an instance of [poll_future]. *)
Ltac solve_poll_eq :=
  unfold poll_future; apply outcome_bind_ext; [reflexivity|];
  intros [[[[x|] ?] ?] ?]; reflexivity.

Ltac solve_future_spec :=
  split; intros; try (match goal with f : _ |- set_io _ _ = _ => by destruct f end);
  cbn; try done; left; by eauto.
