(* ===== verification/SockAddr.v ===== *)
(** Socket addresses: src/src/futures/sock_addr.rs.

    [CSockAddr] holds the C representation of a [SocketAddr]: the bytes of
    the union of [sockaddr_in] and [sockaddr_in6], laid out as the Linux ABI
    lays them out, and the length of the member in use.  The byte order of the
    host is a parameter, and the conversions of libc ([htons] and the like) are
    known by their documented effect on it. *)
From S2P Require Import Prelude Bytes.

Open Scope Z_scope.

(** [htons], [htonl], [ntohs] and [ntohl]: the result of the first two, in
    its native representation, is the argument in network (big endian) order;
    the others undo them. *)
Class NetOrder := {
  htons : Z -> Z;
  htonl : Z -> Z;
  ntohs : Z -> Z;
  ntohl : Z -> Z;
}.

Class NetOrderSpec `{Host} `{NetOrder} : Prop := {
  htons_spec : forall v, is_u 16 v -> is_u 16 (htons v) /\ ne_bytes 2 (htons v) = be_bytes 2 v;
  htonl_spec : forall v, is_u 32 v -> is_u 32 (htonl v) /\ ne_bytes 4 (htonl v) = be_bytes 4 v;
  ntohs_htons : forall v, is_u 16 v -> ntohs (htons v) = v;
  ntohl_htonl : forall v, is_u 32 v -> ntohl (htonl v) = v;
}.

(** ** [std::net::SocketAddr]

    An IPv4 address is its [to_bits()], an IPv6 address its 128 bits. *)
Inductive SocketAddr :=
  | V4 (ip port : Z)
  | V6 (ip port flowinfo scope_id : Z).

#[export] Instance SocketAddr_eq_dec : EqDecision SocketAddr.
Proof. solve_decision. Defined.

Definition addr_ok (a : SocketAddr) : Prop :=
  match a with
  | V4 ip port => is_u 32 ip /\ is_u 16 port
  | V6 ip port fl sc => is_u 128 ip /\ is_u 16 port /\ is_u 32 fl /\ is_u 32 sc
  end.

Definition is_ipv4 (a : SocketAddr) : bool := match a with V4 _ _ => true | _ => false end.

(** Linux constants. *)
Definition AF_INET : Z := 2.
Definition AF_INET6 : Z := 10.

(** [sockaddr_in]:  family @0, port @2, address @4, padding @8; 16 bytes.
    [sockaddr_in6]: family @0, port @2, flow info @4, address @8, scope @24; 28 bytes. *)
Definition V4_LEN : Z := 16.
Definition V6_LEN : Z := 28.
Definition CSockAddrs_size : nat := 28.

Record CSockAddr := MkCSockAddr {
  addr : list Z;              (* the bytes of the union *)
  len : Z;
}.

#[export] Instance CSockAddr_eq_dec : EqDecision CSockAddr.
Proof. solve_decision. Defined.

(** Writing and reading a field of the union. *)
Definition put_field (mem : list Z) (off : nat) (bs : list Z) : list Z :=
  take off mem ++ bs ++ drop (off + length bs) mem.
Definition get_field (mem : list Z) (off n : nat) : list Z := take n (drop off mem).

Section conversions.
Context `{Host} `{NetOrder}.

Definition zeroed : list Z := replicate CSockAddrs_size 0.

(** [impl From<SocketAddr> for CSockAddr] *)
Definition CSockAddr_from (value : SocketAddr) : CSockAddr :=
  match value with
  | V4 ip port =>
      let sin_addr := zeroed in
      let sin_addr := put_field sin_addr 0 (ne_bytes 2 (as_u 16 AF_INET)) in
      let sin_addr := put_field sin_addr 4 (ne_bytes 4 (htonl ip)) in
      let sin_addr := put_field sin_addr 2 (ne_bytes 2 (htons port)) in
      MkCSockAddr sin_addr V4_LEN
  | V6 ip port _ _ =>
      let sin_addr := zeroed in
      let sin_addr := put_field sin_addr 0 (ne_bytes 2 (as_u 16 AF_INET6)) in
      let sin_addr := put_field sin_addr 8 (be_bytes 16 ip) in
      let sin_addr := put_field sin_addr 2 (ne_bytes 2 (htons port)) in
      MkCSockAddr sin_addr V6_LEN
  end.

(** [impl TryFrom<&CSockAddr> for SocketAddr] *)
Definition SocketAddr_try_from (value : CSockAddr) : io_result SocketAddr :=
  if decide (len value = V4_LEN) then
    Ok (V4 (ntohl (ne_value (get_field (addr value) 4 4)))
           (ntohs (ne_value (get_field (addr value) 2 2))))
  else if decide (len value = V6_LEN) then
    Ok (V6 (be_value (get_field (addr value) 8 16))
           (ntohs (ne_value (get_field (addr value) 2 2)))
           (ne_value (get_field (addr value) 4 4))
           (ne_value (get_field (addr value) 24 4)))
  else Err (KindError InvalidData).

(** [as_ptr()] with [len]: what the kernel reads. *)
Definition as_sockaddr (c : CSockAddr) : list Z := take (Z.to_nat (len c)) (addr c).
End conversions.

(** ** The layout the kernel expects

    [wire] is the reference: the bytes of a [sockaddr_in] (family, port,
    address, padding) or of a [sockaddr_in6] (family, port, flow information,
    address, scope), the family and the last two in the order of the host. *)
Definition wire `{Host} (a : SocketAddr) : list Z :=
  match a with
  | V4 ip port =>
      ne_bytes 2 AF_INET ++ be_bytes 2 port ++ be_bytes 4 ip ++ replicate 8 0
  | V6 ip port flowinfo scope_id =>
      ne_bytes 2 AF_INET6 ++ be_bytes 2 port ++ ne_bytes 4 flowinfo ++
      be_bytes 16 ip ++ ne_bytes 4 scope_id
  end.

(** What is left of an address in the C representation. *)
Definition strip (a : SocketAddr) : SocketAddr :=
  match a with
  | V4 _ _ => a
  | V6 ip port _ _ => V6 ip port 0 0
  end.

Lemma length_wire `{Host} a : Z.of_nat (length (wire a)) = if is_ipv4 a then V4_LEN else V6_LEN.
Proof.
  destruct a; unfold wire; rewrite !length_app, ?length_ne_bytes, ?length_be_bytes;
    [rewrite length_replicate|]; done.
Qed.

Lemma addr_ok_strip a : addr_ok a -> addr_ok (strip a).
Proof. destruct a; cbn; [done|]. unfold is_u. lia. Qed.

(** The fields of the reference layout. *)
Section fields.
Context `{Host}.

Lemma fields_v4 ip port rest :
  get_field (wire (V4 ip port) ++ rest) 4 4 = be_bytes 4 ip /\
  get_field (wire (V4 ip port) ++ rest) 2 2 = be_bytes 2 port.
Proof.
  unfold wire. destruct (ne_bytes_cases 2 AF_INET) as [->| ->]; split; reflexivity.
Qed.

Lemma fields_v6 ip port fl sc rest :
  get_field (wire (V6 ip port fl sc) ++ rest) 8 16 = be_bytes 16 ip /\
  get_field (wire (V6 ip port fl sc) ++ rest) 2 2 = be_bytes 2 port /\
  get_field (wire (V6 ip port fl sc) ++ rest) 4 4 = ne_bytes 4 fl /\
  get_field (wire (V6 ip port fl sc) ++ rest) 24 4 = ne_bytes 4 sc.
Proof.
  unfold wire.
  destruct (ne_bytes_cases 2 AF_INET6) as [->| ->], (ne_bytes_cases 4 fl) as [->| ->],
    (ne_bytes_cases 4 sc) as [->| ->]; split_and!; reflexivity.
Qed.
End fields.

Section layout.
Context `{NetOrderSpec}.

Lemma ne_value_htons v : is_u 16 v -> ntohs (ne_value (be_bytes 2 v)) = v.
Proof.
  intros Hv. destruct (htons_spec v Hv) as [Hr <-].
  rewrite ne_value_bytes by exact Hr. by apply ntohs_htons.
Qed.

Lemma ne_value_htonl v : is_u 32 v -> ntohl (ne_value (be_bytes 4 v)) = v.
Proof.
  intros Hv. destruct (htonl_spec v Hv) as [Hr <-].
  rewrite ne_value_bytes by exact Hr. by apply ntohl_htonl.
Qed.

Lemma CSockAddr_from_wire a :
  addr_ok a ->
  CSockAddr_from a =
    MkCSockAddr (wire (strip a) ++ replicate (CSockAddrs_size - length (wire (strip a))) 0)
                (Z.of_nat (length (wire (strip a)))).
Proof.
  intros Ha. rewrite length_wire. destruct a as [ip port|ip port fl sc]; cbn [strip is_ipv4].
  - destruct Ha as [Hip Hport]. unfold CSockAddr_from.
    rewrite (proj2 (htonl_spec ip Hip)), (proj2 (htons_spec port Hport)).
    unfold wire. destruct (ne_bytes_cases 2 AF_INET) as [E|E];
      change (as_u 16 AF_INET) with AF_INET; rewrite E; reflexivity.
  - destruct Ha as (Hip & Hport & _ & _). unfold CSockAddr_from.
    rewrite (proj2 (htons_spec port Hport)). unfold wire.
    change (as_u 16 AF_INET6) with AF_INET6.
    destruct (ne_bytes_cases 2 AF_INET6) as [E|E], (ne_bytes_cases 4 0) as [E'|E'];
      rewrite E, E'; reflexivity.
Qed.

Lemma try_from_wire a rest :
  addr_ok a ->
  SocketAddr_try_from (MkCSockAddr (wire a ++ rest) (Z.of_nat (length (wire a)))) = Ok a.
Proof.
  intros Ha. rewrite length_wire. unfold SocketAddr_try_from. cbn [len addr].
  destruct a as [ip port|ip port fl sc]; cbn [is_ipv4].
  - destruct Ha as [Hip Hport]. rewrite decide_True by done.
    destruct (fields_v4 ip port rest) as [-> ->]. by rewrite ne_value_htonl, ne_value_htons.
  - destruct Ha as (Hip & Hport & Hfl & Hsc). rewrite decide_False, decide_True by done.
    destruct (fields_v6 ip port fl sc rest) as (-> & -> & -> & ->).
    by rewrite ne_value_htons, be_value_bytes, !ne_value_bytes.
Qed.

(** C34: layout of socket addresses: what [bind], [connect] and
    [sendmsg] are given for an address is exactly the kernel's layout of it
    (family in the order of the host, port and address in network order, zeros
    elsewhere), with its length; of an IPv6 address only the flow information
    and the scope are lost, replaced by 0. *)
Theorem sockaddr_layout a :
  addr_ok a ->
  as_sockaddr (CSockAddr_from a) = wire (strip a) /\
  len (CSockAddr_from a) = Z.of_nat (length (as_sockaddr (CSockAddr_from a))).
Proof.
  intros Ha. rewrite CSockAddr_from_wire by done. unfold as_sockaddr. cbn [len addr].
  by rewrite Nat2Z.id, take_app_length.
Qed.

(** C35: round trip of socket addresses: an address in the kernel's layout,
    whatever follows it in the union, is decoded to itself, so what is decoded
    from the conversion of an address is this address without its flow
    information and its scope; a length of neither form is refused with [InvalidData]. *)
Theorem sockaddr_roundtrip a rest bytes n :
  addr_ok a ->
  SocketAddr_try_from (MkCSockAddr (wire a ++ rest) (Z.of_nat (length (wire a)))) = Ok a /\
  SocketAddr_try_from (CSockAddr_from a) = Ok (strip a) /\
  (n <> V4_LEN -> n <> V6_LEN ->
   SocketAddr_try_from (MkCSockAddr bytes n) = Err (KindError InvalidData)).
Proof.
  intros Ha. split_and!.
  - by apply try_from_wire.
  - rewrite CSockAddr_from_wire by done. by apply try_from_wire, addr_ok_strip.
  - intros Hn4 Hn6. unfold SocketAddr_try_from. cbn [len]. by rewrite !decide_False.
Qed.
End layout.

(** ** The two kinds of hosts *)
(** Little endian hosts (x86, Arm): the conversions swap the bytes. *)
Definition little_endian : Host := false.
Definition swapping : NetOrder :=
  {| htons := swap 2; htonl := swap 4; ntohs := swap 2; ntohl := swap 4 |}.

Lemma little_endian_spec : @NetOrderSpec little_endian swapping.
Proof.
  split; intros v Hv.
  - split; [apply (swap_range 2)|apply (le_bytes_swap 2)].
  - split; [apply (swap_range 4)|apply (le_bytes_swap 4)].
  - by apply (swap_swap 2).
  - by apply (swap_swap 4).
Qed.

(** Big endian hosts (s390x): they do nothing. *)
Definition big_endian : Host := true.
Definition identity : NetOrder :=
  {| htons := id; htonl := id; ntohs := id; ntohl := id |}.

Lemma big_endian_spec : @NetOrderSpec big_endian identity.
Proof. split; intros v Hv; done. Qed.

(** ** Witnesses *)

(** 127.0.0.1:8888 and [fe80::1%2]:80 on a little endian host. *)
Definition localhost : SocketAddr := V4 2130706433 8888.
Definition link_local : SocketAddr := V6 (65152 * 2 ^ 112 + 1) 80 7 2.

Example wire_localhost :
  as_sockaddr (@CSockAddr_from little_endian swapping localhost) =
    [2; 0; 34; 184; 127; 0; 0; 1; 0; 0; 0; 0; 0; 0; 0; 0].
Proof. vm_compute. reflexivity. Qed.

Lemma sockaddr_layout_witness :
  as_sockaddr (@CSockAddr_from little_endian swapping link_local) =
    @wire little_endian (V6 (65152 * 2 ^ 112 + 1) 80 0 0).
Proof.
  refine (proj1 (@sockaddr_layout little_endian swapping little_endian_spec link_local _)).
  unfold addr_ok, link_local, is_u. lia.
Defined.

Lemma sockaddr_roundtrip_witness :
  @SocketAddr_try_from big_endian identity (@CSockAddr_from big_endian identity localhost) =
    Ok localhost.
Proof.
  refine (proj1 (proj2 (@sockaddr_roundtrip big_endian identity big_endian_spec
                          localhost [] [] 0 _))).
  unfold addr_ok, localhost, is_u. lia.
Defined.
Close Scope Z_scope.
