(* ===== verification/Event.v ===== *)
(** Events: src/src/futures/event.rs.

    An event is an eventfd in semaphore mode: [notify_one] adds one to its
    counter, and the read submitted by a waiter completes when it can take
    one away. *)
From S2P Require Import Prelude Bytes Crates CrateModels Results Reactor Io RingFacts Mailbox Refinement RefineOps System Sqe Futures Libc.

Open Scope Z_scope.

Module Event.
Record Event := MkEvent { inner : Z }.

#[global] Instance Event_eq_dec : EqDecision Event.
Proof. solve_decision. Defined.

Section event.
Context {L : Type} `{Libc L} `{Host}.

(** [Event::new] *)
Definition new (l : L) : io_result Event * L :=
  let (fd, l) := sys_eventfd 0 (Z.lor EFD_NONBLOCK EFD_SEMAPHORE) l in
  if decide (fd = -1) then (Err (last_os_error l), l)
  else (Ok (MkEvent fd), l).

(** [Event::notify_one] *)
Definition notify_one (self : Event) (l : L) : io_result unit * L :=
  let buffer := ne_bytes 8 1 in
  let (ret, l) := sys_write (inner self) buffer l in
  if decide (ret = -1) then (Err (last_os_error l), l)
  else if decide (as_u 64 ret <> Z.of_nat (length buffer)) then
    (Err (KindError UnexpectedEof), l)
  else (Ok tt, l).

(** [impl Clone for Event] *)
Definition clone (self : Event) (l : L) : outcome (Event * L) :=
  let (r, l) := try_clone (inner self) l in
  fd ← unwrap_result r;
  mret (MkEvent fd, l).

(** Dropping an event closes its descriptor. *)
Definition drop (self : Event) (l : L) : L := sys_close (inner self) l.
End event.
End Event.

Module EventWaiter.
Record EventWaiter := MkWaiter {
  inner : Z;
  io : Oneshot.IoState;
  wait_buf : list Z;
}.

(** [Event::wait] *)
Definition wait (self : Event.Event) : EventWaiter :=
  MkWaiter (Event.inner self) Oneshot.new (replicate 8 0).

Definition set_io (io : Oneshot.IoState) (self : EventWaiter) : EventWaiter :=
  MkWaiter (inner self) io (wait_buf self).

Section poll.
Context {S : Type -> Type} `{Slab S} {B : Type} `{RingBuffer B}.
Context {U : Type} `{IoUring U sqe} {T : Type}.
Abbreviation reactor := (ReactorInner S B U T).

(** [impl Future for EventWaiter] *)
Definition poll (self : EventWaiter) (ctx : T) (ring : reactor) :
    outcome (poll (io_result unit) * EventWaiter * reactor) :=
  '(x, io, ring, this) ← Oneshot.submit_or_get_result (io self) ring self
     (fun this =>
        mret (Read (inner this) (InFuture "wait_buf") (as_u 32 (Z.of_nat (length (wait_buf this)))) 0,
              ctx, this));
  mret (poll_map (result_map (fun _ => tt)) x, set_io io this, ring).

(** Dropping a waiter drops its handle. *)
Definition drop (self : EventWaiter) (ring : reactor) : outcome reactor :=
  Oneshot.drop (io self) ring.
End poll.

#[global] Instance future : UringFuture EventWaiter (io_result unit) := {
  io_of := io;
  Futures.set_io := set_io;
  prepare this :=
    mret (Read (inner this) (InFuture "wait_buf") (as_u 32 (Z.of_nat (length (wait_buf this)))) 0, this);
  finish this x := mret (result_map (fun _ => tt) x, this);
}.

#[global] Instance future_spec : UringFutureSpec EventWaiter (io_result unit).
Proof. solve_future_spec. Qed.

Lemma event_waiter_poll_eq {S} `{Slab S} {B} `{RingBuffer B} {U} `{IoUring U sqe} {T} self (cx : T)
    (ring : ReactorInner S B U T) :
  poll self cx ring = poll_future self cx ring.
Proof. unfold poll. solve_poll_eq. Qed.
End EventWaiter.

Section notifications.
Context {L : Type} `{LibcSpec L}.
Implicit Types (l : L) (o : nat) (c : Z).

(** The descriptor of [e] stands for the event object [o]. *)
Definition event_on (e : Event.Event) o (v : kview) : Prop := k_fds v !! Event.inner e = Some o.

Lemma event_new_spec l :
  let '(r, l') := Event.new l in
  match r with
  | Ok e => exists o, k_fds (libc_view l) !! Event.inner e = None /\ k_objs (libc_view l) !! o = None /\
      libc_view l' = KView (<[Event.inner e := o]> (k_fds (libc_view l)))
        (<[o := KEvent 0 (EFD_NONBLOCK + EFD_SEMAPHORE)]> (k_objs (libc_view l)))
  | Err e => libc_view l' = libc_view l /\ e = last_os_error l'
  end.
Proof.
  unfold Event.new. pose proof (eventfd_spec 0 (Z.lor EFD_NONBLOCK EFD_SEMAPHORE) l) as Hs.
  destruct (sys_eventfd 0 _ l) as [fd l']. destruct Hs as [[-> Hv]|(Hfd & Hn & o & Ho & Hv)].
  - by rewrite decide_True.
  - rewrite decide_False by lia. exists o. done.
Qed.

Lemma event_notify_spec e o c fl l :
  event_on e o (libc_view l) -> k_objs (libc_view l) !! o = Some (KEvent c fl) ->
  let '(r, l') := Event.notify_one e l in
  (r = Ok tt /\ c + 1 <= EVENTFD_MAX /\ libc_view l' = set_obj o (KEvent (c + 1) fl) (libc_view l)) \/
  (r = Err (last_os_error l') /\ libc_view l' = libc_view l).
Proof.
  intros He Ho. unfold Event.notify_one. pose proof (write_event_spec (Event.inner e) 1 c fl o l) as Hs.
  destruct (sys_write _ _ l) as [ret l'].
  destruct (Hs He Ho ltac:(done)) as [[-> Hv]|(-> & Hc & Hv)].
  - rewrite decide_True by done. by right.
  - rewrite decide_False by done. rewrite length_ne_bytes, decide_False by (intros E; by apply E).
    by left.
Qed.

Lemma event_clone_spec e o l :
  event_on e o (libc_view l) ->
  match Event.clone e l with
  | Ret (e', l') => k_fds (libc_view l) !! Event.inner e' = None /\
      libc_view l' = KView (<[Event.inner e' := o]> (k_fds (libc_view l))) (k_objs (libc_view l))
  | Panic p => p = UnwrapErr
  | _ => False
  end.
Proof.
  intros He. unfold Event.clone. pose proof (try_clone_spec (Event.inner e) l) as Hs.
  destruct (try_clone _ l) as [[fd|er] l']; cbn; [|done].
  destruct Hs as (o' & Ho' & _ & Hn & ->). unfold event_on in He. by simplify_eq.
Qed.

(** Notifications through any of the handles of an event, one after the other. *)
Fixpoint notify_all (es : list Event.Event) (l : L) : list (io_result unit) * L :=
  match es with
  | [] => ([], l)
  | e :: es =>
      let (r, l) := Event.notify_one e l in
      let (rs, l) := notify_all es l in
      (r :: rs, l)
  end.

Definition count_ok (rs : list (io_result unit)) : Z :=
  Z.of_nat (length (filter (fun r => r = Ok tt) rs)).

Lemma count_ok_cons r rs :
  count_ok (r :: rs) = (if decide (r = Ok tt) then 1 else 0) + count_ok rs.
Proof. unfold count_ok. rewrite filter_cons. case_decide; cbn [length]; lia. Qed.

(** Notifications are counted: through whatever clones of an event
    they are sent, the counter of the event grows by exactly the number of
    [notify_one] that answered [Ok]; the others answered the error of the operating
    system (never [UnexpectedEof]) and changed nothing; nothing else changes. *)
Theorem notifications_counted es o c fl l :
  Forall (fun e => event_on e o (libc_view l)) es ->
  k_objs (libc_view l) !! o = Some (KEvent c fl) ->
  let '(rs, l') := notify_all es l in
  libc_view l' = set_obj o (KEvent (c + count_ok rs) fl) (libc_view l) /\
  length rs = length es /\
  Forall (fun r => r = Ok tt \/ exists errno, r = Err (OsError errno)) rs.
Proof.
  revert c l. induction es as [|e es IH]; intros c l He Ho; cbn [notify_all].
  - split_and!; [|done|by constructor]. unfold count_ok. cbn. rewrite Z.add_0_r.
    unfold set_obj. rewrite insert_id by done. by destruct (libc_view l).
  - apply Forall_cons in He as [He1 He]. pose proof (event_notify_spec e o c fl l He1 Ho) as Hn.
    destruct (Event.notify_one e l) as [r l1]. destruct Hn as [(-> & _ & Hv)|[-> Hv]].
    + specialize (IH (c + 1) l1). destruct (notify_all es l1) as [rs l'].
      destruct IH as (Hv' & Hlen & Herr); [by rewrite Hv|by rewrite Hv; apply lookup_insert_eq|].
      split_and!; [|cbn; lia|constructor; auto]. rewrite Hv', Hv. unfold set_obj. cbn.
      rewrite insert_insert_eq, count_ok_cons, decide_True by done. do 3 f_equal. lia.
    + specialize (IH c l1). destruct (notify_all es l1) as [rs l'].
      destruct IH as (Hv' & Hlen & Herr); [by rewrite Hv|by rewrite Hv|].
      split_and!; [|cbn; lia|constructor; [|done]].
      * by rewrite Hv', Hv, count_ok_cons, decide_False.
      * right. destruct (last_os_error_spec l1) as [errno ->]. eauto.
Qed.
End notifications.
Close Scope Z_scope.
