(* ===== verification/ReadWrite.v ===== *)
(** Reading and writing: src/src/futures/read.rs and src/src/futures/write.rs.

    The buffer of a reader or a writer is memory it borrows; only its length
    matters here. *)
From S2P Require Import Prelude Crates CrateModels Results Reactor Io RingFacts Mailbox Refinement RefineOps System Sqe Futures.

Open Scope Z_scope.

Module AsyncReader.
Record AsyncReader := MkReader {
  fd : Z;
  io : Oneshot.IoState;
  buf_len : Z;          (* [buf.len()] *)
  seekable : bool;
}.

Definition set_io (io : Oneshot.IoState) (self : AsyncReader) : AsyncReader :=
  MkReader (fd self) io (buf_len self) (seekable self).

(** The operation built by the closure. *)
Definition entry (this : AsyncReader) : sqe :=
  Read (fd this) (BorrowedBy "buf") (as_u 32 (buf_len this))
       (if seekable this then u64_max else 0).

Section poll.
Context {S : Type -> Type} `{Slab S} {B : Type} `{RingBuffer B}.
Context {U : Type} `{IoUring U sqe} {T : Type}.
Abbreviation reactor := (ReactorInner S B U T).

(** [impl Future for AsyncReader] *)
Definition poll (self : AsyncReader) (cx : T) (ring : reactor) :
    outcome (poll (io_result Z) * AsyncReader * reactor) :=
  '(x, io, ring, this) ← Oneshot.submit_or_get_result (io self) ring self
     (fun this => mret (entry this, cx, this));
  mret (poll_map (result_map (as_u 64)) x, set_io io this, ring).
End poll.

#[global] Instance future : UringFuture AsyncReader (io_result Z) := {
  io_of := io;
  Futures.set_io := set_io;
  prepare this := mret (entry this, this);
  finish this x := mret (result_map (as_u 64) x, this);
}.

#[global] Instance future_spec : UringFutureSpec AsyncReader (io_result Z).
Proof. solve_future_spec. Qed.

Lemma reader_poll_eq {S} `{Slab S} {B} `{RingBuffer B} {U} `{IoUring U sqe} {T} self (cx : T)
    (ring : ReactorInner S B U T) :
  poll self cx ring = poll_future self cx ring.
Proof. unfold poll. solve_poll_eq. Qed.
End AsyncReader.

Module AsyncWriter.
Record AsyncWriter := MkWriter {
  fd : Z;
  io : Oneshot.IoState;
  buf_len : Z;
  seekable : bool;
}.

Definition set_io (io : Oneshot.IoState) (self : AsyncWriter) : AsyncWriter :=
  MkWriter (fd self) io (buf_len self) (seekable self).

Definition entry (this : AsyncWriter) : sqe :=
  Write (fd this) (BorrowedBy "buf") (as_u 32 (buf_len this))
        (if seekable this then u64_max else 0).

Section poll.
Context {S : Type -> Type} `{Slab S} {B : Type} `{RingBuffer B}.
Context {U : Type} `{IoUring U sqe} {T : Type}.
Abbreviation reactor := (ReactorInner S B U T).

(** [impl Future for AsyncWriter] *)
Definition poll (self : AsyncWriter) (cx : T) (ring : reactor) :
    outcome (poll (io_result Z) * AsyncWriter * reactor) :=
  '(x, io, ring, this) ← Oneshot.submit_or_get_result (io self) ring self
     (fun this => mret (entry this, cx, this));
  mret (poll_map (result_map (as_u 64)) x, set_io io this, ring).
End poll.

#[global] Instance future : UringFuture AsyncWriter (io_result Z) := {
  io_of := io;
  Futures.set_io := set_io;
  prepare this := mret (entry this, this);
  finish this x := mret (result_map (as_u 64) x, this);
}.

#[global] Instance future_spec : UringFutureSpec AsyncWriter (io_result Z).
Proof. solve_future_spec. Qed.

Lemma writer_poll_eq {S} `{Slab S} {B} `{RingBuffer B} {U} `{IoUring U sqe} {T} self (cx : T)
    (ring : ReactorInner S B U T) :
  poll self cx ring = poll_future self cx ring.
Proof. unfold poll. solve_poll_eq. Qed.
End AsyncWriter.

(** ** The traits of readers and writers; a buffer is known by its length *)
Module AsyncRead.
(** [trait AsyncRead]: [read] returns [impl Future<Output = io::Result<usize>>]. *)
Class AsyncRead (R : Type) := {
  Output : Type;
  #[global] output_future :: UringFuture Output (io_result Z);
  read : R -> Z -> Output;
}.

(** What it promises: a future with a handle of its own, which asks for one read of the descriptor. *)
Class AsyncReadSpec (R : Type) `{AsyncRead R} (as_raw_fd : R -> Z) (offset : Z) : Prop := {
  #[global] output_spec :: UringFutureSpec Output (io_result Z);
  read_new : forall self n, io_of (read self n) = Oneshot.new;
  read_asks : forall self n,
    prepare (read self n) = Ret (Read (as_raw_fd self) (BorrowedBy "buf") (as_u 32 n) offset, read self n);
  read_answers : forall (f : Output) x, finish f x = Ret (result_map (as_u 64) x, f);
}.
End AsyncRead.

Module AsyncWrite.
(** [trait AsyncWrite]: [write] returns [impl Future<Output = io::Result<usize>>]. *)
Class AsyncWrite (R : Type) := {
  Output : Type;
  #[global] output_future :: UringFuture Output (io_result Z);
  write : R -> Z -> Output;
}.

(** What it promises: a future with a handle of its own, which asks for one write to the descriptor. *)
Class AsyncWriteSpec (R : Type) `{AsyncWrite R} (as_raw_fd : R -> Z) (offset : Z) : Prop := {
  #[global] output_spec :: UringFutureSpec Output (io_result Z);
  write_new : forall self n, io_of (write self n) = Oneshot.new;
  write_asks : forall self n,
    prepare (write self n) = Ret (Write (as_raw_fd self) (BorrowedBy "buf") (as_u 32 n) offset, write self n);
  write_answers : forall (f : Output) x, finish f x = Ret (result_map (as_u 64) x, f);
}.
End AsyncWrite.

Section properties.
Context {S : Type -> Type} `{SlabSpec S} {B : Type} `{RingBufferSpec B}.
Context {U : Type} `{FuturesRing U} {T : Type}.
Abbreviation sys := (sys S B U T).

(** The number of bytes a read or a write resolves with: the kernel's, which
    the cast to [usize] does not change. *)
Definition resolves_with (q p : Prelude.poll (io_result Z)) : Prop :=
  match q with
  | Ready (Ok n) => 0 <= n /\ (is_s 32 n -> p = Ready (Ok n))
  | _ => p = q
  end.

Lemma resolves_with_cast (a a' : areactor T) h cx q :
  astep a (LPollOne h cx q) a' -> resolves_with q (poll_map (result_map (as_u 64)) q).
Proof.
  intros Ha. destruct q as [[n|e]|]; cbn; [|done..].
  apply mailbox_ok_nonneg in Ha. split; [done|]. intros Hs. do 2 f_equal.
  apply as_u_id. in_range.
Qed.

(** A future that asks for one operation and answers the number of bytes *)
Lemma counts_bytes {F} `{UringFutureSpec F (io_result Z)} (s : sys) a h (f : F) cx e :
  refines s a -> s_hs s !! h = Some (HOne (io_of f)) ->
  prepare f = Ret (e, f) -> (forall f x, finish f x = Ret (result_map (as_u 64) x, f)) ->
  match poll_future f cx (s_ring s) with
  | Ret (p, f', r') => exists q,
      handle_polled s a h (io_of f) cx e q (io_of f') r' /\ resolves_with q p /\ f' = set_io (io_of f') f
  | Panic p => handle_panics s (io_of f) p
  | _ => False
  end.
Proof.
  intros Hs Hh Hp Hf. pose proof (simple_future_ok s a h f cx e _ Hs Hh Hp Hf) as Hok.
  destruct (poll_future f cx (s_ring s)) as [[[p f'] r']|p| |]; try done.
  destruct Hok as (q & Hq & -> & Hf'). exists q. split; [done|]. split; [|done].
  destruct Hq as [(a' & Ha & _) _]. by eapply resolves_with_cast.
Qed.

(** C22: reading and writing: the future of [AsyncRead::read] submits, when it is
    first polled, one read of its descriptor into its buffer, for the length of
    the buffer (below 4 GiB), at the file position when the descriptor is seekable; it
    then follows the mailbox of its handle, and resolves with exactly the
    number of bytes, or the error, the kernel gave for this operation.  The future
    of [AsyncWrite::write] does the same with one write from its buffer. *)
Theorem read_write_follow_mailbox (s : sys) a h io cx fd n sk :
  refines s a -> s_hs s !! h = Some (HOne io) -> 0 <= n < 2 ^ 32 ->
  let offset := if sk : bool then u64_max else 0 in
  match AsyncReader.poll (AsyncReader.MkReader fd io n sk) cx (s_ring s) with
  | Ret (p, self', r') => exists q,
      handle_polled s a h io cx (Read fd (BorrowedBy "buf") n offset) q (AsyncReader.io self') r' /\
      resolves_with q p /\ self' = AsyncReader.MkReader fd (AsyncReader.io self') n sk
  | Panic p => handle_panics s io p
  | _ => False
  end /\
  match AsyncWriter.poll (AsyncWriter.MkWriter fd io n sk) cx (s_ring s) with
  | Ret (p, self', r') => exists q,
      handle_polled s a h io cx (Write fd (BorrowedBy "buf") n offset) q (AsyncWriter.io self') r' /\
      resolves_with q p /\ self' = AsyncWriter.MkWriter fd (AsyncWriter.io self') n sk
  | Panic p => handle_panics s io p
  | _ => False
  end.
Proof.
  intros Hs Hh Hlen offset. split.
  - rewrite AsyncReader.reader_poll_eq.
    pose proof (counts_bytes s a h (AsyncReader.MkReader fd io n sk) cx _ Hs Hh eq_refl (fun _ _ => eq_refl)) as Hok.
    unfold AsyncReader.entry in Hok. cbn in Hok. by rewrite as_u_id in Hok.
  - rewrite AsyncWriter.writer_poll_eq.
    pose proof (counts_bytes s a h (AsyncWriter.MkWriter fd io n sk) cx _ Hs Hh eq_refl (fun _ _ => eq_refl)) as Hok.
    unfold AsyncWriter.entry in Hok. cbn in Hok. by rewrite as_u_id in Hok.
Qed.

(** Against the traits: a read or a write of any type that implements them is polled for the first time. *)
Lemma async_read_starts {R} `{AsyncRead.AsyncReadSpec R fd offset} (self : R) (s : sys) a h cx n :
  refines s a -> s_hs s !! h = Some (HOne Oneshot.new) -> 0 <= n < 2 ^ 32 ->
  match poll_future (AsyncRead.read self n) cx (s_ring s) with
  | Ret (p, f', r') => exists q,
      handle_polled s a h Oneshot.new cx (Read (fd self) (BorrowedBy "buf") n offset) q (io_of f') r' /\
      resolves_with q p /\ f' = set_io (io_of f') (AsyncRead.read self n)
  | Panic p => handle_panics s Oneshot.new p
  | _ => False
  end.
Proof.
  intros Hs Hh Hn. pose proof (AsyncRead.read_asks self n) as Ha. rewrite as_u_id in Ha by done.
  pose proof (AsyncRead.read_new self n) as Hio. rewrite <- Hio in Hh |- *.
  exact (counts_bytes s a h _ cx _ Hs Hh Ha AsyncRead.read_answers).
Qed.

Lemma async_write_starts {W} `{AsyncWrite.AsyncWriteSpec W fd offset} (self : W) (s : sys) a h cx n :
  refines s a -> s_hs s !! h = Some (HOne Oneshot.new) -> 0 <= n < 2 ^ 32 ->
  match poll_future (AsyncWrite.write self n) cx (s_ring s) with
  | Ret (p, f', r') => exists q,
      handle_polled s a h Oneshot.new cx (Write (fd self) (BorrowedBy "buf") n offset) q (io_of f') r' /\
      resolves_with q p /\ f' = set_io (io_of f') (AsyncWrite.write self n)
  | Panic p => handle_panics s Oneshot.new p
  | _ => False
  end.
Proof.
  intros Hs Hh Hn. pose proof (AsyncWrite.write_asks self n) as Ha. rewrite as_u_id in Ha by done.
  pose proof (AsyncWrite.write_new self n) as Hio. rewrite <- Hio in Hh |- *.
  exact (counts_bytes s a h _ cx _ Hs Hh Ha AsyncWrite.write_answers).
Qed.
End properties.
Close Scope Z_scope.
