(* ===== verification/Fs.v ===== *)
(** Files: src/src/futures/fs.rs.

    A path is the list of its bytes.  A [File] is its descriptor. *)
From S2P Require Import Prelude Bytes Crates CrateModels Results Reactor Io RingFacts Mailbox Refinement RefineOps System Sqe Futures Libc ReadWrite.

Open Scope Z_scope.

(** [CString::new(..).unwrap()]: the bytes may hold no NUL. *)
Definition cstring (path : list Z) : outcome (list Z) :=
  if decide (0 ∈ path) then Panic UnwrapErr else mret path.

Module File.
Record File := MkFile { inner : Z }.

Inductive SeekFrom :=
  | Start (off : Z)       (* u64 *)
  | End (off : Z)         (* i64 *)
  | Current (off : Z).    (* i64 *)

(** [impl AsyncRead for File], [impl AsyncWrite for File] *)
Definition read (self : File) (buf_len : Z) : AsyncReader.AsyncReader :=
  AsyncReader.MkReader (inner self) Oneshot.new buf_len true.
Definition write (self : File) (buf_len : Z) : AsyncWriter.AsyncWriter :=
  AsyncWriter.MkWriter (inner self) Oneshot.new buf_len true.

#[global] Instance async_read : AsyncRead.AsyncRead File := { AsyncRead.Output := AsyncReader.AsyncReader; AsyncRead.read := read }.
#[global] Instance async_read_spec : AsyncRead.AsyncReadSpec File inner u64_max.
Proof. split; [apply _|done..]. Qed.
#[global] Instance async_write : AsyncWrite.AsyncWrite File := { AsyncWrite.Output := AsyncWriter.AsyncWriter; AsyncWrite.write := write }.
#[global] Instance async_write_spec : AsyncWrite.AsyncWriteSpec File inner u64_max.
Proof. split; [apply _|done..]. Qed.

(** [impl Seek for File] *)
Definition seek {L} `{Libc L} (self : File) (pos : SeekFrom) (l : L) : io_result Z * L :=
  let '(off, whence) :=
    match pos with
    | Start off => (as_s 64 off, SEEK_SET)
    | End off => (off, SEEK_END)
    | Current off => (off, SEEK_CUR)
    end in
  let (res, l) := sys_lseek (inner self) off whence l in
  if decide (res = -1) then (Err (last_os_error l), l)
  else (Ok (as_u 64 res), l).
End File.

Module FileOpen.
Record FileOpen := MkOpen {
  path : list Z;
  flags : Z;
  io : Oneshot.IoState;
}.

(** [File::open] and [File::create] *)
Definition open (p : list Z) : outcome FileOpen :=
  p ← cstring p; mret (MkOpen p O_RDWR Oneshot.new).
Definition create (p : list Z) : outcome FileOpen :=
  p ← cstring p; mret (MkOpen p (Z.lor O_RDWR O_CREAT) Oneshot.new).

Definition set_io (io : Oneshot.IoState) (self : FileOpen) : FileOpen :=
  MkOpen (path self) (flags self) io.

Definition entry (this : FileOpen) : sqe :=
  OpenAt AT_FDCWD (OwnedBy "path") (flags this) 511.

Section poll.
Context {S : Type -> Type} `{Slab S} {B : Type} `{RingBuffer B}.
Context {U : Type} `{IoUring U sqe} {T : Type}.
Abbreviation reactor := (ReactorInner S B U T).

(** [impl Future for FileOpen] *)
Definition poll (self : FileOpen) (cx : T) (ring : reactor) :
    outcome (poll (io_result File.File) * FileOpen * reactor) :=
  '(x, io, ring, this) ← Oneshot.submit_or_get_result (io self) ring self
     (fun this => mret (entry this, cx, this));
  mret (poll_map (result_map File.MkFile) x, set_io io this, ring).

(** Dropping the future drops its handle. *)
Definition drop (self : FileOpen) (ring : reactor) : outcome reactor :=
  Oneshot.drop (io self) ring.
End poll.

#[global] Instance future : UringFuture FileOpen (io_result File.File) := {
  io_of := io;
  Futures.set_io := set_io;
  prepare this := mret (entry this, this);
  finish this x := mret (result_map File.MkFile x, this);
}.

#[global] Instance future_spec : UringFutureSpec FileOpen (io_result File.File).
Proof. solve_future_spec. Qed.

Lemma file_open_poll_eq {S} `{Slab S} {B} `{RingBuffer B} {U} `{IoUring U sqe} {T} self (cx : T)
    (ring : ReactorInner S B U T) :
  poll self cx ring = poll_future self cx ring.
Proof. unfold poll. solve_poll_eq. Qed.
End FileOpen.

Module Mkdir.
Record Mkdir := MkMkdir {
  io : Oneshot.IoState;
  path : list Z;
}.

(** [File::mkdir] *)
Definition mkdir (p : list Z) : outcome Mkdir :=
  p ← cstring p; mret (MkMkdir Oneshot.new p).

Definition set_io (io : Oneshot.IoState) (self : Mkdir) : Mkdir := MkMkdir io (path self).

Definition entry (this : Mkdir) : sqe := MkDirAt AT_FDCWD (OwnedBy "path") 511.

Section poll.
Context {S : Type -> Type} `{Slab S} {B : Type} `{RingBuffer B}.
Context {U : Type} `{IoUring U sqe} {T : Type}.
Abbreviation reactor := (ReactorInner S B U T).

(** [impl Future for Mkdir] *)
Definition poll (self : Mkdir) (cx : T) (ring : reactor) :
    outcome (poll (io_result unit) * Mkdir * reactor) :=
  '(x, io, ring, this) ← Oneshot.submit_or_get_result (io self) ring self
     (fun this => mret (entry this, cx, this));
  mret (poll_map (result_map (fun _ => tt)) x, set_io io this, ring).
End poll.

#[global] Instance future : UringFuture Mkdir (io_result unit) := {
  io_of := io;
  Futures.set_io := set_io;
  prepare this := mret (entry this, this);
  finish this x := mret (result_map (fun _ => tt) x, this);
}.

#[global] Instance future_spec : UringFutureSpec Mkdir (io_result unit).
Proof. solve_future_spec. Qed.

Lemma mkdir_poll_eq {S} `{Slab S} {B} `{RingBuffer B} {U} `{IoUring U sqe} {T} self (cx : T)
    (ring : ReactorInner S B U T) :
  poll self cx ring = poll_future self cx ring.
Proof. unfold poll. solve_poll_eq. Qed.
End Mkdir.

Section properties.
Context {S : Type -> Type} `{SlabSpec S} {B : Type} `{RingBufferSpec B}.
Context {U : Type} `{FuturesRing U} {T : Type}.
Abbreviation sys := (sys S B U T).

(** The flags asked for: read and write always, creation for [create]. *)
Definition open_flags (create : bool) : Z := if create then 66 else 2.

Lemma cstring_ok p : 0 ∉ p -> cstring p = Ret p.
Proof. intros. unfold cstring. by rewrite decide_False. Qed.

Lemma cstring_panics p : 0 ∈ p -> cstring p = Panic UnwrapErr.
Proof. intros. unfold cstring. by rewrite decide_True. Qed.

(** Opening: for a path without a NUL byte (any other panics: no error
    is answered) [open] and [create] give a future that opens the path relative
    to the working directory, for reading and writing, creating it (mode 0777) if and
    only if it comes from [create]; it follows the mailbox of its handle, and
    resolves with the file of exactly the descriptor its own operation returned, or with its error. *)
Theorem open_follows_mailbox (c : bool) p :
  (0 ∈ p -> (if c then FileOpen.create p else FileOpen.open p) = Panic UnwrapErr) /\
  (0 ∉ p ->
   (if c then FileOpen.create p else FileOpen.open p) =
     Ret (FileOpen.MkOpen p (open_flags c) Oneshot.New)) /\
  forall (s : sys) a h io cx,
    let self := FileOpen.MkOpen p (open_flags c) io in
    refines s a -> s_hs s !! h = Some (HOne io) ->
    match FileOpen.poll self cx (s_ring s) with
    | Ret (x, self', r') => exists q,
        handle_polled s a h io cx (OpenAt AT_FDCWD (OwnedBy "path") (open_flags c) 511)
          q (FileOpen.io self') r' /\
        x = poll_map (result_map File.MkFile) q /\ self' = FileOpen.set_io (FileOpen.io self') self
    | Panic e => handle_panics s io e
    | _ => False
    end.
Proof.
  split_and!.
  - intros Hp. unfold FileOpen.create, FileOpen.open. by destruct c; rewrite cstring_panics.
  - intros Hp. unfold FileOpen.create, FileOpen.open. by destruct c; rewrite cstring_ok.
  - intros s a h io cx self Hs Hh. rewrite FileOpen.file_open_poll_eq.
    pose proof (simple_future_ok s a h self cx (FileOpen.entry self)
                  (result_map File.MkFile) Hs) as Hok.
    exact (Hok Hh eq_refl (fun _ _ => eq_refl)).
Qed.

(** Creating a directory: the same for [mkdir], which makes one
    directory with mode 0777 and resolves with its success or its error. *)
Theorem mkdir_follows_mailbox p :
  (0 ∈ p -> Mkdir.mkdir p = Panic UnwrapErr) /\
  (0 ∉ p -> Mkdir.mkdir p = Ret (Mkdir.MkMkdir Oneshot.New p)) /\
  forall (s : sys) a h io cx,
    let self := Mkdir.MkMkdir io p in
    refines s a -> s_hs s !! h = Some (HOne io) ->
    match Mkdir.poll self cx (s_ring s) with
    | Ret (x, self', r') => exists q,
        handle_polled s a h io cx (MkDirAt AT_FDCWD (OwnedBy "path") 511)
          q (Mkdir.io self') r' /\
        x = poll_map (result_map (fun _ => tt)) q /\ self' = Mkdir.set_io (Mkdir.io self') self
    | Panic e => handle_panics s io e
    | _ => False
    end.
Proof.
  split_and!.
  - intros Hp. unfold Mkdir.mkdir. by rewrite cstring_panics.
  - intros Hp. unfold Mkdir.mkdir. by rewrite cstring_ok.
  - intros s a h io cx self Hs Hh. rewrite Mkdir.mkdir_poll_eq.
    pose proof (simple_future_ok s a h self cx (Mkdir.entry self)
                  (result_map (fun _ => tt)) Hs) as Hok.
    exact (Hok Hh eq_refl (fun _ _ => eq_refl)).
Qed.
End properties.

Section seek.
Context {L : Type} `{LibcSpec L}.

(** The offset and the origin a position stands for: a position from the
    start beyond 2^63 wraps to a negative offset. *)
Definition seek_args (pos : File.SeekFrom) : Z * Z :=
  match pos with
  | File.Start off => (if decide (off < 2 ^ 63) then off else off - 2 ^ 64, SEEK_SET)
  | File.End off => (off, SEEK_END)
  | File.Current off => (off, SEEK_CUR)
  end.

Lemma as_s_u64 off : is_u 64 off -> as_s 64 off = if decide (off < 2 ^ 63) then off else off - 2 ^ 64.
Proof.
  unfold is_u, as_s. intros Hoff. change (64 - 1) with 63. case_decide.
  - rewrite Z.mod_small; lia.
  - replace (off + 2 ^ 63) with (off - 2 ^ 63 + 1 * 2 ^ 64) by lia.
    rewrite Z.mod_add, Z.mod_small; lia.
Qed.

(** Seeking: [seek] makes one [lseek] with the offset and the origin of
    its argument, answers the resulting position unchanged by the casts, or
    the error of the system exactly when the call failed, and opens or closes nothing. *)
Theorem seek_result f pos (l : L) :
  match pos with File.Start off => is_u 64 off | _ => True end ->
  let '(off, whence) := seek_args pos in
  let '(res, l1) := sys_lseek (File.inner f) off whence l in
  let '(r, l') := File.seek f pos l in
  l' = l1 /\ libc_view l' = libc_view l /\
  match r with
  | Ok n => n = res /\ is_u 63 n
  | Err e => res = -1 /\ e = last_os_error l1
  end.
Proof.
  intros Hpos.
  assert (seek_args pos = match pos with
          | File.Start off => (as_s 64 off, SEEK_SET)
          | File.End off => (off, SEEK_END)
          | File.Current off => (off, SEEK_CUR) end) as E.
  { destruct pos; cbn; [by rewrite as_s_u64|done..]. }
  unfold File.seek. rewrite <- E. destruct (seek_args pos) as [off whence].
  pose proof (lseek_spec (File.inner f) off whence l) as Hs.
  destruct (sys_lseek (File.inner f) off whence l) as [res l1]. destruct Hs as [Hv Hr].
  case_decide; [done|]. specialize (Hr ltac:(done)).
  by rewrite as_u_id by auto with trale.
Qed.
End seek.
Close Scope Z_scope.
