(* ===== verification/Timer.v ===== *)
(** Timers: src/src/futures/timer.rs.

    Instants and durations are in nanoseconds.  Every [SystemTime::now()] of
    the source is a reading of its own: the clock may move between two of
    them, and it is the wall clock, which may go backwards. *)
From S2P Require Import Prelude Bytes Crates CrateModels Results Reactor Io RingFacts Mailbox Refinement RefineOps System Sqe Futures Libc.

Open Scope Z_scope.

Definition NS : Z := 10 ^ 9.

(** [SystemTime + Duration] panics when the seconds overflow an [i64]. *)
Definition time_add (t d : Z) : outcome Z :=
  if decide (t + d < 2 ^ 63 * NS) then mret (t + d)
  else Panic (Explicit "overflow when adding duration to instant").

(** [SystemTime::duration_since] *)
Definition duration_since (self earlier : Z) : result Z Z :=
  if decide (earlier <= self) then Ok (self - earlier) else Err (earlier - self).

Module Timer.
Record Timer := MkTimer {
  expiration : Z;
  io : Oneshot.IoState;
  buf : list Z;
  fd : Z;
}.

Definition set_io (io : Oneshot.IoState) (self : Timer) : Timer :=
  MkTimer (expiration self) io (buf self) (fd self).

Section timer.
Context {L : Type} `{Libc L}.

(** [Timer::sleep] *)
Definition sleep (d : Z) (l : L) : outcome (io_result Timer * L) :=
  let (now, l) := sys_now l in
  expiration ← time_add now d;
  let (timer, l) := sys_timerfd_create CLOCK_MONOTONIC TFD_NONBLOCK l in
  if decide (timer = -1) then mret (Err (last_os_error l), l)
  else mret (Ok (MkTimer expiration Oneshot.new (replicate 8 0) timer), l).

Section poll.
Context {S : Type -> Type} `{Slab S} {B : Type} `{RingBuffer B}.
Context {U : Type} `{IoUring U sqe} {T : Type}.
Abbreviation reactor := (ReactorInner S B U T).

(** The closure of [poll]: arm the timer, read its descriptor. *)
Definition arm_timer (cx : T) (st : Timer * L) : outcome (sqe * T * (Timer * L)) :=
  let (this, l) := st in
  let (now, l) := sys_now l in
  expiration ← unwrap_result (duration_since (expiration this) now);
  let tv_sec := as_s 64 (expiration / NS) in
  let tv_nsec := expiration mod NS in
  let (ret, l) := sys_timerfd_settime (fd this) 0 tv_sec tv_nsec l in
  if decide (ret = -1) then Panic (Explicit "timerfd_settime returned error")
  else mret (Read (fd this) (InFuture "buf") (as_u 32 (Z.of_nat (length (buf this)))) 0,
             cx, (this, l)).

(** [impl Future for Timer] *)
Definition poll (self : Timer) (cx : T) (ring : reactor) (l : L) :
    outcome (poll unit * Timer * reactor * L) :=
  let (now, l) := sys_now l in
  if decide (now > expiration self) then mret (Ready tt, self, ring, l)
  else
    '(x, io, ring, (this, l)) ← Oneshot.submit_or_get_result (io self) ring (self, l)
                                  (arm_timer cx);
    mret (poll_map (fun _ => tt) x, set_io io this, ring, l).
End poll.
End timer.

(** The timer and the system it calls, as a future on a oneshot handle. *)
#[global] Instance future {L} `{Libc L} : UringFuture (Timer * L) unit := {
  io_of st := io st.1;
  Futures.set_io io st := (set_io io st.1, st.2);
  prepare st := '(e, _, st) ← arm_timer tt st; mret (e, st);
  finish st x := mret (tt, st);
}.

Lemma arm_timer_cases {L} `{Libc L} {T} (cx : T) this l :
  (exists l', arm_timer cx (this, l) =
     Ret (Read (fd this) (InFuture "buf") (as_u 32 (Z.of_nat (length (buf this)))) 0, cx, (this, l'))) \/
  (exists p, arm_timer cx (this, l) = Panic p).
Proof.
  unfold arm_timer. destruct (sys_now l) as [now l1].
  destruct (duration_since (expiration this) now) as [d|d]; cbn; [|by right; eauto].
  destruct (sys_timerfd_settime _ _ _ _ l1) as [ret l2]. case_decide; [right|left]; by eauto.
Qed.

#[global] Instance future_spec {L} `{Libc L} : UringFutureSpec (Timer * L) unit.
Proof.
  split.
  - by intros io [this l].
  - by intros [[] l].
  - intros [this l]. cbn [prepare future]. destruct (arm_timer_cases tt this l) as [[l' ->]|[p ->]]; cbn; [left|right]; by eauto.
  - intros [this l] x. cbn. left. by eauto.
Qed.

Lemma timer_poll_eq {L} `{Libc L} {S} `{Slab S} {B} `{RingBuffer B} {U} `{IoUring U sqe} {T}
    self (cx : T) (ring : ReactorInner S B U T) (l : L) :
  poll self cx ring l =
    let (now, l) := sys_now l in
    if decide (now > expiration self) then Ret (Ready tt, self, ring, l)
    else '(p, (this, l), ring) ← poll_future (self, l) cx ring; mret (p, this, ring, l).
Proof.
  unfold poll, poll_future. destruct (sys_now l) as [now l1]. case_decide; [done|].
  rewrite bind_assoc. apply outcome_bind_ext.
  - cbn [io_of prepare future fst]. destruct (io self); try reflexivity.
    unfold Oneshot.submit_or_get_result. rewrite !bind_assoc.
    destruct (arm_timer_cases cx self l1) as [[l' E]|[p E]].
    + rewrite E. unfold arm_timer in E |- *. destruct (sys_now l1) as [now2 l2].
      destruct (duration_since (expiration self) now2); cbn in *; [|done].
      destruct (sys_timerfd_settime _ _ _ _ l2). case_decide; cbn in *; [done|].
      by injection E as ->.
    + rewrite E. unfold arm_timer in E |- *. destruct (sys_now l1) as [now2 l2].
      destruct (duration_since (expiration self) now2); cbn in *; [|by injection E as ->].
      destruct (sys_timerfd_settime _ _ _ _ l2). case_decide; cbn in *; [by injection E as ->|done].
  - by intros [[[[x|] io'] r'] [this l']].
Qed.
End Timer.

Section properties.
Context {S : Type -> Type} `{SlabSpec S} {B : Type} `{RingBufferSpec B}.
Context {U : Type} `{FuturesRing U} {T : Type} {L : Type} `{LibcSpec L}.
Abbreviation sys := (sys S B U T).

(** [fd] stands for the timer object [o]. *)
Definition timer_on (fd : Z) (o : nat) (v : kview) : Prop :=
  k_fds v !! fd = Some o /\ exists x, k_objs v !! o = Some (KTimer x).

(** A new timer: [sleep] reads the clock once and gives a timer that
    expires the duration later, not armed yet, on a descriptor of its own; it answers the
    error of the system, with nothing opened, when there is no descriptor to be
    had, and panics only when the expiration does not fit. *)
Theorem sleep_result d (l : L) :
  let '(now, l1) := sys_now l in
  match Timer.sleep d l with
  | Ret (Ok t, l') => Timer.expiration t = now + d /\ Timer.io t = Oneshot.New /\
      k_fds (libc_view l) !! Timer.fd t = None /\
      exists o, k_objs (libc_view l) !! o = None /\
        libc_view l' = KView (<[Timer.fd t := o]> (k_fds (libc_view l)))
                             (<[o := KTimer None]> (k_objs (libc_view l)))
  | Ret (Err e, l') => libc_view l' = libc_view l /\ e = last_os_error l'
  | Panic _ => 2 ^ 63 * NS <= now + d
  | _ => False
  end.
Proof.
  unfold Timer.sleep. pose proof (now_spec l) as Hn. destruct (sys_now l) as [now l1].
  unfold time_add. case_decide; cbn; [|lia].
  pose proof (timerfd_create_spec CLOCK_MONOTONIC TFD_NONBLOCK l1) as Hc.
  destruct (sys_timerfd_create _ _ l1) as [fd l2]. rewrite Hn in Hc.
  destruct Hc as [[-> Hv]|(Hfd & Hf & o & Ho & Hv)].
  - by rewrite decide_True.
  - rewrite decide_False by lia. cbn. split_and!; try done. by exists o.
Qed.

Lemma arm_timer_spec {W} (cx : W) this o (l : L) :
  timer_on (Timer.fd this) o (libc_view l) ->
  let '(now, l1) := sys_now l in
  Timer.expiration this - now < 2 ^ 63 * NS ->
  match Timer.arm_timer cx (this, l) with
  | Ret (e, cx', (this', l')) => now <= Timer.expiration this /\ cx' = cx /\ this' = this /\
      e = Read (Timer.fd this) (InFuture "buf") (as_u 32 (Z.of_nat (length (Timer.buf this)))) 0 /\
      libc_view l' = set_obj o (arm (Timer.expiration this - now) (KTimer None)) (libc_view l)
  | Panic p => (Timer.expiration this < now /\ p = UnwrapErr) \/
      (now <= Timer.expiration this /\ p = Explicit "timerfd_settime returned error")
  | _ => False
  end.
Proof.
  intros [Ho [x Hx]]. unfold Timer.arm_timer. pose proof (now_spec l) as Hn.
  destruct (sys_now l) as [now l1]. intros Hb. unfold duration_since.
  case_decide as Hle; cbn; [|left; split; [lia|done]].
  set (d := Timer.expiration this - now) in *.
  pose proof (timerfd_settime_spec (Timer.fd this) 0 (as_s 64 (d / NS)) (d mod NS) l1) as Hs.
  destruct (sys_timerfd_settime _ _ _ _ l1) as [ret l2]. rewrite Hn in Hs.
  case_decide; cbn; [right; split; [lia|done]|].
  destruct Hs as [[? _]|(_ & o' & x' & Ho' & Hx' & ->)]; [done|]. simplify_eq.
  split_and!; [lia|done..|].
  assert (as_s 64 (d / NS) * 10 ^ 9 + d mod NS = d) as ->; [|done].
  rewrite as_s_id; [unfold NS; pose proof (Z.div_mod d (10 ^ 9)); lia|lia|].
  unfold is_s, NS in *. split; [|apply Z.div_lt_upper_bound; lia].
  transitivity 0; [done|]. apply Z.div_pos; lia.
Qed.

(** C31: the first poll of a timer: if the expiration has passed it is ready
    and the reactor is left alone.  Otherwise the timer of the system is armed
    for exactly the time left at a second reading of the clock and its descriptor is
    read, so that nothing completes this read too early; but a timer with no time
    left is not armed at all (it never expires), and a clock that passes the
    expiration between the two readings makes the poll panic. *)
Theorem timer_first_poll (s : sys) a h self cx (l : L) o :
  refines s a -> s_hs s !! h = Some (HOne Oneshot.New) ->
  Timer.io self = Oneshot.New -> length (Timer.buf self) = 8%nat ->
  timer_on (Timer.fd self) o (libc_view l) ->
  let '(now, l1) := sys_now l in
  let '(now2, _) := sys_now l1 in
  Timer.expiration self - now2 < 2 ^ 63 * NS ->
  match Timer.poll self cx (s_ring s) l with
  | Ret (p, self', r', l') =>
      (Timer.expiration self < now /\ p = Ready tt /\ self' = self /\ r' = s_ring s /\ l' = l1) \/
      (now <= Timer.expiration self /\ now2 <= Timer.expiration self /\ p = Pending /\
       self' = Timer.set_io (Timer.io self') self /\
       handle_polled s a h Oneshot.New cx (Read (Timer.fd self) (InFuture "buf") 8 0)
         Pending (Timer.io self') r' /\
       libc_view l' = set_obj o (KTimer (if decide (Timer.expiration self = now2) then None
                                         else Some (Timer.expiration self - now2))) (libc_view l))
  | Panic p => now <= Timer.expiration self /\
      ((Timer.expiration self < now2 /\ p = UnwrapErr) \/
       p = Explicit "timerfd_settime returned error" \/ handle_panics s Oneshot.New p)
  | _ => False
  end.
Proof.
  intros Hs Hh Hio Hbuf Ho. rewrite Timer.timer_poll_eq. pose proof (now_spec l) as Hn.
  destruct (sys_now l) as [now l1]. pose proof (arm_timer_spec tt self o l1) as Harm.
  rewrite Hn in Harm. specialize (Harm Ho). destruct (sys_now l1) as [now2 l2]. intros Hb.
  specialize (Harm Hb). case_decide as Hnow; [left; split_and!; first [done|lia]|].
  pose proof (poll_future_ok s a h (self, l1) cx Hs) as Hok.
  cbn [io_of Timer.future fst] in Hok. rewrite Hio in Hok. specialize (Hok Hh).
  destruct (poll_future (self, l1) cx (s_ring s)) as [[[p st] r']|p| |]; cbn; try done.
  - destruct Hok as (q & a' & g & Ha & Hr & Hans & Hnew). cbn [io_of Timer.future fst] in Hnew.
    rewrite Hio in Hnew. destruct Hnew as (e & ud & slot & f1 & Hp & Hsub & -> & ->).
    destruct Hans as [-> ->]. cbn [prepare Timer.future] in Hp.
    destruct (Timer.arm_timer tt (self, l1)) as [[[e' []] [this l']]| | |]; cbn in Hp; try done.
    injection Hp as -> <-. destruct Harm as (Hle & _ & -> & -> & Hv). cbn. right.
    rewrite Hbuf in Hsub. split_and!; [lia|done..| |].
    + split; [by exists a'|]. intros _. split; [done|]. by exists ud, slot.
    + rewrite Hv. unfold arm. repeat case_decide; first [done|lia].
  - split; [lia|]. destruct Hok as [[_ Hp]|[(g & x & E)|Hok]].
    + cbn [prepare Timer.future] in Hp.
      destruct (Timer.arm_timer tt (self, l1)) as [[[e' []] [this l']]|p'| |]; cbn in Hp; try done.
      injection Hp as ->. destruct Harm as [[? ->]|[? ->]]; [by left|by right; left].
    + done.
    + right; right. cbn [io_of Timer.future fst] in Hok. rewrite Hio in Hok. exact Hok.
Qed.

(** The later polls of a timer: it is ready when the expiration has passed
    or its read is over, whatever the result of the read (an error also
    counts as the expiration), and it is never armed twice. *)
Theorem timer_later_polls (s : sys) a h self cx (l : L) :
  refines s a -> s_hs s !! h = Some (HOne (Timer.io self)) -> Timer.io self <> Oneshot.New ->
  let '(now, l1) := sys_now l in
  match Timer.poll self cx (s_ring s) l with
  | Ret (p, self', r', l') => l' = l1 /\ self' = Timer.set_io (Timer.io self') self /\
      ((Timer.expiration self < now /\ p = Ready tt /\ self' = self /\ r' = s_ring s) \/
       (now <= Timer.expiration self /\ exists q a',
          astep a (LPollOne h cx q) a' /\
          refines (Sys r' (<[h := HOne (Timer.io self')]> (s_hs s)) (s_next s)) a' /\
          p = poll_map (fun _ => tt) q))
  | Panic p => now <= Timer.expiration self /\ p = ArithOverflow
  | _ => False
  end.
Proof.
  intros Hs Hh Hio. rewrite Timer.timer_poll_eq. destruct (sys_now l) as [now l1].
  case_decide as Hnow.
  - split; [done|]. split; [by destruct self|]. left. split; [lia|done].
  - pose proof (poll_future_ok s a h (self, l1) cx Hs Hh) as Hok.
    destruct (poll_future (self, l1) cx (s_ring s)) as [[[p st] r']|p| |]; cbn; try done.
    + destruct Hok as (q & a' & g & Ha & Hr & Hans & Hg). cbn [io_of Timer.future fst] in Hg.
      assert (st = g /\ p = poll_map (fun _ => tt) q) as [-> ->].
      { destruct q as [x|]; cbn in Hans; [|naive_solver].
        destruct Hans as (o & E & ->). by injection E as <- <-. }
      assert (g = (Timer.set_io (Timer.io g.1) self, l1)) as Eg by by destruct (Timer.io self).
      rewrite Eg. cbn. split; [done|]. split; [done|]. right. split; [lia|].
      exists q, a'. split_and!; [done| |done]. by rewrite Eg in Hr.
    + split; [lia|]. destruct Hok as [[E _]|[(g & x & E)|[[E _]|E]]]; done.
Qed.
End properties.
Close Scope Z_scope.
