(* ===== verification/Tcp.v ===== *)
(** TCP: src/src/futures/tcp.rs.

    A socket is its descriptor.  The addresses a [ToSocketAddrs] stands for
    are the argument [addrs]: the result of its resolution. *)
From S2P Require Import Prelude Bytes Crates CrateModels Results Reactor Io RingFacts Mailbox Refinement RefineOps System Sqe Futures Libc SockAddr ReadWrite.

Open Scope Z_scope.

(** An [OwnedFd] that goes out of scope is closed. *)
Abbreviation drop_fd fd l := (sys_close fd l).

Section sockets.
Context {L : Type} `{Libc L}.

Definition mk_sock (addr : SocketAddr) (l : L) : io_result Z * L :=
  let family := if is_ipv4 addr then AF_INET else AF_INET6 in
  let (sock, l) := sys_socket family SOCK_STREAM 0 l in
  if decide (sock = -1) then (Err (last_os_error l), l)
  else (Ok sock, l).
End sockets.

Module TcpListener.
Record TcpListener := MkListener {
  inner : Z;
  io : Multishot.IoState;
}.

Definition set_io (io : Multishot.IoState) (self : TcpListener) : TcpListener :=
  MkListener (inner self) io.

Section bind.
Context {L : Type} `{Libc L} `{Host} `{NetOrder}.

(** The loop of [TcpListener::bind] *)
Fixpoint bind_loop (addrs : list SocketAddr) (last_err : io_error) (l : L) :
    outcome (io_result TcpListener * L) :=
  match addrs with
  | [] => mret (Err last_err, l)
  | addr :: addrs =>
      let (sock, l) := mk_sock addr l in
      match sock with
      | Err e => mret (Err e, l)
      | Ok sock =>
          let caddr := CSockAddr_from addr in
          let (r, l) := sys_bind sock (SockAddr.addr caddr) (as_u 32 (len caddr)) l in
          if decide (r = -1) then
            let last_err := last_os_error l in
            bind_loop addrs last_err (drop_fd sock l)
          else
            let (r, l) := sys_listen sock 1024 l in
            if decide (r = -1) then
              let last_err := last_os_error l in
              bind_loop addrs last_err (drop_fd sock l)
            else if decide (r = 0) then mret (Ok (MkListener sock Multishot.new), l)
            else Panic UnreachableCode
      end
  end.

(** [TcpListener::bind] *)
Definition bind (addrs : io_result (list SocketAddr)) (l : L) :
    outcome (io_result TcpListener * L) :=
  match addrs with
  | Err e => mret (Err e, l)
  | Ok addrs => bind_loop addrs (KindError NotFound) l
  end.
End bind.
End TcpListener.

Module TcpStream.
Record TcpStream := MkStream { inner : Z }.

(** [impl AsyncRead for TcpStream], [impl AsyncWrite for TcpStream] *)
Definition read (self : TcpStream) (buf_len : Z) : AsyncReader.AsyncReader :=
  AsyncReader.MkReader (inner self) Oneshot.new buf_len false.
Definition write (self : TcpStream) (buf_len : Z) : AsyncWriter.AsyncWriter :=
  AsyncWriter.MkWriter (inner self) Oneshot.new buf_len false.

#[global] Instance async_read : AsyncRead.AsyncRead TcpStream := { AsyncRead.Output := AsyncReader.AsyncReader; AsyncRead.read := read }.
#[global] Instance async_read_spec : AsyncRead.AsyncReadSpec TcpStream inner 0.
Proof. split; [apply _|done..]. Qed.
#[global] Instance async_write : AsyncWrite.AsyncWrite TcpStream := { AsyncWrite.Output := AsyncWriter.AsyncWriter; AsyncWrite.write := write }.
#[global] Instance async_write_spec : AsyncWrite.AsyncWriteSpec TcpStream inner 0.
Proof. split; [apply _|done..]. Qed.
End TcpStream.

Module Accept.
Section accept.
Context {S : Type -> Type} `{Slab S} {B : Type} `{RingBuffer B}.
Context {U : Type} `{IoUring U sqe} {T : Type}.
Abbreviation reactor := (ReactorInner S B U T).

(** [impl Stream for TcpListener] *)
Definition poll_next (self : TcpListener.TcpListener) (cx : T) (ring : reactor) :
    outcome (poll (option (io_result TcpStream.TcpStream)) * TcpListener.TcpListener * reactor) :=
  '(x, io, ring, this) ← Multishot.submit_or_get_result (TcpListener.io self) ring self
     (fun this => mret (AcceptMulti (TcpListener.inner this), cx, this));
  mret (poll_map (option_map (result_map TcpStream.MkStream)) x, TcpListener.set_io io this, ring).
End accept.
End Accept.

Module SockConnect.
Record SockConnect := MkConnect {
  fd : Z;
  io : Oneshot.IoState;
  addr : SocketAddr;
}.

Definition set_io (io : Oneshot.IoState) (self : SockConnect) : SockConnect :=
  MkConnect (fd self) io (addr self).

Section poll.
Context `{Host} `{NetOrder}.

(** The operation built before [submit_or_get_result]: the C address is a
    local variable of [poll]. *)
Definition entry (self : SockConnect) : sqe :=
  let addr := CSockAddr_from (addr self) in
  Connect (fd self) (PollFrame "addr") (as_u 32 (len addr)).

Context {S : Type -> Type} `{Slab S} {B : Type} `{RingBuffer B}.
Context {U : Type} `{IoUring U sqe} {T : Type}.
Abbreviation reactor := (ReactorInner S B U T).

(** [impl Future for SockConnect] *)
Definition poll (self : SockConnect) (cx : T) (ring : reactor) :
    outcome (poll (io_result unit) * SockConnect * reactor) :=
  let e := entry self in
  '(x, io, ring, this) ← Oneshot.submit_or_get_result (io self) ring self
     (fun this => mret (e, cx, this));
  mret (poll_map (result_map (fun _ => tt)) x, set_io io this, ring).

Definition drop (self : SockConnect) (ring : reactor) : outcome reactor :=
  Oneshot.drop (io self) ring.
End poll.

#[global] Instance future `{Host} `{NetOrder} : UringFuture SockConnect (io_result unit) := {
  io_of := io;
  Futures.set_io := set_io;
  prepare this := mret (entry this, this);
  finish this x := mret (result_map (fun _ => tt) x, this);
}.

#[global] Instance future_spec `{Host} `{NetOrder} : UringFutureSpec SockConnect (io_result unit).
Proof. solve_future_spec. Qed.

Lemma sock_connect_poll_eq `{Host} `{NetOrder} {S} `{Slab S} {B} `{RingBuffer B} {U} `{IoUring U sqe} {T}
    self (cx : T) (ring : ReactorInner S B U T) :
  poll self cx ring = poll_future self cx ring.
Proof. unfold poll. solve_poll_eq. Qed.
End SockConnect.

(** [TcpStream::connect]: the states of its [async] body. *)
Module Connect.
Inductive state :=
  | Unresumed (addrs : io_result (list SocketAddr))
  | Suspended (sock : Z) (connect : SockConnect.SockConnect)
              (addrs : list SocketAddr) (last_err : io_error)   (* in [connect.await] *)
  | Returned.

Section connect.
Context {L : Type} `{Libc L} `{Host} `{NetOrder}.
Context {S : Type -> Type} `{Slab S} {B : Type} `{RingBuffer B}.
Context {U : Type} `{IoUring U sqe} {T : Type}.
Abbreviation reactor := (ReactorInner S B U T).
Abbreviation answer := (poll (io_result TcpStream.TcpStream)).

(** The loop over the addresses, run until it has to wait. *)
Fixpoint connect_loop (addrs : list SocketAddr) (last_err : io_error) (cx : T)
    (ring : reactor) (l : L) : outcome (answer * state * reactor * L) :=
  match addrs with
  | [] => mret (Ready (Err last_err), Returned, ring, l)
  | addr :: addrs =>
      let (sock, l) := mk_sock addr l in
      match sock with
      | Err e => mret (Ready (Err e), Returned, ring, l)
      | Ok sock =>
          '(p, connect, ring) ←
             SockConnect.poll (SockConnect.MkConnect sock Oneshot.new addr) cx ring;
          match p with
          | Pending => mret (Pending, Suspended sock connect addrs last_err, ring, l)
          | Ready r =>
              ring ← SockConnect.drop connect ring;
              match r with
              | Ok _ => mret (Ready (Ok (TcpStream.MkStream sock)), Returned, ring, l)
              | Err e => connect_loop addrs e cx ring (drop_fd sock l)
              end
          end
      end
  end.

Definition poll (self : state) (cx : T) (ring : reactor) (l : L) :
    outcome (answer * state * reactor * L) :=
  match self with
  | Unresumed (Err e) => mret (Ready (Err e), Returned, ring, l)
  | Unresumed (Ok addrs) => connect_loop addrs (KindError InvalidData) cx ring l
  | Suspended sock connect addrs last_err =>
      '(p, connect, ring) ← SockConnect.poll connect cx ring;
      match p with
      | Pending => mret (Pending, Suspended sock connect addrs last_err, ring, l)
      | Ready r =>
          ring ← SockConnect.drop connect ring;
          match r with
          | Ok _ => mret (Ready (Ok (TcpStream.MkStream sock)), Returned, ring, l)
          | Err e => connect_loop addrs e cx ring (drop_fd sock l)
          end
      end
  | Returned => Panic (Explicit "`async fn` resumed after completion")
  end.

(** Dropping the future: what is alive at the suspension point. *)
Definition drop (self : state) (ring : reactor) (l : L) : outcome (reactor * L) :=
  match self with
  | Suspended sock connect _ _ =>
      ring ← SockConnect.drop connect ring;
      mret (ring, drop_fd sock l)
  | _ => mret (ring, l)
  end.
End connect.
End Connect.

(** ** Descriptors *)
Section binding.
Context {L : Type} `{LibcSpec L} `{NetOrder}.

(** [v'] has the descriptors of [v], and changes no object of [v]. *)
Definition same_fds (v v' : kview) : Prop :=
  k_fds v' = k_fds v /\ forall o x, k_objs v !! o = Some x -> k_objs v' !! o = Some x.

(** [v'] has one descriptor more, [fd], for the new object [o]. *)
Definition one_more_fd (fd : Z) (o : nat) (v v' : kview) : Prop :=
  k_fds v !! fd = None /\ k_objs v !! o = None /\ k_fds v' = <[fd := o]> (k_fds v) /\
  forall o' x, k_objs v !! o' = Some x -> k_objs v' !! o' = Some x.

Lemma same_fds_refl v : same_fds v v.
Proof. done. Qed.

Lemma same_fds_trans v1 v2 v3 : same_fds v1 v2 -> same_fds v2 v3 -> same_fds v1 v3.
Proof. intros [E1 O1] [E2 O2]. split; [congruence|auto]. Qed.

Lemma one_more_close fd o v v' : one_more_fd fd o v v' -> same_fds v (close_view fd v').
Proof.
  intros (Hn & _ & E & Ho). split; [|done]. cbn. rewrite E. by apply delete_insert_id.
Qed.

Lemma one_more_set fd o x v v' : one_more_fd fd o v v' -> one_more_fd fd o v (set_obj o x v').
Proof.
  intros (Hn & Hno & E & Ho). split_and!; [done..|]. intros o' y Hy. cbn.
  rewrite lookup_insert_ne; [by apply Ho|]. congruence.
Qed.

Lemma one_more_same fd o v1 v2 v3 :
  same_fds v1 v2 -> one_more_fd fd o v2 v3 -> one_more_fd fd o v1 v3.
Proof.
  intros [E1 O1] (Hn & Hno & E & Ho). split_and!; [congruence| |congruence|auto].
  destruct (k_objs v1 !! o) as [x|] eqn:Ex; [|done]. apply O1 in Ex. congruence.
Qed.

Lemma mk_sock_spec a (l : L) :
  let '(r, l') := mk_sock a l in
  match r with
  | Ok sock => 0 <= sock /\ exists o, one_more_fd sock o (libc_view l) (libc_view l') /\
      k_objs (libc_view l') !! o = Some (KSocket (if is_ipv4 a then AF_INET else AF_INET6) None None)
  | Err e => libc_view l' = libc_view l /\ e = last_os_error l'
  end.
Proof.
  unfold mk_sock. pose proof (socket_spec (if is_ipv4 a then AF_INET else AF_INET6) SOCK_STREAM 0 l) as Hs.
  destruct (sys_socket _ _ _ l) as [sock l']. destruct Hs as [[-> Hv]|(Hsock & Hn & o & Ho & Hv)].
  - by rewrite decide_True.
  - rewrite decide_False by lia. split; [done|]. exists o. rewrite Hv. unfold one_more_fd. cbn.
    split; [|apply lookup_insert_eq]. split_and!; [done..|]. intros o' x Hx.
    rewrite lookup_insert_ne; [done|congruence].
Qed.

(** What is known of a call on the socket just made. *)
Lemma changes_own fd o x f r v0 v v' :
  one_more_fd fd o v0 v -> k_objs v !! o = Some x -> changes fd f r v v' ->
  one_more_fd fd o v0 v' /\ (r <> -1 -> k_objs v' !! o = Some (f x)) /\
  (r = -1 -> k_objs v' !! o = Some x).
Proof.
  intros Hm Hx [[-> ->]|(Hr & o' & x' & Ho' & Hx' & ->)]; [done|].
  assert (o' = o /\ x' = x) as [-> ->].
  { destruct Hm as (_ & _ & E & _). rewrite E, lookup_insert_eq in Ho'. by simplify_eq. }
  split; [by apply one_more_set|]. split; [|done]. intros _. apply lookup_insert_eq.
Qed.

Lemma as_socklen a : as_u 32 (len (CSockAddr_from a)) = len (CSockAddr_from a).
Proof. by destruct a. Qed.

Lemma bind_loop_spec addrs last_err (l : L) :
  match TcpListener.bind_loop addrs last_err l with
  | Ret (Ok lst, l') => exists pre a post o, addrs = pre ++ a :: post /\
      one_more_fd (TcpListener.inner lst) o (libc_view l) (libc_view l') /\
      k_objs (libc_view l') !! o =
        Some (KSocket (if is_ipv4 a then AF_INET else AF_INET6)
                (Some (as_sockaddr (CSockAddr_from a))) (Some 1024)) /\
      TcpListener.io lst = Multishot.New
  | Ret (Err e, l') => same_fds (libc_view l) (libc_view l') /\
      match addrs with [] => e = last_err | _ => exists errno, e = OsError errno end
  | _ => False
  end.
Proof.
  revert last_err l. induction addrs as [|a addrs IH]; intros last_err l; cbn [TcpListener.bind_loop].
  { cbn. auto using same_fds_refl. }
  pose proof (mk_sock_spec a l) as Hs. destruct (mk_sock a l) as [[sock|e] l1]; cbn.
  2: { destruct Hs as [-> ->]. split; [done|]. apply last_os_error_spec. }
  destruct Hs as (Hsock & o & Hm & Ho).
  assert (forall l2, one_more_fd sock o (libc_view l) (libc_view l2) ->
    match TcpListener.bind_loop addrs (last_os_error l2) (sys_close sock l2) with
    | Ret (Ok lst, l') => exists pre a' post o, a :: addrs = pre ++ a' :: post /\
        one_more_fd (TcpListener.inner lst) o (libc_view l) (libc_view l') /\
        k_objs (libc_view l') !! o =
          Some (KSocket (if is_ipv4 a' then AF_INET else AF_INET6)
                  (Some (as_sockaddr (CSockAddr_from a'))) (Some 1024)) /\
        TcpListener.io lst = Multishot.New
    | Ret (Err e, l') => same_fds (libc_view l) (libc_view l') /\ exists errno, e = OsError errno
    | _ => False
    end) as Hnext.
  { intros l2 Hl2. specialize (IH (last_os_error l2) (sys_close sock l2)).
    apply one_more_close in Hl2. rewrite close_spec in IH.
    destruct (TcpListener.bind_loop addrs _ _) as [[[lst|e] l']| | |]; try done.
    - destruct IH as (pre & a' & post & o' & -> & Hm' & Hrest).
      exists (a :: pre), a', post, o'. split; [done|]. split; [|done]. by eapply one_more_same.
    - destruct IH as [Hf He]. split; [by eapply same_fds_trans|].
      destruct addrs; [|done]. rewrite He. apply last_os_error_spec. }
  rewrite as_socklen.
  pose proof (bind_spec sock (SockAddr.addr (CSockAddr_from a)) (len (CSockAddr_from a)) l1) as Hb.
  destruct (sys_bind _ _ _ l1) as [r l2]. destruct Hb as [Hb Hr].
  destruct (changes_own _ _ _ _ _ _ _ _ Hm Ho Hb) as (Hm2 & Ho2 & Ho2').
  case_decide; [by apply Hnext|].
  pose proof (listen_spec sock 1024 l2) as Hl. destruct (sys_listen _ _ l2) as [r' l3].
  destruct Hl as [Hl Hr']. specialize (Ho2 ltac:(done)).
  destruct (changes_own _ _ _ _ _ _ _ _ Hm2 Ho2 Hl) as (Hm3 & Ho3 & _).
  case_decide; [by apply Hnext|]. rewrite decide_True by auto. cbn.
  exists [], a, addrs, o. split_and!; [done|done| |done]. by apply Ho3.
Qed.

(** C29: binding: [TcpListener::bind] tries the addresses in order; when
    it succeeds the only descriptor opened is the listener's, a socket bound to exactly the
    kernel's form of one of the addresses and listening with a backlog of 1024; when it fails
    no descriptor is left open, and the error is one of the system,
    or [NotFound] if there was no address at all; it never panics. *)
Theorem bind_result addrs (l : L) :
  match TcpListener.bind (Ok addrs) l with
  | Ret (Ok lst, l') => exists pre a post o, addrs = pre ++ a :: post /\
      one_more_fd (TcpListener.inner lst) o (libc_view l) (libc_view l') /\
      k_objs (libc_view l') !! o =
        Some (KSocket (if is_ipv4 a then AF_INET else AF_INET6)
                (Some (as_sockaddr (CSockAddr_from a))) (Some 1024)) /\
      TcpListener.io lst = Multishot.New
  | Ret (Err e, l') => same_fds (libc_view l) (libc_view l') /\
      match addrs with [] => e = KindError NotFound | _ => exists errno, e = OsError errno end
  | _ => False
  end.
Proof. apply bind_loop_spec. Qed.
End binding.

(** ** Accepting *)
Section accepting.
Context {S : Type -> Type} `{SlabSpec S} {B : Type} `{RingBufferSpec B}.
Context {U : Type} `{FuturesRing U} {T : Type}.
Abbreviation sys := (sys S B U T).

End accepting.

(** ** Connecting *)
Section connecting.
Context {S : Type -> Type} `{SlabSpec S} {B : Type} `{RingBufferSpec B}.
Context {U : Type} `{FuturesRing U} {T : Type}.
Context {L : Type} `{LibcSpec L} `{NetOrder}.
Abbreviation sys := (sys S B U T).
Abbreviation reactor := (ReactorInner S B U T).

(** The first poll of a connection only submits it. *)
Lemma connect_loop_cons a addrs last_err (cx : T) (ring : reactor) (l : L) :
  Connect.connect_loop (a :: addrs) last_err cx ring l =
    let (r, l) := mk_sock a l in
    match r with
    | Err e => Ret (Ready (Err e), Connect.Returned, ring, l)
    | Ok sock =>
        '(_, slot, ring) ← submit_io ring
           (SockConnect.entry (SockConnect.MkConnect sock Oneshot.New a)) cx Oneshot;
        Ret (Pending, Connect.Suspended sock
               (SockConnect.MkConnect sock (Oneshot.Submitted slot) a) addrs last_err, ring, l)
    end.
Proof.
  cbn [Connect.connect_loop]. destruct (mk_sock a l) as [[sock|e] l1]; [|done].
  unfold SockConnect.poll. cbn.
  by destruct (submit_io ring _ cx Oneshot) as [[[ud slot] r']| | |].
Qed.

(** The operation of a connection to [a]. *)
Definition connect_entry (sock : Z) (a : SocketAddr) : sqe :=
  SockConnect.entry (SockConnect.MkConnect sock Oneshot.New a).

(** What follows a failure [e] on the socket [sock]. *)
Definition try_next (e : io_error) (sock : Z) addrs (l : L) (p : poll (io_result TcpStream.TcpStream))
    (st : Connect.state) (l' : L) (io' : Oneshot.IoState) : Prop :=
  match addrs with
  | [] => p = Ready (Err e) /\ st = Connect.Returned /\ l' = sys_close sock l
  | a :: addrs =>
      let (r, l2) := mk_sock a (sys_close sock l) in
      l' = l2 /\
      match r with
      | Err e' => p = Ready (Err e') /\ st = Connect.Returned
      | Ok sock' => p = Pending /\
          st = Connect.Suspended sock' (SockConnect.MkConnect sock' io' a) addrs e
      end
  end.


(** The descriptors a connection attempt holds, besides those of [v0]: one
    socket while it waits, the stream's when it succeeded, none when it failed. *)
Definition holds (v0 : kview) (p : poll (io_result TcpStream.TcpStream)) (st : Connect.state)
    (v : kview) : Prop :=
  match p, st with
  | Pending, Connect.Suspended sock c _ _ => SockConnect.fd c = sock /\ exists o, one_more_fd sock o v0 v
  | Ready (Ok t), Connect.Returned => exists o, one_more_fd (TcpStream.inner t) o v0 v
  | Ready (Err _), Connect.Returned => same_fds v0 v
  | _, _ => False
  end.

Lemma connect_loop_holds addrs last_err (cx : T) (ring : reactor) (l : L) p st r' l' :
  Connect.connect_loop addrs last_err cx ring l = Ret (p, st, r', l') ->
  holds (libc_view l) p st (libc_view l').
Proof.
  destruct addrs as [|a addrs]; intros E.
  - cbn in E. injection E as <- <- <- <-. apply same_fds_refl.
  - rewrite connect_loop_cons in E. pose proof (mk_sock_spec a l) as Hs.
    destruct (mk_sock a l) as [[sock|e] l1].
    + destruct Hs as (_ & o & Hm & _). inv_bind. destruct a0 as [[ud slot] r1]. inv_bind.
      cbn. split; [done|]. by exists o.
    + injection E as <- <- <- <-. by destruct Hs as [-> _].
Qed.

Lemma holds_trans v1 v2 p st v3 : same_fds v1 v2 -> holds v2 p st v3 -> holds v1 p st v3.
Proof.
  unfold holds. intros Hs. destruct p as [[t|e]|], st; try done.
  - intros [o Hm]. exists o. by eapply one_more_same.
  - by apply same_fds_trans.
  - intros [? [o Hm]]. split; [done|]. exists o. by eapply one_more_same.
Qed.

(** Descriptors of a connection: whatever the kernel answers, a [connect]
    that waits holds exactly one descriptor, the socket being connected; a success leaves
    the stream's as the only new one, a failure none; and dropping the
    future while it waits closes the socket. *)
Theorem connect_descriptors addrs sock c last_err (cx : T) (ring : reactor) (l : L) v0 o :
  (forall p st r' l', Connect.poll (Connect.Unresumed addrs) cx ring l = Ret (p, st, r', l') ->
     holds (libc_view l) p st (libc_view l')) /\
  (one_more_fd sock o v0 (libc_view l) -> SockConnect.fd c = sock ->
   (forall p st r' l' addrs,
      Connect.poll (Connect.Suspended sock c addrs last_err) cx ring l = Ret (p, st, r', l') ->
      holds v0 p st (libc_view l')) /\
   (forall r' l' addrs,
      Connect.drop (Connect.Suspended sock c addrs last_err) ring l = Ret (r', l') ->
      same_fds v0 (libc_view l'))).
Proof.
  split.
  - intros p st r' l' E. destruct addrs as [addrs|e]; cbn in E.
    + by apply connect_loop_holds in E.
    + injection E as <- <- <- <-. apply same_fds_refl.
  - intros Hm Hc. pose proof (one_more_close _ _ _ _ Hm) as Hclose. split.
    + intros p st r' l' ads E. cbn [Connect.poll] in E. inv_bind.
      destruct a as [[q c'] r1]. destruct q as [r|]; inv_bind.
      * destruct r as [u|e]; [inv_bind; by exists o|].
        apply connect_loop_holds in E. rewrite close_spec in E. by eapply holds_trans.
      * cbn. split; [|by exists o]. unfold SockConnect.poll in Ha. inv_bind.
        destruct a as [[[x io'] r2] c1]. inv_bind. cbn.
        assert (c1 = c) as ->; [|done].
        destruct (SockConnect.io c); cbn in Ha0; inv_bind; repeat (case_match; inv_bind); done.
    + intros r' l' ads E. cbn in E. inv_bind. by rewrite close_spec.
Qed.
End connecting.
Close Scope Z_scope.
