(* ===== verification/Udp.v ===== *)
(** UDP: src/src/futures/udp.rs.

    The socket is the standard library's; only its descriptor is used.  The
    message header and the vector of a future are fields of it, and the
    pointers they hold are the places they point into. *)
From S2P Require Import Prelude Bytes Crates CrateModels Results Reactor Io RingFacts Mailbox Refinement RefineOps System Sqe Futures Libc SockAddr.

Open Scope Z_scope.

(** [libc::iovec] and the fields of [libc::msghdr] the code uses. *)
Record iovec := MkIovec { iov_base : option place; iov_len : Z }.
Record msghdr := MkMsghdr {
  msg_name : option place;
  msg_namelen : Z;
  msg_iov : option place;
  msg_iovlen : Z;
}.

(** [std::mem::zeroed()] *)
Definition iovec_zeroed : iovec := MkIovec None 0.
Definition msghdr_zeroed : msghdr := MkMsghdr None 0 None 0.
Definition csock_zeroed : CSockAddr := MkCSockAddr zeroed 0.

Module RecvFrom.
Record RecvFrom := MkRecvFrom {
  sock : Z;
  io : Oneshot.IoState;
  hdr : msghdr;
  iov : iovec;
  csock : CSockAddr;
  buf_len : Z;
}.

(** [UdpSocket::recv_from] *)
Definition recv_from (inner : Z) (buf_len : Z) : RecvFrom :=
  MkRecvFrom inner Oneshot.new msghdr_zeroed iovec_zeroed csock_zeroed buf_len.

Definition set_io (io : Oneshot.IoState) (self : RecvFrom) : RecvFrom :=
  MkRecvFrom (sock self) io (hdr self) (iov self) (csock self) (buf_len self).

(** The closure: the header is made to receive the data in the buffer and
    the address of the sender in [csock]. *)
Definition setup (this : RecvFrom) : sqe * RecvFrom :=
  let iov := MkIovec (Some (BorrowedBy "buf")) (buf_len this) in
  let hdr := MkMsghdr (Some (InFuture "csock.addr")) (Z.of_nat CSockAddrs_size)
                      (Some (InFuture "iov")) 1 in
  (RecvMsg (sock this) (InFuture "hdr"),
   MkRecvFrom (sock this) (io this) hdr iov (csock this) (buf_len this)).

Section finish.
Context `{Host} `{NetOrder}.

(** The function applied to the result. *)
Definition received (this : RecvFrom) (x : io_result Z) : io_result (Z * SocketAddr) * RecvFrom :=
  match x with
  | Err e => (Err e, this)
  | Ok sz =>
      let csock := MkCSockAddr (addr (csock this)) (as_u 64 (msg_namelen (hdr this))) in
      let this := MkRecvFrom (sock this) (io this) (hdr this) (iov this) csock (buf_len this) in
      match SocketAddr_try_from csock with
      | Ok addr => (Ok (as_u 64 sz, addr), this)
      | Err e => (Err e, this)
      end
  end.

Section poll.
Context {S : Type -> Type} `{Slab S} {B : Type} `{RingBuffer B}.
Context {U : Type} `{IoUring U sqe} {T : Type}.
Abbreviation reactor := (ReactorInner S B U T).

(** [impl Future for RecvFrom] *)
Definition poll (self : RecvFrom) (cx : T) (ring : reactor) :
    outcome (poll (io_result (Z * SocketAddr)) * RecvFrom * reactor) :=
  '(x, io, ring, this) ← Oneshot.submit_or_get_result (io self) ring self
     (fun this => let (entry, this) := setup this in mret (entry, cx, this));
  let this := set_io io this in
  match x with
  | Ready x => let (r, this) := received this x in mret (Ready r, this, ring)
  | Pending => mret (Pending, this, ring)
  end.
End poll.
End finish.

#[global] Instance future `{Host} `{NetOrder} : UringFuture RecvFrom (io_result (Z * SocketAddr)) := {
  io_of := io;
  Futures.set_io := set_io;
  prepare this := mret (setup this);
  finish this x := mret (received this x);
}.

#[global] Instance future_spec `{Host} `{NetOrder} :
  UringFutureSpec RecvFrom (io_result (Z * SocketAddr)).
Proof.
  split; [done|by intros []|left; cbn; by eauto|].
  intros f x. left. cbn. destruct (received f x) as [r f'] eqn:E. exists r, f'. split; [done|].
  unfold received in E. repeat case_match; by simplify_eq.
Qed.

Lemma recv_from_poll_eq `{Host} `{NetOrder} {S} `{Slab S} {B} `{RingBuffer B} {U} `{IoUring U sqe} {T}
    self (cx : T) (ring : ReactorInner S B U T) :
  poll self cx ring = poll_future self cx ring.
Proof.
  unfold poll, poll_future. apply outcome_bind_ext; [reflexivity|].
  intros [[[[x|] io'] r'] this]; [|reflexivity]. cbn. by destruct (received _ x).
Qed.
End RecvFrom.

Module SendTo.
Record SendTo := MkSendTo {
  sock : Z;
  dst : io_result (list SocketAddr);      (* [dst.to_socket_addrs()] *)
  io : Oneshot.IoState;
  hdr : msghdr;
  csock : CSockAddr;
  iov : iovec;
  buf_len : Z;
}.

(** [UdpSocket::send_to] *)
Definition send_to (inner : Z) (buf_len : Z) (target : io_result (list SocketAddr)) : SendTo :=
  MkSendTo inner target Oneshot.new msghdr_zeroed csock_zeroed iovec_zeroed buf_len.

Definition set_io (io : Oneshot.IoState) (self : SendTo) : SendTo :=
  MkSendTo (sock self) (dst self) io (hdr self) (csock self) (iov self) (buf_len self).

(** The closure: the first address is converted into [csock]. *)
Definition setup `{Host} `{NetOrder} (this : SendTo) : outcome (sqe * SendTo) :=
  addrs ← unwrap_result (dst this);
  addr ← unwrap (head addrs);
  let csock := CSockAddr_from addr in
  let hdr := MkMsghdr (Some (InFuture "csock.addr")) (as_u 32 (len csock))
                      (Some (InFuture "iov")) 1 in
  let iov := MkIovec (Some (BorrowedBy "buf")) (buf_len this) in
  mret (SendMsg (sock this) (InFuture "hdr"),
        MkSendTo (sock this) (dst this) (io this) hdr csock iov (buf_len this)).

Section poll.
Context `{Host} `{NetOrder}.
Context {S : Type -> Type} `{Slab S} {B : Type} `{RingBuffer B}.
Context {U : Type} `{IoUring U sqe} {T : Type}.
Abbreviation reactor := (ReactorInner S B U T).

(** [impl Future for SendTo] *)
Definition poll (self : SendTo) (cx : T) (ring : reactor) :
    outcome (poll (io_result Z) * SendTo * reactor) :=
  '(x, io, ring, this) ← Oneshot.submit_or_get_result (io self) ring self
     (fun this => '(entry, this) ← setup this; mret (entry, cx, this));
  mret (poll_map (result_map (as_u 64)) x, set_io io this, ring).
End poll.

#[global] Instance future `{Host} `{NetOrder} : UringFuture SendTo (io_result Z) := {
  io_of := io;
  Futures.set_io := set_io;
  prepare := setup;
  finish this x := mret (result_map (as_u 64) x, this);
}.

#[global] Instance future_spec `{Host} `{NetOrder} : UringFutureSpec SendTo (io_result Z).
Proof.
  split; [done|by intros []| |left; by eauto].
  intros f. cbn. unfold setup. destruct (dst f) as [[|a addrs]|e]; cbn; [right|left|right]; by eauto.
Qed.

Lemma send_to_poll_eq `{Host} `{NetOrder} {S} `{Slab S} {B} `{RingBuffer B} {U} `{IoUring U sqe} {T}
    self (cx : T) (ring : ReactorInner S B U T) :
  poll self cx ring = poll_future self cx ring.
Proof. unfold poll. solve_poll_eq. Qed.
End SendTo.

(** What the kernel does to a [RecvFrom] when a datagram arrives: it writes the
    address of the sender where [msg_name] points, as much of it as
    [msg_namelen] allows, and its length in [msg_namelen]. *)
Definition kernel_received (name : list Z) (f : RecvFrom.RecvFrom) : RecvFrom.RecvFrom :=
  let h := RecvFrom.hdr f in
  let stored := take (Z.to_nat (msg_namelen h)) name in
  let csock := RecvFrom.csock f in
  RecvFrom.MkRecvFrom (RecvFrom.sock f) (RecvFrom.io f)
    (MkMsghdr (msg_name h) (Z.of_nat (length name)) (msg_iov h) (msg_iovlen h)) (RecvFrom.iov f)
    (MkCSockAddr (stored ++ drop (length stored) (addr csock)) (len csock)) (RecvFrom.buf_len f).

Section properties.
Context {S : Type -> Type} `{SlabSpec S} {B : Type} `{RingBufferSpec B}.
Context {U : Type} `{FuturesRing U} {T : Type}.
Context `{NetOrderSpec}.
Abbreviation sys := (sys S B U T).

(** Receiving: the first poll of [recv_from] submits one [recvmsg]
    whose header offers the whole buffer and the whole union for the address
    of the sender, all in memory that lives as long as the future or longer. *)
Theorem recv_from_first_poll (s : sys) a h sock n cx :
  refines s a -> s_hs s !! h = Some (HOne Oneshot.New) ->
  match RecvFrom.poll (RecvFrom.recv_from sock n) cx (s_ring s) with
  | Ret (p, f', r') => p = Pending /\
      handle_polled s a h Oneshot.New cx (RecvMsg sock (InFuture "hdr")) Pending (RecvFrom.io f') r' /\
      RecvFrom.hdr f' = MkMsghdr (Some (InFuture "csock.addr")) 28 (Some (InFuture "iov")) 1 /\
      RecvFrom.iov f' = MkIovec (Some (BorrowedBy "buf")) n
  | Panic p => handle_panics s Oneshot.New p
  | _ => False
  end.
Proof.
  intros Hs Hh. rewrite RecvFrom.recv_from_poll_eq.
  pose proof (poll_future_ok s a h (RecvFrom.recv_from sock n) cx Hs Hh) as Hok.
  destruct (poll_future _ cx (s_ring s)) as [[[p f'] r']|p| |]; try done.
  - destruct Hok as (q & a' & g & Ha & Hr & Hans & (e & ud & slot & f1 & Hp & Hsub & -> & ->)).
    cbn in Hp. injection Hp as <- <-. destruct Hans as [-> ->]. split_and!; try done.
    split; [by exists a'|]. intros _. split; [done|]. by exists ud, slot.
  - destruct Hok as [[_ E]|[(k & x & E)|[Hf|E]]]; [done|done|by left|by right].
Qed.

(** The result of a reception: once the kernel has stored the name of the
    sender and the operation is over with [v], [recv_from] resolves at its
    next poll: with the number of bytes and exactly the address of the sender; with
    [InvalidData] for a name of any other length; with the error if there was one. *)
Theorem recv_from_result (s : sys) a h sock n cx io v name :
  let f := RecvFrom.set_io io (RecvFrom.setup (RecvFrom.recv_from sock n)).2 in
  let poll := RecvFrom.poll (kernel_received name f) cx (s_ring s) in
  refines s a -> s_hs s !! h = Some (HOne io) -> a_mail a !! h = Some (AOneReady v) ->
  Z.of_nat (length name) < 2 ^ 32 ->
  (is_u 31 v -> forall src, addr_ok src -> name = wire src ->
     exists f' r', poll = Ret (Ready (Ok (v, src)), f', r')) /\
  (is_u 31 v -> Z.of_nat (length name) <> V4_LEN -> Z.of_nat (length name) <> V6_LEN ->
     exists f' r', poll = Ret (Ready (Err (KindError InvalidData)), f', r')) /\
  (i32_min < v < 0 -> exists f' r', poll = Ret (Ready (Err (OsError (- v))), f', r')).
Proof.
  intros f poll Hs Hh Hm Hlen. subst poll.
  assert (forall x, reactor_value_to_result v = Ret x -> exists f' r',
    RecvFrom.poll (kernel_received name f) cx (s_ring s) =
      Ret (Ready (RecvFrom.received (RecvFrom.set_io (Oneshot.Finished v) (kernel_received name f)) x).1, f', r'))
    as Hpoll.
  { intros x Hx. rewrite RecvFrom.recv_from_poll_eq.
    pose proof (ready_future_returns s a h (kernel_received name f) cx v x Hs) as Hready.
    destruct (Hready Hh Hm Hx) as [r' ->].
    cbn [finish RecvFrom.future Futures.set_io]. change (mret ?y) with (Ret y).
    destruct (RecvFrom.received _ x) as [o f']. by exists f', r'. }
  assert (as_u 64 (Z.of_nat (length name)) = Z.of_nat (length name)) as Hl
    by auto with trale.
  split_and!.
  - intros Hv src Hsrc ->. unfold is_u in Hv.
    destruct (Hpoll (Ok v)) as (f' & r' & ->).
    { unfold reactor_value_to_result. by destruct (Z.ltb_spec v 0); [lia|]. }
    exists f', r'. do 3 f_equal. unfold RecvFrom.received. cbn [RecvFrom.csock RecvFrom.hdr
      RecvFrom.set_io kernel_received addr msg_namelen]. rewrite Hl.
    change (msg_namelen (RecvFrom.hdr f)) with 28.
    assert (take (Z.to_nat 28) (wire src) = wire src) as ->.
    { apply take_ge. pose proof (length_wire src). destruct (is_ipv4 src); unfold V4_LEN, V6_LEN in *; lia. }
    rewrite try_from_wire by done. cbn. by rewrite as_u_id by auto with trale.
  - intros Hv Hn4 Hn6. unfold is_u in Hv. destruct (Hpoll (Ok v)) as (f' & r' & ->).
    { unfold reactor_value_to_result. by destruct (Z.ltb_spec v 0); [lia|]. }
    exists f', r'. do 3 f_equal. unfold RecvFrom.received. cbn [RecvFrom.csock RecvFrom.hdr
      RecvFrom.set_io kernel_received addr msg_namelen]. rewrite Hl.
    unfold SocketAddr_try_from. cbn [len]. by rewrite !decide_False.
  - intros Hv. destruct (Hpoll (Err (OsError (Z.abs v)))) as (f' & r' & ->).
    { unfold reactor_value_to_result. destruct (Z.ltb_spec v 0); [|lia]. by rewrite decide_False by lia. }
    exists f', r'. cbn. by rewrite Z.abs_neq by lia.
Qed.

(** Sending: the first poll of [send_to] submits one [sendmsg] of the
    whole buffer to the first address of the target, in the kernel's form,
    all in memory that lives as long as the future or longer; a target that cannot be resolved
    or has no address makes the poll panic. *)
Theorem send_to_first_poll (s : sys) a h sock n dst cx :
  refines s a -> s_hs s !! h = Some (HOne Oneshot.New) ->
  match SendTo.poll (SendTo.send_to sock n dst) cx (s_ring s) with
  | Ret (p, f', r') => p = Pending /\ exists t ts, dst = Ok (t :: ts) /\
      handle_polled s a h Oneshot.New cx (SendMsg sock (InFuture "hdr")) Pending (SendTo.io f') r' /\
      SendTo.csock f' = CSockAddr_from t /\
      SendTo.hdr f' = MkMsghdr (Some (InFuture "csock.addr")) (if is_ipv4 t then V4_LEN else V6_LEN)
                               (Some (InFuture "iov")) 1 /\
      SendTo.iov f' = MkIovec (Some (BorrowedBy "buf")) n
  | Panic p => handle_panics s Oneshot.New p \/
      (p = UnwrapErr /\ exists e, dst = Err e) \/ (p = UnwrapNone /\ dst = Ok [])
  | _ => False
  end.
Proof.
  intros Hs Hh. rewrite SendTo.send_to_poll_eq.
  pose proof (poll_future_ok s a h (SendTo.send_to sock n dst) cx Hs Hh) as Hok.
  destruct (poll_future _ cx (s_ring s)) as [[[p f'] r']|p| |]; try done.
  - destruct Hok as (q & a' & g & Ha & Hr & Hans & (e & ud & slot & f1 & Hp & Hsub & -> & ->)).
    cbn in Hp. unfold SendTo.setup in Hp. destruct dst as [[|t ts]|er]; cbn in Hp; [done| |done].
    injection Hp as <- <-. destruct Hans as [-> ->]. split; [done|]. exists t, ts.
    split_and!; [done| |done| |done].
    + split; [by exists a'|]. intros _. split; [done|]. by exists ud, slot.
    + cbn. f_equal. by destruct t.
  - destruct Hok as [[_ E]|[(k & x & E)|[Hf|E]]]; [|done|by left; left|by left; right].
    cbn in E. unfold SendTo.setup in E. destruct dst as [[|t ts]|er]; cbn in E; simplify_eq.
    + by right; right.
    + right; left. split; [done|]. by exists er.
Qed.
End properties.
Close Scope Z_scope.
