(* ===== verification/Mutex.v ===== *)
(** Mutexes: src/src/futures/mutex.rs.

    A mutex is an event that holds one notification while the mutex is free:
    [lock] takes it (its read of the event completes), dropping the guard
    puts it back.  Module [Mutex] has the functions of the source; the
    relation [mstep] is the protocol they implement, over the mailboxes the
    reactor promises (Mailbox.v) and the counter of the event. *)
From S2P Require Import Prelude Bytes Crates CrateModels Results Reactor Io RingFacts Mailbox Refinement RefineOps System Sqe Futures Libc Event.

Module Mutex.
Record Mutex (A : Type) := MkMutex {
  evt : Event.Event;
  obj : A;
}.
Arguments MkMutex {A} evt obj.
Arguments evt {A} _.
Arguments obj {A} _.

(** The states of the [async] body of [lock]. *)
Inductive lock_state :=
  | Unresumed
  | Waiting (evt : Event.Event) (waiter : EventWaiter.EventWaiter)  (* in [evt.wait().await] *)
  | Returned.

Section mutex.
Context {L : Type} `{Libc L} `{Host} {A : Type}.

(** [Mutex::new] *)
Definition new (obj : A) (l : L) : io_result (Mutex A) * L :=
  let (r, l) := Event.new l in
  match r with
  | Err e => (Err e, l)
  | Ok evt =>
      let (r, l) := Event.notify_one evt l in
      match r with
      | Err e => (Err e, Event.drop evt l)
      | Ok _ => (Ok (MkMutex evt obj), l)
      end
  end.

(** [impl Drop for LockGuard] *)
Definition guard_drop (mtx : Mutex A) (l : L) : outcome L :=
  let (r, l) := Event.notify_one (evt mtx) l in
  _ ← unwrap_result r;
  mret l.

Section lock.
Context {S : Type -> Type} `{Slab S} {B : Type} `{RingBuffer B}.
Context {U : Type} `{IoUring U sqe} {T : Type}.
Abbreviation reactor := (ReactorInner S B U T).

(** The part of the body from the poll of the waiter on: [Ready] is the guard. *)
Definition await (evt : Event.Event) (waiter : EventWaiter.EventWaiter) (cx : T)
    (ring : reactor) (l : L) : outcome (poll unit * lock_state * reactor * L) :=
  '(p, waiter, ring) ← EventWaiter.poll waiter cx ring;
  match p with
  | Pending => mret (Pending, Waiting evt waiter, ring, l)
  | Ready r =>
      ring ← EventWaiter.drop waiter ring;
      _ ← unwrap_result r;
      mret (Ready tt, Returned, ring, Event.drop evt l)
  end.

(** [Mutex::lock] *)
Definition lock (self : Mutex A) (st : lock_state) (cx : T) (ring : reactor) (l : L) :
    outcome (poll unit * lock_state * reactor * L) :=
  match st with
  | Unresumed =>
      '(evt, l) ← Event.clone (evt self) l;
      await evt (EventWaiter.wait evt) cx ring l
  | Waiting evt waiter => await evt waiter cx ring l
  | Returned => Panic (Explicit "`async fn` resumed after completion")
  end.

(** Dropping the future of [lock]. *)
Definition lock_drop (st : lock_state) (ring : reactor) (l : L) : outcome (reactor * L) :=
  match st with
  | Waiting evt waiter =>
      ring ← EventWaiter.drop waiter ring;
      mret (ring, Event.drop evt l)
  | _ => mret (ring, l)
  end.
End lock.
End mutex.
End Mutex.

(** ** The protocol *)
Section protocol.
Context {T : Type}.

Record mstate := MState {
  m_reactor : areactor T;
  m_waiting : gset nat;       (* handles of the [lock] futures that wait *)
  m_orphans : gset nat;       (* handles of those dropped with their read in flight *)
  m_guards : nat;             (* live guards *)
  m_count : nat;              (* the counter of the event *)
  m_lost : nat;               (* notifications read for nobody *)
}.
Implicit Types (m : mstate) (a : areactor T) (h : nat).

(** The read of [h] took the notification and [lock] has not seen it yet. *)
Definition granted a h : Prop := exists v, a_mail a !! h = Some (AOneReady v) /\ (0 <= v)%Z.

#[export] Instance granted_dec a h : Decision (granted a h).
Proof.
  destruct (a_mail a !! h) as [[| |v|v| |]|] eqn:E;
    try (right; intros (v' & E' & _); congruence).
  destruct (decide (0 <= v)%Z); [left; by exists v|right; intros (v' & E' & ?); simplify_eq; done].
Defined.

(** The completion of the operation of [h] with [v]. *)
Definition complete h (v : Z) a : areactor T :=
  AReactor (alter (deliver v false) h (a_mail a)) (delete h (a_out a)).

Inductive mstep : mstate -> mstate -> Prop :=
  (* the first poll of a [lock] *)
  | M_first m h t a1 a2 :
      astep (m_reactor m) (LNew h false) a1 -> astep a1 (LPollOne h t Pending) a2 ->
      mstep m (MState a2 ({[h]} ∪ m_waiting m) (m_orphans m) (m_guards m) (m_count m) (m_lost m))
  (* a later poll: still waiting, or the guard is returned *)
  | M_wait m h t a :
      h ∈ m_waiting m -> astep (m_reactor m) (LPollOne h t Pending) a ->
      mstep m (MState a (m_waiting m) (m_orphans m) (m_guards m) (m_count m) (m_lost m))
  | M_acquire m h t v a1 a2 :
      h ∈ m_waiting m -> astep (m_reactor m) (LPollOne h t (Ready (Ok v))) a1 ->
      astep a1 (LDrop h) a2 ->
      mstep m (MState a2 (m_waiting m ∖ {[h]}) (m_orphans m) (S (m_guards m)) (m_count m) (m_lost m))
  (* dropping a guard *)
  | M_unlock m g :
      m_guards m = S g ->
      mstep m (MState (m_reactor m) (m_waiting m) (m_orphans m) g (S (m_count m)) (m_lost m))
  (* dropping a [lock] that waits *)
  | M_cancel m h a :
      h ∈ m_waiting m -> astep (m_reactor m) (LDrop h) a ->
      mstep m (MState a (m_waiting m ∖ {[h]})
                 (if decide (granted (m_reactor m) h) then m_orphans m else {[h]} ∪ m_orphans m)
                 (m_guards m) (m_count m)
                 (if decide (granted (m_reactor m) h) then S (m_lost m) else m_lost m))
  (* the kernel completes a read: it takes a notification, or fails *)
  | M_read m h t v c :
      h ∈ m_waiting m -> a_out (m_reactor m) !! h = Some (t, false) -> (0 <= v)%Z ->
      m_count m = S c ->
      mstep m (MState (complete h v (m_reactor m)) (m_waiting m) (m_orphans m) (m_guards m) c (m_lost m))
  | M_read_orphan m h t v c :
      h ∈ m_orphans m -> h ∉ m_waiting m -> a_out (m_reactor m) !! h = Some (t, false) -> (0 <= v)%Z ->
      m_count m = S c ->
      mstep m (MState (complete h v (m_reactor m)) (m_waiting m) (m_orphans m ∖ {[h]}) (m_guards m) c
                 (S (m_lost m)))
  | M_fail m h t v :
      h ∈ m_waiting m \/ h ∈ m_orphans m -> a_out (m_reactor m) !! h = Some (t, false) -> (v < 0)%Z ->
      mstep m (MState (complete h v (m_reactor m)) (m_waiting m) (m_orphans m) (m_guards m) (m_count m) (m_lost m))
  (* everything else leaves the handles of the mutex alone *)
  | M_other m l a :
      astep (m_reactor m) l a ->
      (forall h, h ∈ m_waiting m -> a_mail a !! h = a_mail (m_reactor m) !! h /\
                                    a_out a !! h = a_out (m_reactor m) !! h) ->
      mstep m (MState a (m_waiting m) (m_orphans m) (m_guards m) (m_count m) (m_lost m)).

(** A new mutex: one notification, nobody waiting. *)
Definition m_init a : mstate := MState a ∅ ∅ 0 1 0.

(** Where the notification is. *)
Definition tokens m : nat :=
  m_count m + m_guards m + size (filter (granted (m_reactor m)) (m_waiting m)) + m_lost m.

Record minv m : Prop := {
  mi_waiting : forall h, h ∈ m_waiting m -> exists x, a_mail (m_reactor m) !! h = Some x /\
    match x with
    | AOneWait => True
    | AOneReady _ => a_out (m_reactor m) !! h = None
    | _ => False
    end;
  mi_tokens : tokens m = 1;
}.

(** *** Counting the notifications *)
Definition cnt a (w : gset nat) : nat := size (filter (granted a) w).

Lemma cnt_ext a a' w : (forall h, h ∈ w -> granted a h <-> granted a' h) -> cnt a w = cnt a' w.
Proof.
  intros He. unfold cnt. f_equal. apply set_eq. intros h. rewrite !elem_of_filter.
  split; intros [Hg Hh]; (split; [by apply He|done]).
Qed.

Lemma cnt_add a h w :
  h ∉ w -> cnt a ({[h]} ∪ w) = (if decide (granted a h) then 1 else 0) + cnt a w.
Proof.
  intros Hh. unfold cnt.
  rewrite (filter_union_L (C:=gset nat) (granted a) {[h]} w).
  rewrite size_union by (apply disjoint_filter; set_solver). f_equal.
  rewrite (filter_singleton_L (C:=gset nat) (granted a) h).
  case_decide; [apply size_singleton|apply size_empty].
Qed.

Lemma cnt_del a h w :
  h ∈ w -> cnt a w = (if decide (granted a h) then 1 else 0) + cnt a (w ∖ {[h]}).
Proof.
  intros Hh. rewrite <- cnt_add by set_solver. f_equal. apply set_eq. intros x.
  destruct (decide (x = h)); set_solver.
Qed.

(** A call on a handle leaves the others alone. *)
Lemma astep_frame a l a' h :
  astep a l a' ->
  match l with
  | LNew k _ | LPollOne k _ _ | LPollMulti k _ _ | LDrop k => h <> k
  | LReact => True
  | LComplete _ _ _ => False
  end ->
  a_mail a' !! h = a_mail a !! h /\ a_out a' !! h = a_out a !! h.
Proof.
  intros Ha Hl. destruct Ha; try done; unfold put_mail, put_out; cbn;
    rewrite ?lookup_insert_ne, ?lookup_delete_ne by done; done.
Qed.

Lemma granted_frame a a' h :
  a_mail a' !! h = a_mail a !! h -> granted a' h <-> granted a h.
Proof. unfold granted. intros ->. done. Qed.

Lemma complete_other a h v h' :
  h <> h' ->
  a_mail (complete h v a) !! h' = a_mail a !! h' /\ a_out (complete h v a) !! h' = a_out a !! h'.
Proof. intros Hn. unfold complete. cbn. by rewrite lookup_alter_ne, lookup_delete_ne. Qed.

Lemma complete_own a h v :
  a_mail a !! h = Some AOneWait ->
  a_mail (complete h v a) !! h = Some (AOneReady v) /\ a_out (complete h v a) !! h = None.
Proof.
  intros Hm. unfold complete. cbn. rewrite lookup_alter_eq, Hm, lookup_delete_eq. done.
Qed.

(** Waiting handles that a step leaves alone stay well formed. *)
Lemma minv_frame a a' (w w' : gset nat) :
  (forall h, h ∈ w -> exists x, a_mail a !! h = Some x /\
     match x with AOneWait => True | AOneReady _ => a_out a !! h = None | _ => False end) ->
  w' ⊆ w ->
  (forall h, h ∈ w' -> a_mail a' !! h = a_mail a !! h /\ a_out a' !! h = a_out a !! h) ->
  (forall h, h ∈ w' -> exists x, a_mail a' !! h = Some x /\
     match x with AOneWait => True | AOneReady _ => a_out a' !! h = None | _ => False end) /\
  cnt a' w' = cnt a w'.
Proof.
  intros Hw Hsub Hf. split.
  - intros h Hh. destruct (Hf h Hh) as [-> ->]. apply Hw. set_solver.
  - apply cnt_ext. intros h Hh. apply granted_frame, Hf, Hh.
Qed.

Lemma minv_first m h t a1 a2 :
  minv m -> astep (m_reactor m) (LNew h false) a1 -> astep a1 (LPollOne h t Pending) a2 ->
  minv (MState a2 ({[h]} ∪ m_waiting m) (m_orphans m) (m_guards m) (m_count m) (m_lost m)).
Proof.
  intros [Hw Ht] H1 H2.
  assert (h ∉ m_waiting m) as Hh.
  { intros Hh. destruct (Hw h Hh) as (x & E & _). inversion H1; subst. congruence. }
  assert (forall k, k ∈ m_waiting m -> a_mail a2 !! k = a_mail (m_reactor m) !! k /\
            a_out a2 !! k = a_out (m_reactor m) !! k) as Hf.
  { intros k Hk. assert (k <> h) by set_solver.
    destruct (astep_frame _ _ _ k H1) as [E1 E2]; [done|].
    destruct (astep_frame _ _ _ k H2) as [E3 E4]; [done|]. split; congruence. }
  assert (a_mail a2 !! h = Some AOneWait) as Hm.
  { inversion H1; subst. inversion H2; subst; unfold put_mail in *; cbn in *;
      rewrite ?lookup_insert_eq in *; congruence. }
  destruct (minv_frame (m_reactor m) a2 _ (m_waiting m) Hw ltac:(done) Hf) as [Hw' Hc].
  split; cbn.
  - intros k Hk. destruct (decide (k = h)) as [->|]; [by exists AOneWait|]. apply Hw'. set_solver.
  - unfold tokens in *. cbn. fold (cnt a2 ({[h]} ∪ m_waiting m)). rewrite cnt_add, Hc by done.
    rewrite decide_False; [done|]. intros (v & E & _). congruence.
Qed.

Lemma minv_drop m h a' o g lost c :
  minv m -> h ∈ m_waiting m ->
  (forall k, k <> h -> a_mail a' !! k = a_mail (m_reactor m) !! k /\
                       a_out a' !! k = a_out (m_reactor m) !! k) ->
  c + g + lost = m_count m + m_guards m + m_lost m +
    (if decide (granted (m_reactor m) h) then 1 else 0) ->
  minv (MState a' (m_waiting m ∖ {[h]}) o g c lost).
Proof.
  intros [Hw Ht] Hh Hf Hsum.
  destruct (minv_frame (m_reactor m) a' _ (m_waiting m ∖ {[h]}) Hw) as [Hw' Hc];
    [set_solver|intros k Hk; apply Hf; set_solver|].
  split; [exact Hw'|]. unfold tokens in *. cbn. fold (cnt a' (m_waiting m ∖ {[h]})).
  fold (cnt (m_reactor m) (m_waiting m)) in Ht. rewrite (cnt_del _ h) in Ht by done. lia.
Qed.

Lemma minv_complete m h v o c lost :
  minv m -> (h ∈ m_waiting m -> a_mail (m_reactor m) !! h = Some AOneWait) ->
  c + lost + (if decide (h ∈ m_waiting m /\ (0 <= v)%Z) then 1 else 0) = m_count m + m_lost m ->
  minv (MState (complete h v (m_reactor m)) (m_waiting m) o (m_guards m) c lost).
Proof.
  intros [Hw Ht] Hm Hsum. set (a' := complete h v (m_reactor m)).
  destruct (minv_frame (m_reactor m) a' _ (m_waiting m ∖ {[h]}) Hw) as [Hw' Hc];
    [set_solver|intros k Hk; apply complete_other; set_solver|].
  unfold tokens in *. split; cbn.
  - intros k Hk. destruct (decide (k = h)) as [->|]; [|apply Hw'; set_solver].
    destruct (complete_own _ _ v (Hm Hk)) as [E1 E2]. by exists (AOneReady v).
  - unfold tokens in *. cbn. fold (cnt a' (m_waiting m)).
    fold (cnt (m_reactor m) (m_waiting m)) in Ht. destruct (decide (h ∈ m_waiting m)) as [Hh|Hh].
    + rewrite (cnt_del _ h) by done. rewrite (cnt_del _ h) in Ht by done.
      rewrite Hc. specialize (Hm Hh). destruct (complete_own _ _ v Hm) as [E1 _].
      assert (~ granted (m_reactor m) h) by (intros (v' & E & _); congruence).
      assert (granted a' h <-> (0 <= v)%Z).
      { unfold granted. split; [intros (v' & E & ?)|intros ?; by exists v].
        subst a'. rewrite E1 in E. by simplify_eq. }
      repeat case_decide; try tauto; lia.
    + rewrite decide_False in Hsum by tauto.
      replace (m_waiting m ∖ {[h]}) with (m_waiting m) in Hc by set_solver. lia.
Qed.

Lemma minv_init a : minv (m_init a).
Proof. split; cbn; [set_solver|]. reflexivity. Qed.

Lemma granted_poll a h t v a1 :
  astep a (LPollOne h t (Ready (Ok v))) a1 ->
  (exists x, a_mail a !! h = Some x /\
     match x with AOneWait => True | AOneReady _ => a_out a !! h = None | _ => False end) ->
  granted a h.
Proof.
  intros Ha (x & E & Hx). inversion Ha; subst; [|rewrite E in *; simplify_eq; done].
  match goal with E : reactor_value_to_result _ = _ |- _ => apply to_result_ok in E as [-> ?] end.
  by exists v.
Qed.

Lemma minv_step m m' : mstep m m' -> minv m -> minv m'.
Proof.
  intros Hstep Hi. pose proof Hi as [Hw Ht].
  destruct Hstep as [m h t a1 a2 H1 H2|m h t a Hh Ha|m h t v a1 a2 Hh H1 H2|m g Hg
    |m h a Hh Ha|m h t v c Hh Ho Hv Hc|m h t v c Hh Hnw Ho Hv Hc|m h t v Hh Ho Hv|m l a Ha Hf].
  - by eapply minv_first.
  - assert (a = m_reactor m) as ->; [|by destruct m].
    destruct (Hw h Hh) as (x & E & Hx). inversion Ha; subst; try done; rewrite E in *; simplify_eq; done.
  - pose proof (granted_poll _ _ _ _ _ H1 (Hw h Hh)) as Hg. apply minv_drop; [done..| |].
    + intros k Hk. destruct (astep_frame _ _ _ k H1 Hk), (astep_frame _ _ _ k H2 Hk).
      split; congruence.
    + rewrite decide_True by done. lia.
  - split; [exact Hw|]. unfold tokens in *. cbn. lia.
  - apply minv_drop; [done..| |].
    + intros k Hk. by apply (astep_frame _ _ _ k Ha).
    + case_decide; lia.
  - apply minv_complete; [done| |].
    + intros _. destruct (Hw h Hh) as (x & E & Hx). destruct x; try done. congruence.
    + rewrite decide_True by done. lia.
  - apply minv_complete; [done|done|]. rewrite decide_False by tauto. lia.
  - apply minv_complete; [done| |].
    + intros Hh'. destruct (Hw h Hh') as (x & E & Hx). destruct x; try done. congruence.
    + rewrite decide_False by lia. lia.
  - destruct (minv_frame _ a _ (m_waiting m) Hw ltac:(done) Hf) as [Hw' Hc].
    split; [exact Hw'|]. unfold tokens in *. cbn. unfold cnt in Hc. lia.
Qed.

Lemma minv_reachable a m : rtc mstep (m_init a) m -> minv m.
Proof.
  intros Hr. assert (forall m1 m2, rtc mstep m1 m2 -> minv m1 -> minv m2) as Hind.
  { clear. induction 1; eauto using minv_step. }
  eapply Hind; [done|apply minv_init].
Qed.


Lemma lost_forever m m' : minv m -> m_lost m = 1 -> rtc mstep m m' -> minv m' /\ m_lost m' = 1.
Proof.
  intros Hi Hl Hr. induction Hr as [|m m1 m' Hs _ IH]; [done|].
  pose proof (minv_step _ _ Hs Hi) as Hi1. apply IH; [done|].
  pose proof (mi_tokens _ Hi1) as Ht. unfold tokens in Ht.
  destruct Hs; cbn in *; try done; try case_decide; lia.
Qed.

End protocol.
Arguments mstate T : clear implicits.

(** ** The functions implement the protocol *)
Section implementation.
Context {S : Type -> Type} `{SlabSpec S} {B : Type} `{RingBufferSpec B}.
Context {U : Type} `{FuturesRing U} {T : Type} {L : Type} `{LibcSpec L} {A : Type}.
Abbreviation sys := (sys S B U T).

(** Making and releasing a mutex: [new] gives a mutex on an event
    of its own that holds exactly one notification, or an error with
    no descriptor left open; dropping a guard adds exactly one notification to the event, or panics
    and adds none. *)
Theorem mutex_new_unlock (x : A) (l : L) :
  (let '(r, l') := Mutex.new x l in
  match r with
  | Ok m => Mutex.obj m = x /\ exists o, k_objs (libc_view l) !! o = None /\
      libc_view l' = KView (<[Event.inner (Mutex.evt m) := o]> (k_fds (libc_view l)))
        (<[o := KEvent 1 (EFD_NONBLOCK + EFD_SEMAPHORE)]> (k_objs (libc_view l)))
  | Err _ => k_fds (libc_view l') = k_fds (libc_view l)
  end) /\
  forall (m : Mutex.Mutex A) (l : L) o c fl,
    event_on (Mutex.evt m) o (libc_view l) -> k_objs (libc_view l) !! o = Some (KEvent c fl) ->
    match Mutex.guard_drop m l with
    | Ret l' => libc_view l' = set_obj o (KEvent (c + 1) fl) (libc_view l)
    | Panic p => p = UnwrapErr
    | _ => False
    end.
Proof.
  split.
  - unfold Mutex.new. pose proof (event_new_spec l) as Hn. destruct (Event.new l) as [[e|e] l1].
    2: { destruct Hn as [Hv _]. by rewrite Hv. }
    destruct Hn as (o & Hfd & Ho & Hv).
    pose proof (event_notify_spec e o 0 (EFD_NONBLOCK + EFD_SEMAPHORE) l1) as Hs.
    destruct (Event.notify_one e l1) as [r l2]. unfold event_on in Hs.
    rewrite Hv in Hs. cbn in Hs. rewrite !lookup_insert_eq in Hs.
    destruct (Hs eq_refl eq_refl) as [(-> & _ & Hv2)|[-> Hv2]].
    + split; [done|]. exists o. split; [done|]. rewrite Hv2. unfold set_obj. cbn.
      by rewrite insert_insert_eq.
    + unfold Event.drop. rewrite close_spec, Hv2. cbn. by apply delete_insert_id.
  - intros m l' o c fl He Hobj. unfold Mutex.guard_drop.
    pose proof (event_notify_spec _ _ _ _ _ He Hobj) as Hg.
    destruct (Event.notify_one (Mutex.evt m) l') as [r l2].
    by destruct Hg as [(-> & _ & Hg)|[-> _]].
Qed.

(** Polling the waiter of a lock, in the terms of the protocol. *)
Lemma await_ok (s : sys) a h e w cx (l : L) :
  refines s a -> s_hs s !! h = Some (HOne (EventWaiter.io w)) ->
  match Mutex.await e w cx (s_ring s) l with
  | Ret (p, st, r', l') =>
      (p = Pending /\ l' = l /\ exists w' a', st = Mutex.Waiting e w' /\
         astep a (LPollOne h cx Pending) a' /\
         refines (Sys r' (<[h := HOne (EventWaiter.io w')]> (s_hs s)) (s_next s)) a') \/
      (p = Ready tt /\ l' = Event.drop e l /\ st = Mutex.Returned /\ exists v a1 a2,
         astep a (LPollOne h cx (Ready (Ok v))) a1 /\ astep a1 (LDrop h) a2 /\
         refines (Sys r' (delete h (s_hs s)) (s_next s)) a2)
  | Panic p => p = UnwrapErr \/ p = ArithOverflow
  | _ => False
  end.
Proof.
  intros Hs Hh. unfold Mutex.await. rewrite EventWaiter.event_waiter_poll_eq.
  pose proof (simple_future_ok s a h w cx
    (Read (EventWaiter.inner w) (InFuture "wait_buf")
       (as_u 32 (Z.of_nat (length (EventWaiter.wait_buf w)))) 0)
    (result_map (fun _ => tt)) Hs) as Hok.
  specialize (Hok Hh eq_refl (fun _ _ => eq_refl)). cbn [io_of EventWaiter.future] in Hok.
  destruct (poll_future w cx (s_ring s)) as [[[p w'] r1]|p| |]; cbn; try done.
  2: { destruct Hok as [(_ & -> & _)| ->]; auto. }
  destruct Hok as (q & [(a' & Ha & Hr) _] & -> & _). destruct q as [x|]; cbn [poll_map].
  2: { cbn. left. split_and!; [done..|]. by exists w', a'. }
  destruct (drop_handle_ok _ _ _ _ _ _ Hr) as (r2 & a2 & Hd & Ha2 & Hr2).
  unfold EventWaiter.drop. rewrite Hd. cbn. destruct x as [v|er]; cbn; [|by left].
  right. split_and!; [done..|]. by exists v, a', a2.
Qed.

(** C21: locking: the future of [lock] implements its part of the protocol:
    its first poll duplicates the event and submits one read of it, of 8 bytes into the waiter,
    and waits; a later poll either waits or, once its own read took a
    notification, closes the duplicate and returns the guard; dropping it while it
    waits only drops its handle and closes the duplicate: nothing is done about the read in flight. *)
Theorem lock_implements (m : Mutex.Mutex A) (s : sys) a h e w cx (l : L) o :
  refines s a -> event_on (Mutex.evt m) o (libc_view l) ->
  match Mutex.lock m Mutex.Unresumed cx (s_ring s) l with
  | Ret (p, st, r', l') => p = Pending /\ exists e w a1 a2,
      st = Mutex.Waiting e w /\ event_on e o (libc_view l') /\
      (exists ud slot, submit_io (s_ring s) (Read (Event.inner e) (InFuture "wait_buf") 8 0) cx Oneshot
                         = Ret (ud, slot, r')) /\
      astep a (LNew (s_next s) false) a1 /\ astep a1 (LPollOne (s_next s) cx Pending) a2 /\
      refines (Sys r' (<[s_next s := HOne (EventWaiter.io w)]> (s_hs s)) (Datatypes.S (s_next s))) a2
  | Panic p => p = UnwrapErr
  | _ => False
  end /\
  (s_hs s !! h = Some (HOne (EventWaiter.io w)) ->
   match Mutex.lock m (Mutex.Waiting e w) cx (s_ring s) l with
   | Ret (p, st, r', l') =>
       (p = Pending /\ l' = l /\ exists w' a', st = Mutex.Waiting e w' /\
          astep a (LPollOne h cx Pending) a' /\
          refines (Sys r' (<[h := HOne (EventWaiter.io w')]> (s_hs s)) (s_next s)) a') \/
       (p = Ready tt /\ l' = Event.drop e l /\ st = Mutex.Returned /\ exists v a1 a2,
          astep a (LPollOne h cx (Ready (Ok v))) a1 /\ astep a1 (LDrop h) a2 /\
          refines (Sys r' (delete h (s_hs s)) (s_next s)) a2)
   | Panic p => p = UnwrapErr \/ p = ArithOverflow
   | _ => False
   end /\
   exists r' a', Mutex.lock_drop (Mutex.Waiting e w) (s_ring s) l = Ret (r', Event.drop e l) /\
     astep a (LDrop h) a' /\ refines (Sys r' (delete h (s_hs s)) (s_next s)) a').
Proof.
  intros Hs He. split.
  - cbn [Mutex.lock]. pose proof (event_clone_spec _ _ _ He) as Hc.
    destruct (Event.clone (Mutex.evt m) l) as [[e' l1]|p| |]; cbn; try done.
    destruct Hc as [Hn Hv]. destruct s as [r hs n].
    destruct (new_handle_ok _ _ _ _ Hs) as (a1 & Ha1 & Hr1).
    pose proof (submit_handle_ok _ _ _ _ _ (Read (Event.inner e') (InFuture "wait_buf") 8 0) cx Hr1 eq_refl)
      as Hsub.
    unfold Mutex.await, EventWaiter.poll, EventWaiter.wait. cbn.
    change (as_u 32 8) with 8%Z.
    destruct (submit_io r _ cx Oneshot) as [[[ud slot] r']|p| |] eqn:Esub; cbn;
      try done; [|by destruct Hsub].
    destruct Hsub as (a2 & Ha2 & Hr2). split; [done|].
    exists e', (EventWaiter.MkWaiter (Event.inner e') (Oneshot.Submitted slot) (replicate 8 0%Z)), a1, a2.
    split_and!; try done.
    + unfold event_on. rewrite Hv. apply lookup_insert_eq.
    + by exists ud, slot.
  - intros Hh. split; [by apply await_ok|]. destruct s as [r hs n]. cbn in *.
    rewrite <- (insert_id _ _ _ Hh) in Hs.
    destruct (drop_handle_ok _ _ _ _ _ _ Hs) as (r2 & a2 & Hd & Ha2 & Hr2).
    unfold EventWaiter.drop. rewrite Hd. cbn. by exists r2, a2.
Qed.
End implementation.
