(* ===== verification/FuturesProps.v ===== *)
(** Memory and the kernel: what the operations of the futures point into, and
    what happens to an operation whose future is dropped. *)
From S2P Require Import Prelude Bytes Crates CrateModels Results Reactor Io RingFacts Mailbox Refinement RefineOps System ReactorProps Sqe Futures Libc SockAddr Event ReadWrite Fs Timer Tcp Udp.

(** The closures of a future only build operations whose memory outlives the poll. *)
Definition builds_lasting (F Out : Type) `{UringFuture F Out} : Prop :=
  forall (f f' : F) e, prepare f = Ret (e, f') -> sqe_survives e = true.

(** The memory the header of a message points into. *)
Definition hdr_places (h : msghdr) (v : iovec) : list place :=
  option_list (msg_name h) ++ option_list (msg_iov h) ++ option_list (iov_base v).

Section lasting.
Context `{Host} `{NetOrder} {L : Type} `{Libc L}.

End lasting.

Section orphans.
Context {S : Type -> Type} `{SlabSpec S} {B : Type} `{RingBufferSpec B}.
Context {U Entry : Type} `{IoUringSpec U Entry} {T : Type}.
Abbreviation sys := (sys S B U T).

(** Dropping a oneshot handle does not stop its operation: whenever the
    handle of a future that waits is dropped, the ring is left exactly as it
    is, and the operation is still queued, in flight or about to be processed
    under its user data: the kernel may still use the memory of the
    future, and the completion still wakes the task. *)
Theorem drop_leaves_operation (s : sys) h slot a :
  refines s a -> s_hs s !! h = Some (HOne (Oneshot.Submitted slot)) -> a_mail a !! h = Some AOneWait ->
  exists s', run_op s (ODrop h : op Entry T) = Ret (LDrop h, s') /\
    uring (s_ring s') = uring (s_ring s) /\ pending (s_ring s') = pending (s_ring s) /\
    exists ud t, ud ∈ places cq_more (uring_view (uring (s_ring s'))) /\
      slab_get (pending (s_ring s')) ud = Some (MkPending t slot Oneshot).
Proof.
  intros Hs Hh Hm. pose proof (run_op_ok s a (ODrop h : op Entry T) Hs) as Hok.
  unfold op_ok in Hok. destruct s as [r hs n]. cbn in *. rewrite Hh in *.
  specialize (Hok ltac:(eauto)). unfold Oneshot.drop in *.
  destruct (OneshotStore.drop_result _ slot) as [o|p| |]; cbn in *; [|naive_solver..].
  eexists. split; [done|]. cbn. split; [done|]. split; [done|].
  destruct Hs as (own & Inv & _). cbn in Inv.
  destruct (inv_one_submitted _ _ _ _ _ _ _ _ _ _ _ Inv Hh) as [(_ & _ & (ud & t & Hown))|(v & E & _)];
    [|congruence].
  exists ud, t. split.
  - apply (ro_live _ _ _ (i_ring Inv)). rewrite lookup_fmap, Hown. by eexists.
  - rewrite slab_get_spec. exact (i_pend Inv _ _ Hown).
Qed.
End orphans.
