(* ===== verification/Task.v ===== *)
(** Tasks and the executor: src/src/task.rs.

    The state of a thread is one record, [world]: the executor and the reactor
    (the two thread-locals), the identities of the tasks (the [AtomicUsize] of each
    [Arc<TaskId>], at its address), the channels of the joiners and the operating system.
    Wakers are [Arc<TaskId>]: addresses of identities.

    The futures given to [spawn] are arbitrary code: a type [Fut] of their
    states and a function [poll_user] that polls one in a world. *)
From S2P Require Import Prelude Bytes Crates Results Reactor Io Sqe Libc Event.

(** ** One-shot channels: [std::sync::mpsc::sync_channel(1)] *)
Record channel (Val : Type) := MkChannel {
  buffer : option Val;
  sender_alive : bool;
  receiver_alive : bool;
}.
Arguments MkChannel {Val} buffer sender_alive receiver_alive.
Arguments buffer {Val} _.
Arguments sender_alive {Val} _.
Arguments receiver_alive {Val} _.

Section channels.
Context {Val : Type}.

Definition channel_new : channel Val := MkChannel None true true.

(** [send] fails when the receiver is gone, and would block on a full buffer. *)
Definition send (v : Val) (c : channel Val) : outcome (result unit Val * channel Val) :=
  if receiver_alive c then
    match buffer c with
    | Some _ => Hang
    | None => mret (Ok tt, MkChannel (Some v) (sender_alive c) true)
    end
  else mret (Err v, c).

(** [recv] blocks while the buffer is empty and the sender alive. *)
Definition recv (c : channel Val) : outcome (result Val unit * channel Val) :=
  match buffer c with
  | Some v => mret (Ok v, MkChannel None (sender_alive c) (receiver_alive c))
  | None => if sender_alive c then Hang else mret (Err tt, c)
  end.

Definition drop_sender (c : channel Val) : channel Val :=
  MkChannel (buffer c) false (receiver_alive c).
Definition drop_receiver (c : channel Val) : channel Val :=
  MkChannel (buffer c) (sender_alive c) false.
End channels.

(** ** Tasks *)

(** The [async move] block [spawn] makes: the user's future, the clone of the
    event and the sending end of the channel. *)
Record task_future (Fut : Type) := MkTaskFuture {
  f : Fut;
  evt2 : Event.Event;
  tx : nat;
}.
Arguments MkTaskFuture {Fut} f evt2 tx.
Arguments f {Fut} _.
Arguments evt2 {Fut} _.
Arguments tx {Fut} _.

Record Task (Fut : Type) := MkTask {
  id : nat;                       (* the address of the [TaskId] *)
  future : task_future Fut;
}.
Arguments MkTask {Fut} id future.
Arguments id {Fut} _.
Arguments future {Fut} _.

Record Executor (S : Type -> Type) (Fut : Type) := MkExecutor {
  waiting : S (Task Fut);
  run_q : list (Task Fut);        (* a [Vec]: [push] and [pop] at the end *)
}.
Arguments MkExecutor {S Fut} waiting run_q.
Arguments waiting {S Fut} _.
Arguments run_q {S Fut} _.

Record world (S : Type -> Type) (B U L Fut Val : Type) := World {
  w_ring : ReactorInner S B U nat;
  w_exec : Executor S Fut;
  w_ids : gmap nat nat;
  w_chans : gmap nat (channel Val);
  w_next : nat;                   (* the next address *)
  w_libc : L;
}.
Arguments World {S B U L Fut Val} w_ring w_exec w_ids w_chans w_next w_libc.
Arguments w_ring {S B U L Fut Val} _.
Arguments w_exec {S B U L Fut Val} _.
Arguments w_ids {S B U L Fut Val} _.
Arguments w_chans {S B U L Fut Val} _.
Arguments w_next {S B U L Fut Val} _.
Arguments w_libc {S B U L Fut Val} _.

Record TaskJoiner := MkJoiner {
  rx : nat;
  evt : Event.Event;
  finished : EventWaiter.EventWaiter;
}.

Section task.
Context {S : Type -> Type} `{Slab S} {B : Type} `{RingBuffer B}.
Context {U : Type} `{IoUring U sqe} {L : Type} `{Libc L} `{Host}.
Context {Fut Val : Type}.
Abbreviation reactor := (ReactorInner S B U nat).
Abbreviation executor := (Executor S Fut).
Abbreviation world := (world S B U L Fut Val).

Definition set_exec (e : executor) (w : world) : world :=
  World (w_ring w) e (w_ids w) (w_chans w) (w_next w) (w_libc w).
Definition set_chan (c : nat) (x : channel Val) (w : world) : world :=
  World (w_ring w) (w_exec w) (w_ids w) (<[c := x]> (w_chans w)) (w_next w) (w_libc w).

(** [Vec::push] and [Vec::pop] *)
Definition push (t : Task Fut) (q : list (Task Fut)) : list (Task Fut) := q ++ [t].
Definition pop (q : list (Task Fut)) : option (Task Fut * list (Task Fut)) :=
  match last q with Some t => Some (t, removelast q) | None => None end.

(** [impl Wake for TaskId] *)
Definition wake (ids : gmap nat nat) (self : nat) (exec : executor) : executor :=
  match ids !! self with
  | Some key =>
      match slab_try_remove (waiting exec) key with
      | Some (task, wt) => MkExecutor wt (push task (run_q exec))
      | None => exec
      end
  | None => exec
  end.

(** [Executor::spawn] *)
Definition spawn (fut : Fut) (w : world) : outcome (TaskJoiner * world) :=
  let ch := w_next w in
  let (r, l) := Event.new (w_libc w) in
  evt ← unwrap_result r;
  '(evt2, l) ← Event.clone evt l;
  let task := MkTask (Datatypes.S ch) (MkTaskFuture fut evt2 ch) in
  let exec := MkExecutor (waiting (w_exec w)) (push task (run_q (w_exec w))) in
  let w := World (w_ring w) exec (<[Datatypes.S ch := 0]> (w_ids w))
             (<[ch := channel_new]> (w_chans w)) (2 + ch) l in
  let waiter := EventWaiter.wait evt in
  mret (MkJoiner ch evt waiter, w).

(** [self.rx.recv().unwrap()] *)
Definition recv_unwrap (ch : nat) (w : world) : outcome (Val * world) :=
  c ← unwrap (w_chans w !! ch);
  '(r, c) ← recv c;
  v ← unwrap_result r;
  mret (v, set_chan ch c w).

(** Dropping a joiner: the task is detached. *)
Definition joiner_drop (self : TaskJoiner) (w : world) : outcome world :=
  c ← unwrap (w_chans w !! rx self);
  let w := set_chan (rx self) (drop_receiver c) w in
  let l := Event.drop (evt self) (w_libc w) in
  ring ← EventWaiter.drop (finished self) (w_ring w);
  mret (World ring (w_exec w) (w_ids w) (w_chans w) (w_next w) l).

(** [TaskJoiner::join]; the joiner is dropped on return. *)
Definition join (self : TaskJoiner) (w : world) : outcome (Val * world) :=
  '(v, w) ← recv_unwrap (rx self) w;
  w ← joiner_drop self w;
  mret (v, w).

(** [impl Future for TaskJoiner] *)
Definition joiner_poll (self : TaskJoiner) (cx : nat) (w : world) :
    outcome (poll Val * TaskJoiner * world) :=
  '(p, waiter, ring) ← EventWaiter.poll (finished self) cx (w_ring w);
  let self := MkJoiner (rx self) (evt self) waiter in
  let w := World ring (w_exec w) (w_ids w) (w_chans w) (w_next w) (w_libc w) in
  match p with
  | Pending => mret (Pending, self, w)
  | Ready r =>
      _ ← unwrap_result r;
      '(v, w) ← recv_unwrap (rx self) w;
      mret (Ready v, self, w)
  end.

Section loop.
Context (poll_user : Fut -> nat -> world -> outcome (poll Val * Fut * world)).

(** The [async move] block: poll the user's future; when it is ready notify
    the joiner, send the value (both errors are ignored) and drop the event and the sender.
    A user's future is dropped by the poll that completes it. *)
Definition poll_task (self : task_future Fut) (cx : nat) (w : world) :
    outcome (poll unit * task_future Fut * world) :=
  '(p, fut, w) ← poll_user (f self) cx w;
  let self := MkTaskFuture fut (evt2 self) (tx self) in
  match p with
  | Pending => mret (Pending, self, w)
  | Ready value =>
      let (_, l) := Event.notify_one (evt2 self) (w_libc w) in
      c ← unwrap (w_chans w !! tx self);
      '(_, c) ← send value c;
      let l := Event.drop (evt2 self) l in
      mret (Ready tt, self,
            World (w_ring w) (w_exec w) (w_ids w)
              (<[tx self := drop_sender c]> (w_chans w)) (w_next w) l)
  end.

(** [Reactor::react()]: [fuel] bounds the number of completions processed. *)
Definition react_exec (fuel : nat) (w : world) : outcome world :=
  '(ring, exec) ← Reactor_react (fun l e => mret (wake (w_ids w) l e)) fuel (w_ring w) (w_exec w);
  mret (World ring exec (w_ids w) (w_chans w) (w_next w) (w_libc w)).

(** The task polled: dropped if it is done, put in [waiting] otherwise. *)
Definition requeue (task : Task Fut) (p : poll unit) (w : world) : world :=
  match p with
  | Ready _ => w
  | Pending =>
      let key := slab_vacant_key (waiting (w_exec w)) in
      let (_, wt) := slab_insert (waiting (w_exec w)) task in
      World (w_ring w) (MkExecutor wt (run_q (w_exec w))) (<[id task := key]> (w_ids w))
        (w_chans w) (w_next w) (w_libc w)
  end.

(** One round of the loop of [executor_loop]; [true]: it returns. *)
Definition executor_round (fuel : nat) (w : world) : outcome (bool * world) :=
  w ← (if decide (run_q (w_exec w) = []) then react_exec fuel w else mret w);
  '(task, q) ← unwrap (pop (run_q (w_exec w)));
  let w := set_exec (MkExecutor (waiting (w_exec w)) q) w in
  let waker := id task in
  '(p, fut, w) ← poll_task (future task) waker w;
  let w := requeue (MkTask (id task) fut) p w in
  mret (if decide (run_q (w_exec w) = []) then slab_is_empty (waiting (w_exec w)) else false, w).

(** [Executor::executor_loop] and [Executor::run]: [rounds] bounds the rounds. *)
Fixpoint executor_loop (rounds fuel : nat) (w : world) : outcome world :=
  match rounds with
  | O => NoFuel
  | Datatypes.S rounds =>
      '(stop, w) ← executor_round fuel w;
      if stop : bool then mret w else executor_loop rounds fuel w
  end.

Definition run (rounds fuel : nat) (w : world) : outcome world := executor_loop rounds fuel w.

(** [Executor::block_on] *)
Definition block_on (rounds fuel : nat) (fut : Fut) (w : world) : outcome (Val * world) :=
  '(joiner, w) ← spawn fut w;
  w ← executor_loop rounds fuel w;
  join joiner w.
End loop.
End task.

(** A thread at its start: the [const] initialiser of [EXEC]. *)
Definition world_init {S} `{Slab S} {B U L Fut Val : Type}
    (ring : ReactorInner S B U nat) (l : L) : world S B U L Fut Val :=
  World ring (MkExecutor slab_new []) ∅ ∅ 0 l.
