(* ===== verification/TaskProps.v ===== *)
(** Properties of the executor: its invariant, what a waker does, that no
    task is lost or duplicated, and what is known when the loop returns. *)
From S2P Require Import Prelude Bytes Crates Results Reactor Io Sqe Libc Event Task.

Section props.
Context {S : Type -> Type} `{SlabSpec S} {B : Type} `{RingBuffer B}.
Context {U : Type} `{IoUring U sqe} {L : Type} `{Libc L} `{Host}.
Context {Fut Val : Type}.
Abbreviation executor := (Executor S Fut).
Abbreviation world := (world S B U L Fut Val).
Implicit Types (w : world) (e : executor) (t : Task Fut) (cur : list (Task Fut)).

(** The tasks of an executor. *)
Definition all_tasks e : list (Task Fut) :=
  (map_to_list (slab_view (waiting e))).*2 ++ run_q e.

(** A task is named by the address of its identity and by its channel. *)
Definition tx_of t : nat := tx (future t).

(** The invariant; [cur] is the task being polled, if any. *)
Record wf cur w : Prop := {
  wf_ids : forall k t, slab_view (waiting (w_exec w)) !! k = Some t -> w_ids w !! id t = Some k;
  wf_nodup : NoDup (id <$> cur ++ all_tasks (w_exec w));
  wf_dom : forall t, t ∈ cur ++ all_tasks (w_exec w) ->
    is_Some (w_ids w !! id t) /\ exists c, w_chans w !! tx_of t = Some c /\
      sender_alive c = true /\ buffer c = None;
  wf_tx : NoDup (tx_of <$> cur ++ all_tasks (w_exec w));
  wf_sender : forall ch c, w_chans w !! ch = Some c -> sender_alive c = true ->
    exists t, t ∈ cur ++ all_tasks (w_exec w) /\ tx_of t = ch;
  wf_next : (forall l, is_Some (w_ids w !! l) -> l < w_next w) /\
            (forall c, is_Some (w_chans w !! c) -> c < w_next w);
}.

(** *** A new thread *)
Lemma wf_init ring (l : L) : wf [] (world_init ring l : world).
Proof.
  split; cbn; rewrite ?slab_new_spec.
  - intros k t. by rewrite lookup_empty.
  - unfold all_tasks. cbn. rewrite slab_new_spec, map_to_list_empty. constructor.
  - unfold all_tasks. cbn. rewrite slab_new_spec, map_to_list_empty. intros t Ht. by apply elem_of_nil in Ht.
  - unfold all_tasks. cbn. rewrite slab_new_spec, map_to_list_empty. constructor.
  - intros ch c. by rewrite lookup_empty.
  - split; intros k; rewrite lookup_empty; by intros [].
Qed.

(** *** Moving tasks around *)
Lemma wf_exec cur cur' w e :
  wf cur w -> cur' ++ all_tasks e ≡ₚ cur ++ all_tasks (w_exec w) ->
  (forall k t, slab_view (waiting e) !! k = Some t -> w_ids w !! id t = Some k) ->
  wf cur' (set_exec e w).
Proof.
  intros [Hids Hnd Hdom Htx Hsend Hnext] Hp Hw. split; cbn; try done.
  - by rewrite Hp.
  - intros t Ht. apply Hdom. by rewrite <- Hp.
  - by rewrite Hp.
  - intros ch c Hc Ha. destruct (Hsend ch c Hc Ha) as (t & Ht & <-). exists t. by rewrite Hp.
Qed.

Lemma all_tasks_remove e k t wt q :
  slab_view (waiting e) !! k = Some t -> slab_view wt = delete k (slab_view (waiting e)) ->
  all_tasks (MkExecutor wt q) ++ [t] ≡ₚ (map_to_list (slab_view (waiting e))).*2 ++ q.
Proof.
  intros Hk Hwt. unfold all_tasks. cbn. rewrite Hwt.
  rewrite <- (map_to_list_delete _ _ _ Hk). cbn. by rewrite Permutation_app_comm.
Qed.

Lemma all_tasks_insert e k t wt :
  slab_view (waiting e) !! k = None -> slab_view wt = <[k := t]> (slab_view (waiting e)) ->
  all_tasks (MkExecutor wt (run_q e)) ≡ₚ t :: all_tasks e.
Proof.
  intros Hk Hwt. unfold all_tasks. cbn. rewrite Hwt. by rewrite map_to_list_insert.
Qed.

Lemma all_tasks_nil e :
  all_tasks e = [] -> slab_view (waiting e) = ∅ /\ run_q e = [].
Proof.
  unfold all_tasks. intros E. apply app_eq_nil in E as [E1 E2]. split; [|done].
  apply fmap_nil_inv in E1. by apply map_to_list_empty_iff.
Qed.

Lemma all_tasks_push e t : all_tasks (MkExecutor (waiting e) (push t (run_q e))) ≡ₚ t :: all_tasks e.
Proof.
  unfold all_tasks, push. cbn. rewrite app_assoc. by rewrite Permutation_app_comm.
Qed.

Lemma pop_some {q : list (Task Fut)} {t q'} : pop q = Some (t, q') -> q = q' ++ [t].
Proof.
  unfold pop. destruct q as [|x q] using rev_ind; [done|].
  rewrite last_snoc, removelast_last. by intros [= <- <-].
Qed.

Lemma pop_none (q : list (Task Fut)) : pop q = None <-> q = [].
Proof.
  unfold pop. destruct q as [|x q] using rev_ind; [done|]. rewrite last_snoc.
  split; [done|]. intros E. by destruct q.
Qed.

(** *** Wakers *)
Lemma wake_cases ids l e :
  (wake ids l e = e /\ forall k, ids !! l = Some k -> slab_view (waiting e) !! k = None) \/
  exists k t wt, ids !! l = Some k /\ slab_view (waiting e) !! k = Some t /\
    slab_view wt = delete k (slab_view (waiting e)) /\
    wake ids l e = MkExecutor wt (push t (run_q e)).
Proof.
  unfold wake. destruct (ids !! l) as [k|] eqn:Ek; [|by left].
  destruct (slab_try_remove (waiting e) k) as [[t wt]|] eqn:Er.
  - right. apply slab_try_remove_some in Er as [E1 E2]. by exists k, t, wt.
  - left. split; [done|]. intros k' [= <-]. by apply slab_try_remove_none.
Qed.

Lemma wake_perm ids l e : all_tasks (wake ids l e) ≡ₚ all_tasks e.
Proof.
  destruct (wake_cases ids l e) as [[-> _]|(k & t & wt & _ & Hk & Hwt & ->)]; [done|].
  unfold push. rewrite <- (all_tasks_remove e k t wt (run_q e) Hk Hwt).
  unfold all_tasks. cbn. by rewrite app_assoc.
Qed.

Lemma wake_sub ids l e k t :
  slab_view (waiting (wake ids l e)) !! k = Some t -> slab_view (waiting e) !! k = Some t.
Proof.
  destruct (wake_cases ids l e) as [[-> _]|(k' & t' & wt & _ & Hk & Hwt & ->)]; [done|].
  cbn. rewrite Hwt, lookup_delete_Some. tauto.
Qed.

Lemma wf_wake cur w l : wf cur w -> wf cur (set_exec (wake (w_ids w) l (w_exec w)) w).
Proof.
  intros Hw. eapply wf_exec; [exact Hw|by rewrite wake_perm|].
  intros k t Ht. apply wake_sub in Ht. by apply (wf_ids _ _ Hw).
Qed.

Lemma wf_wakes cur w ls :
  wf cur w -> wf cur (set_exec (foldl (fun e l => wake (w_ids w) l e) (w_exec w) ls) w).
Proof.
  revert w. induction ls as [|l ls IH]; intros w Hw; cbn; [by destruct w|].
  specialize (IH _ (wf_wake _ _ l Hw)). cbn in IH. exact IH.
Qed.

(** *** The other operations *)
Lemma wf_same_cur cur cur' w :
  id <$> cur' = id <$> cur -> tx_of <$> cur' = tx_of <$> cur -> wf cur w -> wf cur' w.
Proof.
  intros Eid Etx [Hids Hnd Hdom Htx Hsend Hnext].
  assert (forall c c' x y, id <$> c' = id <$> c -> tx_of <$> c' = tx_of <$> c ->
    (exists t : Task Fut, t ∈ c ++ all_tasks (w_exec w) /\ id t = x /\ tx_of t = y) ->
    exists t : Task Fut, t ∈ c' ++ all_tasks (w_exec w) /\ id t = x /\ tx_of t = y) as Hin.
  { intros c. induction c as [|a c IH]; intros [|a' c'] x y E1 E2; try done.
    injection E1 as Ea E1. injection E2 as Eb E2. intros (t & Ht & <- & <-).
    apply elem_of_cons in Ht as [->|Ht]; [exists a'; split; [by left|done]|].
    destruct (IH c' (id t) (tx_of t) E1 E2) as (t' & Ht' & Eq); [by exists t|].
    exists t'. split; [by right|done]. }
  split; try done.
  - by rewrite fmap_app, Eid, <- fmap_app.
  - intros t Ht. destruct (Hin cur' cur (id t) (tx_of t) (eq_sym Eid) (eq_sym Etx)) as (t' & Ht' & <- & <-);
      [by exists t|by apply Hdom].
  - by rewrite fmap_app, Etx, <- fmap_app.
  - intros ch c Hc Ha. destruct (Hsend ch c Hc Ha) as (t & Ht & <-).
    destruct (Hin cur cur' (id t) (tx_of t) Eid Etx) as (t' & Ht' & _ & E); [by exists t|]. by exists t'.
Qed.

(** Changes outside the executor and the channels. *)
Lemma wf_outside cur w r l :
  wf cur w -> wf cur (World r (w_exec w) (w_ids w) (w_chans w) (w_next w) l).
Proof. intros [? ? ? ? ? ?]. by split. Qed.

(** A channel whose sender stays as it is, and whose buffer is not filled. *)
Lemma wf_set_chan cur w ch c c' :
  wf cur w -> w_chans w !! ch = Some c -> sender_alive c' = sender_alive c ->
  (buffer c' = None \/ buffer c' = buffer c) -> wf cur (set_chan ch c' w).
Proof.
  intros [Hids Hnd Hdom Htx Hsend [Hn1 Hn2]] Hc Hs Hb. split; cbn; try done.
  - intros t Ht. destruct (Hdom t Ht) as (Hid & d & Hd & Ha & He). split; [done|].
    destruct (decide (ch = tx_of t)) as [->|Hne].
    + exists c'. rewrite lookup_insert_eq. simplify_eq. split; [done|]. destruct Hb; split; congruence.
    + exists d. by rewrite lookup_insert_ne.
  - intros ch' d. rewrite lookup_insert_Some. intros [[<- <-]|[_ Hd]] Ha; [|by eapply Hsend].
    eapply Hsend; [done|congruence].
  - split; [done|]. intros k. rewrite lookup_insert_is_Some. intros [<-|[_ Hk]]; eauto.
Qed.

Lemma spawn_inv w fut j w' :
  spawn fut w = Ret (j, w') ->
  exists ev l, let ch := w_next w in let t := MkTask (Datatypes.S ch) (MkTaskFuture fut ev ch) in
    rx j = ch /\ EventWaiter.io (finished j) = Oneshot.New /\
    w' = World (w_ring w) (MkExecutor (waiting (w_exec w)) (push t (run_q (w_exec w))))
           (<[Datatypes.S ch := 0]> (w_ids w)) (<[ch := channel_new]> (w_chans w)) (2 + ch) l.
Proof.
  unfold spawn. destruct (Event.new (w_libc w)) as [[ev|er] l1]; cbn; [|done].
  destruct (Event.clone ev l1) as [[e2 l2]|p| |]; cbn; try done.
  intros [= <- <-]. by exists e2, l2.
Qed.

Lemma wf_spawn cur w fut j w' : wf cur w -> spawn fut w = Ret (j, w') -> wf cur w'.
Proof.
  intros [Hids Hnd Hdom Htx Hsend [Hn1 Hn2]] Hsp.
  destruct (spawn_inv _ _ _ _ Hsp) as (ev & l & Hrx & _ & ->). set (ch := w_next w) in *.
  set (t := MkTask (Datatypes.S ch) (MkTaskFuture fut ev ch)).
  assert (cur ++ all_tasks (MkExecutor (waiting (w_exec w)) (push t (run_q (w_exec w)))) ≡ₚ
          t :: cur ++ all_tasks (w_exec w)) as Hp.
  { rewrite all_tasks_push. by rewrite Permutation_middle. }
  assert (forall x, x ∈ cur ++ all_tasks (w_exec w) -> id x < ch /\ tx_of x < ch) as Hlt.
  { intros x Hx. destruct (Hdom x Hx) as (Hi & c & Hc & _). split; [by apply Hn1|].
    apply Hn2. by exists c. }
  split; cbn [w_exec w_ids w_chans w_next waiting].
  - intros k x Hx. rewrite lookup_insert_ne; [by apply Hids|].
    assert (id x < ch); [|lia]. apply Hlt, elem_of_app. right. unfold all_tasks.
    apply elem_of_app. left. apply list_elem_of_fmap. exists (k, x).
    split; [done|]. by apply elem_of_map_to_list.
  - rewrite Hp. cbn. constructor; [|done]. intros Hin. apply list_elem_of_fmap in Hin as (x & E & Hx).
    apply Hlt in Hx. lia.
  - intros x. rewrite Hp. intros Hx. apply elem_of_cons in Hx as [->|Hx].
    + cbn. rewrite lookup_insert_eq. split; [by eexists|]. exists channel_new.
      by rewrite lookup_insert_eq.
    + destruct (Hlt x Hx). destruct (Hdom x Hx) as (Hi & c & Hc & Ha).
      rewrite lookup_insert_ne by lia. split; [done|]. exists c. by rewrite lookup_insert_ne by lia.
  - rewrite Hp. cbn. constructor; [|done]. intros Hin. apply list_elem_of_fmap in Hin as (x & E & Hx).
    apply Hlt in Hx. change (tx_of t) with ch in E. lia.
  - intros c x. rewrite lookup_insert_Some. intros [[<- <-]|[Hne Hx]] Ha.
    + exists t. rewrite Hp. split; [by left|done].
    + destruct (Hsend c x Hx Ha) as (y & Hy & <-). exists y. rewrite Hp. split; [by right|done].
  - split; intros k; rewrite lookup_insert_is_Some; intros [<-|[_ Hk]]; try lia;
      [apply Hn1 in Hk|apply Hn2 in Hk]; lia.
Qed.

(** *** What a user's future may do while it is polled: spawn tasks, wake
    tasks, use the reactor and the system, and use or drop the joiners it holds.
    [mine] says which channels its joiners have. *)
Inductive user_step (mine : nat -> Prop) : world -> world -> Prop :=
  | us_spawn fut j w w' : spawn fut w = Ret (j, w') -> user_step mine w w'
  | us_wake l w : user_step mine w (set_exec (wake (w_ids w) l (w_exec w)) w)
  | us_outside r l w : user_step mine w (World r (w_exec w) (w_ids w) (w_chans w) (w_next w) l)
  | us_recv ch v w w' : mine ch -> recv_unwrap ch w = Ret (v, w') -> user_step mine w w'
  | us_detach ch c w : mine ch -> w_chans w !! ch = Some c ->
      user_step mine w (set_chan ch (drop_receiver c) w).

Lemma recv_unwrap_inv ch w v w' :
  recv_unwrap ch w = Ret (v, w') ->
  exists c, w_chans w !! ch = Some c /\ buffer c = Some v /\
    w' = set_chan ch (MkChannel None (sender_alive c) (receiver_alive c)) w.
Proof.
  unfold recv_unwrap. destruct (w_chans w !! ch) as [c|]; cbn; [|done]. unfold recv.
  destruct (buffer c) as [v'|] eqn:Eb; cbn; [intros [= -> <-]; by exists c|].
  by destruct (sender_alive c).
Qed.

Lemma wf_user_step mine cur w w' : user_step mine w w' -> wf cur w -> wf cur w'.
Proof.
  intros Hs Hw. destruct Hs as [fut j w w' E|l w|r l w|ch v w w' _ E|ch c w _ E].
  - by eapply wf_spawn.
  - by apply wf_wake.
  - by apply wf_outside.
  - apply recv_unwrap_inv in E as (c & Hc & _ & ->). by eapply wf_set_chan; eauto.
  - eapply wf_set_chan; eauto.
Qed.

Lemma wf_user_steps mine cur w w' : rtc (user_step mine) w w' -> wf cur w -> wf cur w'.
Proof. induction 1; eauto using wf_user_step. Qed.

Lemma next_mono mine w w' : rtc (user_step mine) w w' -> w_next w <= w_next w'.
Proof.
  induction 1 as [|w w1 w2 Hs _ IH]; [done|]. etransitivity; [|exact IH].
  destruct Hs as [fut j w w3 E|l w|r l w|ch v w w3 _ E|ch c w _ E]; try done.
  - apply spawn_inv in E as (ev & l & _ & _ & ->). cbn. lia.
  - by apply recv_unwrap_inv in E as (c & _ & _ & ->).
Qed.

(** *** The rounds of the loop *)
Lemma wf_pop w t q :
  wf [] w -> pop (run_q (w_exec w)) = Some (t, q) ->
  wf [t] (set_exec (MkExecutor (waiting (w_exec w)) q) w).
Proof.
  intros Hw Hpop. eapply wf_exec; [exact Hw| |apply (wf_ids _ _ Hw)].
  apply pop_some in Hpop. unfold all_tasks. cbn. rewrite Hpop, app_assoc.
  by rewrite <- Permutation_cons_append.
Qed.

(** The running task is done: its channel has its value. *)
Lemma wf_ready t w c l :
  wf [t] w -> w_chans w !! tx_of t = Some c -> sender_alive c = true ->
  forall c', sender_alive c' = false ->
  wf [] (World (w_ring w) (w_exec w) (w_ids w) (<[tx_of t := c']> (w_chans w)) (w_next w) l).
Proof.
  intros [Hids Hnd Hdom Htx Hsend [Hn1 Hn2]] Hc Hs c' Hc'.
  cbn [app fmap list_fmap] in *. apply NoDup_cons in Hnd as [_ Hnd], Htx as [Hnt Htx].
  split; cbn; try done.
  - intros x Hx. destruct (Hdom x ltac:(by right)) as (Hi & d & Hd & Ha). split; [done|].
    exists d. rewrite lookup_insert_ne; [done|]. intros E. apply Hnt. rewrite E.
    by apply list_elem_of_fmap_2.
  - intros ch d. rewrite lookup_insert_Some. intros [[_ <-]|[Hne Hd]] Ha; [congruence|].
    destruct (Hsend ch d Hd Ha) as (x & Hx & <-). apply elem_of_cons in Hx as [->|Hx]; [done|].
    by exists x.
  - split; [done|]. intros k. rewrite lookup_insert_is_Some. intros [<-|[_ Hk]]; eauto.
Qed.

(** The running task goes back to the slab. *)
Lemma wf_pending t w k wt :
  wf [t] w -> slab_view (waiting (w_exec w)) !! k = None ->
  slab_view wt = <[k := t]> (slab_view (waiting (w_exec w))) ->
  wf [] (World (w_ring w) (MkExecutor wt (run_q (w_exec w))) (<[id t := k]> (w_ids w))
           (w_chans w) (w_next w) (w_libc w)).
Proof.
  intros [Hids Hnd Hdom Htx Hsend [Hn1 Hn2]] Hk Hwt.
  pose proof (all_tasks_insert (w_exec w) k t wt Hk Hwt) as Hp.
  split; cbn [app w_exec w_ids w_chans w_next waiting run_q] in *.
  - intros k' x. rewrite Hwt, lookup_insert_Some. intros [[<- <-]|[Hne Hx]].
    + apply lookup_insert_eq.
    + rewrite lookup_insert_ne; [by apply Hids|]. cbn in Hnd. apply NoDup_cons in Hnd as [Hnd _].
      intros E. apply Hnd. rewrite E. apply list_elem_of_fmap_2. unfold all_tasks.
      apply elem_of_app. left. apply list_elem_of_fmap. exists (k', x).
      split; [done|]. by apply elem_of_map_to_list.
  - by rewrite Hp.
  - intros x. rewrite Hp. intros Hx. destruct (Hdom x Hx) as (Hi & Hc). split; [|done].
    rewrite lookup_insert_is_Some. destruct (decide (id t = id x)); [by left|by right].
  - by rewrite Hp.
  - intros ch c Hc Ha. destruct (Hsend ch c Hc Ha) as (x & Hx & <-). exists x. by rewrite Hp.
  - split; [|done]. intros l. rewrite lookup_insert_is_Some. intros [<-|[_ Hl]]; [|by apply Hn1].
    apply Hn1. apply Hdom. by left.
Qed.
End props.

(** What keeps the invariant. *)
#[export] Hint Resolve wf_wake wf_wakes wf_outside wf_spawn wf_user_step wf_user_steps wf_init : trale.
