(* ===== verification/TaskLoop.v ===== *)
(** What is known when the executor's loop returns: every task is done, and
    [block_on] gives the value its future produced. *)
From S2P Require Import Prelude Bytes Crates Results Reactor Io Sqe Libc Event Task TaskProps.

Section loop.
Context {S : Type -> Type} `{SlabSpec S} {B : Type} `{RingBuffer B}.
Context {U : Type} `{IoUring U sqe} {L : Type} `{Libc L} `{Host}.
Context {Fut Val : Type}.
Abbreviation executor := (Executor S Fut).
Abbreviation world := (world S B U L Fut Val).
Implicit Types (w : world) (e : executor) (t : Task Fut) (cur : list (Task Fut)).

Context (poll_user : Fut -> nat -> world -> outcome (poll Val * Fut * world)).
Context (mine : nat -> Prop) (low : nat).

(** The futures are safe code: in the worlds whose addresses below [low] are
    in use, they do nothing but what [user_step] says. *)
Definition user_safe : Prop := forall fut cx w p fut' w',
  low <= w_next w -> poll_user fut cx w = Ret (p, fut', w') -> rtc (user_step mine) w w'.

Context (Hsafe : user_safe).

(** *** Inversion of the steps *)
Lemma for_each_wakes ids fuel r e r' e' :
  for_each (fun l e => mret (wake ids l e)) fuel r e = Ret (r', e') ->
  exists ls, e' = foldl (fun e l => wake ids l e) e ls.
Proof.
  revert r e. induction fuel as [|fuel IH]; intros r e E; [done|]. cbn in E. inv_bind.
  destruct a as [[l|] r1].
  - inv_bind. apply IH in E as [ls ->]. by exists (l :: ls).
  - inv_bind. by exists [].
Qed.

Lemma react_exec_inv fuel w w' :
  react_exec fuel w = Ret w' ->
  exists r ls, w' = World r (foldl (fun e l => wake (w_ids w) l e) (w_exec w) ls)
                      (w_ids w) (w_chans w) (w_next w) (w_libc w).
Proof.
  unfold react_exec, Reactor_react. intros E. inv_bind. destruct a as [r e]. inv_bind.
  apply for_each_wakes in Ha as [ls ->]. by exists r, ls.
Qed.

Lemma poll_task_inv tf cx w p tf' w' :
  poll_task poll_user tf cx w = Ret (p, tf', w') ->
  exists pu fut' w1, poll_user (f tf) cx w = Ret (pu, fut', w1) /\
    tf' = MkTaskFuture fut' (evt2 tf) (tx tf) /\
    match pu with
    | Pending => p = Pending /\ w' = w1
    | Ready v => p = Ready tt /\ exists c r c1 l, w_chans w1 !! tx tf = Some c /\
        send v c = Ret (r, c1) /\
        w' = World (w_ring w1) (w_exec w1) (w_ids w1)
               (<[tx tf := drop_sender c1]> (w_chans w1)) (w_next w1) l
    end.
Proof.
  unfold poll_task. intros E. inv_bind. destruct a as [[pu fut'] w1].
  exists pu, fut', w1. split; [done|]. destruct pu as [v|]; [|by inv_bind].
  cbn [evt2 tx] in E. destruct (Event.notify_one (evt2 tf) (w_libc w1)) as [r l]. inv_bind.
  destruct (w_chans w1 !! tx tf) as [c|] eqn:Ec; [|done]. cbn in Ha0. injection Ha0 as ->.
  destruct a0 as [r' c1]. inv_bind. split; [done|]. split; [done|]. by exists a, r', c1, (Event.drop (evt2 tf) l).
Qed.

Lemma round_inv fuel w b w' :
  executor_round poll_user fuel w = Ret (b, w') ->
  exists w1 t q p fut' w2,
    (w1 = w \/ run_q (w_exec w) = [] /\ react_exec fuel w = Ret w1) /\
    pop (run_q (w_exec w1)) = Some (t, q) /\
    poll_task poll_user (future t) (id t) (set_exec (MkExecutor (waiting (w_exec w1)) q) w1)
      = Ret (p, fut', w2) /\
    w' = requeue (MkTask (id t) fut') p w2 /\
    b = if decide (run_q (w_exec w') = []) then slab_is_empty (waiting (w_exec w')) else false.
Proof.
  unfold executor_round. intros E. inv_bind. rename a into w1. destruct a0 as [t q].
  destruct (pop (run_q (w_exec w1))) as [[t' q']|] eqn:Epop; cbn in Ha0; [|done].
  injection Ha0 as -> ->. inv_bind. destruct a as [[p fut'] w2]. inv_bind.
  exists w1, t, q, p, fut', w2. split_and!; try done.
  case_decide; [by right|left]. by injection Ha as ->.
Qed.

(** *** The invariant *)
Lemma wf_react fuel w w' : wf [] w -> react_exec fuel w = Ret w' -> wf [] w'.
Proof.
  intros Hw E. apply react_exec_inv in E as (r & ls & ->).
  apply (wf_outside [] (set_exec _ w)), wf_wakes, Hw.
Qed.

(** The end of a poll: the task is done, or goes back to the slab. *)
Lemma wf_leave t w p tf w' pu fu w3 :
  poll_task poll_user (future t) (id t) w = Ret (p, tf, w') -> poll_user (f (future t)) (id t) w = Ret (pu, fu, w3) ->
  wf [t] w3 -> wf [] (requeue (MkTask (id t) tf) p w') /\ w_next (requeue (MkTask (id t) tf) p w') = w_next w3.
Proof.
  intros Hpoll Hu Hwf. apply poll_task_inv in Hpoll as (pu' & fu' & w3' & Hu' & -> & Hp).
  rewrite Hu in Hu'. injection Hu' as <- <- <-. destruct pu as [v|].
  - destruct Hp as (-> & c & r & c1 & l & Hc & Hs & ->). cbn [requeue].
    destruct (wf_dom _ _ Hwf t (list_elem_of_here _ _)) as (_ & c' & Hc' & Ha & _).
    unfold tx_of in Hc'. rewrite Hc in Hc'. injection Hc' as <-.
    split; [by apply (wf_ready t w3 c l Hwf Hc Ha)|done].
  - destruct Hp as [-> ->]. unfold requeue.
    set (t' := MkTask (id t) (MkTaskFuture fu (evt2 (future t)) (tx (future t)))).
    assert (wf [t'] w3) as Hwf3 by by apply (wf_same_cur [t]).
    pose proof (slab_vacant_key_spec _ (waiting (w_exec w3)) t') as Hkey.
    destruct (slab_insert (waiting (w_exec w3)) t') as [k wt] eqn:Ei. cbn in Hkey.
    destruct (slab_insert_spec _ _ _ _ _ Ei) as [Hk Hwt]. rewrite <- Hkey.
    split; [by apply (wf_pending t' w3 k wt)|done].
Qed.

Lemma wf_round fuel w b w' :
  wf [] w -> low <= w_next w -> executor_round poll_user fuel w = Ret (b, w') ->
  wf [] w' /\ low <= w_next w'.
Proof.
  intros Hw Hlow E. apply round_inv in E as (w1 & t & q & p & fut' & w2 & Hw1 & Hpop & Hpoll & -> & _).
  assert (wf [] w1 /\ low <= w_next w1) as [Hwf1 Hlow1].
  { destruct Hw1 as [->|[_ Hr]]; [done|]. split; [by eapply wf_react|].
    by apply react_exec_inv in Hr as (r & ls & ->). }
  pose proof (wf_pop _ _ _ Hwf1 Hpop) as Hwf2. pose proof Hpoll as Hinv.
  apply poll_task_inv in Hinv as (pu & fu & w3 & Hu & _ & _). pose proof Hu as Hs. apply Hsafe in Hs; [|done].
  apply (wf_user_steps _ _ _ _ Hs) in Hwf2. apply next_mono in Hs. cbn in Hs.
  destruct (wf_leave _ _ _ _ _ _ _ _ Hpoll Hu Hwf2) as [Hwf3 ->]. split; [done|lia].
Qed.

Lemma round_stops fuel w w' :
  executor_round poll_user fuel w = Ret (true, w') -> all_tasks (w_exec w') = [].
Proof.
  intros E. apply round_inv in E as (w1 & t & q & p & fut' & w2 & _ & _ & _ & _ & Hb).
  case_decide as Hq; [|done]. symmetry in Hb. apply slab_is_empty_spec in Hb.
  unfold all_tasks. by rewrite Hb, Hq, map_to_list_empty.
Qed.

Lemma wf_loop rounds fuel w w' :
  wf [] w -> low <= w_next w -> executor_loop poll_user rounds fuel w = Ret w' ->
  wf [] w' /\ all_tasks (w_exec w') = [].
Proof.
  revert w. induction rounds as [|rounds IH]; intros w Hw Hlow E; cbn in E; [done|]. inv_bind.
  destruct a as [b w1]. destruct (wf_round _ _ _ _ Hw Hlow Ha) as [Hw1 Hlow1]. destruct b.
  - injection E as <-. split; [done|by eapply round_stops].
  - by apply (IH w1).
Qed.

(** *** The value of [block_on] *)

(** The values a future may produce: those its polls, one after the other, end with. *)
Inductive yields : Fut -> Val -> Prop :=
  | yields_ready fut cx w v fut' w' :
      poll_user fut cx w = Ret (Ready v, fut', w') -> yields fut v
  | yields_pending fut cx w fut' w' v :
      poll_user fut cx w = Ret (Pending, fut', w') -> yields fut' v -> yields fut v.

(** What the channel of the task that runs [fut0] says, as long as nobody
    receives from it: nothing while the task lives, then a value of [fut0]. *)
Record root (fut0 : Fut) (ch : nat) cur w : Prop := {
  root_chan : exists c, w_chans w !! ch = Some c /\ receiver_alive c = true /\
    (sender_alive c = false -> exists v, buffer c = Some v /\ yields fut0 v);
  root_task : forall t, t ∈ cur ++ all_tasks (w_exec w) -> tx_of t = ch ->
    forall v, yields (f (future t)) v -> yields fut0 v;
}.

Lemma root_exec fut0 ch cur cur' w e :
  root fut0 ch cur w -> cur' ++ all_tasks e ≡ₚ cur ++ all_tasks (w_exec w) ->
  root fut0 ch cur' (set_exec e w).
Proof.
  intros [Hc Ht] Hp. split; [exact Hc|]. intros t Hin. apply Ht. by rewrite <- Hp.
Qed.

Lemma root_user_step fut0 ch cur w w' :
  ~ mine ch -> ch < w_next w -> user_step mine w w' -> root fut0 ch cur w ->
  root fut0 ch cur w' /\ ch < w_next w'.
Proof.
  intros Hm Hlt Hs [Hc Ht].
  assert (forall ch' c', mine ch' -> root fut0 ch cur (set_chan ch' c' w)) as Hset.
  { intros ch' c' Hch'. split; [|exact Ht]. destruct Hc as (c & Hc & Hrest).
    exists c. split; [|done]. cbn. rewrite lookup_insert_ne; [done|]. by intros ->. }
  destruct Hs as [fut j w w' E|l w|r l w|ch' v w w' Hm' E|ch' c w Hm' E].
  - destruct (spawn_inv _ _ _ _ E) as (ev & l & _ & _ & ->). cbn. split; [|lia]. split; cbn.
    + destruct Hc as (c & Hc & Hrest). exists c. split; [|done]. rewrite lookup_insert_ne; [done|lia].
    + intros t. rewrite all_tasks_push. intros Hin Htx. apply Ht; [|done].
      apply elem_of_app in Hin as [Hin|Hin]; [apply elem_of_app; by left|].
      apply elem_of_cons in Hin as [->|Hin]; [|apply elem_of_app; by right].
      unfold tx_of in Htx. cbn in Htx. lia.
  - split; [|done]. apply (root_exec _ _ cur); [by split|]. by rewrite wake_perm.
  - by split; [split|].
  - apply recv_unwrap_inv in E as (c & _ & _ & ->). split; [by apply Hset|done].
  - split; [by apply Hset|done].
Qed.

Lemma root_user_steps fut0 ch cur w w' :
  ~ mine ch -> rtc (user_step mine) w w' -> ch < w_next w -> root fut0 ch cur w ->
  root fut0 ch cur w' /\ ch < w_next w'.
Proof.
  intros Hm. induction 1 as [|w w1 w' Hs _ IH]; intros Hlt Hr; [done|].
  destruct (root_user_step _ _ _ _ _ Hm Hlt Hs Hr). by apply IH.
Qed.

Lemma root_wakes fut0 ch cur w ls :
  root fut0 ch cur w ->
  root fut0 ch cur (set_exec (foldl (fun e l => wake (w_ids w) l e) (w_exec w) ls) w).
Proof.
  intros Hr. apply (root_exec _ _ cur); [done|]. apply Permutation_app_head. clear Hr.
  generalize (w_exec w) as e. induction ls as [|l ls IH]; intros e; cbn; [done|].
  by rewrite IH, wake_perm.
Qed.

Lemma root_round fut0 ch fuel w b w' :
  ~ mine ch -> wf [] w -> low <= w_next w -> ch < w_next w -> root fut0 ch [] w ->
  executor_round poll_user fuel w = Ret (b, w') -> root fut0 ch [] w' /\ ch < w_next w'.
Proof.
  intros Hm Hw Hlow Hlt Hr E.
  apply round_inv in E as (w1 & t & q & p & fut' & w2 & Hw1 & Hpop & Hpoll & -> & _).
  assert (wf [] w1 /\ root fut0 ch [] w1 /\ ch < w_next w1 /\ low <= w_next w1)
    as (Hwf1 & Hr1 & Hlt1 & Hlow1).
  { destruct Hw1 as [->|[_ He]]; [done|]. split; [by eapply wf_react|].
    apply react_exec_inv in He as (r & ls & ->). split; [|done].
    destruct (root_wakes _ _ _ _ ls Hr) as [Hc Ht]. by split. }
  pose proof (wf_pop _ _ _ Hwf1 Hpop) as Hwf2.
  assert (root fut0 ch [t] (set_exec (MkExecutor (waiting (w_exec w1)) q) w1)) as Hr2.
  { apply (root_exec _ _ []); [done|]. apply pop_some in Hpop. unfold all_tasks. cbn.
    rewrite Hpop, app_assoc. by rewrite <- Permutation_cons_append. }
  apply poll_task_inv in Hpoll as (pu & fu & w3 & Hu & -> & Hp).
  pose proof Hu as Hsteps. apply Hsafe in Hsteps; [|exact Hlow1].
  destruct (root_user_steps _ _ _ _ _ Hm Hsteps Hlt1 Hr2) as [[Hc Ht] Hlt3].
  pose proof (wf_user_steps _ _ _ _ Hsteps Hwf2) as Hwf3.
  destruct pu as [v|].
  - destruct Hp as (-> & c & r & c1 & l & Hcc & Hs & ->). cbn [requeue]. split; [|done].
    split; cbn.
    + destruct (decide (tx (future t) = ch)) as [<-|Hne].
      * exists (drop_sender c1). rewrite lookup_insert_eq. destruct Hc as (c' & Hc' & Hra & _).
        rewrite Hcc in Hc'. injection Hc' as <-.
        destruct (wf_dom _ _ Hwf3 t (list_elem_of_here _ _)) as (_ & c' & Hc' & _ & Hb).
        unfold tx_of in Hc'. rewrite Hcc in Hc'. injection Hc' as <-.
        unfold send in Hs. rewrite Hra, Hb in Hs. injection Hs as _ <-. cbn.
        split; [done|]. split; [done|]. intros _. exists v. split; [done|].
        apply (Ht t (list_elem_of_here _ _) eq_refl). by eapply yields_ready.
      * destruct Hc as (c' & Hc' & Hrest). exists c'. by rewrite lookup_insert_ne.
    + intros x Hx. apply Ht. by apply list_elem_of_further.
  - destruct Hp as [-> ->]. unfold requeue.
    set (t' := MkTask (id t) (MkTaskFuture fu (evt2 (future t)) (tx (future t)))).
    destruct (slab_insert (waiting (w_exec w3)) t') as [k wt] eqn:Ei.
    destruct (slab_insert_spec _ _ _ _ _ Ei) as [Hk Hwt]. split; [|done]. split; [exact Hc|].
    cbn. intros x. rewrite (all_tasks_insert _ _ _ _ Hk Hwt). intros Hx Htx v Hv.
    apply elem_of_cons in Hx as [->|Hx].
    + apply (Ht t (list_elem_of_here _ _) Htx). by eapply yields_pending.
    + apply (Ht x); [by apply list_elem_of_further|done..].
Qed.

Lemma root_loop fut0 ch rounds fuel w w' :
  ~ mine ch -> wf [] w -> low <= w_next w -> ch < w_next w -> root fut0 ch [] w ->
  executor_loop poll_user rounds fuel w = Ret w' -> root fut0 ch [] w'.
Proof.
  intros Hm. revert w. induction rounds as [|rounds IH]; intros w Hw Hlow Hlt Hr E; cbn in E; [done|].
  inv_bind. destruct a as [b w1]. destruct (root_round _ _ _ _ _ _ Hm Hw Hlow Hlt Hr Ha) as [Hr1 Hlt1].
  destruct (wf_round _ _ _ _ Hw Hlow Ha) as [Hw1 Hlow1].
  destruct b; [by injection E as <-|]. by apply (IH w1).
Qed.

Lemma root_spawn fut w j w1 :
  wf [] w -> spawn fut w = Ret (j, w1) ->
  root fut (rx j) [] w1 /\ rx j < w_next w1 /\ rx j = w_next w.
Proof.
  intros Hw E. destruct (spawn_inv _ _ _ _ E) as (ev & l & Hrx & _ & ->). rewrite Hrx.
  split; [|cbn; split; [lia|done]]. split; cbn.
  - exists channel_new. by rewrite lookup_insert_eq.
  - intros t. rewrite all_tasks_push. intros Hx Htx v Hv. apply elem_of_cons in Hx as [->|Hx]; [done|].
    destruct (wf_dom _ _ Hw t Hx) as (_ & c & Hc & _).
    assert (w_next w < w_next w); [|lia]. apply (wf_next _ _ Hw). rewrite <- Htx. by exists c.
Qed.

(** When the loop returns, the channel of the task that runs [fut0] has its value. *)
Lemma root_done fut0 ch w :
  wf [] w -> all_tasks (w_exec w) = [] -> root fut0 ch [] w ->
  exists c v, w_chans w !! ch = Some c /\ buffer c = Some v /\ yields fut0 v.
Proof.
  intros Hw Ht [(c & Hc & Hra & Hv) _].
  assert (sender_alive c = false) as Hdead.
  { destruct (sender_alive c) eqn:Ha; [|done].
    destruct (wf_sender _ _ Hw _ c Hc Ha) as (t & Hin & _). rewrite Ht in Hin. by apply elem_of_nil in Hin. }
  destruct (Hv Hdead) as (v & Hb & Hy). by exists c, v.
Qed.

Lemma block_on_joins rounds fuel fut w j w1 w2 :
  low = Datatypes.S (w_next w) -> wf [] w -> ~ mine (w_next w) ->
  spawn fut w = Ret (j, w1) -> executor_loop poll_user rounds fuel w1 = Ret w2 ->
  exists v w3, block_on poll_user rounds fuel fut w = Ret (v, w3) /\
    yields fut v /\ all_tasks (w_exec w3) = [].
Proof.
  intros Elow Hw Hm Hsp Hloop. pose proof (wf_spawn _ _ _ _ _ Hw Hsp) as Hw1.
  destruct (root_spawn fut w j w1 Hw Hsp) as (Hr & Hlt & Hrx). rewrite <- Hrx in Hm, Elow.
  assert (low <= w_next w1) as Hlow by lia.
  destruct (wf_loop _ _ _ _ Hw1 Hlow Hloop) as [Hw2 Ht2].
  pose proof (root_loop fut (rx j) _ _ _ _ Hm Hw1 Hlow Hlt Hr Hloop) as Hr2.
  destruct (root_done _ _ _ Hw2 Ht2 Hr2) as (c & v & Hc & Hb & Hy).
  unfold block_on. rewrite Hsp. cbn. rewrite Hloop. cbn.
  unfold join, recv_unwrap. rewrite Hc. cbn. unfold recv. rewrite Hb. cbn.
  unfold joiner_drop. cbn. rewrite lookup_insert_eq. cbn.
  destruct (spawn_inv _ _ _ _ Hsp) as (ev & l & _ & Hio & _). unfold EventWaiter.drop. rewrite Hio. cbn.
  exists v. eexists. split; [done|]. split; [done|]. exact Ht2.
Qed.
End loop.
