(* ===== verification/ExecutorProps.v ===== *)
(** What the executor guarantees, and what it does not. *)
From S2P Require Import Prelude Bytes Crates Results Reactor Io Sqe Libc Event Task TaskProps TaskLoop.

Section guarantees.
Context {S : Type -> Type} `{SlabSpec S} {B : Type} `{RingBuffer B}.
Context {U : Type} `{IoUring U sqe} {L : Type} `{Libc L} `{Host}.
Context {Fut Val : Type}.
Abbreviation world := (world S B U L Fut Val).
Implicit Types (w : world) (t : Task Fut).
Context (poll_user : Fut -> nat -> world -> outcome (poll Val * Fut * world)).


(** C14: the value of [block_on]: once the loop returns, the final [join] of
    [block_on] neither blocks nor panics, and the value it gives is one that the
    future itself produced, by its own sequence of polls; the other tasks
    have finished too. *)
Theorem block_on_value mine rounds fuel fut w j w1 w2 :
  user_safe poll_user mine (Datatypes.S (w_next w)) -> wf [] w -> ~ mine (w_next w) ->
  spawn fut w = Ret (j, w1) -> executor_loop poll_user rounds fuel w1 = Ret w2 ->
  exists v w3, block_on poll_user rounds fuel fut w = Ret (v, w3) /\
    yields poll_user fut v /\ all_tasks (w_exec w3) = [].
Proof.
  intros Hsafe Hw Hm Hsp Hloop. by eapply block_on_joins.
Qed.

(** C18: a waker wakes its task: waking the identity of a task that waits moves this
    task, and no other, from the slab to the end of the run queue; waking
    any other identity never loses nor duplicates a task. *)
Theorem wake_moves_task cur w l :
  wf cur w ->
  let e := w_exec w in let e' := wake (w_ids w) l e in
  all_tasks e' ≡ₚ all_tasks e /\ wf cur (set_exec e' w) /\
  (forall k t, slab_view (waiting e) !! k = Some t -> id t = l ->
     run_q e' = run_q e ++ [t] /\ slab_view (waiting e') = delete k (slab_view (waiting e))) /\
  ((forall k t, slab_view (waiting e) !! k = Some t -> w_ids w !! l <> Some k) -> e' = e).
Proof.
  intros Hw e e'. split; [apply wake_perm|]. split; [by apply wf_wake|].
  destruct (wake_cases (w_ids w) l e) as [[E Hnone]|(k & t & wt & Hk & Ht & Hwt & E)].
  - split; [|by intros _]. intros k t Ht <-. exfalso.
    pose proof (wf_ids _ _ Hw k t Ht) as Hid. rewrite (Hnone k Hid) in Ht. done.
  - split.
    + intros k' t' Ht' <-. pose proof (wf_ids _ _ Hw k' t' Ht') as Hid.
      rewrite Hk in Hid. injection Hid as <-. rewrite Ht in Ht'. injection Ht' as ->.
      subst e'. by rewrite E.
    + intros Hno. by destruct (Hno k t Ht).
Qed.

(** A wake during the poll is lost: a future that wakes its own task
    while it is being polled and answers [Pending] (as the contract of
    wakers allows) is put to sleep, and is not in the run queue. *)
Theorem self_wake_is_lost t fut' w :
  wf [t] w ->
  let w' := requeue (MkTask (id t) fut') Pending (set_exec (wake (w_ids w) (id t) (w_exec w)) w) in
  (forall x, x ∈ run_q (w_exec w') -> id x <> id t) /\
  exists k, slab_view (waiting (w_exec w')) !! k = Some (MkTask (id t) fut').
Proof.
  intros Hw w'. pose proof (wf_wake _ _ (id t) Hw) as Hwk. subst w'.
  set (w1 := set_exec _ w) in *. unfold requeue.
  destruct (slab_insert (waiting (w_exec w1)) _) as [k wt] eqn:Ei.
  destruct (slab_insert_spec _ _ _ _ _ Ei) as [Hk Hwt]. cbn [w_exec run_q waiting]. split.
  - intros x Hx Eid. pose proof (wf_nodup _ _ Hwk) as Hnd. cbn in Hnd.
    apply NoDup_cons in Hnd as [Hnd _]. apply Hnd. apply list_elem_of_fmap. exists x.
    split; [done|]. unfold all_tasks. apply elem_of_app. by right.
  - exists k. rewrite Hwt. apply lookup_insert_eq.
Qed.
End guarantees.

Section empty.
Context {S : Type -> Type} `{SlabSpec S} {B : Type} `{RingBuffer B}.
Context {U : Type} `{IoUringSpec U sqe} {L : Type} `{Libc L} `{Host}.
Context {Fut Val : Type}.
Abbreviation world := (world S B U L Fut Val).
Context (poll_user : Fut -> nat -> world -> outcome (poll Val * Fut * world)).

(** Running nothing never ends: on a thread where nothing was spawned,
    [run] does not return: it waits for a completion that cannot come
    (or panics if the wait fails). *)
Theorem run_nothing_never_returns rounds fuel (w w' : world) :
  run_q (w_exec w) = [] -> uring_view (uring (w_ring w)) = rv_empty ->
  run poll_user rounds fuel w <> Ret w'.
Proof.
  intros Hq Hv E. unfold run in E. destruct rounds as [|rounds]; [done|]. cbn in E. inv_bind.
  destruct a as [b wb]. apply round_inv in Ha as (w1 & t & q & p & fut' & w2 & Hw1 & Hpop & _).
  destruct Hw1 as [->|[_ Hr]].
  - rewrite Hq in Hpop. done.
  - unfold react_exec, Reactor_react, react in Hr.
    destruct (submit_and_wait (uring (w_ring w)) 1) as [u| |] eqn:Eu; [|done..].
    by apply submit_and_wait_idle in Eu.
Qed.
End empty.
