(* ===== verification/Progress.v ===== *)
(** Progress: the executor returns, for futures that await one operation at a
    time and a kernel that completes what it is given.

    [Behaved] is the contract of such futures; the theorems say that the loop
    returns, with explicit bounds on its rounds and on the completions of each wait. *)
From S2P Require Import Prelude Bytes Crates CrateModels Results Reactor Io RingFacts Mailbox Refinement RefineOps System ReactorProps Sqe Futures Libc Event Task TaskProps TaskLoop.

(** A result that [i32::abs] can negate. *)
Definition errno_ok (c : cqe) : Prop := (i32_min < cqe_result c)%Z.

(** A kernel that completes some operation when there is one, does not fail in
    [io_uring_enter], and answers errnos. *)
Class KernelLive (U : Type) `{IoUringSpec U sqe} : Prop := {
  wait_returns : forall u : U, uring_view u <> rv_empty -> exists u', submit_and_wait u 1 = WaitOk u';
  wait_errno : forall u u' : U, submit_and_wait u 1 = WaitOk u' ->
    Forall errno_ok (rv_cq (uring_view u)) -> Forall errno_ok (rv_cq (uring_view u'));
  completion_errno : forall u : U,
    Forall errno_ok (rv_cq (uring_view u)) -> Forall errno_ok (rv_cq (uring_view (completion u)));
}.

(** A process that can open descriptors: below its limits, [eventfd] and the
    duplication of an open descriptor succeed. *)
Class Roomy (L : Type) `{LibcSpec L} := {
  room : L -> Prop;
  room_eventfd : forall n fl l, room l -> let '(r, l') := sys_eventfd n fl l in r <> (-1)%Z /\ room l';
  room_clone : forall fd l, room l -> is_Some (k_fds (libc_view l) !! fd) ->
    let '(r, l') := try_clone fd l in (exists fd', r = Ok fd') /\ room l';
  room_write : forall fd bs l, room l -> room (sys_write fd bs l).2;
  room_close : forall fd l, room l -> room (sys_close fd l);
}.

(** ** Counting *)

(** The values of a map, sent one to one into a list. *)
Lemma map_inj_size {A C} (m : gmap nat A) (g : nat -> A -> C) (k : list C) :
  (forall i x, m !! i = Some x -> g i x ∈ k) ->
  (forall i j x y, m !! i = Some x -> m !! j = Some y -> g i x = g j y -> i = j) ->
  size m <= length k.
Proof.
  intros Hin Hinj. rewrite <- length_map_to_list, <- (length_fmap (uncurry g)).
  apply submseteq_length, NoDup_submseteq.
  - apply NoDup_fmap_2_strong; [|apply NoDup_map_to_list].
    intros [i x] [j y] Hi%elem_of_map_to_list Hj%elem_of_map_to_list E. cbn in E.
    assert (i = j) as <- by eauto. by simplify_eq.
  - intros z ([i x] & -> & Hx%elem_of_map_to_list)%list_elem_of_fmap. by eapply Hin.
Qed.

Section counting.
Context (more : Z -> bool) {T : Type}.

(** When no live operation is multishot, what the ring holds is bounded by the
    number of live operations. *)
Lemma ring_bound v P O M hs n own (a : areactor T) :
  inv more v P O M hs n own a -> (forall h t b, a_out a !! h = Some (t, b) -> b = false) ->
  length (rv_sq v) + length (rv_cq v) <= size (a_out a) /\ (v = rv_empty -> a_out a = ∅).
Proof.
  intros Hi Hone. assert (forall ud rq, own !! ud = Some rq ->
    a_out a !! rq_owner rq = Some (rq_waker rq, rq_multi rq)) as Hout.
  { intros ud rq E. apply (i_out Hi). eauto. }
  assert (forall ud rq, own !! ud = Some rq -> rq_multi rq = false) as Hm by (intros; by eapply Hone, Hout).
  assert (finals more (rv_cq v) = cqe_user_data <$> rv_cq v) as Hfin.
  { assert (forall c, c ∈ rv_cq v -> more (cqe_flags c) = false) as Hall.
    { intros c Hc. destruct (more (cqe_flags c)) eqn:E; [|done].
      apply list_elem_of_split in Hc as (l1 & l2 & Hc).
      destruct (ro_more _ _ _ (i_ring Hi) _ _ _ Hc E) as [Hl _]. rewrite lookup_fmap in Hl.
      destruct (own !! cqe_user_data c) as [rq|] eqn:Eo; cbn in Hl; [|done].
      rewrite (Hm _ _ Eo) in Hl. done. }
    induction (rv_cq v) as [|c l IH]; [done|].
    rewrite finals_final by (apply Hall; by left). cbn. f_equal. apply IH.
    intros x Hx. apply Hall. by right. }
  split.
  - assert (length (places more v) <= size own) as Hp.
    { rewrite <- (length_map_to_list own), <- (length_fmap fst).
      apply submseteq_length, NoDup_submseteq; [apply (i_ring Hi)|].
      intros ud Hud. apply (ro_live _ _ _ (i_ring Hi)) in Hud. rewrite lookup_fmap in Hud.
      destruct (own !! ud) as [rq|] eqn:E; [|by destruct Hud].
      apply list_elem_of_fmap. exists (ud, rq). split; [done|]. by apply elem_of_map_to_list. }
    assert (size own <= size (a_out a)) as Hs.
    { rewrite <- (length_map_to_list (a_out a)), <- (length_fmap fst).
      apply (map_inj_size own (fun _ rq => rq_owner rq)).
      - intros ud rq E. apply list_elem_of_fmap. eexists (_, _). split; [done|].
        apply elem_of_map_to_list. by eapply Hout.
      - intros i j x y Ex Ey E. by eapply (i_inj Hi). }
    unfold places in Hp. rewrite Hfin, !length_app, !length_fmap in Hp. lia.
  - intros ->. apply map_empty. intros h. destruct (a_out a !! h) as [x|] eqn:E; [|done].
    apply (i_out Hi) in E as (ud & rq & Eo & _).
    assert (ud ∈ places more rv_empty) as Hud.
    { apply (ro_live _ _ _ (i_ring Hi)). rewrite lookup_fmap, Eo. by eexists. }
    by apply elem_of_nil in Hud.
Qed.
End counting.

(** ** The contract of the futures *)
Section behaved.
Context {S : Type -> Type} `{SlabSpec S} {B : Type} `{RingBufferSpec B}.
Context {U : Type} `{FuturesRing U} {L : Type} `{Roomy L}.
Context {Fut Val : Type}.
Abbreviation executor := (Executor S Fut).
Abbreviation world := (world S B U L Fut Val).
Implicit Types (w : world) (e : executor) (t : Task Fut) (fut : Fut) (a : areactor nat)
  (hs : gmap nat handle).

Context (good : Fut -> Prop).                    (* the futures of the contract *)
Context (fut_io : Fut -> Oneshot.IoState).       (* the handle a future awaits *)
Context (work : Fut -> nat).                     (* bounds the polls it still needs *)
Context (extra : Fut -> nat).                    (* bounds the tasks it may still spawn *)

(** The handle a future to be polled has: none, if it was never polled, or one
    whose operation is over. *)
Definition awaits hs a fut (old : option nat) : Prop :=
  match old with
  | None => fut_io fut = Oneshot.New
  | Some h => exists v, hs !! h = Some (HOne (fut_io fut)) /\
      a_mail a !! h = Some (AOneReady v) /\ (i32_min < v)%Z
  end.

Definition without {A} (old : option nat) (m : gmap nat A) : gmap nat A :=
  match old with Some h => delete h m | None => m end.

Definition total (g : Fut -> nat) (ts : list (Task Fut)) : nat :=
  sum_list_with (fun t => Datatypes.S (g (f (future t)))) ts.

#[global] Instance total_proper g : Proper ((≡ₚ) ==> eq) (total g).
Proof. intros ts us. apply sum_list_with_Permutation_proper. Qed.

Lemma total_cons g t ts : total g (t :: ts) = Datatypes.S (g (f (future t))) + total g ts.
Proof. done. Qed.

Lemma total_app g ts us : total g (ts ++ us) = total g ts + total g us.
Proof. apply sum_list_with_app. Qed.

(** What a poll with the waker [cx] may do: release the handle it awaited, spawn
    tasks, and, when it is not done, submit the operation it awaits next. *)
Record polled cx w hs a old fut (p : poll Val) fut' w' : Prop := {
  po_room : room (w_libc w');
  po_posted : rv_cq (uring_view (uring (w_ring w'))) = rv_cq (uring_view (uring (w_ring w)));
  po_tasks : exists news,
    w_exec w' = MkExecutor (waiting (w_exec w)) (run_q (w_exec w) ++ news) /\
    (forall t, t ∈ news -> good (f (future t)) /\ fut_io (f (future t)) = Oneshot.New /\ w_next w <= id t) /\
    match p with
    | Ready _ => total work news <= work fut /\ total extra news <= extra fut
    | Pending => good fut' /\ total work news + work fut' < work fut /\
        total extra news + extra fut' <= extra fut
    end;
  po_handles : exists hs' n' a', refines (Sys (w_ring w') hs' n') a' /\
    match p with
    | Ready _ => hs' = without old hs /\ a' = AReactor (without old (a_mail a)) (a_out a)
    | Pending => exists h, without old hs !! h = None /\
        hs' = <[h := HOne (fut_io fut')]> (without old hs) /\
        a' = AReactor (<[h := AOneWait]> (without old (a_mail a))) (<[h := (cx, false)]> (a_out a))
    end;
}.

Class Behaved (poll_user : Fut -> nat -> world -> outcome (poll Val * Fut * world)) : Prop :=
  behaved_poll : forall fut cx w hs n a old,
    good fut -> room (w_libc w) -> refines (Sys (w_ring w) hs n) a -> awaits hs a fut old ->
    length (rv_sq (uring_view (uring (w_ring w)))) < RING_ENTRIES ->
    exists p fut' w', poll_user fut cx w = Ret (p, fut', w') /\ polled cx w hs a old fut p fut' w'.
End behaved.

(** ** The invariant of the loop *)
Section progress.
Context {S : Type -> Type} `{SlabSpec S} {B : Type} `{RingBufferSpec B}.
Context {U : Type} `{FuturesRing U} {L : Type} `{Roomy L}.
Context {Fut Val : Type}.
Abbreviation executor := (Executor S Fut).
Abbreviation world := (world S B U L Fut Val).
Implicit Types (w : world) (e : executor) (t : Task Fut) (fut : Fut) (a : areactor nat)
  (hs : gmap nat handle) (own : gmap nat nat).
Context (fut_io : Fut -> Oneshot.IoState).
Abbreviation io_of_task t := (fut_io (f (future t))).

(** The tasks and their handles, which [own] maps to the identities of their tasks: a task in the
    slab waits for its operation, which will wake it; the operation of a
    task in the run queue is over; and there are no other operations. *)
Record paired hs a own e : Prop := {
  pa_wait : forall k t, slab_view (waiting e) !! k = Some t -> exists h,
    own !! h = Some (id t) /\ hs !! h = Some (HOne (io_of_task t)) /\
    a_mail a !! h = Some AOneWait /\ a_out a !! h = Some (id t, false);
  pa_ready : forall t, t ∈ run_q e -> exists old, awaits fut_io hs a (f (future t)) old /\
    forall h, own !! h = Some (id t) <-> old = Some h;
  pa_out : forall h l b, a_out a !! h = Some (l, b) ->
    b = false /\ own !! h = Some l /\ exists k t, slab_view (waiting e) !! k = Some t /\ id t = l;
  pa_inj : forall h1 h2 l, own !! h1 = Some l -> own !! h2 = Some l -> h1 = h2;
  pa_live : forall h, is_Some (own !! h) -> is_Some (hs !! h);
}.

Lemma in_waiting e k t : slab_view (waiting e) !! k = Some t -> t ∈ all_tasks e.
Proof.
  intros Hk. apply elem_of_app. left. apply list_elem_of_fmap. exists (k, t).
  split; [done|]. by apply elem_of_map_to_list.
Qed.

Lemma in_run_q e t : t ∈ run_q e -> t ∈ all_tasks e.
Proof. intros Ht. apply elem_of_app. by right. Qed.

(** A task is in one place. *)
Lemma wf_apart w k t t' :
  wf [] w -> slab_view (waiting (w_exec w)) !! k = Some t -> t' ∈ run_q (w_exec w) -> id t <> id t'.
Proof.
  intros Hw Hk Ht E. pose proof (wf_nodup _ _ Hw) as Hnd. cbn in Hnd. unfold all_tasks in Hnd.
  rewrite fmap_app in Hnd. apply NoDup_app in Hnd as (_ & Hnd & _).
  apply (Hnd (id t)); [|rewrite E; by apply list_elem_of_fmap_2].
  apply list_elem_of_fmap_2, list_elem_of_fmap. exists (k, t). split; [done|].
  by apply elem_of_map_to_list.
Qed.

(** The operations are those of the waiting tasks. *)
Lemma paired_bound hs a own w :
  paired hs a own (w_exec w) -> size (a_out a) <= size (slab_view (waiting (w_exec w))).
Proof.
  intros Hp. rewrite <- (length_map_to_list (slab_view _)), <- (length_fmap (fun x => id x.2)).
  apply (map_inj_size _ (fun _ x => x.1)).
  - intros h [l b] E. destruct (pa_out _ _ _ _ Hp h l b E) as (_ & _ & k & t & Hk & <-). cbn.
    apply list_elem_of_fmap. exists (k, t). split; [done|]. by apply elem_of_map_to_list.
  - intros h1 h2 [l1 b1] [l2 b2] E1 E2 El. cbn in El. subst l2.
    apply (pa_out _ _ _ _ Hp) in E1 as (_ & O1 & _), E2 as (_ & O2 & _). by eapply (pa_inj _ _ _ _ Hp).
Qed.

Lemma ring_size (r : ReactorInner S B U nat) hs n a own w :
  refines (Sys r hs n) a -> paired hs a own (w_exec w) ->
  length (rv_sq (uring_view (uring r))) + length (rv_cq (uring_view (uring r))) <=
    size (slab_view (waiting (w_exec w))) /\
  (uring_view (uring r) = rv_empty -> slab_view (waiting (w_exec w)) = ∅).
Proof.
  intros (reqs & Hi & _) Hp. cbn in Hi.
  destruct (ring_bound _ _ _ _ _ _ _ _ _ Hi) as [Hb1 Hb2].
  { intros h l b E. by apply (pa_out _ _ _ _ Hp) in E as [-> _]. }
  split; [pose proof (paired_bound _ _ _ _ Hp); lia|].
  intros Hv. specialize (Hb2 Hv). apply map_empty. intros k.
  destruct (slab_view (waiting (w_exec w)) !! k) as [t|] eqn:E; [|done].
  apply (pa_wait _ _ _ _ Hp) in E as (h & _ & _ & _ & E). by rewrite Hb2, lookup_empty in E.
Qed.

(** *** A completion wakes its task *)
Lemma paired_complete hs a own w l v more a' :
  wf [] w -> paired hs a own (w_exec w) -> astep a (LComplete l v more) a' -> (i32_min < v)%Z ->
  paired hs a' own (wake (w_ids w) l (w_exec w)) /\
  exists t, run_q (wake (w_ids w) l (w_exec w)) = run_q (w_exec w) ++ [t].
Proof.
  intros Hw Hp Ha Hv. inversion Ha as [| | | | | | | | | | |? h ? b ? ? Hout Hmore]; subst.
  destruct (pa_out _ _ _ _ Hp _ _ _ Hout) as (-> & Hown & k & t & Hk & <-).
  destruct more; [by specialize (Hmore eq_refl)|].
  destruct (pa_wait _ _ _ _ Hp k t Hk) as (h' & Hown' & Hh & Hm & _).
  assert (h' = h) as -> by (by eapply (pa_inj _ _ _ _ Hp)).
  destruct (wake_cases (w_ids w) (id t) (w_exec w)) as [[_ Hno]|(k' & t' & wt & Hk' & Ht' & Hwt & ->)].
  { rewrite (Hno k) in Hk; [done|by apply (wf_ids _ _ Hw)]. }
  rewrite (wf_ids _ _ Hw k t Hk) in Hk'. injection Hk' as <-. rewrite Hk in Ht'. injection Ht' as <-.
  split; [|by exists t]. unfold push. split; cbn.
  - intros k' t'. rewrite Hwt, lookup_delete_Some. intros [Hne Hk'].
    destruct (pa_wait _ _ _ _ Hp k' t' Hk') as (h' & O & Hh' & Hm' & Ho').
    assert (h' <> h) as Hnh.
    { intros ->. rewrite Hown in O. injection O as O. apply Hne.
      pose proof (wf_ids _ _ Hw k' t' Hk') as E. rewrite <- O, (wf_ids _ _ Hw k t Hk) in E. by injection E. }
    exists h'. rewrite lookup_alter_ne, lookup_delete_ne by done. done.
  - intros t' Ht'. apply elem_of_app in Ht' as [Ht'|Ht'].
    + destruct (pa_ready _ _ _ _ Hp t' Ht') as (old & Haw & Hold). exists old. split; [|done].
      destruct old as [h'|]; [|done]. destruct Haw as (v' & E1 & E2 & E3). exists v'. split; [done|].
      split; [|done]. cbn. rewrite lookup_alter_ne; [done|]. intros ->.
      apply (wf_apart w k t t' Hw Hk Ht').
      assert (own !! h' = Some (id t')) as O by (by apply Hold). congruence.
    + apply list_elem_of_singleton in Ht' as ->. exists (Some h). split.
      * exists v. split; [done|]. split; [|done]. cbn. by rewrite lookup_alter_eq, Hm.
      * intros h'. split; [|by intros [= <-]]. intros O. f_equal. by eapply (pa_inj _ _ _ _ Hp).
  - intros h' l b. rewrite lookup_delete_Some. intros [Hne Ho].
    destruct (pa_out _ _ _ _ Hp _ _ _ Ho) as (-> & O & k' & t' & Hk' & <-).
    split; [done|]. split; [done|]. exists k', t'. split; [|done]. rewrite Hwt, lookup_delete_ne; [done|].
    intros ->. rewrite Hk in Hk'. injection Hk' as <-. apply Hne. by eapply (pa_inj _ _ _ _ Hp).
  - apply (pa_inj _ _ _ _ Hp).
  - apply (pa_live _ _ _ _ Hp).
Qed.

(** *** The wait for the kernel *)
Lemma wake_loop (r : ReactorInner S B U nat) fuel hs n a own w :
  wf [] w -> refines (Sys r hs n) a -> paired hs a own (w_exec w) ->
  Forall errno_ok (rv_cq (uring_view (uring r))) -> length (rv_cq (uring_view (uring r))) < fuel ->
  exists r' e' a' ts, for_each (fun l e => mret (wake (w_ids w) l e)) fuel r (w_exec w) = Ret (r', e') /\
    refines (Sys r' hs n) a' /\ paired hs a' own e' /\ rv_cq (uring_view (uring r')) = [] /\
    run_q e' = run_q (w_exec w) ++ ts /\ length ts = length (rv_cq (uring_view (uring r))) /\
    all_tasks e' ≡ₚ all_tasks (w_exec w) /\ wf [] (set_exec e' w).
Proof.
  revert r w a. induction fuel as [|fuel IH]; intros r w a Hw Hr Hp Hok Hl; [lia|].
  cbn [for_each]. destruct (rv_cq (uring_view (uring r))) as [|c cq] eqn:Ecq.
  - apply next_none in Ecq as Hn. rewrite Hn. cbn. exists r, (w_exec w), a, [].
    rewrite app_nil_r. by destruct w.
  - destruct (next_step _ _ _ _ _ _ Hr Ecq) as (l & r1 & a1 & -> & Hr1 & Ha & Ecq1). cbn.
    apply Forall_cons in Hok as [Hc Hok].
    destruct (paired_complete hs a own w l _ _ a1 Hw Hp Ha Hc) as [Hp1 [t Ht]].
    pose proof (wf_wake [] w l Hw) as Hw1. cbn in Hl. rewrite <- Ecq1 in Hok, Hl.
    destruct (IH r1 (set_exec (wake (w_ids w) l (w_exec w)) w) a1 Hw1 Hr1 Hp1 Hok ltac:(lia))
      as (r' & e' & a' & ts & E & Hr' & Hp' & Ecq' & Hq & Hts & Hperm & Hw').
    cbn in E, Hq, Hperm, Hw'. exists r', e', a', (t :: ts). rewrite E, Hq, Ht, <- app_assoc.
    cbn. rewrite Hts, Ecq1, Hperm, wake_perm. done.
Qed.

(** *** What a poll does to the handles *)
Lemma without_ne {A} (old : option nat) (m : gmap nat A) h :
  old <> Some h -> without old m !! h = m !! h.
Proof. destruct old as [h'|]; cbn; [|done]. intros Hn. apply lookup_delete_ne. congruence. Qed.

Lemma without_Some {A} (old : option nat) (m : gmap nat A) h x :
  without old m !! h = Some x -> m !! h = Some x /\ old <> Some h.
Proof.
  destruct old as [h'|]; cbn; [|done]. rewrite lookup_delete_Some. intros [? ?]. split; [done|congruence].
Qed.

(** The task [t] leaves the run queue with its handle; new tasks come in. *)
Lemma paired_leave hs a own w q t news old :
  wf [] w -> paired hs a own (w_exec w) -> run_q (w_exec w) = q ++ [t] ->
  (forall h, own !! h = Some (id t) <-> old = Some h) ->
  (forall t', t' ∈ news -> fut_io (f (future t')) = Oneshot.New /\ forall h, own !! h <> Some (id t')) ->
  paired (without old hs) (AReactor (without old (a_mail a)) (a_out a)) (without old own)
    (MkExecutor (waiting (w_exec w)) (q ++ news)).
Proof.
  intros Hw Hp Hq Hold Hnews.
  assert (forall h l, own !! h = Some l -> l <> id t -> old <> Some h) as Hne.
  { intros h l O Hl E. apply Hold in E. congruence. }
  assert (t ∈ run_q (w_exec w)) as Ht by (rewrite Hq; set_solver).
  assert (forall t', t' ∈ q -> id t' <> id t) as Hqt.
  { intros t' Ht' E. pose proof (wf_nodup _ _ Hw) as Hnd. cbn in Hnd. unfold all_tasks in Hnd.
    rewrite Hq, app_assoc, fmap_app in Hnd. apply NoDup_app in Hnd as (_ & Hnd & _).
    apply (Hnd (id t')); [|rewrite E; set_solver]. rewrite fmap_app. apply elem_of_app. right.
    by apply list_elem_of_fmap_2. }
  split; cbn.
  - intros k t' Hk. destruct (pa_wait _ _ _ _ Hp k t' Hk) as (h & O & Hh & Hm & Ho).
    assert (old <> Some h) by (eapply Hne; [done|]; by eapply wf_apart).
    exists h. by rewrite !without_ne.
  - intros t' Ht'. apply elem_of_app in Ht' as [Ht'|Ht'].
    + assert (t' ∈ run_q (w_exec w)) as Hin by (rewrite Hq; set_solver).
      destruct (pa_ready _ _ _ _ Hp t' Hin) as (old' & Haw & Hold'). exists old'. split.
      * destruct old' as [h|]; [|done]. destruct Haw as (v & E1 & E2 & E3). exists v. cbn.
        assert (old <> Some h) by (eapply Hne; [by apply Hold'|by apply Hqt]). by rewrite !without_ne.
      * intros h. rewrite <- Hold'. split; [by intros [? _]%without_Some|]. intros O.
        rewrite without_ne; [done|]. eapply Hne; [done|by apply Hqt].
    + exists None. destruct (Hnews t' Ht') as [Hn Hno]. split; [done|]. intros h. split; [|done].
      intros [O _]%without_Some. by destruct (Hno h).
  - intros h l b Ho. destruct (pa_out _ _ _ _ Hp _ _ _ Ho) as (-> & O & k & t' & Hk & <-).
    split; [done|]. split; [|by exists k, t']. rewrite without_ne; [done|].
    eapply Hne; [done|]. by eapply wf_apart.
  - intros h1 h2 l [E1 _]%without_Some [E2 _]%without_Some. by eapply (pa_inj _ _ _ _ Hp).
  - intros h [l [O Hn]%without_Some]. rewrite without_ne by done. apply (pa_live _ _ _ _ Hp). eauto.
Qed.

(** The task [t] goes to the slab, waiting for the operation of the handle [h]. *)
Lemma paired_park hs a own e h k t wt :
  paired hs a own e -> hs !! h = None -> (forall h', own !! h' <> Some (id t)) ->
  (forall t', t' ∈ run_q e -> id t' <> id t) ->
  slab_view (waiting e) !! k = None -> slab_view wt = <[k := t]> (slab_view (waiting e)) ->
  paired (<[h := HOne (io_of_task t)]> hs)
    (AReactor (<[h := AOneWait]> (a_mail a)) (<[h := (id t, false)]> (a_out a)))
    (<[h := id t]> own) (MkExecutor wt (run_q e)).
Proof.
  intros Hp Hh Hno Hq Hk Hwt.
  assert (own !! h = None) as Hoh.
  { destruct (own !! h) eqn:E; [|done]. destruct (pa_live _ _ _ _ Hp h) as [? ?]; [eauto|]. congruence. }
  split; cbn.
  - intros k' t'. rewrite Hwt, lookup_insert_Some. intros [[<- <-]|[Hne Hk']].
    + exists h. by rewrite !lookup_insert_eq.
    + destruct (pa_wait _ _ _ _ Hp k' t' Hk') as (h' & O & E1 & E2 & E3).
      assert (h <> h') by congruence. exists h'. by rewrite !lookup_insert_ne.
  - intros t' Ht'. destruct (pa_ready _ _ _ _ Hp t' Ht') as (old & Haw & Hold). exists old. split.
    + destruct old as [h'|]; [|done]. destruct Haw as (v & E1 & E2 & E3). exists v. cbn.
      assert (h <> h') by congruence. by rewrite !lookup_insert_ne.
    + intros h'. rewrite <- Hold, lookup_insert_Some. split.
      * intros [[_ E]|[_ E]]; [|done]. by destruct (Hq t' Ht').
      * intros O. right. split; [congruence|done].
  - intros h' l b. rewrite lookup_insert_Some. intros [[<- [= <- <-]]|[Hne Ho]].
    + rewrite lookup_insert_eq. split; [done|]. split; [done|]. exists k, t.
      by rewrite Hwt, lookup_insert_eq.
    + destruct (pa_out _ _ _ _ Hp _ _ _ Ho) as (-> & O & k' & t' & Hk' & <-).
      rewrite lookup_insert_ne by done. split; [done|]. split; [done|]. exists k', t'.
      rewrite Hwt, lookup_insert_ne; [done|]. congruence.
  - intros h1 h2 l. rewrite !lookup_insert_Some.
    intros [[<- <-]|[_ E1]] [[<- E]|[_ E2]]; try done; try (by destruct (Hno h2)); try (by subst; destruct (Hno h1)).
    by eapply (pa_inj _ _ _ _ Hp).
  - intros h'. rewrite !lookup_insert_is_Some. intros [<-|[Hne Ho]]; [by left|right].
    split; [done|by apply (pa_live _ _ _ _ Hp)].
Qed.

Context `{!KernelLive U}.
Context (good : Fut -> Prop) (work extra : Fut -> nat) (mine : nat -> Prop) (low : nat).

(** The state of a thread between two rounds. *)
Definition alive w : Prop :=
  exists hs n a own, refines (Sys (w_ring w) hs n) a /\ paired hs a own (w_exec w) /\ wf [] w /\
    Forall errno_ok (rv_cq (uring_view (uring (w_ring w)))) /\ room (w_libc w) /\
    (forall t, t ∈ all_tasks (w_exec w) -> good (f (future t))) /\
    (forall h l, own !! h = Some l -> is_Some (w_ids w !! l)) /\
    total extra (all_tasks (w_exec w)) <= RING_ENTRIES.

Lemma total_length (g : Fut -> nat) (ts : list (Task Fut)) : length ts <= total g ts.
Proof. induction ts as [|t ts IH]; cbn; [done|]. unfold total in IH. lia. Qed.

Lemma waiting_length w : size (slab_view (waiting (w_exec w))) + length (run_q (w_exec w)) =
  length (all_tasks (w_exec w)).
Proof. unfold all_tasks. by rewrite length_app, length_fmap, length_map_to_list. Qed.

Lemma react_progress fuel w :
  alive w -> run_q (w_exec w) = [] -> all_tasks (w_exec w) <> [] -> RING_ENTRIES < fuel ->
  exists w', react_exec fuel w = Ret w' /\ alive w' /\ run_q (w_exec w') <> [] /\
    all_tasks (w_exec w') ≡ₚ all_tasks (w_exec w) /\ w_next w' = w_next w.
Proof.
  intros (hs & n & a & own & Hr & Hp & Hw & Hok & Hroom & Hgood & Hown & Hext) Hq Hne Hf.
  assert (uring_view (uring (w_ring w)) <> rv_empty) as Hv.
  { intros E. apply Hne. apply (ring_size _ _ _ _ _ _ Hr Hp) in E. unfold all_tasks.
    by rewrite E, Hq, map_to_list_empty. }
  destruct (wait_returns _ Hv) as [u Hu]. set (it := MkReactor (completion u) (pending (w_ring w)) (ring_results (w_ring w))).
  assert (react (w_ring w) = Ret it) as Hit by (unfold react; by rewrite Hu).
  assert (refines (Sys it hs n) a) as Hrit.
  { pose proof (op_ok_react _ _ Hr) as Ho. unfold op_ok in Ho. cbn [run_op] in Ho. rewrite Hit in Ho. cbn in Ho.
    destruct Ho as (a' & Ha & Hr'). by inversion Ha; subst. }
  assert (Forall errno_ok (rv_cq (uring_view (uring it)))) as Hokit.
  { apply completion_errno. by eapply wait_errno. }
  pose proof (ring_size _ _ _ _ _ _ Hrit Hp) as [Hlen _].
  pose proof (total_length extra (all_tasks (w_exec w))) as Htl.
  pose proof (waiting_length w) as Hwl.
  destruct (wake_loop it fuel hs n a own w Hw Hrit Hp Hokit ltac:(lia))
    as (r' & e' & a' & ts & E & Hr' & Hp' & Ecq' & Hq' & Hts & Hperm & Hw').
  exists (World r' e' (w_ids w) (w_chans w) (w_next w) (w_libc w)).
  unfold react_exec, Reactor_react. rewrite Hit. cbn [mbind outcome_bind]. rewrite E.
  split; [done|]. split; [|split; [|done]].
  - exists hs, n, a', own. cbn. split_and!; try done.
    + by apply (wf_outside [] (set_exec e' w)).
    + by rewrite Ecq'.
    + intros t. rewrite Hperm. apply Hgood.
    + by rewrite Hperm.
  - cbn. rewrite Hq'. intros Hnil. apply app_eq_nil in Hnil as [_ ->]. cbn in Hts.
    destruct (submit_and_wait_ok _ _ _ Hu) as (_ & Hn & _).
    destruct (completion_spec u) as [Hk _]. apply kstep_posted in Hk. lia.
Qed.

(** *** The poll of a task *)
Context (poll_user : Fut -> nat -> world -> outcome (poll Val * Fut * world)).
Context (Hsafe : user_safe poll_user mine low).
Context `{!Behaved (S:=S) (B:=B) (U:=U) good fut_io work extra poll_user}.

Lemma ids_mono w w' l :
  rtc (user_step mine) w w' -> is_Some (w_ids w !! l) -> is_Some (w_ids w' !! l).
Proof.
  induction 1 as [|w w1 w' Hs _ IH]; [done|]. intros Hl. apply IH.
  destruct Hs as [fut j w w1 E|l' w|r l' w|ch v w w1 _ E|ch c w _ E]; try done.
  - apply spawn_inv in E as (ev & l' & _ & _ & ->). cbn. rewrite lookup_insert_is_Some.
    destruct (decide (Datatypes.S (w_next w) = l)); [by left|by right].
  - by apply recv_unwrap_inv in E as (c & _ & _ & ->).
Qed.

Lemma poll_task_returns tf cx w p fut' w3 c :
  poll_user (f tf) cx w = Ret (p, fut', w3) -> w_chans w3 !! tx tf = Some c -> buffer c = None ->
  room (w_libc w3) ->
  exists chs l, poll_task poll_user tf cx w =
    Ret (poll_map (fun _ => tt) p, MkTaskFuture fut' (evt2 tf) (tx tf),
         World (w_ring w3) (w_exec w3) (w_ids w3) chs (w_next w3) l) /\ room l.
Proof.
  intros E Hc Hb Hl. unfold poll_task. rewrite E. cbn. destruct p as [v|]; cbn.
  2: { exists (w_chans w3), (w_libc w3). by destruct w3. }
  destruct (Event.notify_one (evt2 tf) (w_libc w3)) as [r l1] eqn:En.
  assert (room l1) as Hl1.
  { unfold Event.notify_one in En. pose proof (room_write (Event.inner (evt2 tf)) (ne_bytes 8 1) _ Hl) as Hw.
    destruct (sys_write _ _ _) as [ret l2]. cbn in Hw. repeat case_decide; by injection En as _ <-. }
  rewrite Hc. cbn. unfold send. rewrite Hb.
  destruct (receiver_alive c); cbn; eexists _, _; (split; [done|by apply room_close]).
Qed.

(** The tasks after the poll, in terms of those before. *)
Lemma tasks_leave w q t news :
  run_q (w_exec w) = q ++ [t] ->
  all_tasks (w_exec w) ≡ₚ t :: all_tasks (MkExecutor (waiting (w_exec w)) q) /\
  all_tasks (MkExecutor (waiting (w_exec w)) (q ++ news)) ≡ₚ
    news ++ all_tasks (MkExecutor (waiting (w_exec w)) q).
Proof.
  intros Hq. unfold all_tasks. cbn. rewrite Hq. split; solve_Permutation.
Qed.

(** The world once the poll of [t] is over, [t] being in no queue yet. *)
Record after_poll w t hs a own (news : list (Task Fut)) w' : Prop := {
  ap_paired : paired hs a own (w_exec w');
  ap_own : forall h l, own !! h = Some l -> is_Some (w_ids w' !! l) /\ l <> id t;
  ap_posted : Forall errno_ok (rv_cq (uring_view (uring (w_ring w'))));
  ap_room : room (w_libc w');
  ap_good : forall x, x ∈ all_tasks (w_exec w') -> good (f (future x));
  ap_total : forall g, total g (all_tasks (w_exec w')) + Datatypes.S (g (f (future t))) =
    total g news + total g (all_tasks (w_exec w));
  ap_queue : forall x, x ∈ run_q (w_exec w') -> id x <> id t;
}.

Lemma poll_leaves w q t hs a own old news w3 chs l :
  wf [] w -> run_q (w_exec w) = q ++ [t] -> paired hs a own (w_exec w) ->
  (forall h, own !! h = Some (id t) <-> old = Some h) ->
  (forall h l, own !! h = Some l -> is_Some (w_ids w !! l)) ->
  (forall x, x ∈ all_tasks (w_exec w) -> good (f (future x))) ->
  rtc (user_step mine) (set_exec (MkExecutor (waiting (w_exec w)) q) w) w3 -> wf [t] w3 ->
  w_exec w3 = MkExecutor (waiting (w_exec w)) (q ++ news) ->
  (forall x, x ∈ news -> good (f (future x)) /\ fut_io (f (future x)) = Oneshot.New /\ w_next w <= id x) ->
  Forall errno_ok (rv_cq (uring_view (uring (w_ring w3)))) -> room l ->
  after_poll w t (without old hs) (AReactor (without old (a_mail a)) (a_out a)) (without old own) news
    (World (w_ring w3) (w_exec w3) (w_ids w3) chs (w_next w3) l).
Proof.
  intros Hw Hq Hp Hold Hown Hgood Hsteps Hw3 He3 Hnews Hok Hl.
  destruct (tasks_leave w q t news Hq) as [Hperm Hperm']. split; cbn; try done.
  - rewrite He3. apply (paired_leave _ _ _ w q t news old Hw Hp Hq Hold). intros t' Ht'.
    destruct (Hnews t' Ht') as (_ & Hn & Hid). split; [done|]. intros h O. apply Hown in O.
    apply (wf_next _ _ Hw) in O. lia.
  - intros h l' [O Hn]%without_Some. split.
    + apply (ids_mono _ _ _ Hsteps). by eapply Hown.
    + intros ->. by apply Hold in O.
  - rewrite He3. intros x. rewrite Hperm'. intros [Hx|Hx]%elem_of_app; [by apply Hnews|].
    apply Hgood. rewrite Hperm. by right.
  - intros g. rewrite He3, Hperm, Hperm', total_app, total_cons. lia.
  - intros x Hx E. pose proof (wf_nodup _ _ Hw3) as Hnd. cbn in Hnd. apply NoDup_cons in Hnd as [Hnd _].
    apply Hnd. rewrite <- E. by apply list_elem_of_fmap_2, in_run_q.
Qed.

Lemma alive_ready w t hs n a own news w' :
  after_poll w t hs a own news w' -> refines (Sys (w_ring w') hs n) a -> wf [] w' ->
  total extra (all_tasks (w_exec w)) <= RING_ENTRIES -> total extra news <= extra (f (future t)) ->
  alive w'.
Proof.
  intros [Hp Hown Hok Hl Hgood Htot _] Hr Hw Hext Hnews.
  exists hs, n, a, own. split_and!; try done; [by intros h l [? _]%Hown|]. specialize (Htot extra). lia.
Qed.

Lemma alive_pending w t hs n a own news w' fut' h (w5 : world) :
  after_poll w t hs a own news w' -> hs !! h = None -> good fut' ->
  let t' := MkTask (id t) (MkTaskFuture fut' (evt2 (future t)) (tx (future t))) in
  w5 = requeue t' Pending w' -> wf [] w5 ->
  refines (Sys (w_ring w') (<[h := HOne (fut_io fut')]> hs) n)
    (AReactor (<[h := AOneWait]> (a_mail a)) (<[h := (id t, false)]> (a_out a))) ->
  total extra (all_tasks (w_exec w)) <= RING_ENTRIES -> total extra news + extra fut' <= extra (f (future t)) ->
  alive w5 /\
  forall g, total g (all_tasks (w_exec w5)) = Datatypes.S (g fut') + total g (all_tasks (w_exec w')).
Proof.
  intros [Hp Hown Hok Hl Hgood Htot Hqt] Hh Hgood' t' -> Hw5 Hr Hext Hnews. unfold requeue in *.
  destruct (slab_insert (waiting (w_exec w')) t') as [k wt] eqn:Ei.
  destruct (slab_insert_spec _ _ _ _ _ Ei) as [Hk Hwt].
  pose proof (all_tasks_insert _ _ _ _ Hk Hwt) as Hp5.
  assert (forall g, total g (all_tasks (MkExecutor wt (run_q (w_exec w')))) =
            Datatypes.S (g fut') + total g (all_tasks (w_exec w'))) as Htot5.
  { intros g. by rewrite Hp5. }
  split; [|exact Htot5].
  eexists _, n, _, (<[h := id t]> own). split_and!; [exact Hr| |done..| | |].
  - apply (paired_park _ _ _ (w_exec w') h k t' wt Hp Hh); [|exact Hqt|done|done].
    intros h' [_ O]%Hown. done.
  - intros x Hx. cbn [w_exec] in Hx. rewrite Hp5 in Hx.
    apply elem_of_cons in Hx as [->|Hx]; [exact Hgood'|by apply Hgood].
  - intros h' l'. cbn. rewrite lookup_insert_Some, lookup_insert_is_Some.
    intros [[_ <-]|[_ [O Hn]%Hown]]; [by left|right]. done.
  - cbn [w_exec]. rewrite Htot5. specialize (Htot extra). lia.
Qed.

(** One round whose run queue is not empty. *)
Lemma round_polls fuel w :
  alive w -> low <= w_next w -> run_q (w_exec w) <> [] ->
  exists b w', executor_round poll_user fuel w = Ret (b, w') /\ alive w' /\
    total work (all_tasks (w_exec w')) < total work (all_tasks (w_exec w)) /\
    (b = false -> all_tasks (w_exec w') <> []).
Proof.
  intros (hs & n & a & own & Hr & Hp & Hw & Hok & Hroom & Hgood & Hown & Hext) Hlow Hne.
  destruct (pop (run_q (w_exec w))) as [[t q]|] eqn:Epop; [|by apply pop_none in Epop].
  pose proof (pop_some Epop) as Hq. set (w0 := set_exec (MkExecutor (waiting (w_exec w)) q) w).
  assert (t ∈ run_q (w_exec w)) as Ht by (rewrite Hq; set_solver).
  destruct (pa_ready _ _ _ _ Hp t Ht) as (old & Haw & Hold).
  pose proof (wf_pop _ _ _ Hw Epop : wf [t] w0) as Hw0.
  assert (length (rv_sq (uring_view (uring (w_ring w0)))) < RING_ENTRIES) as Hsq.
  { pose proof (ring_size _ _ _ _ _ _ Hr Hp) as [Hs _]. pose proof (waiting_length w) as Hl.
    pose proof (total_length extra (all_tasks (w_exec w))). rewrite Hq, length_app in Hl. cbn in *. lia. }
  destruct (behaved_poll good fut_io work extra (f (future t)) (id t) w0 hs n a old
              (Hgood t (in_run_q _ _ Ht)) Hroom Hr Haw Hsq) as (p & fut' & w3 & Hu & Hpo).
  destruct Hpo as [Hroom3 Hposted (news & He3 & Hnews & Hwork) (hs' & n' & a' & Hr' & Hhs)].
  pose proof Hu as Hsteps. apply Hsafe in Hsteps; [|exact Hlow].
  pose proof (wf_user_steps _ _ _ _ Hsteps Hw0) as Hw3.
  destruct (wf_dom _ _ Hw3 t (list_elem_of_here _ _)) as (_ & c & Hc & _ & Hb).
  destruct (poll_task_returns (future t) (id t) w0 p fut' w3 c Hu Hc Hb Hroom3) as (chs & l & Hpt & Hl).
  assert (executor_round poll_user fuel w = Ret
    (let w5 := requeue (MkTask (id t) (MkTaskFuture fut' (evt2 (future t)) (tx (future t))))
                 (poll_map (fun _ => tt) p) (World (w_ring w3) (w_exec w3) (w_ids w3) chs (w_next w3) l) in
     (if decide (run_q (w_exec w5) = []) then slab_is_empty (waiting (w_exec w5)) else false, w5))) as Hround.
  { unfold executor_round. rewrite decide_False by done. cbn [mbind mret outcome_bind outcome_ret].
    rewrite Epop. cbn [unwrap mbind outcome_bind]. fold w0. rewrite Hpt. reflexivity. }
  eexists _, _. split; [exact Hround|]. cbn zeta in Hround |- *.
  destruct (wf_round poll_user mine low Hsafe _ _ _ _ Hw Hlow Hround) as [Hw5 _]. clear Hround.
  pose proof (poll_leaves w q t hs a own old news w3 chs l Hw Hq Hp Hold Hown Hgood Hsteps Hw3 He3 Hnews
    ltac:(rewrite Hposted; exact Hok) Hl) as Hap.
  pose proof (ap_total _ _ _ _ _ _ _ Hap work) as Htot.
  assert (forall w5 : world, (if decide (run_q (w_exec w5) = []) then slab_is_empty (waiting (w_exec w5)) else false)
    = false -> all_tasks (w_exec w5) <> []) as Hstop.
  { intros w5 E [E1 E2]%all_tasks_nil. rewrite decide_True in E by done.
    apply slab_is_empty_spec in E1. congruence. }
  destruct p as [v|]; (split; [|split; [|apply Hstop]]); cbn [poll_map requeue] in *.
  - destruct Hwork as [_ Hextra], Hhs as [-> ->]. by eapply (alive_ready w t).
  - destruct Hwork as [Hwork _]. lia.
  - destruct Hwork as (Hgood' & _ & Hextra), Hhs as (h & Hh & -> & ->). by eapply (alive_pending w t).
  - destruct Hwork as (Hgood' & Hwork & Hextra), Hhs as (h & Hh & -> & ->).
    edestruct (alive_pending w t) as [_ ->]; [done..|]. lia.
Qed.

(** One round, waiting for the kernel if it has to. *)
Lemma round_progress fuel w :
  alive w -> low <= w_next w -> all_tasks (w_exec w) <> [] -> RING_ENTRIES < fuel ->
  exists b w', executor_round poll_user fuel w = Ret (b, w') /\ alive w' /\
    total work (all_tasks (w_exec w')) < total work (all_tasks (w_exec w)) /\
    (b = false -> all_tasks (w_exec w') <> []).
Proof.
  intros Ha Hlow Hne Hf. destruct (decide (run_q (w_exec w) = [])) as [Hq|Hq]; [|by apply round_polls].
  destruct (react_progress fuel w Ha Hq Hne Hf) as (w1 & E1 & Ha1 & Hq1 & Hperm & Hnext).
  destruct (round_polls fuel w1 Ha1 ltac:(by rewrite Hnext) Hq1) as (b & w' & E & Ha' & Hlt & Hb).
  exists b, w'. split; [|split; [done|split; [|done]]].
  - rewrite <- E. unfold executor_round. rewrite (decide_True _ _ Hq), E1, (decide_False _ _ Hq1). done.
  - by rewrite Hperm in Hlt.
Qed.

Lemma alive_wf w : alive w -> wf [] w.
Proof. by intros (hs & n & a & own & _ & _ & Hw & _). Qed.

(** The loop returns. *)
Lemma loop_returns rounds fuel w :
  alive w -> low <= w_next w -> all_tasks (w_exec w) <> [] ->
  total work (all_tasks (w_exec w)) <= rounds -> RING_ENTRIES < fuel ->
  exists w', executor_loop poll_user rounds fuel w = Ret w'.
Proof.
  revert w. induction rounds as [|rounds IH]; intros w Ha Hlow Hne Hr Hf.
  - pose proof (total_length work (all_tasks (w_exec w))). destruct (all_tasks (w_exec w)); cbn in *; [done|lia].
  - cbn. destruct (round_progress fuel w Ha Hlow Hne Hf) as (b & w1 & E & Ha1 & Hlt & Hb).
    rewrite E. cbn. destruct b; [by eexists|].
    destruct (wf_round poll_user mine low Hsafe _ _ _ _ (alive_wf _ Ha) Hlow E) as [_ Hlow1].
    apply IH; [done..|by apply Hb|lia|done].
Qed.

(** *** Starting a thread *)
Lemma alive_init ring l :
  reactor_new = Ret ring -> room l -> alive (world_init ring l).
Proof.
  intros Hring Hl. exists ∅, 0, a_init, ∅. split_and!; cbn.
  - by apply (refines_init ring).
  - split; cbn.
    + intros k t. by rewrite slab_new_spec, lookup_empty.
    + intros t Ht. by apply elem_of_nil in Ht.
    + intros h l' b. by rewrite lookup_empty.
    + intros h1 h2 l'. by rewrite lookup_empty.
    + intros h. rewrite lookup_empty. by intros [].
  - apply wf_init.
  - apply refines_init in Hring as Hr. unfold reactor_new in Hring.
    destruct (uring_new RING_ENTRIES) as [u|] eqn:E; cbn in Hring; [|done]. injection Hring as <-.
    apply uring_new_spec in E as [E _]. cbn. rewrite E. constructor.
  - done.
  - intros t Ht. unfold all_tasks in Ht. cbn in Ht.
    rewrite slab_new_spec, map_to_list_empty in Ht. by apply elem_of_nil in Ht.
  - intros h l'. by rewrite lookup_empty.
  - unfold all_tasks. cbn. rewrite slab_new_spec, map_to_list_empty. cbn. lia.
Qed.

Lemma spawn_returns fut w :
  room (w_libc w) -> exists j w1, spawn fut w = Ret (j, w1) /\ room (w_libc w1).
Proof.
  intros Hl. unfold spawn, Event.new.
  pose proof (room_eventfd 0 (Z.lor EFD_NONBLOCK EFD_SEMAPHORE) _ Hl) as Hn.
  pose proof (eventfd_spec 0 (Z.lor EFD_NONBLOCK EFD_SEMAPHORE) (w_libc w)) as Hv.
  destruct (sys_eventfd _ _ _) as [fd l1]. destruct Hn as [Hfd Hl1].
  destruct Hv as [[? _]|(_ & _ & o & _ & Hv)]; [done|]. rewrite decide_False by done. cbn.
  unfold Event.clone. cbn. pose proof (room_clone fd l1 Hl1) as Hc. rewrite Hv in Hc. cbn in Hc.
  rewrite lookup_insert_eq in Hc. specialize (Hc ltac:(eauto)).
  destruct (try_clone fd l1) as [r l2]. destruct Hc as [[fd' ->] Hl2]. cbn. eauto.
Qed.

Lemma paired_push hs a own e t :
  paired hs a own e -> io_of_task t = Oneshot.New -> (forall h, own !! h <> Some (id t)) ->
  paired hs a own (MkExecutor (waiting e) (push t (run_q e))).
Proof.
  intros [Hwt Hq Hout Hinj Hlive] Hn Hno. split; try done. cbn. intros t' Ht'. unfold push in Ht'.
  apply elem_of_app in Ht' as [Ht'|Ht'%list_elem_of_singleton]; [by apply Hq|]. subst t'.
  exists None. split; [done|]. intros h. split; [|done]. intros O. by destruct (Hno h).
Qed.

Lemma alive_spawn fut w :
  alive w -> good fut -> fut_io fut = Oneshot.New ->
  Datatypes.S (extra fut) + total extra (all_tasks (w_exec w)) <= RING_ENTRIES ->
  exists j w1 ev, spawn fut w = Ret (j, w1) /\ alive w1 /\ w_next w < w_next w1 /\
    all_tasks (w_exec w1) ≡ₚ
      MkTask (Datatypes.S (w_next w)) (MkTaskFuture fut ev (w_next w)) :: all_tasks (w_exec w).
Proof.
  intros (hs & n & a & own & Hr & Hp & Hw & Hok & Hroom & Hgood & Hown & Hext) Hg Hn Hb.
  destruct (spawn_returns fut w Hroom) as (j & w1 & Hsp & Hl1).
  pose proof (wf_spawn _ _ _ _ _ Hw Hsp) as Hw1.
  destruct (spawn_inv _ _ _ _ Hsp) as (ev & l & _ & _ & E). exists j, w1, ev. split; [done|].
  set (t := MkTask _ _) in E |- *. rewrite E in *. clear E. cbn in Hl1 |- *.
  pose proof (all_tasks_push (w_exec w) t) as Hperm. split; [|split; [lia|exact Hperm]].
  assert (forall h l', own !! h = Some l' -> l' < w_next w) as Hlt.
  { intros h l' O. apply (proj1 (wf_next _ _ Hw)). by eapply Hown. }
  exists hs, n, a, own. split_and!; try done; cbn.
  - apply paired_push; [done..|]. intros h O. apply Hlt in O. cbn in O. lia.
  - intros x. rewrite Hperm. intros [->|Hx]%elem_of_cons; [exact Hg|by apply Hgood].
  - intros h l' O. rewrite lookup_insert_ne; [by eapply Hown|]. apply Hlt in O. lia.
  - by rewrite Hperm.
Qed.
End progress.

(** ** The executor returns *)
Section returns.
Context {S : Type -> Type} `{SlabSpec S} {B : Type} `{RingBufferSpec B}.
Context {U : Type} `{FuturesRing U} `{!KernelLive U} {L : Type} `{Roomy L}.
Context {Fut Val : Type}.
Abbreviation world := (world S B U L Fut Val).
Implicit Types (w : world) (fut : Fut).
Context (poll_user : Fut -> nat -> world -> outcome (poll Val * Fut * world)).
Context (good : Fut -> Prop) (fut_io : Fut -> Oneshot.IoState) (work extra : Fut -> nat).
Context (mine : nat -> Prop).

(** [for f in futs { Executor::spawn(f); }] *)
Fixpoint spawn_all (futs : list Fut) w : outcome (list TaskJoiner * world) :=
  match futs with
  | [] => mret ([], w)
  | fut :: futs =>
      '(j, w) ← spawn fut w;
      '(js, w) ← spawn_all futs w;
      mret (j :: js, w)
  end.

Definition startable fut : Prop := good fut /\ fut_io fut = Oneshot.New.

Definition count (g : Fut -> nat) (futs : list Fut) : nat := sum_list_with (fun fut => Datatypes.S (g fut)) futs.

Lemma spawn_all_returns futs w :
  alive fut_io good extra w -> Forall startable futs ->
  count extra futs + total extra (all_tasks (w_exec w)) <= RING_ENTRIES ->
  (forall ch, ch < w_next w + 2 * length futs -> ~ mine ch) ->
  exists js w1, spawn_all futs w = Ret (js, w1) /\ alive fut_io good extra w1 /\
    w_next w1 = w_next w + 2 * length futs /\ rtc (user_step mine) w w1 /\
    (forall g, total g (all_tasks (w_exec w1)) = count g futs + total g (all_tasks (w_exec w))) /\
    Forall2 (fun fut j => rx j < w_next w1 /\ root poll_user fut (rx j) [] w1) futs js.
Proof.
  revert w. induction futs as [|fut futs IH]; intros w Ha Hs Hc Hm; cbn [spawn_all].
  - exists [], w. by cbn; split_and!; rewrite ?Nat.add_0_r.
  - apply Forall_cons in Hs as [[Hg Hn] Hs].
    change (count extra (fut :: futs)) with (Datatypes.S (extra fut + count extra futs)) in Hc.
    cbn [length] in Hm |- *.
    destruct (alive_spawn fut_io good extra fut w Ha Hg Hn) as (j & w1 & ev & Hsp & Ha1 & _ & Hperm);
      [lia|].
    assert (forall g, total g (all_tasks (w_exec w1)) =
              Datatypes.S (g fut) + total g (all_tasks (w_exec w))) as Ht.
    { intros g. by rewrite Hperm. }
    destruct (root_spawn poll_user fut w j w1 (alive_wf _ _ _ _ Ha) Hsp) as (Hr & Hlt & Hrx).
    assert (w_next w1 = w_next w + 2) as Hnx.
    { destruct (spawn_inv _ _ _ _ Hsp) as (? & ? & _ & _ & ->). cbn. lia. }
    destruct (IH w1 Ha1 Hs) as (js & w2 & Hsp2 & Ha2 & Hnx2 & Hst & Ht2 & Hjs).
    { rewrite Ht. lia. }
    { intros ch Hch. apply Hm. lia. }
    exists (j :: js), w2. rewrite Hsp. cbn. rewrite Hsp2. cbn. split_and!; try done.
    + lia.
    + eapply rtc_l; [by eapply us_spawn|done].
    + intros g. rewrite Ht2, Ht. unfold count. lia.
    + constructor; [|done].
      destruct (root_user_steps poll_user mine fut (rx j) [] w1 w2 ltac:(apply Hm; lia) Hst Hlt Hr). done.
Qed.

(** C2: a thread that spawns tasks and runs returns: for futures that await
    one operation at a time, and a kernel that completes operations, [spawn]
    and [run] never panic and never block for ever; the rounds of the loop are no more than the polls
    the tasks need, no wait yields more than 1024 completions, and at
    the end no task is left and the channel of each joiner holds a value of its own future. *)
Theorem run_returns futs ring l rounds fuel :
  user_safe poll_user mine (2 * length futs) -> (forall ch, ch < 2 * length futs -> ~ mine ch) ->
  Behaved (S:=S) (B:=B) (U:=U) good fut_io work extra poll_user ->
  reactor_new = Ret ring -> room l -> Forall startable futs -> futs <> [] ->
  count extra futs <= RING_ENTRIES -> count work futs <= rounds -> RING_ENTRIES < fuel ->
  exists js w1 w2, spawn_all futs (world_init ring l) = Ret (js, w1) /\
    run poll_user rounds fuel w1 = Ret w2 /\ all_tasks (w_exec w2) = [] /\
    Forall2 (fun fut j => exists c v,
      w_chans w2 !! rx j = Some c /\ buffer c = Some v /\ yields poll_user fut v) futs js.
Proof.
  intros Hsafe Hm Hb Hring Hl Hs Hne Hext Hwork Hf.
  pose proof (alive_init (Val:=Val) fut_io good extra ring l Hring Hl) as Ha.
  assert (forall g, total g (all_tasks (w_exec (world_init ring l : world))) = 0) as Ht0.
  { intros g. unfold all_tasks. cbn. by rewrite slab_new_spec, map_to_list_empty. }
  destruct (spawn_all_returns futs (world_init ring l) Ha Hs) as (js & w1 & Hsp & Ha1 & Hnx & _ & Ht & Hjs);
    [rewrite Ht0; lia|done|]. cbn in Hnx.
  assert (all_tasks (w_exec w1) <> []) as Hne1.
  { intros E. specialize (Ht extra). rewrite E, Ht0 in Ht. destruct futs; [done|cbn in Ht; lia]. }
  destruct (loop_returns fut_io good work extra mine _ poll_user Hsafe rounds fuel w1) as [w2 Hloop];
    [done|lia|done|rewrite Ht, Ht0; lia|done|].
  destruct (wf_loop poll_user mine _ Hsafe _ _ _ _ (alive_wf _ _ _ _ Ha1) ltac:(lia) Hloop) as [Hw2 Ht2].
  exists js, w1, w2. split_and!; try done. eapply Forall2_impl; [exact Hjs|].
  intros fut j [Hlt Hr]. apply root_done; [done..|].
  eapply (root_loop poll_user mine _ Hsafe); [|by eapply alive_wf| | |exact Hr|exact Hloop]; [apply Hm|..]; lia.
Qed.

(** [block_on] returns a value of its future, under the same hypotheses. *)
Theorem block_on_returns fut ring l rounds fuel :
  user_safe poll_user mine 1 -> ~ mine 0 ->
  Behaved (S:=S) (B:=B) (U:=U) good fut_io work extra poll_user ->
  reactor_new = Ret ring -> room l -> startable fut ->
  extra fut < RING_ENTRIES -> work fut < rounds -> RING_ENTRIES < fuel ->
  exists v w', block_on poll_user rounds fuel fut (world_init ring l) = Ret (v, w') /\
    yields poll_user fut v /\ all_tasks (w_exec w') = [].
Proof.
  intros Hsafe Hm Hb Hring Hl [Hg Hn] Hext Hwork Hf.
  pose proof (alive_init (Val:=Val) fut_io good extra ring l Hring Hl) as Ha.
  assert (forall g, total g (all_tasks (w_exec (world_init ring l : world))) = 0) as Ht0.
  { intros g. unfold all_tasks. cbn. by rewrite slab_new_spec, map_to_list_empty. }
  destruct (alive_spawn fut_io good extra fut _ Ha Hg Hn) as (j & w1 & ev & Hsp & Ha1 & Hnx & Hperm);
    [rewrite Ht0; lia|].
  destruct (loop_returns fut_io good work extra mine 1 poll_user Hsafe rounds fuel w1) as [w2 Hloop].
  - done.
  - cbn in Hnx. lia.
  - intros E. rewrite E in Hperm. by apply Permutation_nil_cons in Hperm.
  - rewrite Hperm, total_cons, Ht0. cbn. lia.
  - done.
  - by eapply (block_on_joins poll_user mine 1 Hsafe); [done|apply wf_init|done|done|exact Hloop].
Qed.
End returns.
