(* ===== verification/Awaits.v ===== *)
(** Awaiting one operation at a time: what the futures of the contract of
    Progress.v do to the reactor, and spawning a task that nobody waits for. *)
From S2P Require Import Prelude Bytes Crates CrateModels Results Reactor Io RingFacts Mailbox Refinement RefineOps System ReactorProps Sqe Futures Libc Event Task TaskProps TaskLoop Progress.

Section awaits.
Context {S : Type -> Type} `{SlabSpec S} {B : Type} `{RingBufferSpec B}.
Context {U : Type} `{FuturesRing U}.
Implicit Types (a : areactor nat) (hs : gmap nat handle).

Lemma to_result_big v : (i32_min < v)%Z -> exists x, reactor_value_to_result v = Ret x.
Proof.
  intros Hv. unfold reactor_value_to_result. destruct (v <? 0)%Z; [|by eexists].
  rewrite decide_False; [by eexists|]. lia.
Qed.

Lemma submit_posted (r r' : ReactorInner S B U nat) e cx k ud slot :
  submit_io r e cx k = Ret (ud, slot, r') ->
  rv_cq (uring_view (uring r')) = rv_cq (uring_view (uring r)).
Proof.
  unfold submit_io. destruct k.
  - destruct (OneshotStore.create_slot _) as [i o]. destruct (slab_insert _ _) as [s p].
    destruct (sq_push _ e s) as [u|] eqn:E; cbn; [|done]. intros [= _ _ <-]. cbn.
    by apply sq_push_some in E as [-> _].
  - destruct (MultishotStore.create_slot _) as [i o]. destruct (slab_insert _ _) as [s p].
    destruct (sq_push _ e s) as [u|] eqn:E; cbn; [|done]. intros [= _ _ <-]. cbn.
    by apply sq_push_some in E as [-> _].
Qed.

(** A handle is made and submits its operation. *)
Lemma submit_first (r : ReactorInner S B U nat) hs n a e cx :
  refines (Sys r hs n) a -> is_multishot e = false ->
  length (rv_sq (uring_view (uring r))) < RING_ENTRIES ->
  exists ud slot r', submit_io r e cx Oneshot = Ret (ud, slot, r') /\
    rv_cq (uring_view (uring r')) = rv_cq (uring_view (uring r)) /\ hs !! n = None /\
    refines (Sys r' (<[n := HOne (Oneshot.Submitted slot)]> hs) (Datatypes.S n))
      (AReactor (<[n := AOneWait]> (a_mail a)) (<[n := (cx, false)]> (a_out a))).
Proof.
  intros Hr He Hsq. destruct (new_handle_ok r hs n a Hr) as (a1 & Ha1 & Hr1).
  pose proof (submit_handle_ok r hs _ a1 n e cx Hr1 He) as Hsub.
  destruct (submit_io r e cx Oneshot) as [[[ud slot] r']|p| |] eqn:Esub; try done.
  2: { destruct Hsub as [_ Hsub]. lia. }
  destruct Hsub as (a2 & Ha2 & Hr2). exists ud, slot, r'. split; [done|].
  split; [by eapply submit_posted|]. split.
  - destruct Hr as (own & I & _). cbn in I. apply (inv_fresh_owner _ _ _ _ _ _ _ _ _ I).
  - inversion Ha1; subst. inversion Ha2 as [|? ? ? Hm Ho|? ? ? Hm| | | | | | | | |]; subst;
      unfold put_out, put_mail in *; cbn in *.
    + by rewrite insert_insert_eq in Hr2.
    + by rewrite lookup_insert_eq in Hm.
Qed.

(** A task starts to await an operation. *)
Lemma await_first (r : ReactorInner S B U nat) hs n a e cx :
  refines (Sys r hs n) a -> is_multishot e = false ->
  length (rv_sq (uring_view (uring r))) < RING_ENTRIES ->
  exists slot r', Oneshot.submit_or_get_result Oneshot.New r tt (fun _ => mret (e, cx, tt)) =
      Ret (Pending, Oneshot.Submitted slot, r', tt) /\
    rv_cq (uring_view (uring r')) = rv_cq (uring_view (uring r)) /\ hs !! n = None /\
    refines (Sys r' (<[n := HOne (Oneshot.Submitted slot)]> hs) (Datatypes.S n))
      (AReactor (<[n := AOneWait]> (a_mail a)) (<[n := (cx, false)]> (a_out a))).
Proof.
  intros Hr He Hsq. destruct (submit_first r hs n a e cx Hr He Hsq) as (ud & slot & r' & E & Hrest).
  exists slot, r'. cbn. by rewrite E.
Qed.

(** The operation a task awaited is over. *)
Lemma await_done (r : ReactorInner S B U nat) hs n a h io0 v e cx :
  refines (Sys r hs n) a -> hs !! h = Some (HOne io0) -> a_mail a !! h = Some (AOneReady v) ->
  is_multishot e = false -> (i32_min < v)%Z ->
  exists x r', Oneshot.submit_or_get_result io0 r tt (fun _ => mret (e, cx, tt)) =
      Ret (Ready x, Oneshot.Finished v, r', tt) /\ uring r' = uring r /\
    refines (Sys r' (delete h hs) n) (AReactor (delete h (a_mail a)) (a_out a)).
Proof.
  intros Hr Hh Hm He Hv. destruct (to_result_big v Hv) as [x Hx].
  destruct (ready_handle_returns r hs n a h io0 v x tt (fun _ => mret (e, cx, tt)) Hr Hh Hm Hx) as [r' E].
  exists x, r'. split; [done|]. split.
  - destruct io0 as [|slot|v']; cbn in E.
    + inv_bind. repeat case_match; inv_bind; done.
    + inv_bind. repeat case_match; inv_bind; try done. 
    + inv_bind. done.
  - pose proof (run_op_ok _ _ (OPoll h e cx) Hr) as Hok. unfold op_ok in Hok. cbn in Hok.
    rewrite Hh, entry_is_multishot in Hok. specialize (Hok He). rewrite E in Hok. cbn in Hok.
    destruct Hok as (a1 & Ha1 & Hr1). destruct (drop_handle_ok _ _ _ _ _ _ Hr1) as (r2 & a2 & E2 & Ha2 & Hr2).
    cbn in E2. injection E2 as <-. 
    inversion Ha2; subst. cbn in *.
    inversion Ha1; subst; unfold put_mail in *; cbn in *; [|congruence]. by rewrite delete_insert_eq in Hr2.
Qed.

End awaits.

Section spawning.
Context {S : Type -> Type} `{SlabSpec S} {B : Type} `{RingBufferSpec B}.
Context {U : Type} `{FuturesRing U} {L : Type} `{Roomy L} {Fut Val : Type}.
Implicit Types (w : world S B U L Fut Val) (fut : Fut).

(** Spawning a task and detaching it. *)
Lemma spawn_detached_returns fut w :
  room (w_libc w) -> exists j w1 w2 ev, spawn fut w = Ret (j, w1) /\ joiner_drop j w1 = Ret w2 /\
    room (w_libc w2) /\ w_ring w2 = w_ring w /\ w_next w <= w_next w2 /\
    w_exec w2 = MkExecutor (waiting (w_exec w))
      (run_q (w_exec w) ++ [MkTask (Datatypes.S (w_next w)) (MkTaskFuture fut ev (w_next w))]).
Proof.
  intros Hl. destruct (spawn_returns fut w Hl) as (j & w1 & Hsp & Hl1).
  destruct (spawn_inv _ _ _ _ Hsp) as (ev & l & Hrx & Hio & ->). cbn in Hl1.
  eexists j, _, _, ev. split; [done|]. unfold joiner_drop. cbn. rewrite Hrx, lookup_insert_eq. cbn.
  unfold EventWaiter.drop. rewrite Hio. cbn. split; [done|]. cbn. split; [by apply room_close|].
  split; [done|]. split; [lia|done].
Qed.

End spawning.
