(* ===== verification/Script.v ===== *)
(** Straight-line tasks: a small language of futures to run the executor on.

    The futures of the users of the library are arbitrary; these stand for
    the [async] blocks that do a sequence of things: await an operation,
    start one and drop it, yield, spawn a task and detach it.  The value of a
    task is the list of the results it awaited. *)
From S2P Require Import Prelude Bytes Crates Results Reactor Io Sqe Libc Event Task TaskProps TaskLoop.

Inductive cmd :=
  | CIo (e : sqe)            (* [op(e).await] *)
  | CAbandon (e : sqe)       (* polled once, then dropped *)
  | CYield                   (* wakes its own task, is pending once *)
  | CSpawn (body : list cmd). (* [Executor::spawn(async { body });] *)

Abbreviation results := (list (io_result Z)).

Record prog := MkProg {
  todo : list cmd;
  io : Oneshot.IoState;      (* the handle of the operation awaited *)
  yielded : bool;
  log : results;
}.

Definition prog_new (body : list cmd) : prog := MkProg body Oneshot.new false [].

Section script.
Context {S : Type -> Type} `{Slab S} {B : Type} `{RingBuffer B}.
Context {U : Type} `{IoUring U sqe} {L : Type} `{Libc L} `{Host}.
Abbreviation world := (world S B U L prog results).

Definition set_ring (r : ReactorInner S B U nat) (w : world) : world :=
  World r (w_exec w) (w_ids w) (w_chans w) (w_next w) (w_libc w).

(** Run the commands until one has to wait. *)
Fixpoint run_cmds (todo : list cmd) (io : Oneshot.IoState) (yielded : bool) (log : results)
    (cx : nat) (w : world) : outcome (poll results * prog * world) :=
  match todo with
  | [] => mret (Ready log, MkProg [] Oneshot.new false log, w)
  | CIo e :: rest =>
      '(p, io, ring, _) ← Oneshot.submit_or_get_result io (w_ring w) tt (fun _ => mret (e, cx, tt));
      match p with
      | Pending => mret (Pending, MkProg todo io false log, set_ring ring w)
      | Ready r =>
          ring ← Oneshot.drop io ring;
          run_cmds rest Oneshot.new false (log ++ [r]) cx (set_ring ring w)
      end
  | CAbandon e :: rest =>
      '(_, io, ring, _) ← Oneshot.submit_or_get_result io (w_ring w) tt (fun _ => mret (e, cx, tt));
      ring ← Oneshot.drop io ring;
      run_cmds rest Oneshot.new false log cx (set_ring ring w)
  | CYield :: rest =>
      if yielded then run_cmds rest Oneshot.new false log cx w
      else mret (Pending, MkProg todo io true log, set_exec (wake (w_ids w) cx (w_exec w)) w)
  | CSpawn body :: rest =>
      '(joiner, w) ← spawn (prog_new body) w;
      w ← joiner_drop joiner w;
      run_cmds rest Oneshot.new false log cx w
  end.

Definition poll_prog (self : prog) (cx : nat) (w : world) : outcome (poll results * prog * world) :=
  run_cmds (todo self) (io self) (yielded self) (log self) cx w.
End script.

(** These futures are safe: the only channels they touch are of tasks they spawned. *)
Section safe.
Context {S : Type -> Type} `{SlabSpec S} {B : Type} `{RingBuffer B}.
Context {U : Type} `{IoUring U sqe} {L : Type} `{Libc L} `{Host}.
Abbreviation world := (world S B U L prog results).

Lemma joiner_drop_steps (mine : nat -> Prop) j (w w' : world) :
  mine (rx j) -> joiner_drop j w = Ret w' -> rtc (user_step mine) w w'.
Proof.
  unfold joiner_drop. intros Hm E. destruct (w_chans w !! rx j) as [c|] eqn:Ec; cbn in E; [|done].
  inv_bind. eapply rtc_l; [by apply (us_detach mine (rx j) c)|]. apply rtc_once.
  apply (us_outside mine a _ (set_chan (rx j) (drop_receiver c) w)).
Qed.

Lemma poll_prog_safe low :
  user_safe (S:=S) (B:=B) (U:=U) (L:=L) poll_prog (fun ch => low <= ch) low.
Proof.
  intros [td io yl lg] cx w p fut' w'. unfold poll_prog. cbn.
  revert io yl lg w. induction td as [|[e|e| |body] td IH]; intros io yl lg w Hlow E; cbn in E.
  - by injection E as _ _ <-.
  - inv_bind. destruct a as [[[q io'] r] []]. destruct q as [x|].
    + inv_bind. apply IH in E; [|done]. eapply rtc_l; [|exact E]. apply us_outside.
    + injection E as _ _ <-. apply rtc_once, us_outside.
  - inv_bind. destruct a as [[[q io'] r] []]. inv_bind. apply IH in E; [|done].
    eapply rtc_l; [|exact E]. apply us_outside.
  - destruct yl; [by apply IH in E|]. injection E as _ _ <-. apply rtc_once, us_wake.
  - inv_bind. destruct a as [j w1]. inv_bind. rename a into w2.
    assert (low <= rx j) as Hj.
    { apply spawn_inv in Ha as (ev & l & -> & _). done. }
    assert (rtc (user_step (fun ch => low <= ch)) w w2) as Hsteps.
    { eapply rtc_l; [by eapply us_spawn|]. by eapply joiner_drop_steps. }
    etransitivity; [exact Hsteps|]. apply (IH Oneshot.new false lg); [|exact E].
    apply next_mono in Hsteps. lia.
Qed.
End safe.
