(* ===== verification/ScriptProgress.v ===== *)
(** Straight-line tasks keep the contract of Progress.v: tasks that await
    operations one after the other and spawn tasks of the same kind. *)
From S2P Require Import Prelude Bytes Crates CrateModels Results Reactor Io RingFacts Mailbox Refinement RefineOps System ReactorProps Sqe Futures Libc Event Task TaskProps TaskLoop Progress Awaits Script.

(** No abandoned operation, no task that yields, no multishot operation. *)
Inductive plain : list cmd -> Prop :=
  | plain_nil : plain []
  | plain_io e rest : is_multishot e = false -> plain rest -> plain (CIo e :: rest)
  | plain_spawn body rest : plain body -> plain rest -> plain (CSpawn body :: rest).

(** The polls a command needs, its tasks included, and the tasks it spawns. *)
Fixpoint cmd_polls (c : cmd) : nat :=
  match c with CSpawn body => 2 + list_sum (map cmd_polls body) | _ => 1 end.
Fixpoint cmd_tasks (c : cmd) : nat :=
  match c with CSpawn body => 1 + list_sum (map cmd_tasks body) | _ => 0 end.

Definition prog_good (p : prog) : Prop :=
  plain (todo p) /\ match todo p with CIo _ :: _ => True | _ => io p = Oneshot.New end.
Definition prog_work (p : prog) : nat :=
  match io p with Oneshot.New => 1 | _ => 0 end + list_sum (map cmd_polls (todo p)).
Definition prog_extra (p : prog) : nat := list_sum (map cmd_tasks (todo p)).

Section contract.
Context {S : Type -> Type} `{SlabSpec S} {B : Type} `{RingBufferSpec B}.
Context {U : Type} `{FuturesRing U} {L : Type} `{Roomy L}.
Abbreviation world := (world S B U L prog results).
Implicit Types (w : world) (a : areactor nat) (hs : gmap nat handle).
Abbreviation polled := (polled (S:=S) (B:=B) (U:=U) (Val:=results) prog_good io prog_work prog_extra).

Lemma spawn_work body td yl lg :
  prog_work (MkProg (CSpawn body :: td) Oneshot.New yl lg) =
    1 + (1 + prog_work (prog_new body)) + list_sum (map cmd_polls td) /\
  prog_extra (MkProg (CSpawn body :: td) Oneshot.New yl lg) =
    1 + prog_extra (prog_new body) + list_sum (map cmd_tasks td).
Proof. split; reflexivity. Qed.

Lemma task_work (t : Task prog) ts :
  total prog_work (t :: ts) = Datatypes.S (prog_work (f (future t))) + total prog_work ts /\
  total prog_extra (t :: ts) = Datatypes.S (prog_extra (f (future t))) + total prog_extra ts.
Proof. split; reflexivity. Qed.

(** The commands of a task with no operation in progress. *)
Lemma run_cmds_fresh td lg yl cx w hs n a :
  plain td -> room (w_libc w) -> refines (Sys (w_ring w) hs n) a ->
  length (rv_sq (uring_view (uring (w_ring w)))) < RING_ENTRIES ->
  exists p fut' w', run_cmds td Oneshot.New yl lg cx w = Ret (p, fut', w') /\
    polled cx w hs a None (MkProg td Oneshot.New yl lg) p fut' w'.
Proof.
  intros Hpl. revert yl lg w hs n a. induction Hpl as [|e td He Hpl _|body td Hb _ Hpl IH];
    intros yl lg w hs n a Hl Hr Hsq; cbn [run_cmds].
  - eexists _, _, _. split; [done|]. split; try done.
    + exists []. rewrite app_nil_r. split; [cbn; by destruct (w_exec w)|]. split; [by intros t Ht%elem_of_nil|].
      cbn. lia.
    + exists hs, n, a. split; [done|]. by destruct a.
  - destruct (await_first (w_ring w) hs n a e cx Hr He Hsq) as (slot & r' & -> & Hcq & Hn & Hr').
    cbn. eexists _, _, _. split; [done|]. split; try done.
    + exists []. rewrite app_nil_r. split; [cbn; by destruct (w_exec w)|]. split; [by intros t Ht%elem_of_nil|].
      split; [split; [by constructor|done]|]. unfold prog_work, prog_extra. cbn. lia.
    + exists (<[n := HOne (Oneshot.Submitted slot)]> hs), (Datatypes.S n). eexists.
      split; [exact Hr'|]. by exists n.
  - destruct (spawn_detached_returns (prog_new body) w Hl) as (j & w1 & w2 & ev & -> & Hd & Hl2 & Hring & Hnx & He2). cbn.
    rewrite Hd. cbn. rewrite <- Hring in Hr, Hsq.
    destruct (IH false lg w2 hs n a Hl2 Hr Hsq) as (p & fut' & w' & E & [Hroom Hpost (news & He & Hnews & Hwork) Hhs]).
    exists p, fut', w'. split; [done|]. split; [done|by rewrite Hpost, Hring| |done].
    exists (MkTask (Datatypes.S (w_next w)) (MkTaskFuture (prog_new body) ev (w_next w)) :: news).
    rewrite He, He2. cbn [waiting run_q]. rewrite <- app_assoc. split; [done|]. split.
    + intros t [->|Ht]%elem_of_cons; cbn.
      * split; [|split; [done|lia]]. split; [done|]. cbn. by destruct Hb.
      * destruct (Hnews t Ht) as (? & ? & ?). split_and!; try done. lia.
    + set (t := MkTask _ _). destruct (spawn_work body td yl lg) as [-> ->].
      destruct (task_work t news) as [-> ->]. unfold t. cbn [future f]. clear t.
      change (prog_work (MkProg td Oneshot.New false lg)) with (1 + list_sum (map cmd_polls td)) in Hwork.
      change (prog_extra (MkProg td Oneshot.New false lg)) with (list_sum (map cmd_tasks td)) in Hwork.
      destruct p as [v|]; [lia|].
      destruct Hwork as (? & ? & ?). split; [done|]. split; lia.
Qed.

#[global] Instance prog_behaved :
  Behaved (S:=S) (B:=B) (U:=U) (L:=L) prog_good io prog_work prog_extra poll_prog.
Proof.
  intros [td io0 yl lg] cx w hs n a old [Hpl Hhead] Hl Hr Haw Hsq. unfold poll_prog. cbn in *.
  destruct old as [h|]; cbn in Haw; [|subst io0; by eapply run_cmds_fresh].
  destruct Haw as (v & Hh & Hm & Hv).
  assert (io0 <> Oneshot.New) as Hio.
  { intros ->. destruct Hr as (own & I & _). pose proof (i_handle I h) as Hok. cbn in Hok.
    by rewrite Hh, Hm in Hok. }
  destruct Hpl as [|e td He Hpl|body td _ _]; [done| |done]. cbn [run_cmds].
  destruct (await_done (w_ring w) hs n a h io0 v e cx Hr Hh Hm He Hv) as (x & r' & -> & Hu & Hr'). cbn.
  assert (rv_sq (uring_view (uring r')) = rv_sq (uring_view (uring (w_ring w)))) as Esq by by rewrite Hu.
  rewrite <- Esq in Hsq.
  destruct (run_cmds_fresh td (lg ++ [x]) false cx (set_ring r' w) _ n _ Hpl Hl Hr' Hsq)
    as (p & fut' & w' & E & [Hroom Hpost (news & He' & Hnews & Hwork) Hhs]).
  exists p, fut', w'. split; [exact E|]. split; [done| | |exact Hhs].
  - rewrite Hpost. cbn. by rewrite Hu.
  - exists news. split; [exact He'|]. split; [exact Hnews|].
    destruct p as [?|]; cbn in *; unfold total, prog_work, prog_extra in *; cbn in *;
      destruct io0; try done; try lia; destruct Hwork as (? & ? & ?); (split; [done|split; lia]).
Qed.
End contract.
