(* ===== verification/Text.v ===== *)
(** The standard library's text, as the examples use it.

    A [str] is the list of its characters (Unicode scalar values); its bytes
    are [to_utf8], and [from_utf8] is [str::from_utf8].  A path is the list of
    its bytes.  Formatting gives the [string]s that are printed. *)
From stdpp Require Import pretty.
From S2P Require Import Prelude Bytes SockAddr.

Open Scope Z_scope.

Abbreviation str := (list Z).

(** A literal: its characters are its bytes. *)
Definition lit (s : string) : str := (fun a => Z.of_N (Ascii.N_of_ascii a)) <$> String.list_ascii_of_string s.

(** ** UTF-8 *)
Definition is_char (c : Z) : Prop := 0 <= c < 55296 \/ 57344 <= c < 1114112.

Definition encode_char (c : Z) : list Z :=
  if decide (c < 128) then [c]
  else if decide (c < 2048) then [192 + c / 64; 128 + c mod 64]
  else if decide (c < 65536) then [224 + c / 4096; 128 + c / 64 mod 64; 128 + c mod 64]
  else [240 + c / 262144; 128 + c / 4096 mod 64; 128 + c / 64 mod 64; 128 + c mod 64].
Definition to_utf8 (s : str) : list Z := s ≫= encode_char.

(** The second byte has a narrower range after some first bytes: no overlong
    form, no surrogate, nothing above U+10FFFF. *)
Definition cont (b : Z) : bool := (128 <=? b) && (b <=? 191).
Definition lead2 (b0 b1 : Z) : bool := (194 <=? b0) && (b0 <=? 223) && cont b1.
Definition lead3 (b0 b1 : Z) : bool :=
  (224 <=? b0) && (b0 <=? 239) && ((if b0 =? 224 then 160 else 128) <=? b1) &&
  (b1 <=? (if b0 =? 237 then 159 else 191)).
Definition lead4 (b0 b1 : Z) : bool :=
  (240 <=? b0) && (b0 <=? 244) && ((if b0 =? 240 then 144 else 128) <=? b1) &&
  (b1 <=? (if b0 =? 244 then 143 else 191)).

(** [str::from_utf8] *)
Fixpoint from_utf8 (bs : list Z) : option str :=
  match bs with
  | [] => Some []
  | b0 :: r0 =>
      if (0 <=? b0) && (b0 <? 128) then cons b0 <$> from_utf8 r0 else
      match r0 with
      | [] => None
      | b1 :: r1 =>
          if lead2 b0 b1 then cons ((b0 - 192) * 64 + (b1 - 128)) <$> from_utf8 r1 else
          match r1 with
          | [] => None
          | b2 :: r2 =>
              if lead3 b0 b1 && cont b2
              then cons ((b0 - 224) * 4096 + (b1 - 128) * 64 + (b2 - 128)) <$> from_utf8 r2 else
              match r2 with
              | [] => None
              | b3 :: r3 =>
                  if lead4 b0 b1 && cont b2 && cont b3
                  then cons ((b0 - 240) * 262144 + (b1 - 128) * 4096 + (b2 - 128) * 64 + (b3 - 128))
                         <$> from_utf8 r3
                  else None
              end
          end
      end
  end.

(** ** Searching and splitting *)
Fixpoint starts_with (p s : str) : bool :=
  match p, s with
  | [], _ => true
  | x :: p, y :: s => bool_decide (x = y) && starts_with p s
  | _ :: _, [] => false
  end.

(** [s.contains(p)] *)
Fixpoint contains (p s : str) : bool :=
  starts_with p s || match s with [] => false | _ :: s => contains p s end.

(** [s.split(c)]: at least one piece *)
Fixpoint split (c : Z) (s : str) : list str :=
  match s with
  | [] => [[]]
  | x :: s =>
      if decide (x = c) then [] :: split c s
      else match split c s with
           | [] => [[x]]
           | p :: ps => (x :: p) :: ps
           end
  end.

(** [char::is_whitespace] *)
Definition is_whitespace (c : Z) : bool :=
  ((9 <=? c) && (c <=? 13)) || bool_decide (c ∈ [32; 133; 160; 5760; 8232; 8233; 8239; 8287; 12288]) ||
  ((8192 <=? c) && (c <=? 8202)).

Fixpoint trim_start (s : str) : str :=
  match s with
  | [] => []
  | c :: s' => if is_whitespace c then trim_start s' else s
  end.

(** [s.trim()] *)
Definition trim (s : str) : str := rev (trim_start (rev (trim_start s))).

(** [s.to_lowercase()], on the ASCII letters; the other characters have no
    ASCII letter but k and i in their lower case. *)
Definition to_lowercase (s : str) : str := (fun c => if (65 <=? c) && (c <=? 90) then c + 32 else c) <$> s.

(** ** Paths *)
Definition SLASH : Z := 47.
Definition DOT : Z := 46.

(** The pieces that are no component. *)
Definition trivial_piece (p : list Z) : bool := bool_decide (p = []) || bool_decide (p = [DOT]).

Definition is_absolute (p : list Z) : bool := bool_decide (head p = Some SLASH).

(** [path == PathBuf::from("/")]: paths are compared by their components. *)
Definition is_root (p : list Z) : bool := is_absolute p && forallb trivial_piece (split SLASH p).

Fixpoint drop_trivial (ps : list (list Z)) : list (list Z) :=
  match ps with
  | [] => []
  | p :: ps' => if trivial_piece p then drop_trivial ps' else ps
  end.

Fixpoint join_pieces (ps : list (list Z)) : list Z :=
  match ps with
  | [] => []
  | [p] => p
  | p :: ps => p ++ SLASH :: join_pieces ps
  end.

(** [path.strip_prefix("/")]: what is left, without the pieces at its ends
    that are no component. *)
Definition strip_root (p : list Z) : option (list Z) :=
  if is_absolute p
  then Some (join_pieces (rev (drop_trivial (rev (drop_trivial (split SLASH p))))))
  else None.

(** [base.join(p)] *)
Definition path_join (base p : list Z) : list Z :=
  if is_absolute p then p
  else match last base with
       | Some c => if decide (c = SLASH) then base ++ p else base ++ SLASH :: p
       | None => p
       end.

(** ** Formatting *)
Definition show (z : Z) : string := pretty z.

(** [{:x}] of a number of at most 16 bits *)
Definition hex_digit (d : Z) : string :=
  String.String (Ascii.ascii_of_N (Z.to_N (if decide (d < 10) then 48 + d else 87 + d))) "".
Fixpoint hex_digits (n : nat) (z : Z) : string :=
  match n with
  | O => ""
  | S n => String.append (if decide (z < 16) then "" else hex_digits n (z / 16)) (hex_digit (z mod 16))
  end.
Definition hex (z : Z) : string := hex_digits 4 z.

Definition show_ipv4 (ip : Z) : string :=
  String.concat "." (show <$> be_bytes 4 ip).

(** The eight segments of an IPv6 address. *)
Fixpoint segments (bs : list Z) : list Z :=
  match bs with
  | a :: b :: bs => a * 256 + b :: segments bs
  | _ => []
  end.

(** The first of the longest runs of zero segments, as its start and length. *)
Fixpoint longest_zeros (i : nat) (segs : list Z) (cur best : nat * nat) : nat * nat :=
  match segs with
  | [] => best
  | s :: segs =>
      if decide (s = 0) then
        let cur := ((if decide (cur.2 = 0%nat) then i else cur.1), S cur.2) in
        longest_zeros (S i) segs cur (if decide (best.2 < cur.2)%nat then cur else best)
      else longest_zeros (S i) segs (0, 0)%nat best
  end.

Definition show_segments (segs : list Z) : string := String.concat ":" (hex <$> segs).

Definition show_ipv6 (ip : Z) : string :=
  let segs := segments (be_bytes 16 ip) in
  if decide (ip / 2 ^ 32 = 65535) then String.append "::ffff:" (show_ipv4 (ip mod 2 ^ 32))
  else
    let (start, n) := longest_zeros 0 segs (0, 0)%nat (0, 0)%nat in
    if decide (1 < n)%nat then
      String.append (show_segments (take start segs))
        (String.append "::" (show_segments (drop (start + n) segs)))
    else show_segments segs.

(** [{}] and [{:?}] of a [SocketAddr] *)
Definition show_addr (a : SocketAddr) : string :=
  match a with
  | V4 ip port => String.concat "" [show_ipv4 ip; ":"; show port]
  | V6 ip port _ scope =>
      String.concat "" ["["; show_ipv6 ip; (if decide (scope = 0) then "" else String.append "%" (show scope));
                        "]:"; show port]
  end.

(** ** Examples *)
Example from_utf8_examples :
  from_utf8 (lit "GET /") = Some (lit "GET /") /\ from_utf8 [195; 169; 33] = Some [233; 33] /\
  from_utf8 [226; 130; 172] = Some [8364] /\ from_utf8 [240; 159; 152; 128] = Some [128512] /\
  from_utf8 [195] = None /\ from_utf8 [192; 128] = None /\ from_utf8 [237; 160; 128] = None /\
  from_utf8 [255] = None.
Proof. split_and!; reflexivity. Qed.

Example path_examples :
  is_root (lit "/") /\ is_root (lit "//./") /\ strip_root (lit "//a/./b/./") = Some (lit "a/./b") /\
  strip_root (lit "a") = None /\ path_join (lit "/srv/www") (lit "a") = lit "/srv/www/a" /\
  path_join (lit "/srv/") (lit "a") = lit "/srv/a" /\ strip_root (lit "/../x") = Some (lit "../x").
Proof. split_and!; vm_compute; reflexivity. Qed.

Example show_examples :
  show_addr (V4 2130706433 9998) = "127.0.0.1:9998"%string /\
  show_addr (V6 1 80 0 0) = "[::1]:80"%string /\
  show_addr (V6 (281470681743360 + 2130706433) 80 0 3) = "[::ffff:127.0.0.1%3]:80"%string /\
  show_addr (V6 (8193 * 2 ^ 112 + 3512 * 2 ^ 96 + 1) 80 0 0) = "[2001:db8::1]:80"%string /\
  show_addr (V6 0 0 0 0) = "[::]:0"%string.
Proof. vm_compute. auto. Qed.

(** ** Encoding and decoding *)
Ltac decide_bools :=
  repeat match goal with
  | |- context [?a =? ?b] => destruct (Z.eqb_spec a b); try lia; cbn [andb]
  | |- context [?a <=? ?b] => destruct (Z.leb_spec a b); try lia; cbn [andb]
  | |- context [?a <? ?b] => destruct (Z.ltb_spec a b); try lia; cbn [andb]
  end.

(** Digits in base 64. *)
Lemma digits_64 c : exists q r, c / 64 = q /\ c mod 64 = r /\ c = 64 * q + r /\ 0 <= r < 64.
Proof. exists (c / 64), (c mod 64). pose proof (Z.div_mod c 64). pose proof (Z.mod_pos_bound c 64). lia. Qed.

Lemma encode_decode_char c bs :
  is_char c -> from_utf8 (encode_char c ++ bs) = cons c <$> from_utf8 bs.
Proof.
  intros Hc. unfold is_char in Hc. unfold encode_char.
  assert (c / 4096 = c / 64 / 64) as -> by by rewrite Z.div_div.
  assert (c / 262144 = c / 64 / 64 / 64) as -> by by rewrite !Z.div_div.
  destruct (digits_64 c) as (q & r & -> & -> & Ec & Hr).
  destruct (digits_64 q) as (q2 & r2 & -> & -> & Eq & Hr2).
  destruct (digits_64 q2) as (q3 & r3 & -> & -> & Eq2 & Hr3).
  repeat case_decide; cbn [app from_utf8]; unfold lead2, lead3, lead4, cont; decide_bools;
    do 2 f_equal; lia.
Qed.

Lemma from_utf8_app_chars cs bs :
  Forall is_char cs -> from_utf8 (to_utf8 cs ++ bs) = app cs <$> from_utf8 bs.
Proof.
  intros Hcs. unfold to_utf8. induction Hcs as [|c cs Hc _ IH]; cbn; [by destruct (from_utf8 bs)|].
  rewrite <- app_assoc, encode_decode_char, IH by done. by destruct (from_utf8 bs).
Qed.

Lemma from_utf8_to_utf8 cs : Forall is_char cs -> from_utf8 (to_utf8 cs) = Some cs.
Proof.
  intros Hcs. rewrite <- (app_nil_r (to_utf8 cs)), from_utf8_app_chars by done. cbn. by rewrite app_nil_r.
Qed.

(** A decoded character is encoded by the bytes it was read from. *)
Lemma div_64 q r : 0 <= r < 64 -> (q * 64 + r) / 64 = q /\ (q * 64 + r) mod 64 = r.
Proof. intros. split; [symmetry; apply (Z.div_unique _ _ _ r); lia|symmetry; apply (Z.mod_unique _ _ q); lia]. Qed.

Ltac split_bools :=
  repeat match goal with
  | H : is_true (_ && _) |- _ => apply andb_prop_elim in H as [? ?]
  | H : _ && _ = true |- _ => apply andb_prop in H as [? ?]
  | H : (_ <=? _) = true |- _ => apply Z.leb_le in H
  | H : (_ <? _) = true |- _ => apply Z.ltb_lt in H
  end.

Lemma encode_decoded bs cs :
  from_utf8 bs = Some cs ->
  bs = [] /\ cs = [] \/
  exists c bs' cs', cs = c :: cs' /\ bs = encode_char c ++ bs' /\ is_char c /\ from_utf8 bs' = Some cs' /\
    (length bs' < length bs)%nat.
Proof.
  destruct bs as [|b0 bs]; [intros [= <-]; by left|]. intros H. right. cbn [from_utf8] in H.
  destruct ((0 <=? b0) && (b0 <? 128)) eqn:E1.
  - split_bools. apply fmap_Some in H as (cs' & Hcs & ->). exists b0, bs, cs'. unfold encode_char.
    rewrite decide_True by lia. split_and!; [done|done|left; lia|done|cbn; lia].
  - destruct bs as [|b1 bs]; [done|]. destruct (lead2 b0 b1) eqn:E2.
    { unfold lead2, cont in E2. split_bools. apply fmap_Some in H as (cs' & Hcs & ->).
      eexists _, bs, cs'. split; [done|]. destruct (div_64 (b0 - 192) (b1 - 128)) as [D1 D2]; [lia|].
      unfold encode_char. rewrite D1, D2, decide_False, decide_True by lia.
      split; [cbn; repeat (f_equal; try lia)|]. split; [left; lia|]. split; [done|cbn; lia]. }
    destruct bs as [|b2 bs]; [done|]. destruct (lead3 b0 b1 && cont b2) eqn:E3.
    { unfold lead3, cont in E3. split_bools. apply fmap_Some in H as (cs' & Hcs & ->).
      assert (160 <= b1 \/ b0 <> 224) as Hlow by (destruct (Z.eqb_spec b0 224); lia).
      assert (b1 <= 159 \/ b0 <> 237) as Hsur by (destruct (Z.eqb_spec b0 237); lia).
      assert (128 <= b1 <= 191) as Hb1 by (destruct (b0 =? 224), (b0 =? 237); lia).
      eexists _, bs, cs'. split; [done|]. destruct (div_64 ((b0 - 224) * 64 + (b1 - 128)) (b2 - 128)) as [D1 D2]; [lia|].
      destruct (div_64 (b0 - 224) (b1 - 128)) as [D3 D4]; [lia|].
      replace ((b0 - 224) * 4096 + (b1 - 128) * 64 + (b2 - 128))
        with (((b0 - 224) * 64 + (b1 - 128)) * 64 + (b2 - 128)) by lia.
      unfold encode_char. set (c := (_ * 64 + (b2 - 128))) in *.
      assert (c / 4096 = c / 64 / 64) as -> by by rewrite Z.div_div.
      rewrite D1, D2, D3, D4, !decide_False, decide_True by lia.
      split; [cbn; repeat (f_equal; try lia)|]. split; [unfold is_char; lia|]. split; [done|cbn; lia]. }
    destruct bs as [|b3 bs]; [done|]. destruct (lead4 b0 b1 && cont b2 && cont b3) eqn:E4; [|done].
    unfold lead4, cont in E4. split_bools. apply fmap_Some in H as (cs' & Hcs & ->).
    assert (144 <= b1 \/ b0 <> 240) as Hlow by (destruct (Z.eqb_spec b0 240); lia).
    assert (b1 <= 143 \/ b0 <> 244) as Hhigh by (destruct (Z.eqb_spec b0 244); lia).
    assert (128 <= b1 <= 191) as Hb1 by (destruct (b0 =? 240), (b0 =? 244); lia).
    eexists _, bs, cs'. split; [done|].
    destruct (div_64 (((b0 - 240) * 64 + (b1 - 128)) * 64 + (b2 - 128)) (b3 - 128)) as [D1 D2]; [lia|].
    destruct (div_64 ((b0 - 240) * 64 + (b1 - 128)) (b2 - 128)) as [D3 D4]; [lia|].
    destruct (div_64 (b0 - 240) (b1 - 128)) as [D5 D6]; [lia|].
    replace ((b0 - 240) * 262144 + (b1 - 128) * 4096 + (b2 - 128) * 64 + (b3 - 128))
      with ((((b0 - 240) * 64 + (b1 - 128)) * 64 + (b2 - 128)) * 64 + (b3 - 128)) by lia.
    unfold encode_char. set (c := (_ * 64 + (b3 - 128))) in *.
    assert (c / 4096 = c / 64 / 64) as -> by by rewrite Z.div_div.
    assert (c / 262144 = c / 64 / 64 / 64) as -> by by rewrite !Z.div_div.
    rewrite D1, D2, D3, D4, D5, D6, !decide_False by lia.
    split; [cbn; repeat (f_equal; try lia)|]. split; [unfold is_char; lia|]. split; [done|cbn; lia].
Qed.

Lemma to_utf8_from_utf8 bs cs : from_utf8 bs = Some cs -> to_utf8 cs = bs /\ Forall is_char cs.
Proof.
  remember (length bs) as n eqn:En. revert bs cs En.
  induction (lt_wf n) as [n _ IH]. intros bs cs -> H.
  apply encode_decoded in H as [[-> ->]|(c & bs' & cs' & -> & E & Hc & Hd & Hlen)]; [done|].
  destruct (IH (length bs') Hlen bs' cs' eq_refl Hd) as [<- Hcs]. split; [by rewrite E|by constructor].
Qed.

(** Text read in pieces, each of them valid, is the text of the whole. *)
Lemma from_utf8_app bs1 bs2 cs1 cs2 :
  from_utf8 bs1 = Some cs1 -> from_utf8 bs2 = Some cs2 -> from_utf8 (bs1 ++ bs2) = Some (cs1 ++ cs2).
Proof.
  intros H1 H2. apply to_utf8_from_utf8 in H1 as [<- Hcs]. by rewrite from_utf8_app_chars, H2.
Qed.
