(* ===== verification/Async.v ===== *)
(** Asynchronous programs: the [async] blocks of the users of the library.

    A block is an interaction tree over the calls of the crate's interface:
    [Await] is an [.await] of one of its futures, [Call] a call that returns
    at once, [Crash] a panic.  [poll_body] polls a block in a world, as the
    state machine the compiler makes of it: it runs to the first future that
    is not ready and stays there.  This is the type of futures, and the
    [poll_user], that the executor of Task.v is given for the programs of Programs.v and
    WebServer.v. *)
From ITree Require Import ITree ITreeFacts.
From S2P Require Import Prelude Bytes Crates CrateModels Results Reactor Io RingFacts Mailbox Refinement RefineOps System Sqe Futures Libc SockAddr Event ReadWrite Fs Timer Tcp Udp Mutex Task TaskProps TaskLoop.

(** What the blocks use of the process besides the calls of Libc.v: its
    standard output, the objects its tasks share, and the memory the kernel
    writes into.  [buffer_of fd n] is what a completed read of [n] bytes of
    [fd] has put in its buffer, [name_of fd] the name of the sender stored by
    a reception on [fd]. *)
Class Process (L : Type) := {
  print : string -> L -> L;                         (* println!, with its new line *)
  eprint : string -> L -> L;                        (* eprintln! *)
  load : nat -> L -> list Z;
  store : nat -> list Z -> L -> L;
  buffer_of : Z -> Z -> L -> list Z * L;
  name_of : Z -> L -> list Z;
  udp_bind : SocketAddr -> L -> io_result Z * L;    (* UdpSocket::bind *)
  instant : L -> Z * L;                             (* Instant::now(), in nanoseconds *)
}.

Section events.
Context (Code Val : Type).   (* the blocks that can be spawned, the values of tasks *)

Variant awaitE : Type -> Type :=
  | ATimer (t : Timer.Timer) : awaitE unit
  | ARead (r : AsyncReader.AsyncReader) : awaitE (io_result (list Z))
  | AWrite (bytes : list Z) (w : AsyncWriter.AsyncWriter) : awaitE (io_result Z)
  | AOpen (f : FileOpen.FileOpen) : awaitE (io_result File.File)
  | AMkdir (f : Mkdir.Mkdir) : awaitE (io_result unit)
  | ANext (l : TcpListener.TcpListener) :
      awaitE (option (io_result TcpStream.TcpStream) * TcpListener.TcpListener)
  | AConnect (c : Connect.state) : awaitE (io_result TcpStream.TcpStream)
  | ASockConnect (c : SockConnect.SockConnect) : awaitE (io_result unit)
  | ARecvFrom (r : RecvFrom.RecvFrom) : awaitE (io_result (Z * SocketAddr))
  | ASendTo (s : SendTo.SendTo) : awaitE (io_result Z)
  | AWait (w : EventWaiter.EventWaiter) : awaitE (io_result unit)
  | ALock (m : Mutex.Mutex nat) (st : Mutex.lock_state) : awaitE unit
  | AJoin (j : TaskJoiner) : awaitE Val.

Variant callE : Type -> Type :=
  | CPrint (s : string) : callE unit
  | CEprint (s : string) : callE unit
  | CSleep (d : Z) : callE (io_result Timer.Timer)
  | CNow : callE Z
  | CEventNew : callE (io_result Event.Event)
  | CNotify (e : Event.Event) : callE (io_result unit)
  | CEventClone (e : Event.Event) : callE Event.Event
  | CEventDrop (e : Event.Event) : callE unit
  | CGuardDrop (m : Mutex.Mutex nat) : callE unit
  | CLoad (cell : nat) : callE (list Z)
  | CStore (cell : nat) (v : list Z) : callE unit
  | COpen (path : list Z) : callE FileOpen.FileOpen
  | CCreate (path : list Z) : callE FileOpen.FileOpen
  | CMkdir (path : list Z) : callE Mkdir.Mkdir
  | CSeek (f : File.File) (pos : File.SeekFrom) : callE (io_result Z)
  | CBind (addrs : io_result (list SocketAddr)) : callE (io_result TcpListener.TcpListener)
  | CSocket (a : SocketAddr) : callE (io_result Z)
  | CListenerDrop (l : TcpListener.TcpListener) : callE unit
  | CUdpBind (a : SocketAddr) : callE (io_result Z)
  | CClose (fd : Z) : callE unit
  | CSpawn (c : Code) : callE TaskJoiner
  | CDetach (j : TaskJoiner) : callE unit.

Variant ioE : Type -> Type :=
  | Await {X} (a : awaitE X) : ioE X
  | Call {X} (c : callE X) : ioE X
  | Crash {X} (p : panic) : ioE X.
End events.
Arguments ATimer {Val} t.
Arguments ARead {Val} r.
Arguments AWrite {Val} bytes w.
Arguments AOpen {Val} f.
Arguments AMkdir {Val} f.
Arguments ANext {Val} l.
Arguments AConnect {Val} c.
Arguments ASockConnect {Val} c.
Arguments ARecvFrom {Val} r.
Arguments ASendTo {Val} s.
Arguments AWait {Val} w.
Arguments ALock {Val} m st.
Arguments AJoin {Val} j.
Arguments CPrint {Code} s.
Arguments CEprint {Code} s.
Arguments CSleep {Code} d.
Arguments CNow {Code}.
Arguments CEventNew {Code}.
Arguments CNotify {Code} e.
Arguments CEventClone {Code} e.
Arguments CEventDrop {Code} e.
Arguments CGuardDrop {Code} m.
Arguments CLoad {Code} cell.
Arguments CStore {Code} cell v.
Arguments COpen {Code} path.
Arguments CCreate {Code} path.
Arguments CMkdir {Code} path.
Arguments CSeek {Code} f pos.
Arguments CBind {Code} addrs.
Arguments CSocket {Code} a.
Arguments CListenerDrop {Code} l.
Arguments CUdpBind {Code} a.
Arguments CClose {Code} fd.
Arguments CSpawn {Code} c.
Arguments CDetach {Code} j.
Arguments Await {Code Val X} a.
Arguments Call {Code Val X} c.
Arguments Crash {Code Val X} p.

(** The tree of a block that has returned. *)
Abbreviation returned v := (go (RetF v)).
Abbreviation body Code Val := (itree (ioE Code Val)).

Definition await {Code Val X} (a : awaitE Val X) : body Code Val X := ITree.trigger (Await a).
Definition call {Code Val X} (c : callE Code X) : body Code Val X := ITree.trigger (Call c).
Definition crash {Code Val X} (p : panic) : body Code Val X := ITree.trigger (@Crash Code Val X p).

(** Blocks are written in the notation of the other monads. *)
#[export] Instance itree_mret {E : Type -> Type} : MRet (itree E) := fun A v => returned v.
#[export] Instance itree_mbind {E : Type -> Type} : MBind (itree E) := fun A R k t => ITree.bind t k.

(** [x.unwrap()] *)
Definition unwrap_io {Code Val X A} (r : result X A) : body Code Val X :=
  match r with
  | Ok x => mret x
  | Err _ => crash UnwrapErr
  end.
Definition unwrap_opt {Code Val X} (r : option X) : body Code Val X :=
  match r with
  | Some x => mret x
  | None => crash UnwrapNone
  end.

Section run.
Context {S : Type -> Type} `{Slab S} {B : Type} `{RingBuffer B}.
Context {U : Type} `{IoUring U sqe} {L : Type} `{Libc L} `{Host} `{NetOrder} `{!Process L}.
Context {Code Val : Type} (code : Code -> body Code Val Val).
Abbreviation Fut := (body Code Val Val).
Abbreviation world := (world S B U L Fut Val).
Implicit Types (w : world).

Definition set_ring (r : ReactorInner S B U nat) w : world :=
  World r (w_exec w) (w_ids w) (w_chans w) (w_next w) (w_libc w).
Definition set_libc (l : L) w : world :=
  World (w_ring w) (w_exec w) (w_ids w) (w_chans w) (w_next w) l.

(** A future on the reactor, polled in a world. *)
Definition on_ring {P F} (m : outcome (P * F * ReactorInner S B U nat)) w : outcome (P * F * world) :=
  '(p, f, r) ← m; mret (p, f, set_ring r w).
Definition on_both {P F} (m : outcome (P * F * ReactorInner S B U nat * L)) w : outcome (P * F * world) :=
  '(p, f, r, l) ← m; mret (p, f, set_libc l (set_ring r w)).
Definition on_libc {X} (x : X * L) w : outcome (X * world) := mret (x.1, set_libc x.2 w).

(** A finished read: its buffer. *)
Definition with_buffer fd (p : poll (io_result Z)) (l : L) : poll (io_result (list Z)) * L :=
  match p with
  | Ready (Ok n) => let (bs, l) := buffer_of fd n l in (Ready (Ok bs), l)
  | Ready (Err e) => (Ready (Err e), l)
  | Pending => (Pending, l)
  end.

Definition poll_await {X} (a : awaitE Val X) (cx : nat) w : outcome (poll X * awaitE Val X * world) :=
  match a with
  | ATimer t => '(p, t, w) ← on_both (Timer.poll t cx (w_ring w) (w_libc w)) w; mret (p, ATimer t, w)
  | ARead r =>
      '(p, r, w) ← on_ring (AsyncReader.poll r cx (w_ring w)) w;
      let (p, l) := with_buffer (AsyncReader.fd r) p (w_libc w) in mret (p, ARead r, set_libc l w)
  | AWrite bs f => '(p, f, w) ← on_ring (AsyncWriter.poll f cx (w_ring w)) w; mret (p, AWrite bs f, w)
  | AOpen f => '(p, f, w) ← on_ring (FileOpen.poll f cx (w_ring w)) w; mret (p, AOpen f, w)
  | AMkdir f => '(p, f, w) ← on_ring (Mkdir.poll f cx (w_ring w)) w; mret (p, AMkdir f, w)
  | ANext l =>
      '(p, l, w) ← on_ring (Accept.poll_next l cx (w_ring w)) w;
      mret (poll_map (fun x => (x, l)) p, ANext l, w)
  | AConnect c => '(p, c, w) ← on_both (Connect.poll c cx (w_ring w) (w_libc w)) w; mret (p, AConnect c, w)
  | ASockConnect c => '(p, c, w) ← on_ring (SockConnect.poll c cx (w_ring w)) w; mret (p, ASockConnect c, w)
  | ARecvFrom f =>
      let f := kernel_received (name_of (RecvFrom.sock f) (w_libc w)) f in
      '(p, f, w) ← on_ring (RecvFrom.poll f cx (w_ring w)) w; mret (p, ARecvFrom f, w)
  | ASendTo f => '(p, f, w) ← on_ring (SendTo.poll f cx (w_ring w)) w; mret (p, ASendTo f, w)
  | AWait f => '(p, f, w) ← on_ring (EventWaiter.poll f cx (w_ring w)) w; mret (p, AWait f, w)
  | ALock m st => '(p, st, w) ← on_both (Mutex.lock m st cx (w_ring w) (w_libc w)) w; mret (p, ALock m st, w)
  | AJoin j => '(p, j, w) ← joiner_poll j cx w; mret (p, AJoin j, w)
  end.

(** Dropping a future, as [.await] does once it is ready: its handle, then its descriptors. *)
Definition drop_handle (io : Oneshot.IoState) w : outcome world :=
  r ← Oneshot.drop io (w_ring w); mret (set_ring r w).

Definition drop_await {X} (a : awaitE Val X) w : outcome world :=
  match a with
  | ATimer t => w ← drop_handle (Timer.io t) w; mret (set_libc (sys_close (Timer.fd t) (w_libc w)) w)
  | ARead r => drop_handle (AsyncReader.io r) w
  | AWrite _ f => drop_handle (AsyncWriter.io f) w
  | AOpen f => drop_handle (FileOpen.io f) w
  | AMkdir f => drop_handle (Mkdir.io f) w
  | ANext _ => mret w
  | AConnect c => '(r, l) ← Connect.drop c (w_ring w) (w_libc w); mret (set_libc l (set_ring r w))
  | ASockConnect c => drop_handle (SockConnect.io c) w
  | ARecvFrom f => drop_handle (RecvFrom.io f) w
  | ASendTo f => drop_handle (SendTo.io f) w
  | AWait f => drop_handle (EventWaiter.io f) w
  | ALock _ st => '(r, l) ← Mutex.lock_drop st (w_ring w) (w_libc w); mret (set_libc l (set_ring r w))
  | AJoin j => joiner_drop j w
  end.

(** Dropping a listener: its descriptor is closed, then its operation cancelled. *)
Definition listener_drop (l : TcpListener.TcpListener) w : outcome world :=
  let w := set_libc (sys_close (TcpListener.inner l) (w_libc w)) w in
  r ← Multishot.drop (TcpListener.io l) (w_ring w);
  mret (set_ring r w).

Definition do_call {X} (c : callE Code X) w : outcome (X * world) :=
  match c with
  | CPrint s => mret (tt, set_libc (print s (w_libc w)) w)
  | CEprint s => mret (tt, set_libc (eprint s (w_libc w)) w)
  | CSleep d => '(r, l) ← Timer.sleep d (w_libc w); mret (r, set_libc l w)
  | CNow => on_libc (instant (w_libc w)) w
  | CEventNew => on_libc (Event.new (w_libc w)) w
  | CNotify e => on_libc (Event.notify_one e (w_libc w)) w
  | CEventClone e => '(e, l) ← Event.clone e (w_libc w); mret (e, set_libc l w)
  | CEventDrop e => mret (tt, set_libc (Event.drop e (w_libc w)) w)
  | CGuardDrop m => l ← Mutex.guard_drop m (w_libc w); mret (tt, set_libc l w)
  | CLoad cell => mret (load cell (w_libc w), w)
  | CStore cell v => mret (tt, set_libc (store cell v (w_libc w)) w)
  | COpen p => f ← FileOpen.open p; mret (f, w)
  | CCreate p => f ← FileOpen.create p; mret (f, w)
  | CMkdir p => f ← Mkdir.mkdir p; mret (f, w)
  | CSeek f pos => on_libc (File.seek f pos (w_libc w)) w
  | CBind addrs => '(r, l) ← TcpListener.bind addrs (w_libc w); mret (r, set_libc l w)
  | CSocket a => on_libc (mk_sock a (w_libc w)) w
  | CListenerDrop l => w ← listener_drop l w; mret (tt, w)
  | CUdpBind a => on_libc (udp_bind a (w_libc w)) w
  | CClose fd => mret (tt, set_libc (sys_close fd (w_libc w)) w)
  | CSpawn c => spawn (code c) w
  | CDetach j => w ← joiner_drop j w; mret (tt, w)
  end.

(** Polling a block.  [fuel] bounds the steps it makes before it waits. *)
Fixpoint poll_body {R} (fuel : nat) (t : body Code Val R) (cx : nat) w :
    outcome (poll R * body Code Val R * world) :=
  match fuel with
  | O => NoFuel
  | Datatypes.S fuel =>
      match observe t with
      | RetF v => mret (Ready v, crash (Explicit "`async fn` resumed after completion"), w)
      | TauF t => poll_body fuel t cx w
      | VisF e k =>
          match e in ioE _ _ X return (X -> body Code Val R) -> _ with
          | Await a => fun k =>
              '(p, a, w) ← poll_await a cx w;
              match p with
              | Pending => mret (Pending, Vis (Await a) k, w)
              | Ready x => w ← drop_await a w; poll_body fuel (k x) cx w
              end
          | Call c => fun k => '(x, w) ← do_call c w; poll_body fuel (k x) cx w
          | Crash p => fun _ => Panic p
          end k
      end
  end.

(** The [poll_user] of the executor. *)
Definition poll_block (fuel : nat) (t : Fut) (cx : nat) w : outcome (poll Val * Fut * world) :=
  poll_body fuel t cx w.
End run.
