(* ===== verification/Joins.v ===== *)
(** Where the value of a joiner comes from: whatever the other tasks do with
    the channels, a value received from the channel of a task is one that the
    task's own future produced. *)
From S2P Require Import Prelude Bytes Crates Results Reactor Io Sqe Libc Event Task TaskProps TaskLoop.

Section joins.
Context {S : Type -> Type} `{SlabSpec S} {B : Type} `{RingBuffer B}.
Context {U : Type} `{IoUring U sqe} {L : Type} `{Libc L} `{Host}.
Context {Fut Val : Type}.
Abbreviation world := (world S B U L Fut Val).
Implicit Types (w : world) (t : Task Fut) (cur : list (Task Fut)).

Context (poll_user : Fut -> nat -> world -> outcome (poll Val * Fut * world)).

(** The futures may do anything safe, with any channel. *)
Abbreviation steps := (rtc (user_step (S:=S) (B:=B) (U:=U) (L:=L) (Fut:=Fut) (Val:=Val) (fun _ => True))).
Context (Hsafe : user_safe poll_user (fun _ => True) 0).

(** The channel [ch] belongs to a task that runs [fut0]. *)
Record origin (fut0 : Fut) (ch : nat) cur w : Prop := {
  origin_chan : forall c v, w_chans w !! ch = Some c -> buffer c = Some v -> yields poll_user fut0 v;
  origin_task : forall t, t ∈ cur ++ all_tasks (w_exec w) -> tx_of t = ch ->
    forall v, yields poll_user (f (future t)) v -> yields poll_user fut0 v;
  origin_next : ch < w_next w;
}.

(** The same channel, or another with less in it. *)
Lemma origin_world fut0 ch cur cur' w w' :
  origin fut0 ch cur w -> w_next w <= w_next w' ->
  (forall c' v, w_chans w' !! ch = Some c' -> buffer c' = Some v ->
     exists c, w_chans w !! ch = Some c /\ buffer c = Some v) ->
  (forall t, t ∈ cur' ++ all_tasks (w_exec w') -> tx_of t = ch -> t ∈ cur ++ all_tasks (w_exec w)) ->
  origin fut0 ch cur' w'.
Proof.
  intros [Hc Ht Hn] Hle Hch Htask. split; [| |lia].
  - intros c' v Hc' Hb. destruct (Hch c' v Hc' Hb) as (c & Hcc & Hcb). by eapply Hc.
  - intros t Hin Htx. by apply Ht; [apply Htask|].
Qed.

Lemma origin_user_step fut0 ch cur w w' :
  user_step (fun _ => True) w w' -> origin fut0 ch cur w -> origin fut0 ch cur w'.
Proof.
  intros Hs Ho. pose proof (origin_next _ _ _ _ Ho) as Hn.
  destruct Hs as [fut j w w' E|l w|r l w|ch' v w w' _ E|ch' c w _ E].
  - destruct (spawn_inv _ _ _ _ E) as (ev & l & _ & _ & ->).
    eapply origin_world; [exact Ho|cbn; lia|cbn|cbn].
    + intros c' v. rewrite lookup_insert_ne by lia. by eauto.
    + intros t. rewrite all_tasks_push. intros Hin Htx.
      apply elem_of_app in Hin as [Hin|Hin]; [apply elem_of_app; by left|].
      apply elem_of_cons in Hin as [->|Hin]; [|apply elem_of_app; by right].
      unfold tx_of in Htx. cbn in Htx. lia.
  - eapply origin_world; [exact Ho|done|by eauto|]. intros t. cbn. by rewrite wake_perm.
  - eapply origin_world; [exact Ho|done|by eauto|done].
  - apply recv_unwrap_inv in E as (c & Hc & _ & ->).
    eapply origin_world; [exact Ho|done| |done]. cbn. intros c' u Hc' Hb.
    apply lookup_insert_Some in Hc' as [[<- <-]|[_ Hc']]; [done|by eauto].
  - eapply origin_world; [exact Ho|done| |done]. cbn. intros c' u Hc' Hb.
    apply lookup_insert_Some in Hc' as [[<- <-]|[_ Hc']]; [by exists c|by eauto].
Qed.

Lemma origin_user_steps fut0 ch cur w w' : steps w w' -> origin fut0 ch cur w -> origin fut0 ch cur w'.
Proof. induction 1; eauto using origin_user_step. Qed.

Lemma wakes_perm ids ls e : all_tasks (foldl (fun e l => wake ids l e) e ls) ≡ₚ all_tasks (S:=S) (Fut:=Fut) e.
Proof. revert e. induction ls as [|l ls IH]; intros e; cbn; [done|]. by rewrite IH, wake_perm. Qed.

Lemma origin_round fut0 ch fuel w b w' :
  wf [] w -> origin fut0 ch [] w -> executor_round poll_user fuel w = Ret (b, w') -> origin fut0 ch [] w'.
Proof.
  intros Hw Ho E. apply round_inv in E as (w1 & t & q & p & fut' & w2 & Hw1 & Hpop & Hpoll & -> & _).
  assert (wf [] w1 /\ origin fut0 ch [] w1) as [Hwf1 Ho1].
  { destruct Hw1 as [->|[_ He]]; [done|]. split; [by eapply wf_react|].
    apply react_exec_inv in He as (r & ls & ->). eapply origin_world; [exact Ho|done|by eauto|].
    intros x. cbn. by rewrite wakes_perm. }
  pose proof (wf_pop _ _ _ Hwf1 Hpop) as Hwf2.
  assert (origin fut0 ch [t] (set_exec (MkExecutor (waiting (w_exec w1)) q) w1)) as Ho2.
  { eapply origin_world; [exact Ho1|done|by eauto|]. intros x Hx _. apply pop_some in Hpop. revert Hx.
    unfold all_tasks. cbn. rewrite Hpop. rewrite !elem_of_app, !elem_of_cons, !elem_of_app. tauto. }
  apply poll_task_inv in Hpoll as (pu & fu & w3 & Hu & -> & Hp).
  pose proof Hu as Hsteps. apply Hsafe in Hsteps; [|lia].
  pose proof (origin_user_steps _ _ _ _ _ Hsteps Ho2) as Ho3. destruct Ho3 as [Hc Ht Hn].
  destruct pu as [v|].
  - destruct Hp as (-> & c & r & c1 & l & Hcc & Hs & ->). cbn [requeue]. split; [|intros x Hx; apply Ht; by apply list_elem_of_further|done].
    cbn. intros c' u Hc' Hb. apply lookup_insert_Some in Hc' as [[Etx <-]|[_ Hc']]; [|by eauto].
    cbn in Hb. unfold send in Hs. destruct (receiver_alive c).
    + destruct (buffer c); [done|]. injection Hs as _ <-. cbn in Hb. injection Hb as <-.
      apply (Ht t (list_elem_of_here _ _) Etx). by eapply yields_ready.
    + injection Hs as _ <-. rewrite Etx in Hcc. by eapply Hc.
  - destruct Hp as [-> ->]. unfold requeue.
    set (t' := MkTask (id t) (MkTaskFuture fu (evt2 (future t)) (tx (future t)))).
    destruct (slab_insert (waiting (w_exec w3)) t') as [k wt] eqn:Ei.
    destruct (slab_insert_spec _ _ _ _ _ Ei) as [Hk Hwt]. split; [exact Hc| |done].
    cbn. intros x. rewrite (all_tasks_insert _ _ _ _ Hk Hwt). intros Hx Htx v Hv.
    apply elem_of_cons in Hx as [->|Hx].
    + apply (Ht t (list_elem_of_here _ _) Htx). by eapply yields_pending.
    + apply (Ht x); [by apply list_elem_of_further|done..].
Qed.

Lemma origin_loop fut0 ch rounds fuel w w' :
  wf [] w -> origin fut0 ch [] w -> executor_loop poll_user rounds fuel w = Ret w' -> origin fut0 ch [] w'.
Proof.
  revert w. induction rounds as [|rounds IH]; intros w Hw Ho E; cbn in E; [done|].
  inv_bind. destruct a as [b w1]. pose proof (origin_round _ _ _ _ _ _ Hw Ho Ha) as Ho1.
  destruct (wf_round poll_user _ 0 Hsafe _ _ _ _ Hw (Nat.le_0_l _) Ha) as [Hw1 _].
  destruct b; [by injection E as <-|]. by apply (IH w1).
Qed.

Lemma origin_spawn fut w j w1 :
  wf [] w -> spawn fut w = Ret (j, w1) -> origin fut (rx j) [] w1.
Proof.
  intros Hw E. destruct (root_spawn poll_user fut w j w1 Hw E) as ([(c & Hc & _) Ht] & Hlt & _).
  destruct (spawn_inv _ _ _ _ E) as (ev & l & Hrx & _ & ->). split; [|exact Ht|exact Hlt].
  cbn. rewrite Hrx. intros c' v. rewrite lookup_insert_eq. by intros [= <-].
Qed.

(** C15: joining a task: whatever is spawned and done besides it before [run],
    and whatever the other tasks do, when [run] returns and [join] gives a
    value then the future of the task produced this value by its own polls. *)
Theorem joined_value fut w j w1 w2 rounds fuel w3 v w4 :
  wf [] w -> spawn fut w = Ret (j, w1) -> steps w1 w2 ->
  run poll_user rounds fuel w2 = Ret w3 -> join j w3 = Ret (v, w4) ->
  yields poll_user fut v.
Proof.
  intros Hw Hsp Hst Hrun Hj. pose proof (wf_spawn _ _ _ _ _ Hw Hsp) as Hw1.
  pose proof (origin_user_steps _ _ _ _ _ Hst (origin_spawn _ _ _ _ Hw Hsp)) as Ho.
  apply (wf_user_steps _ _ _ _ Hst) in Hw1. apply (origin_loop _ _ _ _ _ _ Hw1 Ho) in Hrun.
  unfold join in Hj. inv_bind. destruct a as [u w5]. inv_bind.
  apply recv_unwrap_inv in Ha as (c & Hc & Hb & _). by eapply (origin_chan _ _ _ _ Hrun).
Qed.
End joins.
