(* ===== verification/AsyncProps.v ===== *)
(** What polling a block means: it does not depend on silent steps, it
    composes, it is safe code for the executor, and what the executor makes of
    a block is a trace of its tree. *)
From ITree Require Import ITree ITreeFacts.
From Paco Require Import paco.
From Stdlib Require Import Program.Equality.
From S2P Require Import Prelude Bytes Crates CrateModels Results Reactor Io Sqe Libc SockAddr Event ReadWrite Fs Timer Tcp Udp Mutex Task TaskProps TaskLoop Async.

(** ** Traces *)
Section traces.
Context {Code Val : Type}.

(** An event and its answer. *)
Variant obs :=
  | Obs {X} (e : ioE Code Val X) (x : X).

(** Nothing follows a panic. *)
Definition answered {X} (e : ioE Code Val X) : bool := match e with Crash _ => false | _ => true end.

Inductive trace {R} : body Code Val R -> list obs -> body Code Val R -> Prop :=
  | trace_nil t : trace t [] t
  | trace_tau t t1 tr t' : observe t = TauF t1 -> trace t1 tr t' -> trace t tr t'
  | trace_vis t {X} (e : ioE Code Val X) k x tr t' :
      observe t = VisF e k -> answered e -> trace (k x) tr t' -> trace t (Obs e x :: tr) t'.

(** A block at its end: it has returned, or it panics. *)
Definition stopped {R} (o : outcome R) (s : body Code Val R) : Prop :=
  match o with
  | Ret v => observe s = RetF v
  | Panic p => exists X (k : X -> body Code Val R), observe s = VisF (Crash p) k
  | _ => False
  end.

(** The complete traces, and how they end. *)
Definition halts {R} (t : body Code Val R) tr (o : outcome R) : Prop :=
  exists s, trace t tr s /\ stopped o s.
Abbreviation ends t tr v := (halts t tr (Ret v)).

Lemma trace_app {R} (t s u : body Code Val R) tr1 tr2 :
  trace t tr1 s -> trace s tr2 u -> trace t (tr1 ++ tr2) u.
Proof. induction 1; cbn; eauto using trace. Qed.

Lemma halts_observe {R} (t t' : body Code Val R) tr o : observe t = observe t' -> halts t tr o -> halts t' tr o.
Proof.
  intros E (s & Ht & Es). destruct Ht as [t|t t2 tr s E2 Ht|t X' e' k' x tr s E2 He Ht].
  - exists t'. split; [constructor|]. destruct o; cbn in *; first [done|by rewrite <- E].
  - exists s. split; [eapply trace_tau; [by rewrite <- E|done]|done].
  - exists s. split; [eapply trace_vis; [by rewrite <- E|done..]|done].
Qed.

Lemma halts_ret {R} (t : body Code Val R) v tr o : observe t = RetF v -> halts t tr o <-> tr = [] /\ o = Ret v.
Proof.
  intros E. split.
  - intros (s & Ht & Es). destruct Ht as [|? ? ? ? Et|? ? ? ? ? ? ? Et]; [|congruence..].
    split; [done|]. destruct o as [u|p| |]; cbn in Es; try done; [congruence|].
    destruct Es as (X & k & Es). congruence.
  - intros [-> ->]. exists t. by split; [constructor|].
Qed.

Lemma halts_returned {R} (v : R) tr o : halts (returned v) tr o <-> tr = [] /\ o = Ret v.
Proof. by apply halts_ret. Qed.

Lemma halts_tau {R} (t t1 : body Code Val R) tr o : observe t = TauF t1 -> halts t tr o <-> halts t1 tr o.
Proof.
  intros E. split; intros (s & Ht & Es).
  - destruct Ht as [t|t t2 tr s E2 Ht|t X e k x tr s E2 He Ht]; [|rewrite E in E2; injection E2 as ->; by exists s|congruence].
    destruct o as [u|p| |]; cbn in Es; try done; [congruence|]. destruct Es as (X & k & Es). congruence.
  - exists s. split; [by eapply trace_tau|done].
Qed.

Lemma halts_crash {R X} (t : body Code Val R) p (k : X -> _) tr o :
  observe t = VisF (Crash p) k -> halts t tr o <-> tr = [] /\ o = Panic p.
Proof.
  intros E. split.
  - intros (s & Ht & Es). destruct Ht as [t|t t2 tr s E2 Ht|t X' e' k' x tr s E2 He Ht].
    + split; [done|]. destruct o as [u|q| |]; cbn in Es; try done; [congruence|].
      destruct Es as (Y & k' & Es). rewrite E in Es. by dependent destruction Es.
    + congruence.
    + rewrite E in E2. by dependent destruction E2.
  - intros [-> ->]. exists t. split; [constructor|]. by exists X, k.
Qed.

Lemma halts_vis {R X} (t : body Code Val R) (e : ioE Code Val X) k tr o :
  observe t = VisF e k -> answered e ->
  halts t tr o <-> exists x tr', tr = Obs e x :: tr' /\ halts (k x) tr' o.
Proof.
  intros E He. split.
  - intros (s & Ht & Es). destruct Ht as [t|t t2 tr s E2 Ht|t X' e' k' x tr s E2 He' Ht].
    + destruct o as [u|q| |]; cbn in Es; try done; [congruence|].
      destruct Es as (Y & k' & Es). rewrite E in Es. by dependent destruction Es.
    + congruence.
    + rewrite E in E2. dependent destruction E2. exists x, tr. split; [done|]. by exists s.
  - intros (x & tr' & -> & s & Ht & Es). exists s. split; [by eapply trace_vis|done].
Qed.

(** *** Unfinished traces *)
Lemma trace_vis_inv {R X} (t : body Code Val R) tr s (Ht : trace t tr s) (e : ioE Code Val X) k :
  observe t = VisF e k -> answered e ->
  tr = [] \/ exists x tr', tr = Obs e x :: tr' /\ trace (k x) tr' s.
Proof.
  intros E He. destruct Ht as [t|t t2 tr s E2 Ht|t X' e' k' x tr s E2 He' Ht]; [by left|congruence|].
  right. rewrite E in E2. dependent destruction E2. by exists x, tr.
Qed.

Lemma trace_tau_inv {R} (t : body Code Val R) tr s (Ht : trace t tr s) t1 :
  observe t = TauF t1 -> tr = [] \/ trace t1 tr s.
Proof.
  intros E. destruct Ht as [t|t t2 tr s E2 Ht|t X' e' k' x tr s E2 He' Ht]; [by left| |congruence].
  right. by rewrite E in E2; injection E2 as ->.
Qed.

Lemma trace_ret_inv {R} (t : body Code Val R) tr s (Ht : trace t tr s) v : observe t = RetF v -> tr = [].
Proof. intros E. by destruct Ht as [t|t t2 tr s E2 Ht|t X' e' k' x tr s E2 He' Ht]; [|congruence..]. Qed.

(** *** The traces of a sequence *)
Lemma observe_bind {A R} (t : body Code Val A) (k : A -> body Code Val R) :
  observe (ITree.bind t k) =
    match observe t with
    | RetF a => observe (k a)
    | TauF t => TauF (ITree.bind t k)
    | VisF e h => VisF e (fun x => ITree.bind (h x) k)
    end.
Proof. unfold observe at 1. cbn. by destruct (observe t). Qed.

(** How a sequence ends: its first part panics, or returns and the second part goes on. *)
Definition seq_halts {A R} (t : body Code Val A) (k : A -> body Code Val R) tr (o : outcome R) : Prop :=
  (exists a tr1 tr2, tr = tr1 ++ tr2 /\ ends t tr1 a /\ halts (k a) tr2 o) \/
  (exists p, o = Panic p /\ halts t tr (Panic p)).

Lemma seq_halts_tau {A R} (t t1 : body Code Val A) (k : A -> body Code Val R) tr o :
  observe t = TauF t1 -> seq_halts t1 k tr o -> seq_halts t k tr o.
Proof.
  intros E [(a & tr1 & tr2 & -> & H1 & H2)|(p & -> & H1)].
  - left. exists a, tr1, tr2. split_and!; try done. by apply (halts_tau t t1).
  - right. exists p. split; [done|]. by apply (halts_tau t t1).
Qed.

Lemma seq_halts_vis {A R X} (t : body Code Val A) (e : ioE Code Val X) h x (k : A -> body Code Val R) tr o :
  observe t = VisF e h -> answered e -> seq_halts (h x) k tr o -> seq_halts t k (Obs e x :: tr) o.
Proof.
  intros E He [(a & tr1 & tr2 & -> & H1 & H2)|(p & -> & H1)].
  - left. exists a, (Obs e x :: tr1), tr2. split_and!; try done. apply (halts_vis t e h); eauto.
  - right. exists p. split; [done|]. apply (halts_vis t e h); eauto.
Qed.

Lemma seq_halts_ret {A R} (t : body Code Val A) a (k : A -> body Code Val R) tr o :
  observe t = RetF a -> halts (k a) tr o -> seq_halts t k tr o.
Proof. intros E Hk. left. exists a, [], tr. split_and!; try done. by apply (halts_ret t a). Qed.

Lemma halts_bind {A R} (t : body Code Val A) (k : A -> body Code Val R) tr o :
  halts (ITree.bind t k) tr o <-> seq_halts t k tr o.
Proof.
  split.
  - intros (s & Ht & Es). remember (ITree.bind t k) as u eqn:Eu. revert t Eu.
    induction Ht as [u|u u1 tr s E Ht IH|u X e h x tr s E He Ht IH]; intros t ->;
      pose proof (observe_bind t k) as Eb; destruct (observe t) as [a|t1|X' e' h'] eqn:Et.
    + eapply seq_halts_ret; [done|]. eapply halts_observe; [exact Eb|]. by eexists; split; [constructor|].
    + destruct o as [v|p| |]; cbn in Es; try done; [congruence|]. destruct Es as (X & h & Es). congruence.
    + destruct o as [v|p| |]; cbn in Es; try done; [congruence|]. destruct Es as (X & h & Es).
      rewrite Eb in Es. dependent destruction Es. right. exists p. split; [done|]. by eapply halts_crash.
    + eapply seq_halts_ret; [done|]. eapply halts_observe; [exact Eb|]. exists s. by split; [eapply trace_tau|].
    + rewrite E in Eb. injection Eb as ->. eapply seq_halts_tau; [exact Et|]. by apply IH.
    + congruence.
    + eapply seq_halts_ret; [done|]. eapply halts_observe; [exact Eb|]. exists s. by split; [eapply trace_vis|].
    + congruence.
    + rewrite E in Eb. dependent destruction Eb. eapply seq_halts_vis; [exact Et|done|]. by apply IH.
  - intros [(a & tr1 & tr2 & -> & (s & Ht & Es) & H2)|(p & -> & s & Ht & Es)].
    + induction Ht as [t|t t1 tr s E Ht IH|t X e h x tr s E He Ht IH]; cbn in *.
      * eapply halts_observe; [|exact H2]. by rewrite observe_bind, Es.
      * eapply halts_tau; [by rewrite observe_bind, E|]. by apply IH.
      * eapply halts_vis; [by rewrite observe_bind, E|done|]. eauto.
    + induction Ht as [t|t t1 tr s E Ht IH|t X e h x tr s E He Ht IH]; cbn in *.
      * destruct Es as (X & h & Es). eapply halts_crash; [by rewrite observe_bind, Es|done].
      * eapply halts_tau; [by rewrite observe_bind, E|]. by apply IH.
      * eapply halts_vis; [by rewrite observe_bind, E|done|]. eauto.
Qed.

Lemma halts_await {X} (a : awaitE Val X) tr o :
  halts (await a) tr o <-> exists x, o = Ret x /\ tr = [Obs (Await a) x].
Proof.
  rewrite (halts_vis _ (Await a) (fun x => returned x)) by done. split.
  - intros (x & tr' & -> & [-> ->]%halts_returned). by exists x.
  - intros (x & -> & ->). exists x, []. split; [done|by apply halts_returned].
Qed.

Lemma halts_call {X} (c : callE Code X) tr o :
  halts (call c) tr o <-> exists x, o = Ret x /\ tr = [Obs (Call c) x].
Proof.
  rewrite (halts_vis _ (Call c) (fun x => returned x)) by done. split.
  - intros (x & tr' & -> & [-> ->]%halts_returned). by exists x.
  - intros (x & -> & ->). exists x, []. split; [done|by apply halts_returned].
Qed.

Lemma halts_crashes {X} p tr o : halts (crash (X:=X) p : body Code Val X) tr o <-> tr = [] /\ o = Panic p.
Proof. by eapply halts_crash. Qed.

Lemma halts_unwrap_io {X A} (r : result X A) tr o :
  halts (unwrap_io r : body Code Val X) tr o <->
  tr = [] /\ o = match r with Ok x => Ret x | Err _ => Panic UnwrapErr end.
Proof. destruct r; [apply halts_returned|apply halts_crashes]. Qed.

(** *** The traces of a loop *)
Inductive rounds {I R} (step : I -> body Code Val (I + R)) : I -> list obs -> outcome R -> Prop :=
  | rounds_stop i tr v : ends (step i) tr (inr v) -> rounds step i tr (Ret v)
  | rounds_panic i tr p : halts (step i) tr (Panic p) -> rounds step i tr (Panic p)
  | rounds_next i j tr1 tr2 o :
      ends (step i) tr1 (inl j) -> rounds step j tr2 o -> rounds step i (tr1 ++ tr2) o.

Lemma iter_observe {I R} (step : I -> body Code Val (I + R)) i :
  observe (ITree.iter step i) = observe (ITree.bind (step i)
    (fun lr => match lr with inl l => Tau (ITree.iter step l) | inr r => returned r end)).
Proof. unfold observe. cbn. by destruct (observe (step i)). Qed.

Lemma trace_iter {I R} (step : I -> body Code Val (I + R)) u tr s o t i tr0 :
  trace u tr s -> stopped o s ->
  observe u = observe (ITree.bind t
    (fun lr => match lr with inl l => Tau (ITree.iter step l) | inr r => returned r end)) ->
  (forall tr1 o, halts t tr1 o -> halts (step i) (tr0 ++ tr1) o) ->
  rounds step i (tr0 ++ tr) o.
Proof.
  intros Hu. revert t i tr0. induction Hu as [u|u u1 tr s E Hu IH|u X e h x tr s E He Hu IH];
    intros t i tr0 Es Eu Ht; rewrite observe_bind in Eu; destruct (observe t) as [[l|r]|t1|X' e' h'] eqn:Et; cbn in Eu;
    try congruence.
  - destruct o as [v|p| |]; cbn in Es; try done; [congruence|]. destruct Es as (X & h & Es). congruence.
  - destruct o as [v|p| |]; cbn in Es; try done.
    + assert (v = r) as -> by congruence. by apply rounds_stop, Ht, (halts_ret t (inr r)).
    + destruct Es as (X & h & Es). congruence.
  - destruct o as [v|p| |]; cbn in Es; try done; [congruence|]. destruct Es as (X & h & Es). congruence.
  - destruct o as [v|p| |]; cbn in Es; try done; [congruence|]. destruct Es as (X & h & Es).
    rewrite Eu in Es. dependent destruction Es. apply rounds_panic, Ht. by eapply halts_crash.
  - rewrite E in Eu. injection Eu as ->. rewrite <- (app_nil_r tr0).
    eapply rounds_next; [by apply Ht, (halts_ret t (inl l))|].
    apply (IH (step l) l []); [done|apply iter_observe|done].
  - rewrite E in Eu. injection Eu as ->. apply (IH t1); [done..|]. intros tr1 lr Hr.
    apply Ht. by apply (halts_tau t t1).
  - rewrite E in Eu. dependent destruction Eu.
    rewrite cons_middle, app_assoc. eapply IH; [done|reflexivity|]. intros tr1 lr Hr.
    rewrite <- app_assoc. apply Ht. eapply halts_vis; [exact Et|done|]. cbn. eauto.
Qed.

Lemma halts_iter {I R} (step : I -> body Code Val (I + R)) i tr o :
  halts (ITree.iter step i) tr o <-> rounds step i tr o.
Proof.
  split.
  - intros (s & Ht & Es). apply (trace_iter step _ tr s o (step i) i [] Ht Es); [apply iter_observe|done].
  - induction 1 as [i tr v Hr|i tr p Hr|i j tr1 tr2 v Hr _ IH];
      (eapply halts_observe; [symmetry; apply iter_observe|]); apply halts_bind.
    + left. exists (inr v), tr, []. rewrite app_nil_r. split; [done|]. split; [done|by apply halts_returned].
    + right. by exists p.
    + left. exists (inl j), tr1, tr2. split; [done|]. split; [done|]. by eapply halts_tau.
Qed.

(** *** Silent steps leave the traces as they are *)
Lemma stopped_ret {R} (t : body Code Val R) o v : observe t = RetF v -> stopped o t -> o = Ret v.
Proof. intros E. destruct o as [u|p| |]; cbn; [congruence| |done..]. intros (X & k & Es). congruence. Qed.

Lemma stopped_tau {R} (t : body Code Val R) o t1 : observe t = TauF t1 -> ~ stopped o t.
Proof. intros E. destruct o as [u|p| |]; cbn; [congruence| |tauto..]. intros (X & k & Es). congruence. Qed.

Lemma halts_eutt {R} (t t' : body Code Val R) tr o : t ≈ t' -> halts t tr o -> halts t' tr o.
Proof.
  intros Heq (s & Ht & Es). revert t' Heq. induction Ht as [t|t t1 tr s E Ht IH|t X e k x tr s E He Ht IH]; intros t' Heq.
  - punfold Heq. unfold eqit_ in Heq. remember (observe t) as ot eqn:Eo. remember (observe t') as ot' eqn:Eo'.
    revert t' Eo'. induction Heq as [v v' ->|t1 t2 REL|X e k1 k2 REL|t1 ot' _ REL IHe|ot t2 _ REL IHe]; intros t' Eo'.
    + apply (stopped_ret _ _ v') in Es as ->; [|done]. exists t'. by split; [constructor|].
    + by apply (stopped_tau _ _ t1) in Es.
    + destruct o as [u|p| |]; cbn in Es; [congruence| |done..]. destruct Es as (Y & k & Es).
      rewrite <- Eo in Es. dependent destruction Es. exists t'. split; [constructor|]. by eexists _, k2.
    + by apply (stopped_tau _ _ t1) in Es.
    + apply (halts_tau t' t2); [done|]. by apply IHe.
  - apply IH; [done|]. rewrite <- Heq. assert (t1 ≈ t) as ->; [|done].
    rewrite (itree_eta t), E. symmetry. apply eqit_Tau_l. reflexivity.
  - punfold Heq. unfold eqit_ in Heq. rewrite E in Heq. remember (observe t') as ot' eqn:Eo'.
    remember (VisF e k) as ot eqn:Eo. revert t' Eo'.
    induction Heq as [v v' _|t1 t2 REL|Y e' k1 k2 REL|t1 ot' _ REL IHe|ot t2 _ REL IHe]; intros t' Eo'; try done.
    + dependent destruction Eo. apply (halts_vis t' e k2); [done..|]. eexists x, tr. split; [done|].
      apply IH; [done|]. specialize (REL x). by pclearbot.
    + apply (halts_tau t' t2); [done|]. by apply IHe.
Qed.
End traces.
Abbreviation ends t tr v := (halts t tr (Ret v)).

(** ** What is observed of a trace *)
Definition pick {Code Val A} (f : forall X, ioE Code Val X -> X -> list A) (tr : list obs) : list A :=
  tr ≫= fun o => match o with Obs e x => f _ e x end.

Lemma pick_app {Code Val A} (f : forall X, ioE Code Val X -> X -> list A) tr1 tr2 :
  pick f (tr1 ++ tr2) = pick f tr1 ++ pick f tr2.
Proof. apply bind_app. Qed.

Section observers.
Context {Code Val : Type}.
Abbreviation event := (ioE Code Val).
Implicit Types (tr : list (obs (Code:=Code) (Val:=Val))).

Definition print_of X (e : event X) (x : X) : list string :=
  match e with Call (CPrint s) => [s] | _ => [] end.
Definition sleep_of X (e : event X) (x : X) : list Z :=
  match e with Call (CSleep d) => [d] | _ => [] end.
Definition timer_of X (e : event X) (x : X) : list Timer.Timer :=
  match e with Await (ATimer t) => [t] | _ => [] end.
Definition spawn_of X (e : event X) (x : X) : list Code :=
  match e with Call (CSpawn c) => [c] | _ => [] end.
Definition close_of X (e : event X) (x : X) : list Z :=
  match e with Call (CClose fd) => [fd] | _ => [] end.
Definition open_of X (e : event X) (x : X) : list (list Z) :=
  match e with Call (COpen p) => [p] | _ => [] end.
Definition write_of fd X (e : event X) (x : X) : list (list Z) :=
  match e with Await (AWrite bs w) => if decide (AsyncWriter.fd w = fd) then [bs] else [] | _ => [] end.
Definition read_of fd X (e : event X) : X -> list (io_result (list Z)) :=
  match e in ioE _ _ X return X -> list (io_result (list Z)) with
  | Await a =>
      match a in awaitE _ X return X -> list (io_result (list Z)) with
      | ARead r => fun x => if decide (AsyncReader.fd r = fd) then [x] else []
      | _ => fun _ => []
      end
  | _ => fun _ => []
  end.
Definition accept_of X (e : event X) : X -> list (option (io_result TcpStream.TcpStream)) :=
  match e in ioE _ _ X return X -> list (option (io_result TcpStream.TcpStream)) with
  | Await a =>
      match a in awaitE _ X return X -> list (option (io_result TcpStream.TcpStream)) with
      | ANext _ => fun x => [x.1]
      | _ => fun _ => []
      end
  | _ => fun _ => []
  end.

Definition seek_of X (e : event X) : X -> list (File.SeekFrom * io_result Z) :=
  match e in ioE _ _ X return X -> list (File.SeekFrom * io_result Z) with
  | Call c =>
      match c in callE _ X return X -> list (File.SeekFrom * io_result Z) with
      | CSeek _ pos => fun x => [(pos, x)]
      | _ => fun _ => []
      end
  | _ => fun _ => []
  end.
Definition opened_of X (e : event X) : X -> list (io_result File.File) :=
  match e in ioE _ _ X return X -> list (io_result File.File) with
  | Await a =>
      match a in awaitE _ X return X -> list (io_result File.File) with
      | AOpen _ => fun x => [x]
      | _ => fun _ => []
      end
  | _ => fun _ => []
  end.

(** The lines printed, the durations slept, the timers awaited, the blocks spawned, the
    descriptors closed, the paths opened and the files this gave, the seeks, and what was
    written to, read from and accepted on. *)
Definition prints tr := pick print_of tr.
Definition sleeps tr := pick sleep_of tr.
Definition timers tr := pick timer_of tr.
Definition spawns tr := pick spawn_of tr.
Definition closes tr := pick close_of tr.
Definition opens tr := pick open_of tr.
Definition opened tr := pick opened_of tr.
Definition seeks tr := pick seek_of tr.
Definition writes fd tr := pick (write_of fd) tr.
Definition reads fd tr := pick (read_of fd) tr.
Definition accepts tr := pick accept_of tr.
End observers.

(** Inversion of [halts] along the text of a block. *)
Ltac inv_halts_step :=
  match goal with
  | H : halts (_ ≫= _) _ _ |- _ =>
      apply halts_bind in H as [(? & ? & ? & -> & ? & H)|(? & ? & H)]; simplify_eq
  | H : halts (await _) _ _ |- _ => apply halts_await in H as (? & ? & ->); simplify_eq
  | H : halts (call _) _ _ |- _ => apply halts_call in H as (? & ? & ->); simplify_eq
  | H : halts (crash _) _ _ |- _ => apply halts_crashes in H as [-> ?]; simplify_eq
  | H : halts (mret _) _ _ |- _ => apply halts_returned in H as [-> ?]; simplify_eq
  | H : halts (unwrap_io ?r) _ _ |- _ => apply halts_unwrap_io in H as [-> ?]; destruct r; simplify_eq
  end.
Ltac inv_halts := repeat inv_halts_step.
(** The block matches on a result. *)
Ltac inv_result a e :=
  match goal with H : halts (match ?r with Ok _ => _ | Err _ => _ end) _ _ |- _ => destruct r as [a|e] end.

(** ** Polls and traces *)
Section polls.
Context {S : Type -> Type} `{Slab S} {B : Type} `{RingBuffer B}.
Context {U : Type} `{IoUring U sqe} {L : Type} `{Libc L} `{Host} `{NetOrder} `{!Process L}.
Context {Code Val : Type} (code : Code -> body Code Val Val).
Abbreviation world := (world S B U L (body Code Val Val) Val).
Implicit Types (w : world).

(** One step of a poll. *)
Lemma poll_body_ret {R} n (t : body Code Val R) cx w v :
  observe t = RetF v -> exists t', poll_body code (Datatypes.S n) t cx w = Ret (Ready v, t', w).
Proof. intros E. cbn. rewrite E. by eexists. Qed.

Lemma poll_body_await {R X} n (t : body Code Val R) (a : awaitE Val X) k cx w :
  observe t = VisF (Await a) k ->
  poll_body code (Datatypes.S n) t cx w =
    '(p, a, w) ← poll_await a cx w;
    match p with
    | Pending => mret (Pending, Vis (Await a) k, w)
    | Ready x => w ← drop_await a w; poll_body code n (k x) cx w
    end.
Proof. intros E. cbn. by rewrite E. Qed.

Lemma poll_body_call {R X} n (t : body Code Val R) (c : callE Code X) k cx w :
  observe t = VisF (Call c) k ->
  poll_body code (Datatypes.S n) t cx w = '(x, w) ← do_call code c w; poll_body code n (k x) cx w.
Proof. intros E. cbn. by rewrite E. Qed.

Lemma poll_body_crash {R X} n (t : body Code Val R) p (k : X -> _) cx w :
  observe t = VisF (Crash p) k -> poll_body code (Datatypes.S n) t cx w = Panic p.
Proof. intros E. cbn. by rewrite E. Qed.

(** More fuel changes nothing. *)
Lemma poll_body_mono {R} n m (t : body Code Val R) cx w :
  poll_body code n t cx w <> NoFuel -> poll_body code (n + m) t cx w = poll_body code n t cx w.
Proof.
  revert t w. induction n as [|n IH]; intros t w Hn; [done|]. cbn in *.
  destruct (observe t) as [v|t1|X e k]; [done|by apply IH|]. destruct e as [X a|X c|X p]; [| |done].
  - destruct (poll_await a cx w) as [[[[x|] a'] w1]|p| |]; cbn in *; try done.
    destruct (drop_await a' w1) as [w2|p| |]; cbn in *; try done. by apply IH.
  - destruct (do_call code c w) as [[x w1]|p| |]; cbn in *; try done. by apply IH.
Qed.

(** A poll advances the tree along a trace, to the end or to an [.await]
    whose future is not ready. *)
Definition stays_at {R} (s t' : body Code Val R) : Prop :=
  exists X (a a' : awaitE Val X) k, observe s = VisF (Await a) k /\ observe t' = VisF (Await a') k.

Lemma poll_body_trace {R} n (t : body Code Val R) cx w p t' w' :
  poll_body code n t cx w = Ret (p, t', w') ->
  exists tr s, trace t tr s /\
    match p with Ready v => observe s = RetF v | Pending => stays_at s t' end.
Proof.
  revert t w. induction n as [|n IH]; intros t w E; [done|]. cbn in E.
  destruct (observe t) as [v|t1|X e k] eqn:Et.
  - injection E as <- _ _. exists [], t. split; [constructor|done].
  - destruct (IH _ _ E) as (tr & s & Ht & Hp). exists tr, s. split; [by eapply trace_tau|done].
  - destruct e as [X a|X c|X q]; [| |done].
    + inv_bind. destruct a0 as [[[x|] a'] w1].
      * inv_bind. destruct (IH _ _ E) as (tr & s & Ht & Hp). eexists (_ :: tr), s.
        split; [by eapply (trace_vis _ _ _ x)|done].
      * injection E as <- <- _. exists [], t. split; [constructor|]. by exists X, a, a', k.
    + inv_bind. destruct a as [x w1]. destruct (IH _ _ E) as (tr & s & Ht & Hp).
      eexists (_ :: tr), s. split; [by eapply (trace_vis _ _ _ x)|done].
Qed.

(** Whatever the worlds in which a block is polled, one poll after the other, the value
    it gives is at the end of a trace of its tree. *)
Lemma block_yields n (t : body Code Val Val) v :
  yields (poll_block (S:=S) (B:=B) (U:=U) (L:=L) code n) t v -> exists tr, ends t tr v.
Proof.
  induction 1 as [t cx w v t' w' E|t cx w t' w' v E Hy IH].
  - apply poll_body_trace in E as (tr & s & Ht & Es). exists tr, s. done.
  - apply poll_body_trace in E as (tr & s & Ht & X & a & a' & k & Es & Et').
    destruct IH as [tr' Hr]. apply (halts_vis t' (Await a') k) in Hr as (x & tr2 & _ & s2 & Ht2 & Es2); [|done..].
    exists (tr ++ Obs (Await a) x :: tr2), s2. split; [|done].
    eapply trace_app; [done|]. by eapply trace_vis.
Qed.

(** *** Composition: [let x = t.await; k(x)] polls [t], then goes on with [k] in the same poll *)
Lemma poll_body_observe {R} n (t t' : body Code Val R) cx w :
  observe t = observe t' -> poll_body code n t cx w = poll_body code n t' cx w.
Proof. intros E. destruct n as [|n]; [done|]. cbn. by rewrite E. Qed.

Lemma poll_body_bind {A R} n m (t : body Code Val A) (k : A -> body Code Val R) cx w :
  match poll_body code n t cx w with
  | Ret (Pending, t', w') => exists u,
      poll_body code (n + m) (ITree.bind t k) cx w = Ret (Pending, u, w') /\ u ≅ ITree.bind t' k
  | Ret (Ready a, _, w') => exists m', m <= m' /\
      poll_body code (n + m) (ITree.bind t k) cx w = poll_body code m' (k a) cx w'
  | Panic p => poll_body code (n + m) (ITree.bind t k) cx w = Panic p
  | Hang => poll_body code (n + m) (ITree.bind t k) cx w = Hang
  | NoFuel => True
  end.
Proof.
  revert t w. induction n as [|n IH]; intros t w; [done|]. cbn [Nat.add poll_body].
  rewrite observe_bind. destruct (observe t) as [a|t1|X e h] eqn:Et; [|apply IH|].
  - exists (Datatypes.S (n + m)). split; [lia|done].
  - destruct e as [X a|X c|X p]; [| |done].
    + destruct (poll_await a cx w) as [[[[x|] a'] w1]|p| |]; cbn; try done.
      * destruct (drop_await a' w1) as [w2|p| |]; cbn; try done. apply IH.
      * eexists. split; [done|]. by rewrite bind_vis.
    + destruct (do_call code c w) as [[x w1]|p| |]; cbn; try done. apply IH.
Qed.

(** *** Silent steps do not matter *)
Definition poll_same {R} (o o' : outcome (poll R * body Code Val R * world)) : Prop :=
  match o, o' with
  | Ret (Ready v, _, w), Ret (Ready v', _, w') => v = v' /\ w = w'
  | Ret (Pending, t, w), Ret (Pending, t', w') => t ≈ t' /\ w = w'
  | Panic p, Panic p' => p = p'
  | Hang, Hang => True
  | _, _ => False
  end.

Lemma poll_body_eutt {R} n (t t' : body Code Val R) cx w :
  t ≈ t' -> poll_body code n t cx w <> NoFuel ->
  exists n', poll_same (poll_body code n t cx w) (poll_body code n' t' cx w).
Proof.
  revert t t' w. induction n as [|n IH]; intros t t' w Heq Hn; [done|]. cbn in Hn |- *.
  punfold Heq. unfold eqit_ in Heq. remember (observe t) as ot eqn:Et. remember (observe t') as ot' eqn:Et'.
  clear Et. revert t' Et'. induction Heq as [v v' E|t1 t2 REL|X e k1 k2 REL|t1 ot' _ REL IHe|ot t2 _ REL IHe];
    intros t' Et'.
  - exists 1. cbn. rewrite <- Et'. done.
  - pclearbot. destruct (IH t1 t2 w REL Hn) as [n' Hs]. exists (Datatypes.S n'). cbn. by rewrite <- Et'.
  - pclearbot. assert (forall v, k1 v ≈ k2 v) as Hk. { intros v. specialize (REL v). by pclearbot. }
    destruct e as [X a|X c|X p].
    + destruct (poll_await a cx w) as [[[[x|] a'] w1]|p| |] eqn:Ea; cbn in Hn |- *; try done.
      * destruct (drop_await a' w1) as [w2|p| |] eqn:Ed; cbn in Hn |- *; try done.
        -- destruct (IH (k1 x) (k2 x) w2 (Hk x) Hn) as [n' Hs]. exists (Datatypes.S n'). cbn.
           rewrite <- Et', Ea. cbn. by rewrite Ed.
        -- exists 1. cbn. rewrite <- Et', Ea. cbn. by rewrite Ed.
        -- exists 1. cbn. rewrite <- Et', Ea. cbn. by rewrite Ed.
      * exists 1. cbn. rewrite <- Et', Ea. cbn. split; [|done]. apply eqit_Vis. done.
      * exists 1. cbn. by rewrite <- Et', Ea.
      * exists 1. cbn. by rewrite <- Et', Ea.
    + destruct (do_call code c w) as [[x w1]|p| |] eqn:Ec; cbn in Hn |- *; try done.
      * destruct (IH (k1 x) (k2 x) w1 (Hk x) Hn) as [n' Hs]. exists (Datatypes.S n'). cbn. by rewrite <- Et', Ec.
      * exists 1. cbn. by rewrite <- Et', Ec.
      * exists 1. cbn. by rewrite <- Et', Ec.
    + exists 1. cbn. by rewrite <- Et'.
  - destruct (IH t1 t' w) as [n' Hs]; [pstep; red; by rewrite <- Et'|done|]. by exists n'.
  - destruct (IHe Hn t2 eq_refl) as [n' Hs]. exists (Datatypes.S n'). cbn. by rewrite <- Et'.
Qed.

(** *** Blocks are safe code *)
Abbreviation steps := (rtc (user_step (S:=S) (B:=B) (U:=U) (L:=L) (Fut:=body Code Val Val) (Val:=Val) (fun _ => True))).

Lemma steps_outside r l w : steps w (set_libc l (set_ring r w)).
Proof. exact (rtc_once _ _ (us_outside _ r l w)). Qed.

Lemma steps_ring r w : steps w (set_ring r w).
Proof. exact (rtc_once _ _ (us_outside _ r (w_libc w) w)). Qed.

Lemma steps_libc l w : steps w (set_libc l w).
Proof. exact (rtc_once _ _ (us_outside _ (w_ring w) l w)). Qed.

Lemma joiner_drop_safe j w w' : joiner_drop j w = Ret w' -> steps w w'.
Proof.
  unfold joiner_drop. intros E. destruct (w_chans w !! rx j) as [c|] eqn:Ec; cbn in E; [|done].
  inv_bind. eapply rtc_l; [by eapply us_detach|]. apply (steps_outside a _ (set_chan (rx j) (drop_receiver c) w)).
Qed.

Lemma joiner_poll_safe j cx w p j' w' : joiner_poll j cx w = Ret (p, j', w') -> steps w w'.
Proof.
  unfold joiner_poll. intros E. inv_bind. destruct a as [[q wt] r]. destruct q as [x|].
  - inv_bind. destruct a0 as [v w1]. inv_bind. etransitivity; [apply (steps_ring r)|].
    eapply rtc_l; [by eapply us_recv|]. done.
  - inv_bind. apply steps_ring.
Qed.

Lemma on_ring_safe {P F} (m : outcome (P * F * ReactorInner S B U nat)) w p f' w' :
  on_ring m w = Ret (p, f', w') -> exists r, w' = set_ring r w.
Proof. unfold on_ring. intros E. inv_bind. destruct a as [[p1 f1] r]. inv_bind. by eexists. Qed.

Lemma on_both_safe {P F} (m : outcome (P * F * ReactorInner S B U nat * L)) w p f' w' :
  on_both m w = Ret (p, f', w') -> exists r l, w' = set_libc l (set_ring r w).
Proof. unfold on_both. intros E. inv_bind. destruct a as [[[p1 f1] r] l]. inv_bind. by eexists _, _. Qed.

Lemma drop_handle_safe io w w' : drop_handle io w = Ret w' -> exists r, w' = set_ring r w.
Proof. unfold drop_handle. intros E. inv_bind. by eexists. Qed.

Lemma poll_await_safe {X} (a : awaitE Val X) cx w p a' w' : poll_await a cx w = Ret (p, a', w') -> steps w w'.
Proof.
  destruct a; cbn; intros E; inv_bind; repeat (case_match; inv_bind); subst;
    repeat match goal with
    | H : on_ring _ _ = Ret _ |- _ => apply on_ring_safe in H as [? ->]
    | H : on_both _ _ = Ret _ |- _ => apply on_both_safe in H as (? & ? & ->)
    end; eauto using steps_ring, steps_outside, joiner_poll_safe.
Qed.

Lemma drop_await_safe {X} (a : awaitE Val X) w w' : drop_await a w = Ret w' -> steps w w'.
Proof.
  destruct a; cbn; intros E; try (by eapply joiner_drop_safe); try (inv_bind; done);
    try (apply drop_handle_safe in E as [? ->]; apply steps_ring); inv_bind.
  - match goal with H : drop_handle _ _ = _ |- _ => apply drop_handle_safe in H as [? ->] end.
    apply steps_outside.
  - destruct a as [r l]. inv_bind. apply steps_outside.
  - destruct a as [r l]. inv_bind. apply steps_outside.
Qed.

Lemma do_call_safe {X} (c : callE Code X) w x w' : do_call code c w = Ret (x, w') -> steps w w'.
Proof.
  destruct c; cbn; intros E; unfold on_libc, listener_drop in E; inv_bind; repeat (case_match; inv_bind);
    eauto using steps_libc, steps_outside, rtc_refl, joiner_drop_safe.
  - match goal with |- steps _ (set_ring ?r (set_libc ?l _)) => exact (steps_outside r l w) end.
  - eapply rtc_once, us_spawn. done.
Qed.

Lemma poll_body_safe {R} n (t : body Code Val R) cx w p t' w' : poll_body code n t cx w = Ret (p, t', w') -> steps w w'.
Proof.
  revert t w. induction n as [|n IH]; intros t w E; [done|]. cbn in E.
  destruct (observe t) as [v|t1|X e k]; [by inv_bind|by eapply IH|]. destruct e as [X a|X c|X q]; [| |done].
  - inv_bind. destruct a0 as [[[x|] a'] w1].
    + inv_bind. apply poll_await_safe in Ha0. etransitivity; [exact Ha0|].
      etransitivity; [by eapply drop_await_safe|by eapply IH].
    + inv_bind. by eapply poll_await_safe.
  - inv_bind. destruct a as [x w1]. etransitivity; [by eapply do_call_safe|by eapply IH].
Qed.

Lemma block_safe n : user_safe (poll_block (S:=S) (B:=B) (U:=U) (L:=L) code n) (fun _ => True) 0.
Proof. intros t cx w p t' w' _ E. by eapply poll_body_safe. Qed.
End polls.

(** ** The executor's tables *)
Section tables.
Context {S : Type -> Type} `{SlabSpec S} {B : Type} `{RingBuffer B}.
Context {U : Type} `{IoUring U sqe} {L : Type} `{Libc L} `{Host} `{NetOrder} `{!Process L}.
Context {Code Val : Type} (code : Code -> body Code Val Val).

(** Blocks are well behaved: whatever a block does in a poll, spawning, joining and
    detaching tasks included, the tables of the executor stay well formed: the tasks,
    that being polled included, keep identities and channels of their own, every
    waiting task is where its identity says, and addresses are only handed out once. *)
Theorem blocks_keep_tables cur n (t : body Code Val Val) cx (w : world S B U L (body Code Val Val) Val) p t' w' :
  wf cur w -> poll_block code n t cx w = Ret (p, t', w') -> wf cur w' /\ w_next w <= w_next w'.
Proof.
  intros Hw Hp. pose proof (block_safe code n t cx w p t' w' (Nat.le_0_l _) Hp) as Hs.
  split; [by eapply wf_user_steps|by eapply next_mono].
Qed.
End tables.
