(* ===== verification/Borrow.v ===== *)
(** Borrows: the two thread-locals of a thread, REACTOR (src/src/reactor/uring.rs)
    and EXEC (src/src/task.rs), are [RefCell]s, and a wrong nesting of their borrows
    panics.  Here a thread is a world with the two borrow flags, and the
    functions of the executor are written with each [borrow] and [borrow_mut] of the source.

    The other files work on the contents of the cells; [agrees] says that a function
    here does the same, starting with free cells and leaving them free. *)
From ITree Require Import ITree.
From S2P Require Import Prelude Bytes Crates CrateModels Results Reactor Io Sqe Libc SockAddr Event ReadWrite Fs Timer Tcp Udp Mutex Task TaskProps Joins Async AsyncProps.

Open Scope nat_scope.

(** ** [RefCell] *)
Inductive flag := Free | Shared (readers : nat) | Exclusive.

(** [BorrowMutError] and [BorrowError] *)
Definition already_borrowed : panic := Explicit "already borrowed: BorrowMutError".
Definition already_mutably_borrowed : panic := Explicit "already mutably borrowed: BorrowError".

Definition borrow_mut (c : flag) : outcome flag :=
  match c with Free => mret Exclusive | _ => Panic already_borrowed end.
Definition borrow (c : flag) : outcome flag :=
  match c with
  | Free => mret (Shared 1)
  | Shared n => mret (Shared (1 + n))
  | Exclusive => Panic already_mutably_borrowed
  end.
(** Dropping a [RefMut] or a [Ref] *)
Definition release (c : flag) : flag :=
  match c with
  | Shared (Datatypes.S (Datatypes.S n)) => Shared (Datatypes.S n)
  | _ => Free
  end.

Section borrow.
Context {S : Type -> Type} `{Slab S} {B : Type} `{RingBuffer B}.
Context {U : Type} `{IoUring U sqe} {L : Type} `{Libc L} `{Host}.
Context {Fut Val : Type}.
Abbreviation world := (world S B U L Fut Val).

Record thread := Thread { contents : world; ring_flag : flag; exec_flag : flag }.

(** What runs on a thread. *)
Definition on_thread (X : Type) : Type := thread -> outcome (X * thread).
#[export] Instance on_thread_ret : MRet on_thread := fun X x t => mret (x, t).
#[export] Instance on_thread_bind : MBind on_thread := fun X Y k m t => '(x, t) ← m t; k x t.

Variant cell := Ring | Exec.
Definition flag_of (c : cell) (t : thread) : flag := match c with Ring => ring_flag t | Exec => exec_flag t end.
Definition set_flag (c : cell) (fl : flag) (t : thread) : thread :=
  match c with Ring => Thread (contents t) fl (exec_flag t) | Exec => Thread (contents t) (ring_flag t) fl end.

(** A borrow of [c] while [m] runs. *)
Definition with_mut {X} (c : cell) (m : on_thread X) : on_thread X := fun t =>
  fl ← borrow_mut (flag_of c t);
  '(x, t) ← m (set_flag c fl t);
  mret (x, set_flag c (release (flag_of c t)) t).
Definition with_ref {X} (c : cell) (m : on_thread X) : on_thread X := fun t =>
  fl ← borrow (flag_of c t);
  '(x, t) ← m (set_flag c fl t);
  mret (x, set_flag c (release (flag_of c t)) t).

(** What is done to the contents. *)
Definition inside {X} (f : world -> outcome (X * world)) : on_thread X := fun t =>
  '(x, w) ← f (contents t); mret (x, Thread w (ring_flag t) (exec_flag t)).
Definition inside_ring {X} (f : ReactorInner S B U nat -> outcome (X * ReactorInner S B U nat)) : on_thread X :=
  inside (fun w => '(x, r) ← f (w_ring w); mret (x, World r (w_exec w) (w_ids w) (w_chans w) (w_next w) (w_libc w))).
Definition read {X} (f : world -> X) : on_thread X := inside (fun w => mret (f w, w)).
Definition raise {X} (p : panic) : on_thread X := fun _ => Panic p.

(** ** uring/io/oneshot.rs: the closure is called before the reactor is borrowed. *)
Definition submit_or_get_result (self : Oneshot.IoState) (f : on_thread (sqe * nat)) :
    on_thread (poll (io_result Z) * Oneshot.IoState) :=
  self ← match self with
    | Oneshot.New =>
        '(entry, obj) ← f;
        slot ← with_mut Ring (inside_ring (fun r => '(_, slot, r) ← submit_io r entry obj Oneshot; mret (slot, r)));
        mret (Oneshot.Submitted slot)
    | Oneshot.Submitted slot =>
        res ← with_mut Ring (inside_ring (fun r =>
          '(res, o) ← OneshotStore.get_result (RingResults.get_oneshot (ring_results r)) slot;
          mret (res, MkReactor (uring r) (pending r) (RingResults.put_oneshot (ring_results r) o))));
        mret (match res with Some res => Oneshot.Finished res | None => Oneshot.Submitted slot end)
    | Oneshot.Finished _ => mret self
    end;
  inside (fun w => p ← Oneshot.state_to_poll self; mret (p, self, w)).

Definition drop (self : Oneshot.IoState) : on_thread unit :=
  match self with
  | Oneshot.Submitted _ => with_mut Ring (inside_ring (fun r => r ← Oneshot.drop self r; mret (tt, r)))
  | _ => mret tt
  end.

(** ** task.rs *)

(** [impl Wake for TaskId] *)
Definition wake_task (self : nat) : on_thread unit :=
  with_mut Exec (inside (fun w =>
    mret (tt, World (w_ring w) (wake (w_ids w) self (w_exec w)) (w_ids w) (w_chans w) (w_next w) (w_libc w)))).

(** [Executor::spawn]: the executor is borrowed for the [push] only. *)
Definition make_task (fut : Fut) (w : world) : outcome (TaskJoiner * Task Fut * world) :=
  let ch := w_next w in
  let (r, l) := Event.new (w_libc w) in
  evt ← unwrap_result r;
  '(evt2, l) ← Event.clone evt l;
  mret (MkJoiner ch evt (EventWaiter.wait evt), MkTask (Datatypes.S ch) (MkTaskFuture fut evt2 ch),
        World (w_ring w) (w_exec w) (<[Datatypes.S ch := 0]> (w_ids w)) (<[ch := channel_new]> (w_chans w)) (2 + ch) l).

Definition push_task (task : Task Fut) (w : world) : outcome (unit * world) :=
  mret (tt, set_exec (MkExecutor (waiting (w_exec w)) (push task (run_q (w_exec w)))) w).

Definition spawn_task (fut : Fut) : on_thread TaskJoiner :=
  '(joiner, task) ← inside (make_task fut);
  _ ← with_mut Exec (inside (push_task task));
  mret joiner.

(** Dropping a joiner: the handle of its waiter may borrow the reactor. *)
Definition drop_joiner (self : TaskJoiner) : on_thread unit :=
  with_mut Ring (inside (fun w => w ← joiner_drop self w; mret (tt, w))).

(** [Reactor::react] (reactor/mod.rs): the iterator of the completions owns the
    [RefMut] of the reactor while each waker is woken. *)
Fixpoint wake_all (wake_one : nat -> on_thread unit) (fuel : nat) : on_thread unit :=
  match fuel with
  | O => fun _ => NoFuel
  | Datatypes.S fuel =>
      item ← inside_ring next;
      match item with
      | None => mret tt
      | Some waker => _ ← wake_one waker; wake_all wake_one fuel
      end
  end.
Definition react_with (wake_one : nat -> on_thread unit) (fuel : nat) : on_thread unit :=
  with_mut Ring (_ ← inside_ring (fun r => r ← react r; mret (tt, r)); wake_all wake_one fuel).

Section loop.
Context (poll_user : Fut -> nat -> on_thread (poll Val * Fut)).

(** The block [spawn] makes *)
Definition poll_future (self : task_future Fut) (cx : nat) : on_thread (poll unit * task_future Fut) :=
  '(p, fut) ← poll_user (f self) cx;
  let self := MkTaskFuture fut (evt2 self) (tx self) in
  match p with
  | Pending => mret (Pending, self)
  | Ready value => inside (poll_task (fun fut _ w => mret (Ready value, fut, w)) self cx)
  end.

(** A round, part by part *)
Definition react_if_idle (fuel : nat) : on_thread unit :=
  idle ← with_ref Exec (read (fun w => bool_decide (run_q (w_exec w) = [])));
  if idle : bool then react_with wake_task fuel else mret tt.

Definition take_task : on_thread (Task Fut) :=
  with_mut Exec (inside (fun w =>
    '(task, q) ← unwrap (pop (run_q (w_exec w)));
    mret (task, set_exec (MkExecutor (waiting (w_exec w)) q) w))).

Definition put_back (task : Task Fut) (p : poll unit) : on_thread unit :=
  match p with
  | Ready _ => mret tt
  | Pending => with_mut Exec (inside (fun w => mret (tt, requeue task Pending w)))
  end.

Definition no_task_left : on_thread bool :=
  idle ← with_ref Exec (read (fun w => bool_decide (run_q (w_exec w) = [])));
  if idle : bool then with_ref Exec (read (fun w => slab_is_empty (waiting (w_exec w)))) else mret false.

Definition round_of (fuel : nat) : on_thread bool :=
  _ ← react_if_idle fuel;
  task ← take_task;
  '(p, fut) ← poll_future (future task) (id task);
  _ ← put_back (MkTask (id task) fut) p;
  no_task_left.

Fixpoint loop_of (rounds fuel : nat) : on_thread unit :=
  match rounds with
  | O => fun _ => NoFuel
  | Datatypes.S rounds =>
      stop ← round_of fuel;
      if stop : bool then mret tt else loop_of rounds fuel
  end.

Definition block_on_task (rounds fuel : nat) (fut : Fut) : on_thread Val :=
  joiner ← spawn_task fut;
  _ ← loop_of rounds fuel;
  v ← inside (recv_unwrap (rx joiner));
  _ ← drop_joiner joiner;
  mret v.
End loop.

(** ** The same as without the flags *)

(** [m] does what [f] does to the contents, and leaves the flags as they are. *)
Definition agrees_at {X} (fr fe : flag) (m : on_thread X) (f : world -> outcome (X * world)) : Prop :=
  forall w, m (Thread w fr fe) = ('(x, w) ← f w; mret (x, Thread w fr fe)).
Abbreviation agrees := (agrees_at Free Free).

Lemma agrees_ext {X} fr fe (m : on_thread X) f g : (forall w, f w = g w) -> agrees_at fr fe m f -> agrees_at fr fe m g.
Proof. intros E Hm w. by rewrite Hm, E. Qed.

Lemma agrees_ret {X} fr fe (x : X) : agrees_at fr fe (mret x) (fun w => mret (x, w)).
Proof. done. Qed.

Lemma agrees_inside {X} fr fe (f : world -> outcome (X * world)) : agrees_at fr fe (inside f) f.
Proof. done. Qed.

(** A sequence goes on with what its first part gives. *)
Lemma agrees_then {X Y} fr fe (m : on_thread X) (k : X -> on_thread Y) f w :
  agrees_at fr fe m f -> (m ≫= k) (Thread w fr fe) = ('(x, w) ← f w; k x (Thread w fr fe)).
Proof. intros Hm. unfold mbind at 1, on_thread_bind. rewrite Hm. by destruct (f w) as [[x w1]|p| |]. Qed.

Lemma agrees_mut_ring {X} fe (m : on_thread X) f : agrees_at Exclusive fe m f -> agrees_at Free fe (with_mut Ring m) f.
Proof. intros Hm w. unfold with_mut. cbn. rewrite Hm. by destruct (f w) as [[x w1]|p| |]. Qed.

Lemma agrees_mut_exec {X} fr (m : on_thread X) f : agrees_at fr Exclusive m f -> agrees_at fr Free (with_mut Exec m) f.
Proof. intros Hm w. unfold with_mut. cbn. rewrite Hm. by destruct (f w) as [[x w1]|p| |]. Qed.

Lemma agrees_ref_exec {X} fr (m : on_thread X) f : agrees_at fr (Shared 1) m f -> agrees_at fr Free (with_ref Exec m) f.
Proof. intros Hm w. unfold with_ref. cbn. rewrite Hm. by destruct (f w) as [[x w1]|p| |]. Qed.

(** *** The executor *)
Lemma wake_agrees fr self : agrees_at fr Free (wake_task self) (fun w =>
  mret (tt, World (w_ring w) (wake (w_ids w) self (w_exec w)) (w_ids w) (w_chans w) (w_next w) (w_libc w))).
Proof. apply agrees_mut_exec, agrees_inside. Qed.

Lemma spawn_agrees fut : agrees (spawn_task fut) (spawn fut).
Proof.
  intros w. unfold spawn_task. rewrite (agrees_then _ _ _ _ _ _ (agrees_inside _ _ (make_task fut))).
  unfold make_task, spawn. destruct (Event.new (w_libc w)) as [[ev|e] l]; [|done]. cbn.
  destruct (Event.clone ev l) as [[ev2 l2]|p| |]; [|done..]. cbn.
  by rewrite (agrees_then _ _ _ _ _ _ (agrees_mut_exec _ _ _ (agrees_inside _ _ (push_task _)))).
Qed.

(** Looking at the executor *)
Lemma look_agrees {X} (f : world -> X) : agrees (with_ref Exec (read f)) (fun w => mret (f w, w)).
Proof. apply agrees_ref_exec, agrees_inside. Qed.

Lemma wake_all_agrees fuel w :
  wake_all wake_task fuel (Thread w Exclusive Free) =
    ('(r, e) ← for_each (fun l e => mret (wake (w_ids w) l e)) fuel (w_ring w) (w_exec w);
     mret (tt, Thread (World r e (w_ids w) (w_chans w) (w_next w) (w_libc w)) Exclusive Free)).
Proof.
  revert w. induction fuel as [|fuel IH]; intros w; [done|]. cbn [wake_all for_each]. unfold inside_ring.
  rewrite (agrees_then _ _ _ _ _ _ (agrees_inside _ _ _)).
  destruct (next (w_ring w)) as [[[waker|] r]|p| |]; [|done..]. cbn -[wake_task].
  rewrite (agrees_then _ _ _ _ _ _ (wake_agrees Exclusive waker)). cbn. by rewrite IH.
Qed.

Lemma react_agrees fuel : agrees (react_with wake_task fuel) (fun w => w ← react_exec fuel w; mret (tt, w)).
Proof.
  apply agrees_mut_ring. intros w. unfold inside_ring. rewrite (agrees_then _ _ _ _ _ _ (agrees_inside _ _ _)).
  unfold react_exec, Reactor_react. destruct (react (w_ring w)) as [r|p| |]; [|done..]. cbn.
  rewrite wake_all_agrees. cbn. by destruct (for_each _ fuel r (w_exec w)) as [[r1 e]|p| |].
Qed.

Lemma idle_agrees fuel :
  agrees (react_if_idle fuel) (fun w => w ← (if decide (run_q (w_exec w) = []) then react_exec fuel w else mret w); mret (tt, w)).
Proof.
  intros w. unfold react_if_idle. rewrite (agrees_then _ _ _ _ _ _ (look_agrees _)). 
  destruct (decide (run_q (w_exec w) = [])) as [E|E];
    [rewrite (bool_decide_true _ E); apply react_agrees|by rewrite (bool_decide_false _ E)].
Qed.

Lemma take_agrees : agrees take_task (fun w =>
  '(task, q) ← unwrap (pop (run_q (w_exec w))); mret (task, set_exec (MkExecutor (waiting (w_exec w)) q) w)).
Proof. apply agrees_mut_exec, agrees_inside. Qed.

Lemma put_agrees task p : agrees (put_back task p) (fun w => mret (tt, requeue task p w)).
Proof. destruct p as [[]|]; [done|]. apply agrees_mut_exec, agrees_inside. Qed.

Lemma left_agrees :
  agrees no_task_left (fun w => mret (if decide (run_q (w_exec w) = []) then slab_is_empty (waiting (w_exec w)) else false, w)).
Proof.
  intros w. unfold no_task_left. rewrite (agrees_then _ _ _ _ _ _ (look_agrees _)). 
  destruct (decide (run_q (w_exec w) = [])) as [E|E];
    [rewrite (bool_decide_true _ E); exact (look_agrees _ w)|by rewrite (bool_decide_false _ E)].
Qed.

Lemma drop_joiner_agrees self : agrees (drop_joiner self) (fun w => w ← joiner_drop self w; mret (tt, w)).
Proof. apply agrees_mut_ring, agrees_inside. Qed.

Section user.
Context (poll_user : Fut -> nat -> on_thread (poll Val * Fut)) (poll_inside : Fut -> nat -> world -> outcome (poll Val * Fut * world)).
Context (Huser : forall fut cx, agrees (poll_user fut cx) (poll_inside fut cx)).

Lemma poll_future_agrees self cx : agrees (poll_future poll_user self cx) (poll_task poll_inside self cx).
Proof.
  intros w. unfold poll_future. rewrite (agrees_then _ _ _ _ _ _ (Huser (f self) cx)). unfold poll_task.
  destruct (poll_inside (f self) cx w) as [[[[v|] fut] w1]|p| |]; [|done..]. cbn. unfold inside. cbn.
  by destruct (w_chans w1 !! tx self).
Qed.

Lemma round_agrees fuel : agrees (round_of poll_user fuel) (executor_round poll_inside fuel).
Proof.
  intros w. unfold round_of, executor_round. rewrite (agrees_then _ _ _ _ _ _ (idle_agrees fuel)).
  destruct (if decide (run_q (w_exec w) = []) then react_exec fuel w else mret w) as [w1|p| |]; [|done..]. cbn.
  rewrite (agrees_then _ _ _ _ _ _ take_agrees). destruct (pop (run_q (w_exec w1))) as [[task q]|]; [|done]. cbn.
  rewrite (agrees_then _ _ _ _ _ _ (poll_future_agrees (future task) (id task))).
  destruct (poll_task _ _ _ _) as [[[p fut] w2]|p| |]; [|done..]. cbn.
  rewrite (agrees_then _ _ _ _ _ _ (put_agrees _ _)). cbn. apply left_agrees.
Qed.

Lemma loop_agrees rounds fuel :
  agrees (loop_of poll_user rounds fuel) (fun w => w ← executor_loop poll_inside rounds fuel w; mret (tt, w)).
Proof.
  induction rounds as [|rounds IH]; intros w; [done|]. cbn [loop_of executor_loop].
  rewrite (agrees_then _ _ _ _ _ _ (round_agrees fuel)).
  destruct (executor_round poll_inside fuel w) as [[[] w1]|p| |]; [done|apply IH|done..].
Qed.

Lemma block_on_agrees rounds fuel fut :
  agrees (block_on_task poll_user rounds fuel fut) (block_on poll_inside rounds fuel fut).
Proof.
  intros w. unfold block_on_task, block_on. rewrite (agrees_then _ _ _ _ _ _ (spawn_agrees fut)).
  destruct (spawn fut w) as [[joiner w1]|p| |]; [|done..]. cbn. rewrite (agrees_then _ _ _ _ _ _ (loop_agrees rounds fuel)).
  destruct (executor_loop poll_inside rounds fuel w1) as [w2|p| |]; [|done..]. cbn.
  rewrite (agrees_then _ _ _ _ _ _ (agrees_inside _ _ (recv_unwrap (rx joiner)))). unfold join.
  destruct (recv_unwrap (rx joiner) w2) as [[v w3]|p| |]; [|done..]. cbn.
  rewrite (agrees_then _ _ _ _ _ _ (drop_joiner_agrees joiner)). by destruct (joiner_drop joiner w3).
Qed.
End user.

(** *** Calls from inside other calls *)

(** The closure of a submission may use the reactor itself: it is not borrowed yet. *)
Lemma submit_agrees (f : on_thread (sqe * nat)) g :
  agrees f g -> agrees (submit_or_get_result Oneshot.New f) (fun w =>
    '(entry, obj, w) ← g w;
    '(_, slot, r) ← submit_io (w_ring w) entry obj Oneshot;
    mret (Pending, Oneshot.Submitted slot, World r (w_exec w) (w_ids w) (w_chans w) (w_next w) (w_libc w))).
Proof.
  intros Hf w. unfold submit_or_get_result.
  assert (agrees ('(entry, obj) ← f;
    slot ← with_mut Ring (inside_ring (fun r => '(_, slot, r) ← submit_io r entry obj Oneshot; mret (slot, r)));
    mret (Oneshot.Submitted slot)) (fun w => '(entry, obj, w) ← g w;
    '(_, slot, r) ← submit_io (w_ring w) entry obj Oneshot;
    mret (Oneshot.Submitted slot, World r (w_exec w) (w_ids w) (w_chans w) (w_next w) (w_libc w)))) as Hm.
  { intros w0. rewrite (agrees_then _ _ _ _ _ _ Hf). destruct (g w0) as [[[entry obj] w1]|p| |]; [|done..]. cbn.
    unfold inside_ring. rewrite (agrees_then _ _ _ _ _ _ (agrees_mut_ring _ _ _ (agrees_inside _ _ _))). cbn.
    by destruct (submit_io (w_ring w1) entry obj Oneshot) as [[[ud slot] r]|p| |]. }
  rewrite (agrees_then _ _ _ _ _ _ Hm). destruct (g w) as [[[entry obj] w1]|p| |]; [|done..]. cbn.
  by destruct (submit_io (w_ring w1) entry obj Oneshot) as [[[ud slot] r]|p| |].
Qed.

(** A waker may not use the reactor: [Reactor::react] wakes while it holds the
    [RefMut] of the iterator, so a waker that borrows the reactor (one that
    polls a future at once, say, in place of queueing its task) panics at the first
    completion. *)
Theorem waker_inside_reactor_panics {X} (wake_one : nat -> on_thread unit) (m : on_thread X) k fuel w fe waker r r' :
  react (w_ring w) = Ret r -> next r = Ret (Some waker, r') ->
  wake_one waker = (x ← with_mut Ring m; k x) ->
  react_with wake_one (Datatypes.S fuel) (Thread w Free fe) = Panic already_borrowed.
Proof.
  intros Er En Ew. unfold react_with, with_mut, inside_ring. cbn [flag_of set_flag ring_flag exec_flag contents borrow_mut].
  unfold mbind, outcome_bind, mret, outcome_ret at 1. rewrite (agrees_then _ _ _ _ _ _ (agrees_inside _ _ _)).
  cbn. rewrite Er. cbn. unfold inside_ring. rewrite (agrees_then _ _ _ _ _ _ (agrees_inside _ _ _)). cbn. rewrite En. cbn.
  by rewrite Ew.
Qed.
End borrow.

(** ** Blocks *)
Section blocks.
Context {S : Type -> Type} `{Slab S} {B : Type} `{RingBuffer B}.
Context {U : Type} `{IoUring U sqe} {L : Type} `{Libc L} `{Host} `{NetOrder} `{!Process L}.
Context {Code Val : Type} (code : Code -> body Code Val Val).
Abbreviation Fut := (body Code Val Val).
Abbreviation world := (world S B U L Fut Val).
Abbreviation on_thread := (on_thread (S:=S) (B:=B) (U:=U) (L:=L) (Fut:=Fut) (Val:=Val)).

Abbreviation agrees := (agrees_at (S:=S) (B:=B) (U:=U) (L:=L) (Fut:=Fut) (Val:=Val) Free Free).

(** A future of the library borrows the reactor when it is polled or dropped
    (at most: one that is ready at once, or was never polled, does not), and
    so do the drops of listeners and joiners; [spawn] borrows the executor. *)
Definition call_of {X} (c : callE Code X) : on_thread X :=
  match c with
  | CSpawn c => spawn_task (code c)
  | CListenerDrop l => with_mut Ring (inside (do_call code (CListenerDrop l)))
  | CDetach j => with_mut Ring (inside (do_call code (CDetach j)))
  | c => inside (do_call code c)
  end.

Fixpoint body_of_thread {R} (fuel : nat) (t : body Code Val R) (cx : nat) : on_thread (poll R * body Code Val R) :=
  match fuel with
  | O => fun _ => NoFuel
  | Datatypes.S fuel =>
      match observe t with
      | RetF v => mret (Ready v, crash (Explicit "`async fn` resumed after completion"))
      | TauF t => body_of_thread fuel t cx
      | VisF e k =>
          match e in ioE _ _ X return (X -> body Code Val R) -> _ with
          | Await a => fun k =>
              '(p, a) ← with_mut Ring (inside (poll_await a cx));
              match p with
              | Pending => mret (Pending, Vis (Await a) k)
              | Ready x =>
                  _ ← with_mut Ring (inside (fun w => w ← drop_await a w; mret (tt, w)));
                  body_of_thread fuel (k x) cx
              end
          | Call c => fun k => x ← call_of c; body_of_thread fuel (k x) cx
          | Crash p => fun _ => raise p
          end k
      end
  end.

Lemma call_agrees {X} (c : callE Code X) : agrees (call_of c) (do_call code c).
Proof. destruct c; try apply agrees_inside; [apply agrees_mut_ring, agrees_inside|apply spawn_agrees|apply agrees_mut_ring, agrees_inside]. Qed.

Lemma body_agrees {R} fuel (t : body Code Val R) cx : agrees (body_of_thread fuel t cx) (poll_body code fuel t cx).
Proof.
  revert t. induction fuel as [|fuel IH]; intros t w; [done|]. cbn [body_of_thread poll_body].
  destruct (observe t) as [v|t1|X e k]; [done|apply IH|]. destruct e as [X a|X c|X p]; [| |done].
  - rewrite (agrees_then _ _ _ _ _ _ (agrees_mut_ring _ _ _ (agrees_inside _ _ (poll_await a cx)))).
    destruct (poll_await a cx w) as [[[[x|] a'] w1]|p| |]; [|done..]. cbn.
    rewrite (agrees_then _ _ _ _ _ _ (agrees_mut_ring _ _ _ (agrees_inside _ _ _))).
    destruct (drop_await a' w1) as [w2|p| |]; [|done..]. cbn. apply IH.
  - rewrite (agrees_then _ _ _ _ _ _ (call_agrees c)). destruct (do_call code c w) as [[x w1]|p| |]; [|done..]. apply IH.
Qed.

(** C9: the borrows of the two thread-locals never conflict: a thread that
    runs any blocks with every borrow of the reactor and of the executor
    checked, wakers woken while the completions are read included, does exactly what it does with
    no check at all: [block_on] gives the same value, panics with the same
    panic, or blocks, in the same world, and both cells are free afterwards. *)
Theorem borrows_never_conflict rounds fuel n (fut : Fut) (w : world) :
  block_on_task (fun t cx => body_of_thread n t cx) rounds fuel fut (Thread w Free Free) =
    ('(v, w') ← block_on (poll_block code n) rounds fuel fut w; mret (v, Thread w' Free Free)).
Proof. apply (block_on_agrees _ (poll_block code n)). intros t cx. apply body_agrees. Qed.
End blocks.
