(* ===== verification/AsyncFns.v ===== *)
(** The [async fn]s of the library as blocks: [Mutex::lock] and
    [TcpStream::connect].  Their futures are modelled as state machines in
    Mutex.v and Tcp.v; here their text is a block of Async.v, and polling the
    state machine and polling the block are the same. *)
From ITree Require Import ITree.
From S2P Require Import Prelude Bytes Crates CrateModels Results Reactor Io Sqe Libc SockAddr Event ReadWrite Fs Timer Tcp Udp Mutex Task TaskProps TaskLoop Async AsyncProps.

Section blocks.
Context {Code Val : Type}.
Abbreviation block := (body Code Val).

(** [Mutex::lock] *)
Definition lock_block (self : Mutex.Mutex nat) : block unit :=
  evt ← call (CEventClone (Mutex.evt self));
  r ← await (AWait (EventWaiter.wait evt));
  _ ← unwrap_io r;
  call (CEventDrop evt).

(** The loop of [TcpStream::connect] *)
Fixpoint connect_from (addrs : list SocketAddr) (last_err : io_error) : block (io_result TcpStream.TcpStream) :=
  match addrs with
  | [] => mret (Err last_err)
  | addr :: addrs =>
      sock ← call (CSocket addr);
      match sock with
      | Err e => mret (Err e)
      | Ok sock =>
          r ← await (ASockConnect (SockConnect.MkConnect sock Oneshot.new addr));
          match r with
          | Ok _ => mret (Ok (TcpStream.MkStream sock))
          | Err e =>
              _ ← call (CClose sock);
              connect_from addrs e
          end
      end
  end.

(** [TcpStream::connect] *)
Definition connect_block (addrs : io_result (list SocketAddr)) : block (io_result TcpStream.TcpStream) :=
  match addrs with
  | Err e => mret (Err e)
  | Ok addrs => connect_from addrs (KindError InvalidData)
  end.
End blocks.

Section equivalence.
Context {S : Type -> Type} `{Slab S} {B : Type} `{RingBuffer B}.
Context {U : Type} `{IoUring U sqe} {L : Type} `{Libc L} `{Host} `{NetOrder} `{!Process L}.
Context {Code Val : Type} (code : Code -> body Code Val Val).
Abbreviation world := (world S B U L (body Code Val Val) Val).
Abbreviation block := (body Code Val).
Implicit Types (w : world).

(** The same outcome, and the same state afterwards. *)
Definition same_poll {R St} (rel : St -> block R -> Prop)
    (o : outcome (poll R * St * world)) (o' : outcome (poll R * block R * world)) : Prop :=
  match o, o' with
  | Ret (Ready v, _, w), Ret (Ready v', _, w') => v = v' /\ w = w'
  | Ret (Pending, st, w), Ret (Pending, t, w') => rel st t /\ w = w'
  | Panic p, Panic p' => p = p'
  | Hang, Hang | NoFuel, NoFuel => True
  | _, _ => False
  end.

(** The world around a state machine, which has the reactor and the system. *)
Definition in_world {R St} w (m : outcome (poll R * St * ReactorInner S B U nat * L)) :
    outcome (poll R * St * world) :=
  '(p, st, r, l) ← m; mret (p, st, set_libc l (set_ring r w)).

(** *** Locking *)
Definition lock_rest (evt : Event.Event) (r : io_result unit) : block unit :=
  _ ← unwrap_io r; call (CEventDrop evt).

(** Where the block is in each state of the state machine. *)
Definition lock_at (self : Mutex.Mutex nat) (st : Mutex.lock_state) (t : block unit) : Prop :=
  match st with
  | Mutex.Unresumed => observe t = observe (lock_block self)
  | Mutex.Waiting evt waiter =>
      observe t = VisF (Await (AWait waiter)) (fun r => ITree.bind (returned r) (lock_rest evt))
  | Mutex.Returned => False
  end.

Lemma lock_await_block self evt waiter cx w l t n :
  observe t = VisF (Await (AWait waiter)) (fun r => ITree.bind (returned r) (lock_rest evt)) ->
  same_poll (lock_at self)
    (in_world w (Mutex.await evt waiter cx (w_ring w) l))
    (poll_body code (4 + n) t cx (set_libc l w)).
Proof.
  intros Et. cbn [Nat.add]. rewrite (poll_body_await code _ _ _ _ _ _ Et). unfold Mutex.await, in_world.
  cbn [poll_await]. unfold on_ring. cbn [w_ring set_libc].
  destruct (EventWaiter.poll waiter cx (w_ring w)) as [[[[r|] waiter'] ring]|p| |]; cbn [mbind outcome_bind mret outcome_ret];
    try done.
  cbn [drop_await]. unfold drop_handle, EventWaiter.drop. cbn [w_ring set_ring].
  destruct (Oneshot.drop (EventWaiter.io waiter') ring) as [ring'|p| |]; cbn [mbind outcome_bind mret outcome_ret]; try done.
  destruct r as [[]|e].
  - rewrite (poll_body_call code _ _ (CEventDrop evt) (fun x => returned x)) by reflexivity.
    cbn [do_call mbind outcome_bind mret outcome_ret].
    by cbn.
  - by cbn.
Qed.

(** [Mutex::lock]: the state machine that models its future and the text of
    the function, as a block, are the same future: polled in the same
    world they answer the same, change the world in the same way, panic in the same
    way, and are left in corresponding states. *)
Theorem lock_is_block self st t cx w n :
  lock_at self st t ->
  same_poll (lock_at self)
    (in_world w (Mutex.lock self st cx (w_ring w) (w_libc w)))
    (poll_body code (5 + n) t cx w).
Proof.
  intros Hat. destruct st as [|evt waiter|]; cbn in Hat; [| |done].
  - cbn [Nat.add]. rewrite (poll_body_call code _ _ (CEventClone (Mutex.evt self))
      (fun e => ITree.bind (returned e) (fun evt =>
         ITree.bind (await (AWait (EventWaiter.wait evt))) (lock_rest evt)))) by exact Hat.
    unfold Mutex.lock, in_world. cbn [do_call]. destruct (Event.clone (Mutex.evt self) (w_libc w)) as [[evt l]|p| |]; try done.
    cbn [mbind outcome_bind mret outcome_ret]. by apply (lock_await_block self evt (EventWaiter.wait evt) cx w l _ n).
  - unfold Mutex.lock. pose proof (lock_await_block self evt waiter cx w (w_libc w) t (1 + n) Hat) as Hp.
    assert (set_libc (w_libc w) w = w) as Ew by by destruct w. rewrite Ew in Hp. exact Hp.
Qed.

(** *** Connecting *)
Definition connect_rest (sock : Z) (addrs : list SocketAddr) (r : io_result unit) : block (io_result TcpStream.TcpStream) :=
  match r with
  | Ok _ => mret (Ok (TcpStream.MkStream sock))
  | Err e => _ ← call (CClose sock); connect_from addrs e
  end.

Definition connect_at (st : Connect.state) (t : block (io_result TcpStream.TcpStream)) : Prop :=
  match st with
  | Connect.Unresumed addrs => observe t = observe (connect_block addrs)
  | Connect.Suspended sock connect addrs _ =>
      observe t = VisF (Await (ASockConnect connect)) (fun r => ITree.bind (returned r) (connect_rest sock addrs))
  | Connect.Returned => False
  end.

Abbreviation answer := (poll (io_result TcpStream.TcpStream)).

(** The part of the body from the poll of the connection on. *)
Definition connect_await (sock : Z) (connect : SockConnect.SockConnect) (addrs : list SocketAddr)
    (last_err : io_error) (cx : nat) (ring : ReactorInner S B U nat) (l : L) :
    outcome (answer * Connect.state * ReactorInner S B U nat * L) :=
  '(p, connect, ring) ← SockConnect.poll connect cx ring;
  match p with
  | Pending => mret (Pending, Connect.Suspended sock connect addrs last_err, ring, l)
  | Ready r =>
      ring ← SockConnect.drop connect ring;
      match r with
      | Ok _ => mret (Ready (Ok (TcpStream.MkStream sock)), Connect.Returned, ring, l)
      | Err e => Connect.connect_loop addrs e cx ring (drop_fd sock l)
      end
  end.

Definition loop_is_block (addrs : list SocketAddr) : Prop := forall last_err cx ring l w t n,
  observe t = observe (connect_from addrs last_err) ->
  same_poll connect_at (in_world w (Connect.connect_loop addrs last_err cx ring l))
    (poll_body code (1 + 3 * length addrs + n) t cx (set_libc l (set_ring ring w))).

Lemma connect_await_block sock connect addrs last_err cx ring l w t n :
  loop_is_block addrs ->
  observe t = VisF (Await (ASockConnect connect)) (fun r => ITree.bind (returned r) (connect_rest sock addrs)) ->
  same_poll connect_at (in_world w (connect_await sock connect addrs last_err cx ring l))
    (poll_body code (3 + 3 * length addrs + n) t cx (set_libc l (set_ring ring w))).
Proof.
  intros IH Et. cbn [Nat.add]. rewrite (poll_body_await code _ _ _ _ _ _ Et). unfold connect_await.
  cbn [poll_await]. unfold on_ring. cbn [w_ring set_libc set_ring].
  destruct (SockConnect.poll connect cx ring) as [[[[r|] connect'] ring1]|p| |];
    cbn [mbind outcome_bind mret outcome_ret in_world]; try done.
  cbn [drop_await]. unfold drop_handle, SockConnect.drop. cbn [w_ring set_ring].
  destruct (Oneshot.drop (SockConnect.io connect') ring1) as [ring2|p| |];
    cbn [mbind outcome_bind mret outcome_ret]; try done.
  destruct r as [[]|e]; [by cbn|].
  rewrite (poll_body_call code _ _ (CClose sock) (fun x => ITree.bind (returned x) (fun _ => connect_from addrs e)))
    by reflexivity.
  cbn [do_call mbind outcome_bind mret outcome_ret]. by apply (IH e cx ring2 (drop_fd sock l) w _ n).
Qed.

Lemma connect_loop_block addrs : loop_is_block addrs.
Proof.
  induction addrs as [|addr addrs IH]; intros last_err cx ring l w t n Et.
  - cbn. by rewrite Et.
  - replace (1 + 3 * length (addr :: addrs) + n)%nat with (Datatypes.S (3 + 3 * length addrs + n))%nat by (cbn; lia).
    rewrite (poll_body_call code _ _ (CSocket addr) (fun x => ITree.bind (returned x) (fun sock =>
      match sock with
      | Err e => mret (Err e)
      | Ok sock => ITree.bind (await (ASockConnect (SockConnect.MkConnect sock Oneshot.new addr))) (connect_rest sock addrs)
      end))) by exact Et.
    cbn [do_call Connect.connect_loop]. unfold on_libc. cbn [w_libc set_libc mbind outcome_bind mret outcome_ret].
    destruct (mk_sock addr l) as [[sock|e] l1]; cbn [fst snd]; [|done].
    by apply (connect_await_block sock (SockConnect.MkConnect sock Oneshot.new addr) addrs last_err cx ring l1 w _ n).
Qed.

(** C28: [TcpStream::connect]: the state machine that models its future and the text
    of the function, as a block, are the same future: the same answers, the same
    sockets made and closed, the same operations, and corresponding states
    after each poll.  The fuel grows with the number of addresses left. *)
Theorem connect_is_block st t cx w addrs n :
  connect_at st t ->
  (match st with
   | Connect.Unresumed (Ok a) | Connect.Suspended _ _ a _ => a
   | _ => []
   end) = addrs ->
  same_poll connect_at (in_world w (Connect.poll st cx (w_ring w) (w_libc w)))
    (poll_body code (3 + 3 * length addrs + n) t cx w).
Proof.
  intros Hat <-. assert (set_libc (w_libc w) (set_ring (w_ring w) w) = w) as Ew by by destruct w.
  destruct st as [[addrs|e]|sock connect addrs last_err|]; cbn in Hat; [| | |done].
  - pose proof (connect_loop_block addrs (KindError InvalidData) cx (w_ring w) (w_libc w) w t (2 + n) Hat) as Hp.
    rewrite Ew in Hp. by replace (3 + 3 * length addrs + n)%nat with (1 + 3 * length addrs + (2 + n))%nat by lia.
  - cbn. by rewrite Hat.
  - pose proof (connect_await_block sock connect addrs last_err cx (w_ring w) (w_libc w) w t n
      (connect_loop_block addrs) Hat) as Hp. by rewrite Ew in Hp.
Qed.
End equivalence.
