(* ===== verification/Programs.v ===== *)
(** The small examples: src/examples/timer.rs, sub_tasks.rs, udp.rs, tcp.rs
    and tcp_serv.rs, as blocks of Async.v.

    [main] runs on a thread of its own.  Logging has no effect and is left
    out.  A local that owns a descriptor is closed where its scope ends. *)
From ITree Require Import ITree.
From S2P Require Import Prelude Bytes Crates CrateModels Results Reactor Io Sqe Libc SockAddr Event ReadWrite Fs Timer Tcp Udp Mutex Task TaskProps TaskLoop Joins Async AsyncProps Text.

Open Scope Z_scope.

Definition from_secs (n : Z) : Z := n * NS.
Definition from_millis (n : Z) : Z := n * 10 ^ 6.

(** [Ipv4Addr::LOCALHOST] and [Ipv4Addr::UNSPECIFIED] *)
Definition LOCALHOST : Z := 2130706433.
Definition UNSPECIFIED : Z := 0.

(** [anyhow::Error]: made from an error of the system, with or without a context. *)
Class Anyhow (E : Type) := {
  from_io : io_error -> E;
  context : string -> io_error -> E;
}.

(** ** What the blocks have in common *)
Section blocks.
Context {Code Val : Type}.
Abbreviation block := (body Code Val).

(** [println!] *)
Definition println (s : string) : block unit := call (CPrint s).

(** [Timer::sleep(d).unwrap().await] *)
Definition sleep_for (d : Z) : block unit :=
  r ← call (CSleep d);
  t ← unwrap_io r;
  await (ATimer t).

(** [drop] of a socket or a file *)
Definition close (fd : Z) : block unit := call (CClose fd).

(** A buffer after a read: the bytes read, then what it had. *)
Definition fill (buf bs : list Z) : list Z := take (length buf) (bs ++ drop (length bs) buf).

(** [x + 1] *)
Definition add_one (w x : Z) : block Z :=
  if decide (x + 1 < 2 ^ w) then mret (x + 1) else crash ArithOverflow.
End blocks.

Section main.
Context {S : Type -> Type} `{Slab S} {B : Type} `{RingBuffer B}.
Context {U : Type} `{IoUring U sqe} {L : Type} `{Libc L} `{Host} `{NetOrder} `{!Process L}.
Context {Code Val : Type} (code : Code -> body Code Val Val).
Abbreviation world := (world S B U L (body Code Val Val) Val).

(** [Executor::spawn(async { .. });]: the joiner is dropped at once. *)
Definition spawn_detached (c : Code) (w : world) : outcome world :=
  '(j, w) ← spawn (code c) w;
  joiner_drop j w.

(** [Executor::run()] *)
Definition run_blocks (rounds fuel : nat) (w : world) : outcome world :=
  Task.run (poll_block code fuel) rounds fuel w.
End main.

(** ** timer.rs *)
Module TimerExample.
Inductive code := TaskA | Taska.

Definition hello_upper : body code unit unit :=
  _ ← sleep_for (from_secs 2);
  _ ← println "Hello A!";
  _ ← sleep_for (from_secs 1);
  _ ← println "Hello B!";
  _ ← sleep_for (from_secs 1);
  println "Hello C!".

Definition hello_lower : body code unit unit :=
  _ ← sleep_for (from_secs 2);
  _ ← println "Hello a!";
  _ ← sleep_for (from_secs 1);
  _ ← println "Hello b!";
  _ ← sleep_for (from_secs 1);
  println "Hello c!".

Definition run_code (c : code) : body code unit unit :=
  match c with TaskA => hello_upper | Taska => hello_lower end.

Section main.
Context {S : Type -> Type} `{Slab S} {B : Type} `{RingBuffer B}.
Context {U : Type} `{IoUring U sqe} {L : Type} `{Libc L} `{Host} `{NetOrder} `{!Process L}.

Definition main (rounds fuel : nat) (w : world S B U L (body code unit unit) unit) : outcome _ :=
  w ← spawn_detached run_code TaskA w;
  w ← spawn_detached run_code Taska w;
  run_blocks run_code rounds fuel w.
End main.
End TimerExample.

(** ** sub_tasks.rs *)
Module SubTasks.
Inductive code := Main | Task2.
Inductive value := Unit | I32 (n : Z).

#[export] Instance value_eq_dec : EqDecision value.
Proof. solve_decision. Defined.

Definition task2 : body code value value :=
  _ ← println "Hello from other task";
  _ ← sleep_for (from_secs 1);
  _ ← println "Bye bye from other task";
  mret (I32 24).

(** [assert_eq!(v, expected)] *)
Definition assert_eq (v expected : value) : body code value unit :=
  if decide (v = expected) then mret tt else crash (Explicit "assertion `left == right` failed").

Definition main_block : body code value value :=
  _ ← sleep_for (from_secs 2);
  _ ← println "Hello A!";
  task2 ← call (CSpawn Task2);
  _ ← sleep_for (from_secs 1);
  _ ← println "Hello B!";
  v ← await (AJoin task2);
  _ ← assert_eq v (I32 24);
  _ ← sleep_for (from_secs 1);
  _ ← println "Hello C!";
  mret Unit.

Definition run_code (c : code) : body code value value :=
  match c with Main => main_block | Task2 => task2 end.

Section main.
Context {S : Type -> Type} `{Slab S} {B : Type} `{RingBuffer B}.
Context {U : Type} `{IoUring U sqe} {L : Type} `{Libc L} `{Host} `{NetOrder} `{!Process L}.

Definition main (rounds fuel : nat) (w : world S B U L (body code value value) value) : outcome _ :=
  block_on (poll_block run_code fuel) rounds fuel (run_code Main) w.
End main.
End SubTasks.

(** [Executor::spawn] of the greetings of udp.rs, tcp.rs and tcp_serv.rs. *)
Definition hello_abc {Code Val} : body Code Val unit :=
  _ ← sleep_for (from_millis 500);
  _ ← println "Hello A!";
  _ ← sleep_for (from_secs 1);
  _ ← println "Hello B!";
  _ ← sleep_for (from_secs 1);
  println "Hello C!".

(** ** udp.rs *)
Module UdpExample.
Inductive code := Hello | Receiver | Sender.

Definition receiver : body code unit unit :=
  let buf_len := 1500 in
  r ← call (CUdpBind (V4 LOCALHOST 9998));
  udpsock ← unwrap_io r;
  r ← await (ARecvFrom (RecvFrom.recv_from udpsock buf_len));
  '(len, src) ← unwrap_io r;
  _ ← println (String.concat "" ["Received "; show len; " bytes from "; show_addr src]);
  close udpsock.

Definition sender : body code unit unit :=
  let buf := replicate 20 173 in
  r ← call (CUdpBind (V4 LOCALHOST 0));
  udpsock ← unwrap_io r;
  _ ← sleep_for (from_secs 1);
  r ← await (ASendTo (SendTo.send_to udpsock (Z.of_nat (length buf)) (Ok [V4 LOCALHOST 9998])));
  len ← unwrap_io r;
  _ ← println (String.concat "" ["Sent "; show len; " bytes"]);
  close udpsock.

Definition run_code (c : code) : body code unit unit :=
  match c with Hello => hello_abc | Receiver => receiver | Sender => sender end.

Section main.
Context {S : Type -> Type} `{Slab S} {B : Type} `{RingBuffer B}.
Context {U : Type} `{IoUring U sqe} {L : Type} `{Libc L} `{Host} `{NetOrder} `{!Process L}.

Definition main (rounds fuel : nat) (w : world S B U L (body code unit unit) unit) : outcome _ :=
  w ← spawn_detached run_code Hello w;
  w ← spawn_detached run_code Receiver w;
  w ← spawn_detached run_code Sender w;
  run_blocks run_code rounds fuel w.
End main.
End UdpExample.

(** ** The echo loop of tcp.rs and tcp_serv.rs *)
Section echo.
Context {E : Type} `{Anyhow E} {Code Val : Type}.
Abbreviation block := (body Code Val).

(** One turn, with [bytes_read] and [buf]; on the right: the block returns. *)
Definition echo_turn (sock : TcpStream.TcpStream) (st : Z * list Z) : block (Z * list Z + result Z E) :=
  let '(bytes_read, buf) := st in
  r ← await (ARead (TcpStream.read sock (Z.of_nat (length buf))));
  match r with
  | Err e => mret (inr (Err (from_io e)))
  | Ok bs =>
      let buf := fill buf bs in
      if decide (length bs = 0%nat) then mret (inr (Ok bytes_read))
      else
        bytes_read ← add_one 64 bytes_read;
        r ← await (AWrite buf (TcpStream.write sock (Z.of_nat (length buf))));
        match r with
        | Err e => mret (inr (Err (from_io e)))
        | Ok _ => mret (inl (bytes_read, buf))
        end
  end.

(** [loop { .. }], then the socket is dropped. *)
Definition echo_loop (sock : TcpStream.TcpStream) (bytes_read : Z) (buf : list Z) : block (result Z E) :=
  r ← ITree.iter (echo_turn sock) (bytes_read, buf);
  _ ← close (TcpStream.inner sock);
  mret r.
End echo.

(** The values of the tasks of tcp.rs and tcp_serv.rs. *)
Inductive echo_value (E : Type) := Done | Echoed (r : result Z E).
Arguments Done {E}.
Arguments Echoed {E} r.

Inductive echo_code := Hello | Echo.

Section echo_main.
Context {E : Type} `{Anyhow E}.
Context {S : Type -> Type} `{Slab S} {B : Type} `{RingBuffer B}.
Context {U : Type} `{IoUring U sqe} {L : Type} `{Libc L} `{Host} `{NetOrder} `{!Process L}.
Context (run_code : echo_code -> body echo_code (echo_value E) (echo_value E)).
Abbreviation world := (world S B U L (body echo_code (echo_value E) (echo_value E)) (echo_value E)).

(** The [main] of both: the greetings, the echo task, [run], then the value
    of the echo task, which is printed or returned as an error. *)
Definition echo_main (rounds fuel : nat) (w : world) : outcome (result unit E * world) :=
  w ← spawn_detached run_code Hello w;
  '(echo_task, w) ← spawn (run_code Echo) w;
  w ← run_blocks run_code rounds fuel w;
  '(v, w) ← join echo_task w;
  match v with
  | Echoed (Ok bytes_read) =>
      let l := eprint (String.concat "" ["Conversation finished.  Read "; show bytes_read; " bytes"]) (w_libc w) in
      mret (Ok tt, set_libc l w)
  | Echoed (Err e) => mret (Err e, w)
  | Done => Panic UnreachableCode        (* the task is a [TaskJoiner<Result<usize>>] *)
  end.
End echo_main.

(** ** tcp.rs *)
Module TcpExample.
Section blocks.
Context {E : Type} `{Anyhow E}.

Definition echo : body echo_code (echo_value E) (result Z E) :=
  let buf := [0] in
  let bytes_read := 0 in
  r ← await (AConnect (Connect.Unresumed (Ok [V4 LOCALHOST 5000])));
  match r with
  | Err e => mret (Err (context "Could not connect" e))
  | Ok sock => echo_loop sock bytes_read buf
  end.

Definition run_code (c : echo_code) : body echo_code (echo_value E) (echo_value E) :=
  match c with
  | Hello => _ ← hello_abc; mret Done
  | Echo => r ← echo; mret (Echoed r)
  end.
End blocks.

Section main.
Context {E : Type} `{Anyhow E}.
Context {S : Type -> Type} `{Slab S} {B : Type} `{RingBuffer B}.
Context {U : Type} `{IoUring U sqe} {L : Type} `{Libc L} `{Host} `{NetOrder} `{!Process L}.

Definition main (rounds fuel : nat)
    (w : world S B U L (body echo_code (echo_value E) (echo_value E)) (echo_value E)) : outcome _ :=
  echo_main run_code rounds fuel w.
End main.
End TcpExample.

(** ** tcp_serv.rs *)
Module TcpServ.
Section blocks.
Context {E : Type} `{Anyhow E}.
Abbreviation block := (body echo_code (echo_value E)).

Definition hello_abcd : block unit :=
  _ ← hello_abc;
  _ ← sleep_for (from_secs 1);
  println "Hello D!".

Definition echo : block (result Z E) :=
  let buf := [0] in
  let bytes_read := 0 in
  r ← call (CBind (Ok [V4 LOCALHOST 5000]));
  match r with
  | Err e => mret (Err (context "Could not bind" e))
  | Ok listener =>
      _ ← println "Waiting for connection on 127.0.0.1:5000";
      '(x, listener) ← await (ANext listener);
      conn ← unwrap_opt x;
      match conn with
      | Err e =>
          _ ← call (CListenerDrop listener);
          mret (Err (context "Could not accept incoming connection" e))
      | Ok conn =>
          _ ← call (CListenerDrop listener);
          echo_loop conn bytes_read buf
      end
  end.

Definition run_code (c : echo_code) : block (echo_value E) :=
  match c with
  | Hello => _ ← hello_abcd; mret Done
  | Echo => r ← echo; mret (Echoed r)
  end.
End blocks.

Section main.
Context {E : Type} `{Anyhow E}.
Context {S : Type -> Type} `{Slab S} {B : Type} `{RingBuffer B}.
Context {U : Type} `{IoUring U sqe} {L : Type} `{Libc L} `{Host} `{NetOrder} `{!Process L}.

Definition main (rounds fuel : nat)
    (w : world S B U L (body echo_code (echo_value E) (echo_value E)) (echo_value E)) : outcome _ :=
  echo_main run_code rounds fuel w.
End main.
End TcpServ.
