(* ===== verification/ProgramProps.v ===== *)
(** What the small examples do: their greetings, the echo, and what the
    [main] of tcp.rs and tcp_serv.rs reports. *)
From ITree Require Import ITree ITreeFacts.
From S2P Require Import Prelude Bytes Crates CrateModels Results Reactor Io Sqe Libc SockAddr Event ReadWrite Fs Timer Tcp Udp Mutex Task TaskProps TaskLoop Joins Async AsyncProps Text Programs.

Open Scope Z_scope.

(** ** Greetings *)
Section greetings.
Context {Code Val : Type}.
Abbreviation block := (body Code Val).

(** Sleep, print, sleep, print... *)
Fixpoint talk (l : list (Z * string)) : block unit :=
  match l with
  | [] => mret tt
  | (d, s) :: l => _ ← sleep_for d; _ ← println s; talk l
  end.

(** One greeting: the timer made for the delay is awaited before the line is printed. *)
Definition greeting (g : Z * string) (t : Timer.Timer) : list (obs (Code:=Code) (Val:=Val)) :=
  [Obs (Call (CSleep g.1)) (Ok t); Obs (Await (ATimer t)) tt; Obs (Call (CPrint g.2)) tt].

(** Everything a block that greets may do: all the greetings in order, or a
    panic at the first timer that cannot be made. *)
Definition greets (l : list (Z * string)) (tr : list (obs (Code:=Code) (Val:=Val))) (o : outcome unit) : Prop :=
  (o = Ret tt /\ exists ts, length ts = length l /\ tr = concat (zip_with greeting l ts)) \/
  (o = Panic UnwrapErr /\ exists l1 d s l2 ts e, l = l1 ++ (d, s) :: l2 /\ length ts = length l1 /\
     tr = concat (zip_with greeting l1 ts) ++ [Obs (Call (CSleep d)) (Err e)]).

Lemma greets_cons g l t tr o : greets l tr o -> greets (g :: l) (greeting g t ++ tr) o.
Proof.
  intros [(-> & ts & Hl & ->)|(-> & l1 & d & s & l2 & ts & e & -> & Hl & ->)].
  - left. split; [done|]. exists (t :: ts). cbn. by rewrite Hl.
  - right. split; [done|]. exists (g :: l1), d, s, l2, (t :: ts), e. cbn. by rewrite Hl.
Qed.

Lemma talk_greets l tr o : halts (talk l) tr o -> greets l tr o.
Proof.
  revert tr. induction l as [|[d s] l IH]; intros tr Ht; cbn [talk] in Ht.
  - inv_halts. left. split; [done|]. by exists [].
  - unfold sleep_for, println in Ht. inv_halts.
    + match goal with
      | |- greets _ ((([?c] ++ [] ++ [@Obs _ _ _ _ ?x]) ++ [@Obs _ _ _ _ ?y] ++ ?tr)) _ => destruct x, y
      end.
      by apply (greets_cons (d, s) l a), IH.
    + right. split; [done|]. exists [], d, s, l, [], e. done.
Qed.

(** *** The blocks are greetings *)
Lemma println_last (s : string) : (println s : block unit) ≈ (_ ← println s; mret tt).
Proof.
  symmetry. apply eq_sub_eutt.
  exact (bind_ret_r' (println s) (fun _ => tt) (fun u => match u with tt => eq_refl end)).
Qed.
End greetings.

(** The text of a block against [talk]: the same events, line by line. *)
Ltac greeting_steps :=
  repeat first [apply println_last | reflexivity | rewrite bind_bind | apply eqit_bind; [reflexivity|intros []]].

Lemma hello_abc_talks {Code Val} :
  (hello_abc : body Code Val unit) ≈
  talk [(from_millis 500, "Hello A!"%string); (from_secs 1, "Hello B!"%string); (from_secs 1, "Hello C!"%string)].
Proof. unfold hello_abc. cbn [talk]. greeting_steps. Qed.

Lemma hello_upper_talks :
  TimerExample.hello_upper ≈
  talk [(from_secs 2, "Hello A!"%string); (from_secs 1, "Hello B!"%string); (from_secs 1, "Hello C!"%string)].
Proof. unfold TimerExample.hello_upper. cbn [talk]. greeting_steps. Qed.

Lemma hello_lower_talks :
  TimerExample.hello_lower ≈
  talk [(from_secs 2, "Hello a!"%string); (from_secs 1, "Hello b!"%string); (from_secs 1, "Hello c!"%string)].
Proof. unfold TimerExample.hello_lower. cbn [talk]. greeting_steps. Qed.

Lemma hello_abcd_talks {E} :
  (TcpServ.hello_abcd : body echo_code (echo_value E) unit) ≈
  talk [(from_millis 500, "Hello A!"%string); (from_secs 1, "Hello B!"%string);
        (from_secs 1, "Hello C!"%string); (from_secs 1, "Hello D!"%string)].
Proof.
  unfold TcpServ.hello_abcd, hello_abc. cbn [talk]. unfold mbind, itree_mbind.
  greeting_steps.
Qed.

(** ** The echo *)
Section echo.
Context {E : Type} `{Anyhow E} {Code Val : Type}.
Abbreviation block := (body Code Val).
Implicit Types (tr : list (obs (Code:=Code) (Val:=Val))).

Lemma length_fill buf bs : length (fill buf bs) = length buf.
Proof. unfold fill. rewrite length_take, length_app, length_drop. lia. Qed.

Lemma fill_one x bs : bs <> [] -> fill [x] bs = take 1 bs.
Proof. by destruct bs. Qed.

(** One turn: the end of the stream, an error, an overflow, or a byte echoed. *)
Lemma echo_turn_halts sock n x tr (o : outcome (Z * list Z + result Z E)) :
  let read := Await (ARead (TcpStream.read sock 1)) in
  let write bs := Await (AWrite bs (TcpStream.write sock 1)) in
  halts (echo_turn sock (n, [x]) : block _) tr o ->
  (o = Ret (inr (Ok n)) /\ tr = [Obs read (Ok [])]) \/
  (exists e, o = Ret (inr (Err (from_io e))) /\ tr = [Obs read (Err e)]) \/
  exists bs, bs <> [] /\
    ((2 ^ 64 <= n + 1 /\ o = Panic ArithOverflow /\ tr = [Obs read (Ok bs)]) \/
     (n + 1 < 2 ^ 64 /\ exists m, o = Ret (inl (n + 1, take 1 bs)) /\
        tr = [Obs read (Ok bs); Obs (write (take 1 bs)) (Ok m)]) \/
     (n + 1 < 2 ^ 64 /\ exists e, o = Ret (inr (Err (from_io e))) /\
        tr = [Obs read (Ok bs); Obs (write (take 1 bs)) (Err e)])).
Proof.
  intros read write Ht. unfold echo_turn in Ht. cbn [length] in Ht. inv_halts.
  inv_result bs e; [|inv_halts; right; left; by exists e].
  case_decide as Hbs; [apply nil_length_inv in Hbs as ->; inv_halts; by left|].
  right; right. exists bs. split; [by intros ->|]. rewrite length_fill, fill_one in Ht by by intros ->.
  unfold add_one in Ht. case_decide; inv_halts; [|left; split_and!; [lia|done..]].
  inv_result m e; inv_halts; right; [left|right]; (split; [done|]; by eexists).
Qed.
(** What came in, and what went out. *)
Definition echoed (sock : TcpStream.TcpStream) (chunks : list (list Z)) (last : list (io_result (list Z))) tr : Prop :=
  Forall (fun bs => bs <> []) chunks /\
  reads (TcpStream.inner sock) tr = (Ok <$> chunks) ++ last /\
  writes (TcpStream.inner sock) tr = take 1 <$> chunks /\ closes tr = [].

(** The loop from [n] bytes on. *)
Definition echo_outcome sock n tr (o : outcome (result Z E)) : Prop :=
  exists chunks,
    (o = Ret (Ok (n + Z.of_nat (length chunks))) /\ echoed sock chunks [Ok []] tr) \/
    (exists e, o = Ret (Err (from_io e)) /\ (echoed sock chunks [Err e] tr \/ echoed sock chunks [] tr)) \/
    (o = Panic ArithOverflow /\ 2 ^ 64 <= n + Z.of_nat (length chunks) + 1 /\
     exists bs, bs <> [] /\ echoed sock chunks [Ok bs] tr).

Lemma echoed_turn sock bs r chunks last tr :
  bs <> [] -> echoed sock chunks last tr ->
  echoed sock (bs :: chunks) last
    ([Obs (Await (ARead (TcpStream.read sock 1))) (Ok bs);
      Obs (Await (AWrite (take 1 bs) (TcpStream.write sock 1))) r] ++ tr).
Proof.
  intros Hbs (Hc & Hr & Hw & Hcl). split; [by constructor|]. unfold reads, writes, closes in *.
  rewrite !pick_app, Hr, Hw, Hcl. cbn. by rewrite !decide_True.
Qed.

Lemma echoed_last sock r :
  echoed sock [] [r] [Obs (Await (ARead (TcpStream.read sock 1))) r].
Proof. split; [done|]. unfold reads, writes. cbn. by rewrite decide_True. Qed.

Lemma echo_rounds sock n x tr o :
  rounds (echo_turn sock : _ -> block _) (n, [x]) tr o -> echo_outcome sock n tr o.
Proof.
  intros Hr. remember (n, [x]) as st eqn:Est. revert n x Est.
  induction Hr as [i tr v Hr|i tr p Hr|i j tr1 tr2 o Hr _ IH]; intros n x ->;
    apply echo_turn_halts in Hr as [[? ->]|[(e & ? & ->)|(bs & Hbs & [(Hn & ? & ->)|[(Hn & m & ? & ->)|(Hn & e & ? & ->)]])]];
    simplify_eq.
  - exists []. left. cbn. rewrite Z.add_0_r. split; [done|apply echoed_last].
  - exists []. right; left. exists e. split; [done|]. left. apply echoed_last.
  - exists [bs]. right; left. exists e. split; [done|]. right.
    eapply (echoed_turn sock bs (Err e) [] [] []); [done|]. by split.
  - exists []. right; right. split; [done|]. cbn. split; [lia|]. exists bs. split; [done|apply echoed_last].
  - assert (exists y, take 1 bs = [y]) as [y Ey] by (destruct bs as [|y bs]; [done|by exists y]).
    destruct (IH (n + 1) y) as (chunks & Hc); [by rewrite Ey|]. exists (bs :: chunks). cbn [length].
    destruct Hc as [[-> He]|[(e & -> & He)|(-> & Hn' & bs' & Hbs' & He)]].
    + left. split; [do 2 f_equal; lia|]. by apply echoed_turn.
    + right; left. exists e. split; [done|]. destruct He; [left|right]; by apply echoed_turn.
    + right; right. split; [done|]. split; [lia|]. exists bs'. split; [done|]. by apply echoed_turn.
Qed.

(** C23: the echo: whatever the socket answers, the loop writes back exactly the
    bytes it read, one by one and in order, until the end of the stream, and returns
    their number; it stops at the first error of a read or a write and
    returns it.  In both cases it closes the socket last, once; it panics only
    when the number of bytes does not fit. *)
Theorem echo_echoes sock tr (o : outcome (result Z E)) :
  halts (echo_loop sock 0 [0] : block _) tr o ->
  exists chunks tr1,
    match o with
    | Ret r => tr = tr1 ++ [Obs (Call (CClose (TcpStream.inner sock))) tt] /\
        match r with
        | Ok n => n = Z.of_nat (length chunks) /\ echoed sock chunks [Ok []] tr1
        | Err e => exists e', e = from_io e' /\ (echoed sock chunks [Err e'] tr1 \/ echoed sock chunks [] tr1)
        end
    | Panic p => p = ArithOverflow /\ 2 ^ 64 <= Z.of_nat (length chunks) + 1
    | _ => False
    end.
Proof.
  unfold echo_loop, close. intros Ht. apply halts_bind in Ht as [(r & tr1 & tr2 & -> & Hl & Ht)|(p & -> & Hl)];
    apply halts_iter, echo_rounds in Hl as (chunks & Hc).
  - inv_halts. exists chunks, tr1. split; [by match goal with u : unit |- _ => destruct u end|].
    destruct Hc as [[? He]|[(e & ? & He)|(? & _)]]; simplify_eq; [by split|by exists e].
  - exists chunks, []. destruct Hc as [[? He]|[(e & ? & He)|(? & ? & _)]]; simplify_eq. split; [done|lia].
Qed.
End echo.

(** ** What [main] reports *)
Section main.
Context {E : Type} `{Anyhow E}.
Context {S : Type -> Type} `{SlabSpec S} {B : Type} `{RingBuffer B}.
Context {U : Type} `{IoUring U sqe} {L : Type} `{Libc L} `{Host} `{NetOrder} `{!Process L}.
Abbreviation block := (body echo_code (echo_value E)).
Abbreviation world := (world S B U L (block (echo_value E)) (echo_value E)).
Implicit Types (w : world).

Lemma spawn_detached_safe code c w w' :
  spawn_detached code c w = Ret w' -> rtc (user_step (fun _ => True)) w w'.
Proof.
  unfold spawn_detached. intros Hs. inv_bind. destruct a as [j w1].
  eapply rtc_l; [by eapply us_spawn|]. by eapply joiner_drop_safe.
Qed.

(** The line [main] prints. *)
Definition report (n : Z) : string :=
  String.concat "" ["Conversation finished.  Read "; show n; " bytes"]%string.

Lemma echo_main_joins run_code rounds fuel w r w' :
  wf [] w -> echo_main run_code rounds fuel w = Ret (r, w') ->
  exists v tr, halts (run_code Echo) tr (Ret v) /\
    match v with
    | Echoed (Ok n) => r = Ok tt /\ exists l, w_libc w' = eprint (report n) l
    | Echoed (Err e) => r = Err e
    | Done => False
    end.
Proof.
  unfold echo_main. intros Hw Hm. inv_bind. rename a into w1. destruct a0 as [j w2]. inv_bind.
  rename a into w3. destruct a0 as [v w4]. apply spawn_detached_safe in Ha.
  apply (wf_user_steps _ _ _ _ Ha) in Hw.
  pose proof (joined_value _ (block_safe run_code fuel) _ _ _ _ _ _ _ _ _ _ Hw Ha0 (rtc_refl _ _) Ha1 Ha2) as Hy.
  apply block_yields in Hy as [tr Htr]. exists v, tr. split; [done|].
  destruct v as [|[n|e]]; [done|by inv_bind; eauto|by inv_bind].
Qed.
End main.
