(* ===== verification/Output.v ===== *)
(** What a program prints: the standard output of a world, which only
    [println!] changes, and what a poll of a block does to it and to the
    tasks of the thread. *)
From ITree Require Import ITree.
From S2P Require Import Prelude Bytes Crates CrateModels Results Reactor Io Sqe Libc SockAddr Event ReadWrite Fs Timer Tcp Udp Mutex Task TaskProps TaskLoop Joins Async AsyncProps.

(** A part of the process that no call changes but those named for it. *)
Class Quiet {L V : Type} `{Libc L} `{!Process L} (view : L -> V) : Prop := {
  quiet_eprint : forall s l, view (eprint s l) = view l;
  quiet_buffer_of : forall fd n l, view (buffer_of fd n l).2 = view l;
  quiet_udp_bind : forall a l, view (udp_bind a l).2 = view l;
  quiet_instant : forall l, view (instant l).2 = view l;
  quiet_eventfd : forall n fl l, view (sys_eventfd n fl l).2 = view l;
  quiet_write : forall fd bs l, view (sys_write fd bs l).2 = view l;
  quiet_try_clone : forall fd l, view (try_clone fd l).2 = view l;
  quiet_close : forall fd l, view (sys_close fd l) = view l;
  quiet_socket : forall f t p l, view (sys_socket f t p l).2 = view l;
  quiet_bind : forall fd a n l, view (sys_bind fd a n l).2 = view l;
  quiet_listen : forall fd n l, view (sys_listen fd n l).2 = view l;
  quiet_lseek : forall fd o wh l, view (sys_lseek fd o wh l).2 = view l;
  quiet_timerfd_create : forall c fl l, view (sys_timerfd_create c fl l).2 = view l;
  quiet_timerfd_settime : forall fd fl s ns l, view (sys_timerfd_settime fd fl s ns l).2 = view l;
  quiet_now : forall l, view (sys_now l).2 = view l;
}.

(** The standard output, line by line: [print] adds a line, nothing else changes it. *)
Class Output (L : Type) `{Libc L} `{!Process L} := {
  out : L -> list string;
  #[global] out_quiet :: Quiet out;
  out_print : forall s l, out (print s l) = out l ++ [s];
  out_store : forall i v l, out (store i v l) = out l;
}.

(** The shared objects: [load] gives what was stored last. *)
Class Memory (L : Type) `{Libc L} `{!Process L} : Prop := {
  #[global] load_quiet i :: Quiet (load i);
  load_print : forall i s l, load i (print s l) = load i l;
  load_store : forall i j v l, load i (store j v l) = if decide (i = j) then v else load i l;
}.

(** Take the calls of a goal apart, with what they do to the output. *)
Ltac quiet_call c law :=
  let E := fresh "Eout" in let r := fresh "res" in let k := fresh "l" in
  pose proof law as E; destruct c as [r k]; cbn [fst snd] in E.
Ltac quiet_step :=
  match goal with
  | |- context [sys_eventfd ?n ?fl ?l] => quiet_call (sys_eventfd n fl l) (quiet_eventfd n fl l)
  | |- context [sys_write ?fd ?bs ?l] => quiet_call (sys_write fd bs l) (quiet_write fd bs l)
  | |- context [try_clone ?fd ?l] => quiet_call (try_clone fd l) (quiet_try_clone fd l)
  | |- context [sys_socket ?f ?t ?p ?l] => quiet_call (sys_socket f t p l) (quiet_socket f t p l)
  | |- context [sys_bind ?fd ?a ?n ?l] => quiet_call (sys_bind fd a n l) (quiet_bind fd a n l)
  | |- context [sys_listen ?fd ?n ?l] => quiet_call (sys_listen fd n l) (quiet_listen fd n l)
  | |- context [sys_lseek ?fd ?o ?wh ?l] => quiet_call (sys_lseek fd o wh l) (quiet_lseek fd o wh l)
  | |- context [sys_timerfd_create ?c ?fl ?l] => quiet_call (sys_timerfd_create c fl l) (quiet_timerfd_create c fl l)
  | |- context [sys_timerfd_settime ?fd ?fl ?s ?ns ?l] =>
      quiet_call (sys_timerfd_settime fd fl s ns l) (quiet_timerfd_settime fd fl s ns l)
  | |- context [sys_now ?l] => quiet_call (sys_now l) (quiet_now l)
  end.
Ltac quiet := repeat (quiet_step || case_decide || case_match); cbn; rewrite ?quiet_close; try congruence.

Section quiet.
Context {L V : Type} `{Libc L} `{!Process L} {view : L -> V} `{!Quiet view} `{Host} `{NetOrder}.
Implicit Types (l : L).

(** What is left of an outcome is as loud as [l]. *)
Definition silent {A} (l : L) (o : outcome (A * L)) : Prop := match o with Ret (_, l') => view l' = view l | _ => True end.

Lemma event_new_quiet l : view (Event.new l).2 = view l.
Proof. unfold Event.new. quiet. Qed.

Lemma notify_quiet e l : view (Event.notify_one e l).2 = view l.
Proof. unfold Event.notify_one. quiet. Qed.

Lemma clone_quiet e l : silent l (Event.clone e l).
Proof. unfold Event.clone, silent. quiet_step. by destruct res. Qed.

Lemma guard_drop_quiet m l l' : Mutex.guard_drop (A:=nat) m l = Ret l' -> view l' = view l.
Proof.
  unfold Mutex.guard_drop. pose proof (notify_quiet (Mutex.evt m) l) as E.
  destruct (Event.notify_one (Mutex.evt m) l) as [r l1]. intros Hg. inv_bind. done.
Qed.

Lemma sleep_quiet d l : silent l (Timer.sleep d l).
Proof.
  unfold Timer.sleep, silent. quiet_step. destruct (time_add res d); cbn; [|done..].
  quiet_step. case_decide; cbn; congruence.
Qed.

Lemma seek_quiet f pos l : view (File.seek f pos l).2 = view l.
Proof. unfold File.seek. quiet. Qed.

Lemma mk_sock_quiet a l : view (mk_sock a l).2 = view l.
Proof. unfold mk_sock. quiet. Qed.

Lemma bind_loop_quiet addrs e l : silent l (TcpListener.bind_loop addrs e l).
Proof.
  revert e l. induction addrs as [|a addrs IH]; intros e l; cbn [TcpListener.bind_loop]; [done|].
  pose proof (mk_sock_quiet a l) as E. destruct (mk_sock a l) as [[s|er] l1]; cbn in E; [|done].
  assert (forall l2, view l2 = view l -> silent l (TcpListener.bind_loop addrs (last_os_error l2) (drop_fd s l2))) as Hnext.
  { intros l2 E2. specialize (IH (last_os_error l2) (drop_fd s l2)). unfold silent in *.
    destruct (TcpListener.bind_loop addrs _ _) as [[r l3]| | |]; [|done..]. by rewrite IH, quiet_close. }
  quiet_step. case_decide; [apply Hnext; congruence|]. quiet_step.
  case_decide; [apply Hnext; congruence|]. case_decide; cbn; [congruence|done].
Qed.

Lemma bind_quiet addrs l : silent l (TcpListener.bind addrs l).
Proof. destruct addrs; [apply bind_loop_quiet|done]. Qed.

Section ring.
Context {S : Type -> Type} `{Slab S} {B : Type} `{RingBuffer B} {U : Type} `{IoUring U sqe}.
Abbreviation ring := (ReactorInner S B U nat).

(** The environment of a submission is left as it is, or as the closure leaves it. *)
Lemma submit_env {C} (P : C -> Prop) self (r : ring) c f p io r' c' :
  (forall e o c', f c = Ret (e, o, c') -> P c') -> P c ->
  Oneshot.submit_or_get_result self r c f = Ret (p, io, r', c') -> P c'.
Proof.
  intros Hf Hc E. unfold Oneshot.submit_or_get_result in E. inv_bind. destruct a as [[s1 r1] c1].
  assert (c1 = c') as <- by by inv_bind. clear E. destruct self as [|slot|res].
  - inv_bind. destruct a as [[e o] c2]. inv_bind. destruct a as [[ud slot] r2]. inv_bind. by eapply Hf.
  - inv_bind. destruct a as [[res|] o]; by inv_bind.
  - by inv_bind.
Qed.

Lemma arm_timer_quiet (cx : nat) t l e cx' t' l' :
  Timer.arm_timer cx (t, l) = Ret (e, cx', (t', l')) -> view l' = view l.
Proof.
  unfold Timer.arm_timer. pose proof (quiet_now l) as E1. destruct (sys_now l) as [now l1].
  destruct (duration_since _ _) as [d|d]; cbn; [|done].
  pose proof (quiet_timerfd_settime (Timer.fd t) 0 (as_s 64 (d / NS)) (d mod NS) l1) as E2.
  destruct (sys_timerfd_settime _ _ _ _ l1) as [r l2]. case_decide; cbn; [done|]. cbn in *.
  intros [= _ _ _ <-]. congruence.
Qed.

Lemma timer_poll_quiet t (cx : nat) (r : ring) l p t' r' l' :
  Timer.poll t cx r l = Ret (p, t', r', l') -> view l' = view l.
Proof.
  unfold Timer.poll. pose proof (quiet_now l) as E1. destruct (sys_now l) as [now l1]. cbn in E1.
  case_decide; [by intros [= _ _ _ <-]|]. intros Ep. inv_bind. destruct a as [[[x io] r1] [t1 l2]]. inv_bind.
  apply (submit_env (fun c => view c.2 = view l1)) in Ha; [cbn in Ha; congruence| |done].
  intros e cx' [t2 l3]. apply arm_timer_quiet.
Qed.

Lemma lock_quiet m st (cx : nat) (r : ring) l p st' r' l' :
  Mutex.lock (A:=nat) m st cx r l = Ret (p, st', r', l') -> view l' = view l.
Proof.
  assert (forall evt waiter l1, Mutex.await evt waiter cx r l1 = Ret (p, st', r', l') -> view l' = view l1) as Haw.
  { intros evt waiter l1 E. unfold Mutex.await in E. inv_bind. destruct a as [[x w'] r1]. destruct x as [x|]; inv_bind; [|done].
    unfold Event.drop. apply quiet_close. }
  unfold Mutex.lock. destruct st as [|evt waiter|]; [|by apply Haw|done]. intros E. inv_bind.
  destruct a as [evt l1]. pose proof (clone_quiet (Mutex.evt m) l) as E2. rewrite Ha in E2. cbn in E2.
  rewrite <- E2. by eapply Haw.
Qed.

Lemma lock_drop_quiet st (r : ring) l r' l' : Mutex.lock_drop st r l = Ret (r', l') -> view l' = view l.
Proof.
  unfold Mutex.lock_drop. destruct st; [by intros [= _ <-]| |by intros [= _ <-]]. intros E. inv_bind.
  apply quiet_close.
Qed.

Lemma connect_loop_quiet addrs e (cx : nat) (r : ring) l p st' r' l' :
  Connect.connect_loop addrs e cx r l = Ret (p, st', r', l') -> view l' = view l.
Proof.
  revert e r l. induction addrs as [|a addrs IH]; intros e r l E; cbn in E; [by injection E as _ _ _ <-|].
  pose proof (mk_sock_quiet a l) as Es. destruct (mk_sock a l) as [[s|er] l1]; cbn in Es; [|by injection E as _ _ _ <-].
  inv_bind. destruct a0 as [[x c'] r1]. destruct x as [[u|er]|]; inv_bind; [done| |done].
  apply IH in E. by rewrite E, quiet_close.
Qed.

Lemma connect_quiet st (cx : nat) (r : ring) l p st' r' l' :
  Connect.poll st cx r l = Ret (p, st', r', l') -> view l' = view l.
Proof.
  unfold Connect.poll. destruct st as [[addrs|e]|s c addrs e|]; [apply connect_loop_quiet|by intros [= _ _ _ <-]| |done].
  intros E. inv_bind. destruct a as [[x c'] r1]. destruct x as [[u|er]|]; inv_bind; [done| |done].
  apply connect_loop_quiet in E. by rewrite E, quiet_close.
Qed.

Lemma connect_drop_quiet st (r : ring) l r' l' : Connect.drop st r l = Ret (r', l') -> view l' = view l.
Proof.
  unfold Connect.drop. destruct st; [by intros [= _ <-]| |by intros [= _ <-]]. intros E. inv_bind.
  apply quiet_close.
Qed.
End ring.
End quiet.
