(* ===== verification/Seen.v ===== *)
(** What a task is seen to do: the calls it makes and the futures it awaits,
    with their answers, without the states these futures go through.  The
    events of one poll are computed by [poll_log], next to [poll_body]. *)
From ITree Require Import ITree.
From S2P Require Import Prelude Bytes Crates CrateModels Results Reactor Io Sqe Libc SockAddr Event ReadWrite Fs Timer Tcp Udp Mutex Task TaskProps TaskLoop Joins Async AsyncProps Output.

(** What an awaited future is, whatever state it is in. *)
Variant label :=
  | LTimer (fd : Z)
  | LRead (fd buf_len : Z)
  | LWrite (bytes : list Z) (fd : Z)
  | LOpen (path : list Z)
  | LMkdir (path : list Z)
  | LNext (fd : Z)
  | LConnect
  | LSockConnect (fd : Z)
  | LRecvFrom (fd : Z)
  | LSendTo (fd : Z)
  | LWait (fd : Z)
  | LLock (m : Mutex.Mutex nat)
  | LJoin (ch : nat).

Definition label_of {Val X} (a : awaitE Val X) : label :=
  match a with
  | ATimer t => LTimer (Timer.fd t)
  | ARead r => LRead (AsyncReader.fd r) (AsyncReader.buf_len r)
  | AWrite bs w => LWrite bs (AsyncWriter.fd w)
  | AOpen f => LOpen (FileOpen.path f)
  | AMkdir m => LMkdir (Mkdir.path m)
  | ANext l => LNext (TcpListener.inner l)
  | AConnect _ => LConnect
  | ASockConnect c => LSockConnect (SockConnect.fd c)
  | ARecvFrom r => LRecvFrom (RecvFrom.sock r)
  | ASendTo s => LSendTo (SendTo.sock s)
  | AWait w => LWait (EventWaiter.inner w)
  | ALock m _ => LLock m
  | AJoin j => LJoin (rx j)
  end.

Section seen.
Context {Code : Type}.

Inductive seen :=
  | Awaited (a : label) {X : Type} (x : X)
  | Called {X : Type} (c : callE Code X) (x : X)
  | Crashed.

Definition see {Val} (o : obs (Code:=Code) (Val:=Val)) : seen :=
  match o with
  | Obs e x => match e in ioE _ _ Y return Y -> seen with
               | Await a => fun x => Awaited (label_of a) x
               | Call c => fun x => Called c x
               | Crash _ => fun _ => Crashed
               end x
  end.

(** *** Observers *)
Definition said_of (s : seen) : list string := match s with Called (CPrint s) _ => [s] | _ => [] end.
Definition spawned_of (s : seen) : list (Code * nat) :=
  match s with
  | Called c x => match c in callE _ Y return Y -> list (Code * nat) with CSpawn c => fun j => [(c, rx j)] | _ => fun _ => [] end x
  | _ => []
  end.

(** The accesses to a cell. *)
Variant access := Load (v : list Z) | Store (v : list Z).
Definition access_of (i : nat) (s : seen) : list access :=
  match s with
  | Called c x => match c in callE _ Y return Y -> list access with
                  | CLoad j => fun v => if decide (i = j) then [Load v] else []
                  | CStore j v => fun _ => if decide (i = j) then [Store v] else []
                  | _ => fun _ => []
                  end x
  | _ => []
  end.

Definition said (l : list seen) : list string := l ≫= said_of.
Definition spawned (l : list seen) : list (Code * nat) := l ≫= spawned_of.
Definition accesses i (l : list seen) : list access := l ≫= access_of i.

Lemma said_app l1 l2 : said (l1 ++ l2) = said l1 ++ said l2.
Proof. apply bind_app. Qed.
Lemma spawned_app l1 l2 : spawned (l1 ++ l2) = spawned l1 ++ spawned l2.
Proof. apply bind_app. Qed.
Lemma accesses_app i l1 l2 : accesses i (l1 ++ l2) = accesses i l1 ++ accesses i l2.
Proof. apply bind_app. Qed.

#[export] Instance spawned_perm : Proper ((≡ₚ) ==> (≡ₚ)) spawned.
Proof. apply bind_Permutation. Qed.

(** The observers of traces see the same. *)
Lemma said_see {Val} (tr : list (obs (Val:=Val))) : said (see <$> tr) = prints tr.
Proof.
  induction tr as [|[X e x] tr IH]; [done|].
  change (said_of (see (Obs e x)) ++ said (see <$> tr) = print_of X e x ++ prints tr). rewrite IH. f_equal.
  by destruct e as [? []|? []|].
Qed.
Lemma spawned_see {Val} (tr : list (obs (Val:=Val))) : (spawned (see <$> tr)).*1 = spawns tr.
Proof.
  induction tr as [|[X e x] tr IH]; [done|].
  change ((spawned_of (see (Obs e x)) ++ spawned (see <$> tr)).*1 = spawn_of X e x ++ spawns tr).
  rewrite fmap_app, IH. f_equal. by destruct e as [? []|? []|].
Qed.

(** The last value stored; each value loaded is the last one stored. *)
Fixpoint replays (v : list Z) (l : list access) (v' : list Z) : Prop :=
  match l with
  | [] => v' = v
  | Load x :: l => x = v /\ replays v l v'
  | Store x :: l => replays x l v'
  end.

Lemma replays_app v l1 v1 l2 v2 : replays v l1 v1 -> replays v1 l2 v2 -> replays v (l1 ++ l2) v2.
Proof.
  revert v. induction l1 as [|[x|x] l1 IH]; intros v; cbn; [by intros ->| |apply IH].
  intros [-> H1] H2. split; [done|by apply IH].
Qed.
End seen.
Arguments seen : clear implicits.

(** A view of the process, and how the events of a thread change it. *)
Class Watched {Code L V : Type} `{Libc L} `{!Process L} (view : L -> V) (changes : V -> list (seen Code) -> V -> Prop) : Prop := {
  #[global] watched_quiet :: Quiet view;
  watched_app : forall v l1 v1 l2 v2, changes v l1 v1 -> changes v1 l2 v2 -> changes v (l1 ++ l2) v2;
  watched_nil : forall v, changes v [] v;
  watched_awaited : forall v a X (x : X), changes v [Awaited a x] v;
  watched_print : forall s l, changes (view l) [Called (CPrint s) tt] (view (print s l));
  watched_load : forall i l, changes (view l) [Called (CLoad i) (load i l)] (view l);
  watched_store : forall i x l, changes (view l) [Called (CStore i x) tt] (view (store i x l));
  watched_other : forall v X (c : callE Code X) x,
    match c with CPrint _ | CLoad _ | CStore _ _ => False | _ => True end -> changes v [Called c x] v;
}.

(** The output grows by what is said. *)
#[export] Instance watched_out {Code L} `{Output L} :
  Watched (Code:=Code) (L:=L) out (fun v l v' => v' = v ++ said l).
Proof.
  split; try apply _; cbn; intros.
  - subst. by rewrite said_app, app_assoc.
  - by rewrite app_nil_r.
  - by rewrite app_nil_r.
  - apply out_print.
  - by rewrite app_nil_r.
  - by rewrite out_store, app_nil_r.
  - destruct c; cbn; by rewrite ?app_nil_r.
Qed.

(** A cell has the value stored last. *)
#[export] Instance watched_cell {Code L} `{Memory L} i :
  Watched (Code:=Code) (L:=L) (load i) (fun v l v' => replays v (accesses i l) v').
Proof.
  split; try apply _; cbn; intros.
  - rewrite accesses_app. by eapply replays_app.
  - done.
  - done.
  - by rewrite load_print.
  - case_decide; cbn; by subst.
  - rewrite load_store. case_decide; by cbn.
  - by destruct c.
Qed.

(** Nothing is looked at. *)
Definition unseen {L} (_ : L) : unit := tt.
#[export] Instance watched_nothing {Code L} `{Libc L} `{!Process L} :
  Watched (Code:=Code) (L:=L) unseen (fun _ _ _ => True).
Proof. by repeat split. Qed.

(** ** The labels of futures do not change when they are polled *)
Section labels.
Context {S : Type -> Type} `{Slab S} {B : Type} `{RingBuffer B} {U : Type} `{IoUring U sqe}.
Context {L : Type} `{Libc L} `{Host} `{NetOrder} `{!Process L}.
Abbreviation ring := (ReactorInner S B U nat).

(** What the closure of a submission keeps of its environment. *)
Lemma submit_keeps {C K} (key : C -> K) self (r : ring) c f p io r' c' :
  (forall e o c', f c = Ret (e, o, c') -> key c' = key c) ->
  Oneshot.submit_or_get_result self r c f = Ret (p, io, r', c') -> key c' = key c.
Proof. intros Hf E. by apply (submit_env (fun c' => key c' = key c)) in E. Qed.

Lemma timer_poll_fd t (cx : nat) (r : ring) (l : L) p t' r' l' :
  Timer.poll t cx r l = Ret (p, t', r', l') -> Timer.fd t' = Timer.fd t.
Proof.
  unfold Timer.poll. destruct (sys_now l) as [now l1]. case_decide; [by intros [= _ <- _ _]|]. intros Ep.
  inv_bind. destruct a as [[[x io] r1] [t1 l2]]. inv_bind.
  apply (submit_keeps (fun c => Timer.fd c.1)) in Ha; [done|]. intros e o [t2 l3]. unfold Timer.arm_timer. clear.
  destruct (sys_now l1) as [now2 l2]. destruct (duration_since _ _); cbn; [|done].
  destruct (sys_timerfd_settime _ _ _ _ _) as [q l4]. case_decide; cbn; [done|]. by intros [= _ _ <- _].
Qed.

Lemma reader_poll_fd f (cx : nat) (r : ring) p f' r' :
  AsyncReader.poll f cx r = Ret (p, f', r') ->
  AsyncReader.fd f' = AsyncReader.fd f /\ AsyncReader.buf_len f' = AsyncReader.buf_len f.
Proof.
  unfold AsyncReader.poll. intros E. inv_bind. destruct a as [[[x io] r1] this]. inv_bind.
  apply (submit_keeps (fun t => (AsyncReader.fd t, AsyncReader.buf_len t))) in Ha; [by injection Ha|].
  by intros e o c [= _ _ <-].
Qed.

Lemma writer_poll_fd f (cx : nat) (r : ring) p f' r' :
  AsyncWriter.poll f cx r = Ret (p, f', r') -> AsyncWriter.fd f' = AsyncWriter.fd f.
Proof.
  unfold AsyncWriter.poll. intros E. inv_bind. destruct a as [[[x io] r1] this]. inv_bind.
  apply (submit_keeps AsyncWriter.fd) in Ha; [done|]. by intros e o c [= _ _ <-].
Qed.

Lemma open_poll_path f (cx : nat) (r : ring) p f' r' :
  FileOpen.poll f cx r = Ret (p, f', r') -> FileOpen.path f' = FileOpen.path f.
Proof.
  unfold FileOpen.poll. intros E. inv_bind. destruct a as [[[x io] r1] this]. inv_bind.
  apply (submit_keeps FileOpen.path) in Ha; [done|]. by intros e o c [= _ _ <-].
Qed.

Lemma mkdir_poll_path f (cx : nat) (r : ring) p f' r' :
  Mkdir.poll f cx r = Ret (p, f', r') -> Mkdir.path f' = Mkdir.path f.
Proof.
  unfold Mkdir.poll. intros E. inv_bind. destruct a as [[[x io] r1] this]. inv_bind.
  apply (submit_keeps Mkdir.path) in Ha; [done|]. by intros e o c [= _ _ <-].
Qed.

Lemma sock_connect_poll_fd f (cx : nat) (r : ring) p f' r' :
  SockConnect.poll f cx r = Ret (p, f', r') -> SockConnect.fd f' = SockConnect.fd f.
Proof.
  unfold SockConnect.poll. intros E. inv_bind. destruct a as [[[x io] r1] this]. inv_bind.
  apply (submit_keeps SockConnect.fd) in Ha; [done|]. by intros e o c [= _ _ <-].
Qed.

Lemma waiter_poll_fd f (cx : nat) (r : ring) p f' r' :
  EventWaiter.poll f cx r = Ret (p, f', r') -> EventWaiter.inner f' = EventWaiter.inner f.
Proof.
  unfold EventWaiter.poll. intros E. inv_bind. destruct a as [[[x io] r1] this]. inv_bind.
  apply (submit_keeps EventWaiter.inner) in Ha; [done|]. by intros e o c [= _ _ <-].
Qed.

Lemma send_to_poll_fd f (cx : nat) (r : ring) p f' r' :
  SendTo.poll f cx r = Ret (p, f', r') -> SendTo.sock f' = SendTo.sock f.
Proof.
  unfold SendTo.poll. intros E. inv_bind. destruct a as [[[x io] r1] this]. inv_bind.
  apply (submit_keeps SendTo.sock) in Ha; [done|]. intros e o c Ef. inv_bind. destruct a as [e2 t2]. inv_bind.
  unfold SendTo.setup in Ha0. inv_bind. done.
Qed.

Lemma recv_from_poll_fd f (cx : nat) (r : ring) p f' r' :
  RecvFrom.poll f cx r = Ret (p, f', r') -> RecvFrom.sock f' = RecvFrom.sock f.
Proof.
  unfold RecvFrom.poll. intros E. inv_bind. destruct a as [[[x io] r1] this].
  apply (submit_keeps RecvFrom.sock) in Ha; [|by intros e o c; cbn; intros [= _ _ <-]].
  destruct x as [x|]; [|by inv_bind]. cbn in E. unfold RecvFrom.received in E.
  repeat (case_match; simplify_eq); by inv_bind.
Qed.

Lemma accept_poll_fd l (cx : nat) (r : ring) p l' r' :
  Accept.poll_next l cx r = Ret (p, l', r') -> TcpListener.inner l' = TcpListener.inner l.
Proof.
  unfold Accept.poll_next. intros E. inv_bind. destruct a as [[[x io] r1] this]. inv_bind. cbn.
  unfold Multishot.submit_or_get_result in Ha. destruct (TcpListener.io l) as [|slot ud].
  - inv_bind. destruct a as [[ud slot] r2]. by inv_bind.
  - inv_bind. destruct a as [v m]. by destruct v; inv_bind.
Qed.

Context {Code Val : Type}.
Abbreviation world := (world S B U L (body Code Val Val) Val).

Lemma joiner_poll_ch j cx (w : world) p j' w' : joiner_poll j cx w = Ret (p, j', w') -> rx j' = rx j.
Proof.
  unfold joiner_poll. intros E. inv_bind. destruct a as [[q wt] r]. destruct q as [x|]; inv_bind; [|done].
  destruct a0 as [v w1]. by inv_bind.
Qed.

Lemma poll_await_label {X} (a : awaitE Val X) cx (w : world) p a' w' :
  poll_await a cx w = Ret (p, a', w') -> label_of a' = label_of a.
Proof.
  destruct a; cbn [poll_await]; unfold on_ring, on_both; intros E; inv_bind;
    repeat match goal with q : (_ * _)%type |- _ => destruct q end; inv_bind;
    cbn [label_of]; repeat match goal with q : (_ * _)%type |- _ => destruct q end; inv_bind; try f_equal;
    eauto using timer_poll_fd, writer_poll_fd, open_poll_path, mkdir_poll_path, sock_connect_poll_fd,
      waiter_poll_fd, send_to_poll_fd, accept_poll_fd, joiner_poll_ch.
  - apply reader_poll_fd in Ha0 as [E1 E2]. destruct (with_buffer _ _ _). inv_bind. cbn. congruence.
  - by apply recv_from_poll_fd in Ha0.
Qed.
End labels.
