(* ===== verification/History.v ===== *)
(** The history of a thread: the events of all its tasks, in the order they
    happen, each with the channel of its task.  [history] computes it for any
    number of rounds of the executor, whether or not the loop ever ends; the
    invariant [recorded] relates it to the traces of the tasks and
    to what can be seen of the process. *)
From ITree Require Import ITree.
From Stdlib Require Import Program.Equality.
From S2P Require Import Prelude Bytes Crates CrateModels Results Reactor Io Sqe Libc SockAddr Event ReadWrite Fs Timer Tcp Udp Mutex Task TaskProps TaskLoop Joins Async AsyncProps Output Seen.

Open Scope nat_scope.

(** ** The events of a run *)
Section events.
Context {S : Type -> Type} `{Slab S} {B : Type} `{RingBuffer B}.
Context {U : Type} `{IoUring U sqe} {L : Type} `{Libc L} `{Host} `{NetOrder} `{!Process L}.
Context {Code Val : Type} (code : Code -> body Code Val Val).
Abbreviation Fut := (body Code Val Val).
Abbreviation world := (world S B U L Fut Val).
Implicit Types (w : world).

(** The events of a poll, in parallel with [poll_body]. *)
Fixpoint poll_log {R} (fuel : nat) (t : body Code Val R) (cx : nat) w : list (seen Code) :=
  match fuel with
  | O => []
  | Datatypes.S fuel =>
      match observe t with
      | RetF _ => []
      | TauF t => poll_log fuel t cx w
      | VisF e k =>
          match e in ioE _ _ X return (X -> body Code Val R) -> _ with
          | Await a => fun k =>
              match poll_await a cx w with
              | Ret (Ready x, a', w) =>
                  match drop_await a' w with
                  | Ret w => Awaited (label_of a) x :: poll_log fuel (k x) cx w
                  | _ => []
                  end
              | _ => []
              end
          | Call c => fun k =>
              match do_call code c w with
              | Ret (x, w) => Called c x :: poll_log fuel (k x) cx w
              | _ => []
              end
          | Crash _ => fun _ => []
          end k
      end
  end.

Context (fuel n : nat).
Abbreviation round := (executor_round (poll_block code n) fuel).

(** The events of a round: those of the task it polls. *)
Definition round_log w : list (nat * seen Code) :=
  match (if decide (run_q (w_exec w) = []) then react_exec fuel w else mret w) with
  | Ret w =>
      match pop (run_q (w_exec w)) with
      | Some (task, q) =>
          (tx_of task,.) <$> poll_log n (f (future task)) (id task) (set_exec (MkExecutor (waiting (w_exec w)) q) w)
      | None => []
      end
  | _ => []
  end.

(** [k] rounds of the loop, or fewer when it returns. *)
Fixpoint after (k : nat) w : outcome (bool * world) :=
  match k with
  | O => mret (false, w)
  | Datatypes.S k => '(stop, w) ← round w; if stop : bool then mret (true, w) else after k w
  end.

Fixpoint history (k : nat) w : list (nat * seen Code) :=
  match k with
  | O => []
  | Datatypes.S k => round_log w ++ match round w with Ret (false, w) => history k w | _ => [] end
  end.

Lemma executor_loop_after k w w' :
  executor_loop (poll_block code n) k fuel w = Ret w' <-> after k w = Ret (true, w').
Proof.
  revert w. induction k as [|k IH]; intros w; cbn; [done|].
  destruct (round w) as [[[] w1]|p| |]; cbn; [|apply IH|done..]. split; intros [= ->]; done.
Qed.
End events.

(** The events of one task, or of whatever else [K] tells apart *)
Definition proj {K} `{EqDecision K} {A} (ch : K) (h : list (K * A)) : list A := (filter (fun x => x.1 = ch) h).*2.

Section proj.
Context {K : Type} `{EqDecision K} {A : Type}.
Implicit Types (h : list (K * A)) (ch : K).

Lemma proj_app ch h1 h2 : proj ch (h1 ++ h2) = proj ch h1 ++ proj ch h2.
Proof. unfold proj. by rewrite filter_app, fmap_app. Qed.

Lemma proj_own ch (l : list A) : proj ch ((ch,.) <$> l) = l.
Proof. unfold proj. induction l as [|x l IH]; [done|]. by rewrite fmap_cons, filter_cons_True, fmap_cons, IH. Qed.

Lemma proj_other ch ch' (l : list A) : ch' <> ch -> proj ch ((ch',.) <$> l) = [].
Proof. intros Hne. unfold proj. induction l as [|x l IH]; [done|]. by rewrite fmap_cons, filter_cons_False. Qed.

Lemma proj_none ch h : Forall (fun x => x.1 <> ch) h -> proj ch h = [].
Proof. unfold proj. induction 1 as [|x l Hx _ IH]; [done|]. by rewrite filter_cons_False. Qed.

Lemma proj_cons ch x h : proj ch (x :: h) = (if decide (x.1 = ch) then [x.2] else []) ++ proj ch h.
Proof.
  unfold proj. case_decide; [by rewrite filter_cons_True|by rewrite filter_cons_False].
Qed.
Lemma tags_snd ch (l : list A) : (pair ch <$> l).*2 = l.
Proof. by rewrite <- list_fmap_compose, list_fmap_id. Qed.

(** What [f] finds in a history, still with the channels *)
Context {B : Type} (f : A -> list B).
Definition tagged h : list (K * B) := h ≫= fun x => pair x.1 <$> f x.2.

Lemma tagged_cons x h : tagged (x :: h) = (pair x.1 <$> f x.2) ++ tagged h.
Proof. done. Qed.

Lemma tagged_app h1 h2 : tagged (h1 ++ h2) = tagged h1 ++ tagged h2.
Proof. apply bind_app. Qed.

Lemma tagged_tags ch h : ch ∈ (tagged h).*1 -> ch ∈ h.*1.
Proof.
  intros (y & -> & Hy)%list_elem_of_fmap. apply list_elem_of_bind in Hy as (x & Hx & Hin).
  apply list_elem_of_fmap in Hx as (s & -> & _). by apply (list_elem_of_fmap_2 fst _ x).
Qed.
End proj.

Lemma tagged_snd {K A B} (f : A -> list B) (h : list (K * A)) : (tagged f h).*2 = h.*2 ≫= f.
Proof. induction h as [|x h IH]; [done|]. by rewrite tagged_cons, fmap_app, tags_snd, IH. Qed.

Lemma proj_tagged {K} `{EqDecision K} {A B} (f : A -> list B) (ch : K) h : proj ch (tagged f h) = proj ch h ≫= f.
Proof.
  induction h as [|x h IH]; [done|]. rewrite tagged_cons, proj_app, IH, proj_cons, bind_app. f_equal. case_decide as Hc.
  - rewrite Hc, proj_own. cbn. by rewrite app_nil_r.
  - by rewrite proj_other.
Qed.

(** [spawn] shows nothing to a view. *)
Lemma spawn_quiet {S : Type -> Type} `{Slab S} {B : Type} `{RingBuffer B} {U : Type} `{IoUring U sqe}
    {L V : Type} `{Libc L} `{!Process L} {view : L -> V} `{!Quiet view} `{Host} {Fut Val : Type}
    (fut : Fut) (w : world S B U L Fut Val) j w' :
  spawn fut w = Ret (j, w') -> view (w_libc w') = view (w_libc w).
Proof.
  unfold spawn. pose proof (event_new_quiet (view:=view) (w_libc w)) as E1.
  destruct (Event.new (w_libc w)) as [[ev|er] l1]; cbn; [|done].
  pose proof (clone_quiet (view:=view) ev l1) as E2. destruct (Event.clone ev l1) as [[e2 l2]|p| |]; cbn; try done.
  intros [= _ <-]. cbn in *. congruence.
Qed.

Section history.
Context {S : Type -> Type} `{SlabSpec S} {B : Type} `{RingBuffer B}.
Context {U : Type} `{IoUring U sqe} {L : Type} `{Libc L} `{Host} `{NetOrder} `{!Process L}.
Context {Code Val : Type} (code : Code -> body Code Val Val).
Context {V : Type} {view : L -> V} {changes : V -> list (seen Code) -> V -> Prop} `{!Watched view changes}.
Abbreviation Fut := (body Code Val Val).
Abbreviation world := (world S B U L Fut Val).
Abbreviation events := (list (seen Code)).
Implicit Types (w : world) (t : Task Fut) (cur new : list (Task Fut)) (evs : events).

(** The block of a task and its channel. *)
Definition body_of t : Fut * nat := (f (future t), tx_of t).
Definition block_of (b : Code * nat) : Fut * nat := (code b.1, b.2).

Lemma same_channels (bs : list (Code * nat)) new : body_of <$> new = block_of <$> bs -> tx_of <$> new = bs.*2.
Proof.
  intros E. apply (f_equal (fmap snd)) in E. by rewrite <- !list_fmap_compose in E.
Qed.

Lemma task_block (bs : list (Code * nat)) new t :
  body_of <$> new = block_of <$> bs -> t ∈ new -> exists b, b ∈ bs /\ f (future t) = code b.1 /\ tx_of t = b.2.
Proof.
  intros E Ht. apply (list_elem_of_fmap_2 body_of) in Ht. rewrite E in Ht.
  apply list_elem_of_fmap in Ht as (b & Eb & Hb). exists b. split; [done|]. by injection Eb.
Qed.

Lemma block_task (bs : list (Code * nat)) new b :
  body_of <$> new = block_of <$> bs -> b ∈ bs -> exists t, t ∈ new /\ tx_of t = b.2.
Proof.
  intros E Hb. apply (list_elem_of_fmap_2 block_of) in Hb. rewrite <- E in Hb.
  apply list_elem_of_fmap in Hb as (t & Et & Ht). exists t. split; [done|]. by injection Et.
Qed.

(** *** What a part of a poll does to the world: the events [evs], and the
    tasks [bs] that are added, each with a channel of its own *)
Record effect w w' evs (bs : list (Code * nat)) : Prop := {
  eff_view : changes (view (w_libc w)) evs (view (w_libc w'));
  eff_tasks : exists new, all_tasks (w_exec w') ≡ₚ new ++ all_tasks (w_exec w) /\ body_of <$> new = block_of <$> bs;
  eff_range : Forall (fun ch => w_next w <= ch < w_next w') bs.*2;
  eff_nodup : NoDup bs.*2;
  eff_next : w_next w <= w_next w';
}.

Lemma effect_quiet w w' :
  view (w_libc w') = view (w_libc w) -> w_exec w' = w_exec w -> w_next w' = w_next w -> effect w w' [] [].
Proof.
  intros E1 E2 E3. split; [rewrite E1; apply watched_nil| |constructor|constructor|lia]. exists []. by rewrite E2.
Qed.

Lemma effect_trans w w1 w2 evs1 evs2 bs1 bs2 :
  effect w w1 evs1 bs1 -> effect w1 w2 evs2 bs2 -> effect w w2 (evs1 ++ evs2) (bs1 ++ bs2).
Proof.
  intros [O1 (n1 & P1 & F1) R1 D1 N1] [O2 (n2 & P2 & F2) R2 D2 N2]. split.
  - by eapply watched_app.
  - exists (n1 ++ n2). split; [rewrite P2, P1, !app_assoc; by rewrite (Permutation_app_comm n2)|].
    by rewrite !fmap_app, F1, F2.
  - rewrite fmap_app. apply Forall_app.
    split; eapply Forall_impl; [exact R1| |exact R2|]; cbn; intros; lia.
  - rewrite fmap_app. apply NoDup_app. split; [done|]. split; [|done].
    rewrite Forall_forall in R1, R2. intros x Hx1 Hx2. apply R1 in Hx1. apply R2 in Hx2. lia.
  - lia.
Qed.

(** A call that the view does not see and that adds no task. *)
Lemma effect_seen w w' e :
  effect w w' [] [] -> (forall v, changes v [e] v) -> effect w w' [e] [].
Proof.
  intros He Hc. apply (effect_trans w w' w' [] [e] [] []); [done|].
  split; [done|by exists []|constructor|constructor|done].
Qed.

Lemma on_ring_effect {P F} (m : outcome (P * F * ReactorInner S B U nat)) w p a' w' :
  on_ring m w = Ret (p, a', w') -> effect w w' [] [].
Proof. intros E. apply on_ring_safe in E as [r ->]. by apply effect_quiet. Qed.

Lemma on_both_effect {P F} (m : outcome (P * F * ReactorInner S B U nat * L)) w p a' w' :
  (forall r l, m = Ret (p, a', r, l) -> view l = view (w_libc w)) ->
  on_both m w = Ret (p, a', w') -> effect w w' [] [].
Proof.
  unfold on_both. intros Hm E. inv_bind. destruct a as [[[p1 f1] r] l]. inv_bind.
  apply effect_quiet; [by eapply Hm|done..].
Qed.

Lemma joiner_drop_effect j w w' : joiner_drop j w = Ret w' -> effect w w' [] [].
Proof. unfold joiner_drop. intros E. inv_bind. apply effect_quiet; [apply quiet_close|done..]. Qed.

Lemma joiner_poll_effect j cx w p j' w' : joiner_poll j cx w = Ret (p, j', w') -> effect w w' [] [].
Proof.
  unfold joiner_poll. intros E. inv_bind. destruct a as [[q wt] r]. destruct q as [x|]; inv_bind; [|by apply effect_quiet].
  destruct a0 as [v w1]. inv_bind. apply recv_unwrap_inv in Ha1 as (c & _ & _ & ->). by apply effect_quiet.
Qed.

Lemma spawn_effect c w j w' : spawn (code c) w = Ret (j, w') -> effect w w' [] [(c, rx j)].
Proof.
  intros E. pose proof (spawn_quiet (view:=view) _ _ _ _ E) as Eo. destruct (spawn_inv _ _ _ _ E) as (ev & l & Hrx & _ & ->). split; cbn.
  - cbn in Eo. rewrite Eo. apply watched_nil.
  - eexists [_]. split; [apply all_tasks_push|]. unfold body_of, block_of, tx_of. cbn. by rewrite Hrx.
  - constructor; [lia|constructor].
  - apply NoDup_singleton.
  - lia.
Qed.

Lemma set_libc_effect w l : view l = view (w_libc w) -> effect w (set_libc l w) [] [].
Proof. intros E. by apply effect_quiet. Qed.

Lemma poll_await_effect {X} (a : awaitE Val X) cx w p a' w' : poll_await a cx w = Ret (p, a', w') -> effect w w' [] [].
Proof.
  destruct a; cbn [poll_await]; intros E; inv_bind;
    try (match goal with q : (_ * _ * world)%type |- _ => destruct q as [[q1 q2] w1] end; inv_bind);
    eauto using on_ring_effect, joiner_poll_effect;
    try (eapply on_both_effect; [|eassumption]; cbn; intros;
         first [by eapply timer_poll_quiet|by eapply connect_quiet|by eapply lock_quiet]).
  match goal with E : context [with_buffer ?fd ?p ?l] |- _ => destruct (with_buffer fd p l) as [p2 l2] eqn:Eb end. inv_bind.
  match goal with E : on_ring _ _ = Ret _ |- _ => apply on_ring_effect in E as Heff end.
  eapply (effect_trans _ _ _ [] [] [] []); [exact Heff|]. apply set_libc_effect.
  unfold with_buffer in Eb. destruct q1 as [[n|e]|]; [|by injection Eb as _ <-..].
  match type of Eb with context [buffer_of ?fd ?n ?l] =>
    pose proof (quiet_buffer_of (view:=view) fd n l) as Eo; destruct (buffer_of fd n l) as [bs l3] end.
  by injection Eb as _ <-.
Qed.

Lemma drop_handle_effect io w w' : drop_handle io w = Ret w' -> effect w w' [] [].
Proof. intros E. apply drop_handle_safe in E as [r ->]. by apply effect_quiet. Qed.

Lemma drop_await_effect {X} (a : awaitE Val X) w w' : drop_await a w = Ret w' -> effect w w' [] [].
Proof.
  destruct a; cbn; intros E; eauto using drop_handle_effect, joiner_drop_effect.
  - inv_bind. match goal with E : drop_handle _ _ = _ |- _ => apply drop_handle_safe in E as [r ->] end.
    apply effect_quiet; [apply quiet_close|done..].
  - inv_bind. by apply effect_quiet.
  - inv_bind. destruct a as [r l]. inv_bind. apply effect_quiet; [by eapply connect_drop_quiet|done..].
  - inv_bind. destruct a as [r l]. inv_bind. apply effect_quiet; [by eapply lock_drop_quiet|done..].
Qed.

Lemma on_libc_effect {X} (x : X * L) w y w' :
  view x.2 = view (w_libc w) -> on_libc x w = Ret (y, w') -> effect w w' [] [].
Proof. unfold on_libc. intros Eo E. inv_bind. by apply effect_quiet. Qed.

Lemma silent_effect {X} (m : outcome (X * L)) w y w' :
  silent (view:=view) (w_libc w) m -> ('(r, l) ← m; mret (r, set_libc l w)) = Ret (y, w') -> effect w w' [] [].
Proof. intros Hs E. inv_bind. destruct a as [r l]. inv_bind. by apply effect_quiet. Qed.

(** The calls that the view does not see. *)
Lemma quiet_call_effect {X} (c : callE Code X) w x w' :
  match c with CPrint _ | CLoad _ | CStore _ _ | CSpawn _ => False | _ => True end ->
  do_call code c w = Ret (x, w') -> effect w w' [] [].
Proof.
  destruct c; cbn; intros Hc E; try done;
    try (eapply on_libc_effect; [|exact E]; first [apply event_new_quiet|apply notify_quiet|apply seek_quiet
      |apply mk_sock_quiet|apply quiet_udp_bind|apply quiet_instant]);
    try (eapply silent_effect; [|exact E]; first [apply clone_quiet|apply sleep_quiet|apply bind_quiet]);
    inv_bind; try (apply effect_quiet; cbn; first [done|apply quiet_eprint|apply quiet_close]; fail).
  - apply effect_quiet; [by eapply guard_drop_quiet|done..].
  - unfold listener_drop in *. inv_bind. apply effect_quiet; [apply quiet_close|done..].
  - by eapply joiner_drop_effect.
Qed.

Lemma do_call_effect {X} (c : callE Code X) w x w' :
  do_call code c w = Ret (x, w') -> effect w w' [Called c x] (spawned [Called c x]).
Proof.
  intros E. assert ((match c with CPrint _ | CLoad _ | CStore _ _ | CSpawn _ => False | _ => True end) ->
    effect w w' [Called c x] (spawned [Called c x])) as Hquiet.
  { intros Hc. assert (spawned [Called c x] = []) as -> by by destruct c. apply effect_seen; [by eapply quiet_call_effect|].
    intros v. apply watched_other. by destruct c. }
  destruct c; try (by apply Hquiet); cbn in E; inv_bind; clear Hquiet; try (split; cbn; [|by exists []|constructor|constructor|done]).
  - apply watched_print.
  - apply watched_load.
  - apply watched_store.
  - apply spawn_effect in E.
    apply (effect_trans w w' w' [] [Called (CSpawn c) x] [(c, rx x)] [] E).
    split; [by apply watched_other|by exists []|constructor|constructor|done].
Qed.

(** *** A poll follows a trace, and does what its events say *)
Definition waits_at {R} (s t' : body Code Val R) : Prop :=
  exists X (a a' : awaitE Val X) k, observe s = VisF (Await a) k /\ observe t' = VisF (Await a') k /\
    label_of a' = label_of a.

Lemma poll_body_effect {R} n (t : body Code Val R) cx w p (t' : body Code Val R) w' :
  poll_body code n t cx w = Ret (p, t', w') ->
  let evs := poll_log code n t cx w in
  exists tr s, trace t tr s /\ see <$> tr = evs /\ effect w w' evs (spawned evs) /\
    match p with Ready v => observe s = RetF v | Pending => waits_at s t' end.
Proof.
  revert t w. induction n as [|n IH]; intros t w E; [done|]. cbn in E |- *.
  destruct (observe t) as [v|t1|X e k] eqn:Et.
  - injection E as <- _ <-. exists [], t. split; [constructor|]. split; [done|]. split; [by apply effect_quiet|done].
  - destruct (IH _ _ E) as (tr & s & Ht & Hp). exists tr, s. split; [by eapply trace_tau|done].
  - destruct e as [X a|X c|X q]; [| |done].
    + inv_bind. destruct a0 as [[[x|] a'] w1]; apply poll_await_effect in Ha0 as He1; rewrite Ha0.
      * inv_bind. match goal with Hd : drop_await _ _ = Ret ?w2 |- _ =>
          apply drop_await_effect in Hd as He2; rewrite Hd; clear Hd end.
        destruct (IH _ _ E) as (tr & s & Ht & Hs & He & Hp). cbn in Hs. rewrite <- Hs in He |- *.
        exists (Obs (Await a) x :: tr), s. split; [by eapply trace_vis|].
        split; [done|]. split; [|done].
        assert (effect w1 a0 [Awaited (label_of a) x] []) as He3 by (apply effect_seen; [done|intros v; apply watched_awaited]).
        exact (effect_trans _ _ _ [] _ [] _ He1 (effect_trans _ _ _ [_] _ [] _ He3 He)).
      * injection E as <- <- <-. exists [], t. split; [constructor|]. split; [done|]. split; [done|].
        exists X, a, a', k. split; [done|]. split; [done|]. by eapply poll_await_label.
    + inv_bind. destruct a as [x w1]. rewrite Ha. apply do_call_effect in Ha.
      destruct (IH _ _ E) as (tr & s & Ht & Hs & He & Hp). cbn in Hs. rewrite <- Hs in He |- *.
      exists (Obs (Call c) x :: tr), s. split; [by eapply trace_vis|]. split; [done|]. split; [|done].
      pose proof (effect_trans _ _ _ _ _ _ _ Ha He) as Hf. by rewrite <- spawned_app in Hf.
Qed.

(** ** The past of a task *)

(** From the block [t0], along [tr], to where a task that waits is. *)
Definition past (t0 : Fut) (tr : list (obs (Code:=Code) (Val:=Val))) (t : Fut) : Prop :=
  exists s, trace t0 tr s /\ (s = t \/ waits_at s t).

Lemma past_trace (t0 : Fut) tr (t s : Fut) tr2 :
  past t0 tr t -> trace t tr2 s ->
  exists tr', see <$> tr' = (see <$> tr) ++ (see <$> tr2) /\ exists s', trace t0 tr' s' /\ (s' = s \/ s = t /\ waits_at s' t).
Proof.
  intros (s0 & Ht0 & [->|Hw]) Ht; [|pose proof Hw as (X & a & a' & k & E0 & Et & El)].
  - exists (tr ++ tr2). rewrite fmap_app. split; [done|]. exists s. split; [by eapply trace_app|by left].
  - inversion Ht as [t1 E1|t1 t2 tr' s1 E1 Ht1|t1 Y e k1 x tr' s1 E1 He Ht1]; subst.
    + exists tr. cbn. rewrite app_nil_r. split; [done|]. exists s0. split; [done|]. by right.
    + congruence.
    + rewrite Et in E1. dependent destruction E1. exists (tr ++ Obs (Await a) x :: tr').
      rewrite fmap_app. cbn. rewrite El. split; [done|].
      exists s. split; [|by left]. eapply trace_app; [done|]. by eapply trace_vis.
Qed.

Lemma waits_at_trans (s t t' : Fut) : waits_at s t -> waits_at t t' -> waits_at s t'.
Proof.
  intros (X & a & a' & k & E1 & E2 & El) (Y & b & b' & k' & E3 & E4 & El2). rewrite E2 in E3.
  dependent destruction E3. eexists _, a, b', _. split; [done|]. split; [done|]. congruence.
Qed.

Lemma past_stays (t0 : Fut) tr (t s t' : Fut) tr2 :
  past t0 tr t -> trace t tr2 s -> waits_at s t' ->
  exists tr', see <$> tr' = (see <$> tr) ++ (see <$> tr2) /\ past t0 tr' t'.
Proof.
  intros Hp Ht Hs. destruct (past_trace _ _ _ _ _ Hp Ht) as (tr' & E1 & s' & Ht' & Hs').
  exists tr'. split; [done|]. exists s'. split; [done|]. right.
  destruct Hs' as [->|[-> Hw]]; [done|by eapply waits_at_trans].
Qed.

Lemma past_ends (t0 : Fut) tr (t s : Fut) tr2 v :
  past t0 tr t -> trace t tr2 s -> observe s = RetF v ->
  exists tr', see <$> tr' = (see <$> tr) ++ (see <$> tr2) /\ halts t0 tr' (Ret v).
Proof.
  intros Hp Ht Hs. destruct (past_trace _ _ _ _ _ Hp Ht) as (tr' & E1 & s' & Ht' & Hs').
  exists tr'. split; [done|]. exists s'. split; [done|].
  destruct Hs' as [->|[-> (X & a & a' & k & E3 & E4 & _)]]; [done|]. congruence.
Qed.
End history.
