(* ===== verification/Recorded.v ===== *)
(** The history of a thread and the traces of its tasks: the invariant that
    each round of the executor keeps. *)
From ITree Require Import ITree.
From S2P Require Import Prelude Bytes Crates CrateModels Results Reactor Io Sqe Libc SockAddr Event ReadWrite Fs Timer Tcp Udp Mutex Task TaskProps TaskLoop Joins Async AsyncProps Output Seen History.

Open Scope nat_scope.

Section recorded.
Context {S : Type -> Type} `{SlabSpec S} {B : Type} `{RingBuffer B}.
Context {U : Type} `{IoUring U sqe} {L : Type} `{Libc L} `{Host} `{NetOrder} `{!Process L}.
Context {Code Val : Type} (code : Code -> body Code Val Val).
Context {V : Type} {view : L -> V} {changes : V -> list (seen Code) -> V -> Prop} `{!Watched view changes}.
Abbreviation Fut := (body Code Val Val).
Abbreviation world := (world S B U L Fut Val).
Abbreviation events := (list (seen Code)).
Implicit Types (w : world) (t : Task Fut) (cur new : list (Task Fut)) (evs : events).

(** A task: its channel, the name of its block, and the trace it has followed. *)
Record entry := Entry { e_ch : nat; e_code : Code; e_trace : list (obs (Code:=Code) (Val:=Val)) }.
Definition born (e : entry) : Code * nat := (e_code e, e_ch e).

Abbreviation log := (list (nat * seen Code)).

(** A task is spawned before it does anything. *)
Definition spawned_before (h : log) (e : entry) : Prop :=
  exists h1 h2, h = h1 ++ h2 /\ born e ∈ spawned h1.*2 /\ proj (e_ch e) h1 = [].

(** [es]: the tasks that have been spawned; [init]: those that no task has
    spawned; [base]: the view of the process at the start. *)
Record recorded (base : V) (init : list (Code * nat)) (es : list entry) (h : log) cur w : Prop := {
  rc_view : changes base h.*2 (view (w_libc w));
  rc_nodup : NoDup (e_ch <$> es);
  rc_next : forall e, e ∈ es -> e_ch e < w_next w;
  rc_proj : forall e, e ∈ es -> proj (e_ch e) h = see <$> e_trace e;
  rc_state : forall e, e ∈ es ->
    (exists t, t ∈ cur ++ all_tasks (w_exec w) /\ tx_of t = e_ch e) \/
    (exists v, halts (code (e_code e)) (e_trace e) (Ret v));
  rc_tasks : forall t, t ∈ cur ++ all_tasks (w_exec w) ->
    exists e, e ∈ es /\ e_ch e = tx_of t /\ past (code (e_code e)) (e_trace e) (f (future t));
  rc_tx : NoDup (tx_of <$> cur ++ all_tasks (w_exec w));
  rc_tags : forall x, x ∈ h -> x.1 ∈ e_ch <$> es;
  rc_born : born <$> es ≡ₚ init ++ spawned h.*2;
  rc_order : forall e, e ∈ es -> born e ∈ init \/ spawned_before h e;
}.

(** Moving tasks around changes nothing. *)
Lemma recorded_world base init es h cur cur' w w' :
  recorded base init es h cur w -> view (w_libc w') = view (w_libc w) -> w_next w' = w_next w ->
  cur' ++ all_tasks (w_exec w') ≡ₚ cur ++ all_tasks (w_exec w) ->
  recorded base init es h cur' w'.
Proof.
  intros [Ho Hnd Hn Hl Hs Ht Htx Hg Hc Hb] Eo En Hp. split; try done.
  - by rewrite Eo.
  - by rewrite En.
  - intros e He. destruct (Hs e He) as [(t & Hin & Hrest)|Hh]; [left|by right].
    exists t. split; [by rewrite Hp|done].
  - intros t. rewrite Hp. apply Ht.
  - by rewrite Hp.
Qed.

(** New tasks, that have done nothing yet *)
Definition entry_of (b : Code * nat) : entry := Entry b.2 b.1 [].

Lemma entries_ch (bs : list (Code * nat)) : e_ch <$> (entry_of <$> bs) = bs.*2.
Proof. rewrite <- list_fmap_compose. by apply list_fmap_ext. Qed.

Lemma entries_born (bs : list (Code * nat)) : born <$> (entry_of <$> bs) = bs.
Proof. rewrite <- list_fmap_compose. rewrite <- (list_fmap_id bs) at 2. apply list_fmap_ext. by intros i []. Qed.

Lemma spawned_before_app h h' e : spawned_before h e -> spawned_before (h ++ h') e.
Proof. intros (h1 & h2 & -> & Hrest). exists h1, (h2 ++ h'). by rewrite app_assoc. Qed.

(** *** A step of the task [t], from the trace of its entry [e] to [tr'] *)
Section advance.
Context (base : V) (init : list (Code * nat)) (es1 : list entry) (e : entry) (es2 : list entry) (h : log).
Context (t : Task Fut) (cur' : list (Task Fut)) (w w1 : world) (evs : events) (tr' : list (obs (Code:=Code) (Val:=Val))).
Context (Hr : recorded base init (es1 ++ e :: es2) h [t] w).
Abbreviation bs := (spawned evs).
Context (Heff : effect code (view:=view) (changes:=changes) w w1 evs bs).
Context (Ech : e_ch e = tx_of t) (Etr : see <$> tr' = (see <$> e_trace e) ++ evs).

(** The task afterwards: over, or still there as [x]. *)
Definition now_at : Prop :=
  (cur' = [] /\ exists v, halts (code (e_code e)) tr' (Ret v)) \/
  (exists x, cur' = [x] /\ tx_of x = tx_of t /\ past (code (e_code e)) tr' (f (future x))).
Context (Hnow : now_at).

Let e' := Entry (e_ch e) (e_code e) tr'.
Let es' := es1 ++ e' :: es2 ++ (entry_of <$> bs).
Let h' := h ++ ((e_ch e,.) <$> evs).

Lemma adv_in_e : e ∈ es1 ++ e :: es2.
Proof. apply elem_of_app. right. by left. Qed.

Lemma adv_chs : e_ch <$> es' = (e_ch <$> es1 ++ e :: es2) ++ bs.*2.
Proof. unfold es'. rewrite !fmap_app, !fmap_cons, !fmap_app, entries_ch. by rewrite <- app_assoc. Qed.

Lemma adv_fresh x ch : x ∈ es1 ++ e :: es2 -> ch ∈ bs.*2 -> e_ch x <> ch.
Proof.
  intros Hx Hch E. pose proof (eff_range _ _ _ _ _ Heff) as Hrg. rewrite Forall_forall in Hrg.
  specialize (Hrg ch Hch). pose proof (rc_next _ _ _ _ _ _ Hr x Hx). lia.
Qed.

Lemma adv_cases x :
  x ∈ es' -> x = e' \/ (x ∈ es1 ++ e :: es2 /\ e_ch x <> e_ch e) \/ exists b, b ∈ bs /\ x = entry_of b.
Proof.
  unfold es'. rewrite !elem_of_app, elem_of_cons, elem_of_app, list_elem_of_fmap. intros Hx.
  assert (x ∈ es1 \/ x ∈ es2 -> e_ch x <> e_ch e) as Hne.
  { intros Hx' E. pose proof (rc_nodup _ _ _ _ _ _ Hr) as Hnd. rewrite fmap_app, fmap_cons in Hnd.
    apply NoDup_app in Hnd as (_ & Hd & Hnd2). apply NoDup_cons in Hnd2 as [Hd2 _]. destruct Hx' as [Hx'|Hx'].
    - apply (Hd (e_ch x)); [apply list_elem_of_fmap; by exists x|]. rewrite E. by left.
    - apply Hd2. rewrite <- E. apply list_elem_of_fmap. by exists x. }
  rewrite elem_of_cons. destruct Hx as [Hx|[->|[Hx|(b & -> & Hb)]]]; [tauto|by left|tauto|right; right; by exists b].
Qed.

Lemma adv_proj x : x ∈ es' -> proj (e_ch x) h' = see <$> e_trace x.
Proof.
  intros Hx. unfold h'. rewrite proj_app. destruct (adv_cases x Hx) as [->|[[Hx' Hne]|(b & Hb & ->)]].
  - unfold e'. cbn [e_ch e_trace]. by rewrite proj_own, Etr, (rc_proj _ _ _ _ _ _ Hr e adv_in_e).
  - by rewrite proj_other, app_nil_r, (rc_proj _ _ _ _ _ _ Hr x Hx') by done.
  - assert (b.2 ∈ bs.*2) as Hb2 by by apply list_elem_of_fmap_2. cbn.
    rewrite proj_other, app_nil_r by by apply (adv_fresh e b.2 adv_in_e). apply proj_none, Forall_forall.
    intros y Hy E. apply (rc_tags _ _ _ _ _ _ Hr), list_elem_of_fmap in Hy as (x' & E' & Hx').
    apply (adv_fresh x' b.2 Hx' Hb2). congruence.
Qed.

Lemma adv_order x : x ∈ es' -> born x ∈ init \/ spawned_before h' x.
Proof.
  intros Hx. pose proof Hx as Hx0. destruct (adv_cases x Hx) as [->|[[Hx' Hne]|(b & Hb & ->)]].
  - destruct (rc_order _ _ _ _ _ _ Hr e adv_in_e) as [Hi|Hsp]; [by left|right].
    apply (spawned_before_app h ((e_ch e,.) <$> evs)) in Hsp. exact Hsp.
  - destruct (rc_order _ _ _ _ _ _ Hr x Hx') as [Hi|Hsp]; [by left|right]. by apply spawned_before_app.
  - right. exists h', []. rewrite app_nil_r. split; [done|]. split; [|by rewrite adv_proj].
    unfold h'. rewrite fmap_app, spawned_app. apply elem_of_app. right.
    rewrite <- list_fmap_compose, list_fmap_id by done. by destruct b.
Qed.

Lemma adv_tx : NoDup (tx_of <$> cur' ++ all_tasks (w_exec w1)).
Proof.
  destruct (eff_tasks _ _ _ _ _ Heff) as (new & Hp & Hnew). pose proof (eff_range _ _ _ _ _ Heff) as Hrg.
  pose proof (same_channels _ _ _ Hnew) as Enew.
  rewrite Hp, !fmap_app, Enew. pose proof (rc_tx _ _ _ _ _ _ Hr) as Htx. cbn in Htx.
  apply NoDup_cons in Htx as [Htx1 Htx2].
  assert (forall y, y ∈ t :: all_tasks (w_exec w) -> tx_of y < w_next w) as Hold.
  { intros y Hy. destruct (rc_tasks _ _ _ _ _ _ Hr y Hy) as (x & Hx & <- & _). by apply (rc_next _ _ _ _ _ _ Hr). }
  assert (NoDup (tx_of <$> cur') /\ forall ch, ch ∈ tx_of <$> cur' -> ch = tx_of t) as [Hndc Hcur].
  { destruct Hnow as [[-> _]|(x & -> & Ex & _)]; cbn.
    - split; [constructor|]. by intros ch ?%elem_of_nil.
    - split; [by apply NoDup_singleton|]. rewrite Ex. by intros ch ->%list_elem_of_singleton. }
  rewrite Forall_forall in Hrg. apply NoDup_app. split; [done|]. split.
  - intros ch ->%Hcur. rewrite elem_of_app. intros [Hch|Hch]; [|done]. apply Hrg in Hch.
    specialize (Hold t (list_elem_of_here _ _)). lia.
  - apply NoDup_app. split; [apply Heff|]. split; [|done]. intros ch Hch%Hrg Hch'.
    apply list_elem_of_fmap in Hch' as (y & -> & Hy). specialize (Hold y (list_elem_of_further _ _ _ Hy)). lia.
Qed.

Lemma adv_tasks y :
  y ∈ cur' ++ all_tasks (w_exec w1) -> exists x, x ∈ es' /\ e_ch x = tx_of y /\ past (code (e_code x)) (e_trace x) (f (future y)).
Proof.
  destruct (eff_tasks _ _ _ _ _ Heff) as (new & Hp & Hnew). rewrite Hp, !elem_of_app. intros [Hy|[Hy|Hy]].
  - destruct Hnow as [[-> _]|(x & -> & Ex & Hpast)]; [by apply elem_of_nil in Hy|].
    apply list_elem_of_singleton in Hy as ->. exists e'. split; [apply elem_of_app; right; by left|].
    split; [by rewrite Ex, <- Ech|done].
  - destruct (task_block _ _ _ _ Hnew Hy) as (b & Hb & Ef & Etx). exists (entry_of b). split.
    + unfold es'. rewrite elem_of_app, elem_of_cons, elem_of_app. do 3 right. by apply list_elem_of_fmap_2.
    + split; [done|]. eexists. split; [constructor|]. left. by rewrite Ef.
  - destruct (rc_tasks _ _ _ _ _ _ Hr y (list_elem_of_further _ _ _ Hy)) as (x & Hx & Ex & Hpast).
    exists x. split; [|done]. assert (e_ch x <> e_ch e) as Hne.
    { rewrite Ex, Ech. intros E. pose proof (rc_tx _ _ _ _ _ _ Hr) as Htx. cbn in Htx. apply NoDup_cons in Htx as [Htx _].
      apply Htx. rewrite <- E. apply list_elem_of_fmap. by exists y. }
    unfold es'. rewrite elem_of_app, elem_of_cons, elem_of_app in *. destruct Hx as [Hx|[->|Hx]]; [tauto|done|tauto].
Qed.

Lemma adv_state x :
  x ∈ es' -> (exists y, y ∈ cur' ++ all_tasks (w_exec w1) /\ tx_of y = e_ch x) \/ exists v, halts (code (e_code x)) (e_trace x) (Ret v).
Proof.
  destruct (eff_tasks _ _ _ _ _ Heff) as (new & Hp & Hnew). intros Hx.
  destruct (adv_cases x Hx) as [->|[[Hx' Hne]|(b & Hb & ->)]].
  - destruct Hnow as [[_ Hh]|(y & -> & Hy & _)]; [by right|left]. exists y.
    split; [apply elem_of_app; left; by left|]. by rewrite Hy, <- Ech.
  - destruct (rc_state _ _ _ _ _ _ Hr x Hx') as [(y & Hy & Etx)|Hh]; [left|by right]. exists y. split; [|done].
    rewrite Hp, !elem_of_app. apply elem_of_cons in Hy as [->|Hy]; [congruence|]. tauto.
  - left. destruct (block_task _ _ _ _ Hnew Hb) as (y & Hy & Ey). exists y.
    split; [rewrite Hp, !elem_of_app; tauto|done].
Qed.

Lemma recorded_advance : recorded base init es' h' cur' w1.
Proof.
  split.
  - unfold h'. rewrite fmap_app, <- list_fmap_compose, list_fmap_id by done.
    eapply watched_app; [apply Hr|apply Heff].
  - rewrite adv_chs. apply NoDup_app. split; [apply Hr|]. split; [|apply Heff].
    intros ch Hch Hch'. apply list_elem_of_fmap in Hch as (x & -> & Hx). by apply (adv_fresh x (e_ch x) Hx Hch').
  - intros x Hx. pose proof (eff_next _ _ _ _ _ Heff) as Hle. destruct (adv_cases x Hx) as [->|[[Hx' _]|(b & Hb & ->)]].
    + pose proof (rc_next _ _ _ _ _ _ Hr e adv_in_e). cbn. lia.
    + pose proof (rc_next _ _ _ _ _ _ Hr x Hx'). lia.
    + pose proof (eff_range _ _ _ _ _ Heff) as Hrg. rewrite Forall_forall in Hrg. cbn.
      specialize (Hrg b.2 (list_elem_of_fmap_2 snd _ _ Hb)). lia.
  - apply adv_proj.
  - apply adv_state.
  - apply adv_tasks.
  - apply adv_tx.
  - intros x Hx. rewrite adv_chs. apply elem_of_app. left. unfold h' in Hx.
    apply elem_of_app in Hx as [Hx|Hx]; [by apply Hr|].
    apply list_elem_of_fmap in Hx as (s & -> & _). cbn. apply list_elem_of_fmap. exists e. split; [done|apply adv_in_e].
  - assert (h'.*2 = h.*2 ++ evs) as ->.
    { unfold h'. by rewrite fmap_app, <- list_fmap_compose, list_fmap_id by done. }
    pose proof (rc_born _ _ _ _ _ _ Hr) as Hb. rewrite spawned_app, app_assoc, <- Hb.
    unfold es'. rewrite !fmap_app, !fmap_cons, !fmap_app, entries_born.
    change (born e') with (born e). by rewrite <- app_assoc.
  - apply adv_order.
Qed.
End advance.

(** *** A poll, a round, the loop *)
Context (fuel n : nat).
Abbreviation round := (executor_round (poll_block code n) fuel).

Lemma recorded_poll base init es h t w cx pu fut' w1 :
  recorded base init es h [t] w -> poll_block code n (f (future t)) cx w = Ret (pu, fut', w1) ->
  exists es', recorded base init es' (h ++ ((tx_of t,.) <$> poll_log code n (f (future t)) cx w))
    (match pu with
     | Ready _ => []
     | Pending => [MkTask (id t) (MkTaskFuture fut' (evt2 (future t)) (tx (future t)))]
     end) w1.
Proof.
  intros Hl Hpoll. apply (poll_body_effect code (view:=view) (changes:=changes)) in Hpoll as (tr & s & Htr & Hsee & Heff & Hs).
  destruct (rc_tasks _ _ _ _ _ _ Hl t (list_elem_of_here _ _)) as (e & He & Ech & Hpast).
  apply list_elem_of_split in He as (es1 & es2 & ->). rewrite <- Ech, <- Hsee in *. destruct pu as [v|].
  - destruct (past_ends _ _ _ _ _ _ Hpast Htr Hs) as (tr' & E1 & Hh).
    eexists. eapply recorded_advance; [exact Hl|exact Heff|exact Ech|exact E1|]. left. split; [done|]. by exists v.
  - destruct (past_stays _ _ _ _ _ _ Hpast Htr Hs) as (tr' & E1 & Hp).
    eexists. eapply recorded_advance; [exact Hl|exact Heff|exact Ech|exact E1|]. right. by eexists.
Qed.

Lemma poll_task_quiet pu_ tf cx w p tf' w' pu fut' w1 :
  poll_task pu_ tf cx w = Ret (p, tf', w') -> pu_ (f tf) cx w = Ret (pu, fut', w1) ->
  view (w_libc w') = view (w_libc w1) /\ w_next w' = w_next w1 /\ w_exec w' = w_exec w1.
Proof.
  unfold poll_task. intros E Eu. rewrite Eu in E. cbn in E. destruct pu as [v|]; [|by inv_bind].
  pose proof (notify_quiet (view:=view) (evt2 tf) (w_libc w1)) as E1.
  destruct (Event.notify_one (evt2 tf) (w_libc w1)) as [r l]. cbn in E1. inv_bind. destruct a0 as [r' c']. inv_bind.
  split; [|done]. cbn. unfold Event.drop. by rewrite quiet_close.
Qed.

(** A round: what it does is the poll of the task it takes. *)
Lemma round_logged w b w' :
  round w = Ret (b, w') ->
  exists w1 t q p fut' w2,
    (w1 = w \/ run_q (w_exec w) = [] /\ react_exec fuel w = Ret w1) /\
    pop (run_q (w_exec w1)) = Some (t, q) /\
    let w0 := set_exec (MkExecutor (waiting (w_exec w1)) q) w1 in
    poll_task (poll_block code n) (future t) (id t) w0 = Ret (p, fut', w2) /\
    w' = requeue (MkTask (id t) fut') p w2 /\
    round_log code fuel n w = (tx_of t,.) <$> poll_log code n (f (future t)) (id t) w0.
Proof.
  intros E. pose proof E as E0. apply round_inv in E as (w1 & t & q & p & fut' & w2 & Hw1 & Hpop & Hpoll & -> & _).
  exists w1, t, q, p, fut', w2. split_and!; [done..|]. unfold round_log. unfold executor_round in E0. destruct Hw1 as [->|[Hq Hr]].
  - rewrite decide_False; [cbn; by rewrite Hpop|]. intros Hq. by rewrite Hq in Hpop.
  - rewrite decide_True, Hr by done. by rewrite Hpop.
Qed.

(** A round changes what a view sees as its events say. *)
Lemma round_changes w b w' :
  round w = Ret (b, w') -> changes (view (w_libc w)) (round_log code fuel n w).*2 (view (w_libc w')).
Proof.
  intros E. apply round_logged in E as (w1 & t & q & p & fut' & w2 & Hw1 & _ & Hpoll & -> & ->). rewrite tags_snd.
  pose proof Hpoll as Hq. apply poll_task_inv in Hq as (pu & fu & w3 & Hu & _ & _).
  destruct (poll_task_quiet _ _ _ _ _ _ _ _ _ _ Hpoll Hu) as (Eo & _ & _).
  apply (poll_body_effect code (view:=view) (changes:=changes)) in Hu as (tr & s & _ & _ & Heff & _).
  assert (view (w_libc w1) = view (w_libc w)) as E1.
  { destruct Hw1 as [->|[_ He]]; [done|]. by apply react_exec_inv in He as (r & ls & ->). }
  pose proof (eff_view _ _ _ _ _ Heff) as Hv. cbn [w_libc set_exec] in Hv. rewrite E1, <- Eo in Hv.
  unfold requeue. destruct p; [exact Hv|]. by destruct (slab_insert _ _).
Qed.

(** The end of a poll: the task is over, or goes back to the slab. *)
Lemma recorded_leave pu_ base init es h t w p tf w' pu fu w3 :
  poll_task pu_ (future t) (id t) w = Ret (p, tf, w') -> pu_ (f (future t)) (id t) w = Ret (pu, fu, w3) ->
  recorded base init es h
    (match pu with
     | Ready _ => []
     | Pending => [MkTask (id t) (MkTaskFuture fu (evt2 (future t)) (tx (future t)))]
     end) w3 ->
  recorded base init es h [] (requeue (MkTask (id t) tf) p w').
Proof.
  intros Hq Hu Hl. destruct (poll_task_quiet _ _ _ _ _ _ _ _ _ _ Hq Hu) as (Eo & En & Ee).
  apply poll_task_inv in Hq as (pu' & fu' & w3' & Hu' & -> & Hp). rewrite Hu in Hu'. injection Hu' as <- <- <-. destruct pu as [v|].
  - destruct Hp as [-> _]. cbn [requeue]. eapply recorded_world; [exact Hl|done..|by rewrite Ee].
  - destruct Hp as [-> ->]. unfold requeue.
    set (t' := MkTask (id t) (MkTaskFuture fu (evt2 (future t)) (tx (future t)))) in *.
    destruct (slab_insert (waiting (w_exec w3)) t') as [k wt] eqn:Ei.
    destruct (slab_insert_spec _ _ _ _ _ Ei) as [Hk Hwt].
    eapply recorded_world; [exact Hl|done..|]. cbn. by rewrite (all_tasks_insert _ _ _ _ Hk Hwt).
Qed.

(** The start of a round: completions, and the task that is polled. *)
Lemma recorded_taken base init es h w w1 t q :
  recorded base init es h [] w -> (w1 = w \/ run_q (w_exec w) = [] /\ react_exec fuel w = Ret w1) ->
  pop (run_q (w_exec w1)) = Some (t, q) ->
  recorded base init es h [t] (set_exec (MkExecutor (waiting (w_exec w1)) q) w1).
Proof.
  intros Hl Hw1 Hpop. assert (recorded base init es h [] w1) as Hl1.
  { destruct Hw1 as [->|[_ He]]; [done|]. apply react_exec_inv in He as (r & ls & ->).
    eapply recorded_world; [exact Hl|done..|]. cbn. by rewrite wakes_perm. }
  eapply recorded_world; [exact Hl1|done..|]. apply pop_some in Hpop. unfold all_tasks. cbn.
  rewrite Hpop, app_assoc. by rewrite <- Permutation_cons_append.
Qed.

Lemma recorded_round base init es h w b w' :
  recorded base init es h [] w -> round w = Ret (b, w') ->
  exists es', recorded base init es' (h ++ round_log code fuel n w) [] w'.
Proof.
  intros Hl E. apply round_logged in E as (w1 & t & q & p & fut' & w2 & Hw1 & Hpop & Hpoll & -> & ->).
  pose proof (recorded_taken _ _ _ _ _ _ _ _ Hl Hw1 Hpop) as Hl2.
  pose proof Hpoll as Hq. apply poll_task_inv in Hq as (pu & fu & w3 & Hu & _ & _).
  destruct (recorded_poll _ _ _ _ _ _ _ _ _ _ Hl2 Hu) as (es' & Hl3). exists es'. by eapply recorded_leave.
Qed.

Lemma recorded_after base init es h k w b w' :
  recorded base init es h [] w -> after code fuel n k w = Ret (b, w') ->
  exists es', recorded base init es' (h ++ history code fuel n k w) [] w' /\ (b = true -> all_tasks (w_exec w') = []).
Proof.
  revert es h w. induction k as [|k IH]; intros es h w Hl E; cbn in E |- *.
  { injection E as <- <-. exists es. by rewrite app_nil_r. }
  inv_bind. destruct a as [stop w1]. destruct (recorded_round _ _ _ _ _ _ _ Hl Ha) as (es1 & Hl1). rewrite Ha.
  destruct stop.
  - injection E as <- <-. exists es1. rewrite app_nil_r. split; [done|]. intros _. by eapply round_stops.
  - rewrite app_assoc. by eapply IH.
Qed.

(** ** From the start of a thread *)
Lemma recorded_start w w1 bs :
  all_tasks (w_exec w) = [] -> effect code (view:=view) (changes:=changes) w w1 [] bs ->
  recorded (view (w_libc w)) bs (entry_of <$> bs) [] [] w1.
Proof.
  intros Hno [Hv (new & Hp & Hnew) Hrg Hnd Hle]. rewrite Hno, app_nil_r in Hp.
  pose proof (same_channels _ _ _ Hnew) as Enew.
  rewrite Forall_forall in Hrg. split; cbn.
  - done.
  - by rewrite entries_ch.
  - intros e He. apply list_elem_of_fmap in He as (b & -> & Hb). cbn.
    specialize (Hrg b.2 (list_elem_of_fmap_2 snd _ _ Hb)). lia.
  - intros e He. by apply list_elem_of_fmap in He as (b & -> & Hb).
  - intros e He. apply list_elem_of_fmap in He as (b & -> & Hb). left.
    destruct (block_task _ _ _ _ Hnew Hb) as (y & Hy & Ey). exists y. by rewrite Hp.
  - intros t. rewrite Hp. intros Ht. destruct (task_block _ _ _ _ Hnew Ht) as (b & Hb & Ef & Etx).
    exists (entry_of b). split; [by apply list_elem_of_fmap_2|]. split; [done|]. eexists. split; [constructor|].
    left. by rewrite Ef.
  - by rewrite Hp, Enew.
  - by intros x ?%elem_of_nil.
  - by rewrite entries_born, app_nil_r.
  - intros e He. apply list_elem_of_fmap in He as (b & -> & Hb). left. by destruct b.
Qed.

(** Tasks that are spawned outside of the executor *)
Lemma recorded_grow base init es h w w' bs :
  recorded base init es h [] w -> effect code (view:=view) (changes:=changes) w w' [] bs ->
  recorded base (init ++ bs) (es ++ (entry_of <$> bs)) h [] w'.
Proof.
  intros Hr [Hv (new & Hp & Hnew) Hrg Hnd Hle]. pose proof (same_channels _ _ _ Hnew) as Enew. rewrite Forall_forall in Hrg.
  assert (forall e, e ∈ es -> e_ch e ∉ bs.*2) as Hfresh.
  { intros e He Hb%Hrg. pose proof (rc_next _ _ _ _ _ _ Hr e He). lia. }
  split.
  - pose proof (rc_view _ _ _ _ _ _ Hr) as Hb. rewrite <- (app_nil_r h.*2). by eapply watched_app.
  - rewrite fmap_app, entries_ch. apply NoDup_app. split; [apply Hr|]. split; [|done].
    intros ch (e & -> & He)%list_elem_of_fmap. by apply Hfresh.
  - intros e [He|(b & -> & Hb)%list_elem_of_fmap]%elem_of_app.
    + pose proof (rc_next _ _ _ _ _ _ Hr e He). lia.
    + apply Hrg. by apply (list_elem_of_fmap_2 snd).
  - intros e [He|(b & -> & Hb)%list_elem_of_fmap]%elem_of_app; [by apply Hr|]. apply proj_none, Forall_forall.
    intros x Hx E. apply (rc_tags _ _ _ _ _ _ Hr), list_elem_of_fmap in Hx as (e & Ex & He). apply (Hfresh e He).
    rewrite <- Ex, E. by apply (list_elem_of_fmap_2 snd).
  - intros e [He|(b & -> & Hb)%list_elem_of_fmap]%elem_of_app.
    + destruct (rc_state _ _ _ _ _ _ Hr e He) as [(t & Ht & Et)|Hh]; [left|by right]. exists t. cbn. rewrite Hp, elem_of_app. by split; [right|].
    + left. destruct (block_task _ _ _ _ Hnew Hb) as (y & Hy & Ey). exists y. cbn. rewrite Hp, elem_of_app. by split; [left|].
  - intros t. cbn. rewrite Hp, elem_of_app. intros [Ht|Ht].
    + destruct (task_block _ _ _ _ Hnew Ht) as (b & Hb & Ef & Etx). exists (entry_of b). rewrite elem_of_app.
      split; [right; by apply list_elem_of_fmap_2|]. split; [done|]. eexists. split; [constructor|]. left. by rewrite Ef.
    + destruct (rc_tasks _ _ _ _ _ _ Hr t Ht) as (e & He & Hrest). exists e. rewrite elem_of_app. by split; [left|].
  - cbn. rewrite Hp, fmap_app, Enew. apply NoDup_app. split; [done|]. split; [|apply Hr].
    intros ch Hb (t & -> & Ht)%list_elem_of_fmap. destruct (rc_tasks _ _ _ _ _ _ Hr t Ht) as (e & He & E & _).
    apply (Hfresh e He). by rewrite E.
  - intros x Hx. rewrite fmap_app, elem_of_app. left. by apply Hr.
  - rewrite fmap_app, entries_born, (rc_born _ _ _ _ _ _ Hr), <- !app_assoc. apply Permutation_app_head, Permutation_app_comm.
  - intros e [He|(b & -> & Hb)%list_elem_of_fmap]%elem_of_app.
    + destruct (rc_order _ _ _ _ _ _ Hr e He); [left; rewrite elem_of_app; by left|by right].
    + left. rewrite elem_of_app. right. by destruct b.
Qed.

(** What the history of a thread and its tasks have to do with each other. *)
Record explains (base : V) (init : list (Code * nat)) (h : log) w (es : list entry) : Prop := {
  ex_view : changes base h.*2 (view (w_libc w));
  ex_nodup : NoDup (e_ch <$> es);
  ex_tags : forall x, x ∈ h -> x.1 ∈ e_ch <$> es;
  ex_proj : forall e, e ∈ es -> proj (e_ch e) h = see <$> e_trace e;
  ex_born : born <$> es ≡ₚ init ++ spawned h.*2;
  ex_order : forall e, e ∈ es -> born e ∈ init \/ spawned_before h e;
  ex_trace : forall e, e ∈ es -> exists s, trace (code (e_code e)) (e_trace e) s;
  ex_state : forall e, e ∈ es ->
    e_ch e ∈ tx_of <$> all_tasks (w_exec w) \/ exists v, halts (code (e_code e)) (e_trace e) (Ret v);
}.

Lemma recorded_explains base init es h w : recorded base init es h [] w -> explains base init h w es.
Proof.
  intros Hr. split; try apply Hr; intros e He.
  2:{ destruct (rc_state _ _ _ _ _ _ Hr e He) as [(t & Ht & <-)|Hh]; [left|by right]. by apply list_elem_of_fmap_2. }
  destruct (rc_state _ _ _ _ _ _ Hr e He) as [(t & Ht & Ech)|(v & s & Hs & _)].
  - destruct (rc_tasks _ _ _ _ _ _ Hr t Ht) as (e2 & He2 & Ech2 & s & Hs & _).
    assert (e2 = e) as ->; [|by exists s]. pose proof (rc_nodup _ _ _ _ _ _ Hr) as Hnd.
    apply list_elem_of_lookup in He as [i Hi], He2 as [j Hj].
    assert (i = j) as <-; [|congruence].
    eapply NoDup_lookup; [exact Hnd|rewrite list_lookup_fmap, Hi; done|rewrite list_lookup_fmap, Hj; cbn; congruence].
  - by exists s.
Qed.

Lemma after_explains bs w w1 k b w' :
  all_tasks (w_exec w) = [] -> effect code (view:=view) (changes:=changes) w w1 [] bs -> after code fuel n k w1 = Ret (b, w') ->
  exists es, explains (view (w_libc w)) bs (history code fuel n k w1) w' es /\
    (b = true -> forall e, e ∈ es -> exists v, halts (code (e_code e)) (e_trace e) (Ret v)).
Proof.
  intros Hno He Ha. pose proof (recorded_start _ _ _ Hno He) as Hr.
  destruct (recorded_after _ _ _ _ _ _ _ _ Hr Ha) as (es & Hr' & Hend). exists es.
  split; [by apply recorded_explains|]. intros Hb e Hin. destruct (rc_state _ _ _ _ _ _ Hr' e Hin) as [(t & Ht & _)|Hh]; [|done].
  rewrite (Hend Hb) in Ht. by apply elem_of_nil in Ht.
Qed.
End recorded.
