(* ===== verification/Transcript.v ===== *)
(** The transcript of a run: whatever the kernel and the executor do, what the
    tasks of a thread do is an interleaving of traces of their blocks, at any time
    and for as long as the thread runs. *)
From ITree Require Import ITree.
From S2P Require Import Prelude Bytes Crates CrateModels Results Reactor Io Sqe Libc SockAddr Event ReadWrite Fs Timer Tcp Udp Mutex Task TaskProps TaskLoop Joins Async AsyncProps Output Seen History Recorded Programs ProgramProps.

Open Scope nat_scope.

(** ** The history of a thread, task by task *)
Lemma by_task {A} (chs : list nat) (h : list (nat * A)) :
  NoDup chs -> (forall x, x ∈ h -> x.1 ∈ chs) -> h.*2 ≡ₚ concat ((fun ch => proj ch h) <$> chs).
Proof.
  intros Hnd. induction h as [|x h IH]; intros Ht; [|rewrite fmap_cons].
  { clear. by induction chs as [|ch chs IH]; [|cbn; rewrite <- IH]. }
  rewrite IH by (intros y Hy; apply Ht; by right).
  specialize (Ht x (list_elem_of_here _ _)). clear IH.
  apply list_elem_of_split in Ht as (l1 & l2 & ->). apply NoDup_app in Hnd as (_ & Hd & Hnd2).
  apply NoDup_cons in Hnd2 as [Hx2 _].
  assert (forall l : list nat, x.1 ∉ l -> (fun ch => proj ch (x :: h)) <$> l = (fun ch => proj ch h) <$> l) as Hl.
  { intros l Hnin. apply list_fmap_ext. intros i ch Hch%list_elem_of_lookup_2. rewrite proj_cons.
    by rewrite decide_False by congruence. }
  rewrite !fmap_app, !fmap_cons, !Hl, !concat_app by (try done; intros Hin; apply (Hd _ Hin); by left).
  cbn [concat]. rewrite (proj_cons (x.1) x), decide_True by done. apply Permutation_middle.
Qed.

Section transcript.
Context {S : Type -> Type} `{SlabSpec S} {B : Type} `{RingBuffer B}.
Context {U : Type} `{IoUring U sqe} {L : Type} `{Libc L} `{Host} `{NetOrder} `{!Process L}.
Context {Code Val : Type} (code : Code -> body Code Val Val).
Abbreviation Fut := (body Code Val Val).
Abbreviation world := (world S B U L Fut Val).
Implicit Types (w : world).

(** ** Spawning the first tasks *)

(** [Executor::spawn(..);] for each block in turn *)
Fixpoint spawn_blocks (cs : list Code) w : outcome world :=
  match cs with
  | [] => mret w
  | c :: cs => w ← spawn_detached code c w; spawn_blocks cs w
  end.

Section watched.
Context {V : Type} {view : L -> V} {changes : V -> list (seen Code) -> V -> Prop} `{!Watched view changes}.
Abbreviation effect := (effect code (view:=view) (changes:=changes)).

Lemma spawn_detached_effect c w w' : spawn_detached code c w = Ret w' -> exists ch, effect w w' [] [(c, ch)].
Proof.
  unfold spawn_detached. intros E. inv_bind. destruct a as [j w1].
  apply (spawn_effect code (view:=view) (changes:=changes)) in Ha.
  apply (joiner_drop_effect code (view:=view) (changes:=changes)) in E.
  exists (rx j). exact (effect_trans _ _ _ _ [] [] _ [] Ha E).
Qed.

Lemma spawn_blocks_effect cs w w' : spawn_blocks cs w = Ret w' -> exists bs, bs.*1 = cs /\ effect w w' [] bs.
Proof.
  revert w. induction cs as [|c cs IH]; intros w E; cbn in E.
  { injection E as <-. exists []. split; [done|]. by apply effect_quiet. }
  inv_bind. apply spawn_detached_effect in Ha as [ch Ha]. destruct (IH _ E) as (bs & <- & Hbs).
  exists ((c, ch) :: bs). split; [done|]. exact (effect_trans _ _ _ _ [] [] [_] bs Ha Hbs).
Qed.

(** [run]: its history, and all its tasks at their ends. *)
Lemma run_explains bs w w1 w' n rounds fuel :
  all_tasks (w_exec w) = [] -> effect w w1 [] bs -> run (poll_block code n) rounds fuel w1 = Ret w' ->
  exists es, explains code (view:=view) (changes:=changes) (view (w_libc w)) bs (history code fuel n rounds w1) w' es /\
    forall e, e ∈ es -> exists v, halts (code (e_code e)) (e_trace e) (Ret v).
Proof.
  intros Hno He Hrun. apply executor_loop_after in Hrun.
  destruct (after_explains _ _ _ _ _ _ _ _ _ Hno He Hrun) as (es & Hex & Hend). exists es. split; [done|]. by apply Hend.
Qed.
End watched.

(** ** At any time *)

(** C3: the executor runs its tasks as their text says, whether or not the
    program ends: a thread with no task spawns some blocks and runs any number of
    rounds of the executor.  Whatever the kernel answers and in whatever order the
    tasks are polled, the calls and the answers in the history of the thread are those
    of its tasks, each along a trace of its own block; there is one task for each block
    spawned, at the start or by a task, and it does nothing before it is spawned;
    the output of the program is what the tasks have printed, in this
    order, and a shared object has the value stored last, and was never read to have
    another.  When [run] returns every task has come to its end. *)
Theorem history_any_time `{!Output L} `{!Memory L} cs w w1 n fuel k ended w' :
  all_tasks (w_exec w) = [] -> spawn_blocks cs w = Ret w1 -> after code fuel n k w1 = Ret (ended, w') ->
  let h := history code fuel n k w1 in
  out (w_libc w') = out (w_libc w) ++ said h.*2 /\
  (forall i, replays (load i (w_libc w)) (accesses i h.*2) (load i (w_libc w'))) /\
  exists (bs : list (Code * nat)) (es : list (entry (Code:=Code) (Val:=Val))),
    bs.*1 = cs /\ born <$> es ≡ₚ bs ++ spawned h.*2 /\ NoDup (e_ch <$> es) /\ (forall x, x ∈ h -> x.1 ∈ e_ch <$> es) /\
    forall e, e ∈ es ->
      proj (e_ch e) h = see <$> e_trace e /\
      (born e ∈ bs \/ spawned_before h e) /\
      (exists s, trace (code (e_code e)) (e_trace e) s) /\
      (ended = true -> exists v, halts (code (e_code e)) (e_trace e) (Ret v)).
Proof.
  intros Hno Hsp Ha h. split; [|split].
  - destruct (spawn_blocks_effect (view:=out) _ _ _ Hsp) as (bs & _ & He).
    destruct (after_explains _ _ _ _ _ _ _ _ _ Hno He Ha) as (es & Hex & _). apply Hex.
  - intros i. destruct (spawn_blocks_effect (view:=load i) _ _ _ Hsp) as (bs & _ & He).
    destruct (after_explains _ _ _ _ _ _ _ _ _ Hno He Ha) as (es & Hex & _). apply Hex.
  - destruct (spawn_blocks_effect (view:=out) _ _ _ Hsp) as (bs & Ebs & He).
    destruct (after_explains _ _ _ _ _ _ _ _ _ Hno He Ha) as (es & Hex & Hend). exists bs, es.
    split; [done|]. split; [apply Hex|]. split; [apply Hex|]. split; [apply Hex|]. intros e Hin.
    split; [by apply Hex|]. split; [by apply Hex|]. split; [by apply (ex_trace _ _ _ _ _ _ Hex)|]. intros Hb. by apply Hend.
Qed.

(** ** The output of a run *)

(** The output, with the channel of the task that printed each line. *)
Definition tagged_lines : list (nat * seen Code) -> list (nat * string) := tagged said_of.
Definition lines_of (ch : nat) (tagged : list (nat * string)) : list string := proj ch tagged.

(** The blocks spawned, task by task. *)
Lemma spawned_by_task (h : list (nat * seen Code)) (es : list (entry (Code:=Code) (Val:=Val))) :
  NoDup (e_ch <$> es) -> (forall x, x ∈ h -> x.1 ∈ e_ch <$> es) ->
  (forall e, e ∈ es -> proj (e_ch e) h = see <$> e_trace e) ->
  (spawned h.*2).*1 ≡ₚ concat ((fun e => spawns (e_trace e)) <$> es).
Proof.
  intros Hnd Ht Hp. rewrite (by_task _ _ Hnd Ht). clear Hnd Ht. rewrite <- list_fmap_compose.
  induction es as [|e es IH]; [done|]. rewrite !fmap_cons. cbn [concat compose].
  rewrite spawned_app, fmap_app, (Hp e), spawned_see by by left.
  apply Permutation_app_head, IH. intros x Hx. apply Hp. by right.
Qed.

Lemma explains_codes {V} {view : L -> V} {changes} base bs h w (es : list (entry (Code:=Code) (Val:=Val))) :
  explains code (view:=view) (changes:=changes) base bs h w es ->
  e_code <$> es ≡ₚ bs.*1 ++ concat ((fun e => spawns (e_trace e)) <$> es).
Proof.
  intros Hex. rewrite <- (spawned_by_task h es), <- fmap_app by apply Hex.
  rewrite <- (ex_born _ _ _ _ _ _ Hex), <- list_fmap_compose. done.
Qed.

Lemma none_spawned (es : list (entry (Code:=Code) (Val:=Val))) :
  (forall e, e ∈ es -> spawns (e_trace e) = []) -> concat ((fun e => spawns (e_trace e)) <$> es) = [].
Proof.
  induction es as [|e es IH]; intros Hes; [done|]. cbn. rewrite (Hes e) by by left. apply IH.
  intros x Hx. apply Hes. by right.
Qed.

(** A task that spawns [f m], whose tasks spawn nothing. *)
Lemma one_root (f : Code -> list Code) m cs :
  (forall c, concat (f <$> f c) = []) -> cs ≡ₚ m :: concat (f <$> cs) -> cs ≡ₚ m :: f m.
Proof.
  intros Hf Hcs. assert (forall l, concat (f <$> l) = l ≫= f) as Hb.
  { induction l as [|c l IH]; [done|]. cbn. by rewrite IH. }
  assert (forall l, (l ≫= f) ≫= f = []) as Hbb.
  { induction l as [|c l IH]; [done|]. cbn. by rewrite bind_app, IH, <- Hb, Hf. }
  rewrite Hb in Hcs. pose proof (bind_Permutation f _ _ Hcs) as Hp.
  cbn in Hp. rewrite Hbb, app_nil_r in Hp. by rewrite Hp in Hcs.
Qed.

Lemma explains_root {V} {view : L -> V} {changes} (f : Code -> list Code) m ch base h w (es : list (entry (Code:=Code) (Val:=Val))) :
  explains code (view:=view) (changes:=changes) base [(m, ch)] h w es ->
  (forall c, concat (f <$> f c) = []) -> (forall e, e ∈ es -> spawns (e_trace e) = f (e_code e)) ->
  e_code <$> es ≡ₚ m :: f m.
Proof.
  intros Hex Hf Hes. apply one_root; [done|]. rewrite <- list_fmap_compose. rewrite (explains_codes _ _ _ _ _ Hex) at 1. cbn.
  apply Permutation_cons, reflexive_eq; [done|]. f_equal. apply list_fmap_ext. intros i e Hi. apply Hes. by eapply list_elem_of_lookup_2.
Qed.

(** The executor runs its tasks as their text says: a thread with no task spawns some blocks
    and runs them.  When [run] returns, whatever the kernel answered and in whatever
    order the tasks were polled, every task, those of the blocks and those spawned in
    turn, has followed a complete trace of its block, and the lines printed are
    the lines of these traces, interleaved: each line was printed by one of the
    tasks, and those of a task are the lines of its trace, in order. *)
Theorem run_transcript `{!Output L} cs w w1 w' n rounds fuel :
  all_tasks (w_exec w) = [] -> spawn_blocks cs w = Ret w1 -> run (poll_block code n) rounds fuel w1 = Ret w' ->
  exists (es : list (entry (Code:=Code) (Val:=Val))) (tagged : list (nat * string)),
    out (w_libc w') = out (w_libc w) ++ tagged.*2 /\
    NoDup (e_ch <$> es) /\ (forall x, x ∈ tagged -> x.1 ∈ e_ch <$> es) /\
    (forall e, e ∈ es -> lines_of (e_ch e) tagged = prints (e_trace e) /\
       exists v, halts (code (e_code e)) (e_trace e) (Ret v)) /\
    e_code <$> es ≡ₚ cs ++ concat ((fun e => spawns (e_trace e)) <$> es).
Proof.
  intros Hno Hsp Hrun. destruct (spawn_blocks_effect (view:=out) _ _ _ Hsp) as (bs & <- & He).
  destruct (run_explains _ _ _ _ _ _ _ Hno He Hrun) as (es & Hex & Hend).
  set (h := history code fuel n rounds w1) in *. exists es, (tagged_lines h). unfold tagged_lines. rewrite tagged_snd.
  split; [apply Hex|]. split; [apply Hex|]. split; [|split].
  - intros x Hx. apply (list_elem_of_fmap_2 fst), tagged_tags, list_elem_of_fmap in Hx as (y & -> & Hy). by apply Hex.
  - intros e Hin. split; [|by apply Hend]. unfold lines_of. rewrite proj_tagged, (ex_proj _ _ _ _ _ _ Hex e Hin). apply said_see.
  - by apply (explains_codes _ _ _ _ _ Hex).
Qed.
End transcript.

(** ** Two tasks *)
Inductive merge {A} : list A -> list A -> list A -> Prop :=
  | merge_nil : merge [] [] []
  | merge_left x l1 l2 l : merge l1 l2 l -> merge (x :: l1) l2 (x :: l)
  | merge_right x l1 l2 l : merge l1 l2 l -> merge l1 (x :: l2) (x :: l).

Lemma merge_tagged {A} ch1 ch2 (h : list (nat * A)) :
  ch1 <> ch2 -> (forall x, x ∈ h -> x.1 = ch1 \/ x.1 = ch2) -> merge (proj ch1 h) (proj ch2 h) h.*2.
Proof.
  intros Hne Ht. induction h as [|x h IH]; [constructor|]. rewrite !proj_cons, fmap_cons.
  assert (merge (proj ch1 h) (proj ch2 h) h.*2) as Hm by (apply IH; intros y Hy; apply Ht; by right).
  destruct (Ht x (list_elem_of_here _ _)) as [E|E].
  - rewrite decide_True, decide_False by congruence. by constructor.
  - rewrite decide_False, decide_True by congruence. by constructor.
Qed.

Lemma merge_comm {A} (l1 l2 l : list A) : merge l1 l2 l -> merge l2 l1 l.
Proof. induction 1; by constructor. Qed.

Lemma merge_said {Code} (l1 l2 l : list (seen Code)) : merge l1 l2 l -> merge (said l1) (said l2) (said l).
Proof.
  assert (forall (ls : list string) l1 l2 l, merge l1 l2 l -> merge (ls ++ l1) l2 (ls ++ l)) as Hl.
  { intros ls k1 k2 k Hk. induction ls; [done|by constructor]. }
  induction 1 as [|x l1 l2 l _ IH|x l1 l2 l _ IH]; [constructor|by apply Hl|by apply merge_comm, Hl, merge_comm].
Qed.

Section two_tasks.
Context {S : Type -> Type} `{SlabSpec S} {B : Type} `{RingBuffer B}.
Context {U : Type} `{IoUring U sqe} {L : Type} `{Libc L} `{!Process L} `{!Output L} `{Host} `{NetOrder}.
Context {Code Val : Type} (code : Code -> body Code Val Val) (ls : Code -> list string).

(** The output of a thread that had two tasks, whose blocks print [ls]. *)
Lemma two_tasks_merge init es h (w w' : world S B U L (body Code Val Val) Val) c1 c2 :
  explains code (view:=out) (changes:=fun v l v' => v' = v ++ said l) (out (w_libc w)) init h w' es ->
  e_code <$> es ≡ₚ [c1; c2] -> (forall e, e ∈ es -> prints (e_trace e) = ls (e_code e)) ->
  exists lines, out (w_libc w') = out (w_libc w) ++ lines /\ merge (ls c1) (ls c2) lines.
Proof.
  intros Hex Hc Hes. exists (said h.*2). split; [apply Hex|]. symmetry in Hc. pose proof (Permutation_length Hc) as Hlen.
  rewrite length_fmap in Hlen. destruct es as [|e1 [|e2 [|]]]; try done. cbn [fmap list_fmap] in Hc.
  pose proof (ex_nodup _ _ _ _ _ _ Hex) as Hnd. cbn in Hnd. apply NoDup_cons in Hnd as [Hne _].
  assert (merge (said (proj (e_ch e1) h)) (said (proj (e_ch e2) h)) (said h.*2)) as Hm.
  { apply merge_said, merge_tagged; [set_solver|]. intros x Hx. apply (ex_tags _ _ _ _ _ _ Hex) in Hx. cbn in Hx. set_solver. }
  rewrite !(ex_proj _ _ _ _ _ _ Hex), !said_see, !Hes in Hm by (by left || by right; left).
  apply Permutation_length_2_inv in Hc as [[= E1 E2]|[= E1 E2]]; rewrite E1, E2 in Hm; [done|by apply merge_comm].
Qed.
End two_tasks.
