(* ===== verification/Prompt.v ===== *)
(** Tasks that never wait: polled once, they are done.  The executor runs them without
    the kernel, the task spawned last first: its run queue is a stack. *)
From ITree Require Import ITree.
From S2P Require Import Prelude Bytes Crates CrateModels Results Reactor Io Sqe Libc SockAddr Event ReadWrite Fs Timer Tcp Udp Mutex Task TaskProps TaskLoop Joins Async AsyncProps Output Seen History Recorded Transcript Programs.

Open Scope nat_scope.

Section prompt.
Context {S : Type -> Type} `{SlabSpec S} {B : Type} `{RingBuffer B}.
Context {U : Type} `{IoUring U sqe} {L : Type} `{Libc L} `{Host} `{NetOrder} `{!Process L}.
Context {V : Type} {view : L -> V} `{!Quiet view}.
Context {Code Val : Type} (code : Code -> body Code Val Val) (n : nat).
Abbreviation Fut := (body Code Val Val).
Abbreviation world := (world S B U L Fut Val).
Implicit Types (w : world) (t : Task Fut).

(** Where [pre] holds, the first poll of [fut] ends it with [v], and does [step] to what is seen. *)
Definition prompt (pre : V -> Prop) (fut : Fut) (v : Val) (step : V -> V) : Prop :=
  forall cx w, pre (view (w_libc w)) -> exists fut' l, poll_block code n fut cx w = Ret (Ready v, fut', set_libc l w) /\ view l = step (view (w_libc w)).

(** Nobody waits for the value of [t], or there is room for it. *)
Definition can_send w t : Prop :=
  exists c, w_chans w !! tx_of t = Some c /\ (receiver_alive c = false \/ buffer c = None).

(** *** Polling such a task *)
Lemma send_ok v (c : channel Val) :
  receiver_alive c = false \/ buffer c = None ->
  exists r c', send v c = Ret (r, c') /\ receiver_alive c' = receiver_alive c /\
    (receiver_alive c = true -> buffer c' = Some v).
Proof.
  unfold send. destruct (receiver_alive c) eqn:Er; intros Hroom.
  - destruct Hroom as [?|E]; [done|]. rewrite E. by eexists _, _.
  - by eexists _, c.
Qed.

Lemma poll_prompt w t pre v step :
  prompt pre (f (future t)) v step -> pre (view (w_libc w)) -> can_send w t ->
  exists tf l c c', w_chans w !! tx_of t = Some c /\ receiver_alive c' = receiver_alive c /\
    (receiver_alive c = true -> buffer c' = Some v) /\
    poll_task (poll_block code n) (future t) (id t) w =
      Ret (Ready tt, tf, World (w_ring w) (w_exec w) (w_ids w) (<[tx_of t := c']> (w_chans w)) (w_next w) l) /\
    view l = step (view (w_libc w)).
Proof.
  intros Hp Hpre (c & Hc & Hroom). destruct (Hp (id t) w Hpre) as (fut' & l & Ep & El). unfold poll_task. rewrite Ep. cbn.
  pose proof (notify_quiet (view:=view) (evt2 (future t)) l) as E1. destruct (Event.notify_one (evt2 (future t)) l) as [r l1].
  unfold tx_of in *. rewrite Hc. cbn. destruct (send_ok v c Hroom) as (rs & c' & -> & Er & Eb). cbn.
  eexists _, _, c, (drop_sender c'). split; [done|]. split; [done|]. split; [done|]. split; [done|].
  unfold Event.drop. rewrite quiet_close. cbn in E1. congruence.
Qed.

(** A round, when such a task is on top of the stack. *)
Lemma round_prompt fuel w q t pre v step :
  run_q (w_exec w) = q ++ [t] -> slab_is_empty (waiting (w_exec w)) = true ->
  prompt pre (f (future t)) v step -> pre (view (w_libc w)) -> can_send w t ->
  exists l c c', w_chans w !! tx_of t = Some c /\ receiver_alive c' = receiver_alive c /\
    (receiver_alive c = true -> buffer c' = Some v) /\
    executor_round (poll_block code n) fuel w =
      Ret (bool_decide (q = []), World (w_ring w) (MkExecutor (waiting (w_exec w)) q) (w_ids w) (<[tx_of t := c']> (w_chans w)) (w_next w) l) /\
    view l = step (view (w_libc w)).
Proof.
  intros Hq Hw Hp Hpre Hc. unfold executor_round. rewrite decide_False by (rewrite Hq; by destruct q). cbn.
  unfold pop. rewrite Hq, last_snoc, removelast_last. cbn.
  destruct (poll_prompt (set_exec (MkExecutor (waiting (w_exec w)) q) w) t pre v step Hp Hpre Hc) as (tf & l & c & c' & Hcc & Er & Eb & -> & El).
  cbn. exists l, c, c'. split; [done|]. split; [done|]. split; [done|]. split; [|done]. do 2 f_equal.
  case_bool_decide; [by rewrite decide_True, Hw|by rewrite decide_False].
Qed.

(** *** A stack of such tasks *)
Context (pre : Code -> V -> Prop) (step : Code -> V -> V).
Definition prompt_code (c : Code) : Prop := exists v, prompt (pre c) (code c) v (step c).

(** The steps of the tasks, the last one first. *)
Definition last_first (v : V) (cs : list Code) : V := foldr step v cs.

Fixpoint allowed (v : V) (cs : list Code) : Prop :=
  match cs with
  | [] => True
  | c :: cs => pre c (last_first v cs) /\ allowed v cs
  end.

Lemma allowed_snoc v cs c : allowed v (cs ++ [c]) -> pre c v /\ allowed (step c v) cs.
Proof.
  induction cs as [|c' cs IH]; cbn; [tauto|]. unfold last_first in *. rewrite foldr_app. cbn. tauto.
Qed.

Definition runs_code (c : Code) t : Prop := f (future t) = code c.
Definition detached w t : Prop := exists c, w_chans w !! tx_of t = Some c /\ receiver_alive c = false.

Lemma detached_insert w w' ch c' t :
  w_chans w' = <[ch := c']> (w_chans w) -> receiver_alive c' = false -> detached w t -> detached w' t.
Proof.
  intros Ew Hc (c & Hct & Hr). unfold detached. rewrite Ew. destruct (decide (tx_of t = ch)) as [->|Hne].
  - exists c'. by rewrite lookup_insert_eq.
  - exists c. by rewrite lookup_insert_ne.
Qed.

Lemma loop_prompt rounds fuel cs ts w :
  ts <> [] -> length ts <= rounds -> run_q (w_exec w) = ts -> slab_is_empty (waiting (w_exec w)) = true ->
  Forall2 runs_code cs ts -> Forall prompt_code cs -> Forall (detached w) ts ->
  allowed (view (w_libc w)) cs ->
  exists w', executor_loop (poll_block code n) rounds fuel w = Ret w' /\
    view (w_libc w') = last_first (view (w_libc w)) cs /\ run_q (w_exec w') = [] /\ waiting (w_exec w') = waiting (w_exec w).
Proof.
  revert rounds cs w. induction ts as [|t ts IH] using rev_ind; intros rounds cs w Hne Hlen Hq Hw Hcs Hp Hd Hok; [done|].
  apply Forall2_app_inv_r in Hcs as (cs1 & cs2 & Hcs & Ht & ->).
  apply Forall2_cons_inv_r in Ht as (c & cs3 & Hc & Hnil & ->). apply Forall2_nil_inv_r in Hnil as ->.
  apply Forall_app in Hp as [Hp [Hpc _]%Forall_cons]. apply Forall_app in Hd as [Hd [Hdt _]%Forall_cons].
  destruct Hpc as [v Hv]. rewrite <- Hc in Hv. apply allowed_snoc in Hok as [Hpre Hok].
  destruct (round_prompt fuel w ts t (pre c) v (step c) Hq Hw Hv Hpre) as (l & ch & ch' & Hch & Er & _ & Eround & El).
  { destruct Hdt as (ch & Hch & Hr). exists ch. split; [done|by left]. }
  rewrite length_app in Hlen. cbn in Hlen. destruct rounds as [|rounds]; [lia|]. cbn [executor_loop]. rewrite Eround. cbn.
  unfold last_first. rewrite foldr_app. cbn. rewrite <- El. case_bool_decide as Hts.
  - subst ts. apply Forall2_nil_inv_r in Hcs as ->. by eexists.
  - match goal with |- context [executor_loop _ rounds fuel ?w1] => apply (IH rounds cs1 w1) end; [done|lia|done..| |by cbn; rewrite El].
    eapply Forall_impl; [exact Hd|]. intros t' Ht'. eapply detached_insert; [done| |exact Ht'].
    destruct Hdt as (ch0 & Hch0 & Hr). rewrite Er. congruence.
Qed.

(** *** Spawning them *)
Lemma spawn_detached_prompt c w w' :
  spawn_detached code c w = Ret w' ->
  exists t, run_q (w_exec w') = run_q (w_exec w) ++ [t] /\ waiting (w_exec w') = waiting (w_exec w) /\ runs_code c t /\
    detached w' t /\ (forall t', detached w t' -> tx_of t' < w_next w -> detached w' t') /\
    tx_of t < w_next w' /\ w_next w <= w_next w' /\ view (w_libc w') = view (w_libc w).
Proof.
  unfold spawn_detached. intros E. inv_bind. destruct a as [j w1]. pose proof (spawn_quiet (view:=view) _ _ _ _ Ha) as Ev.
  destruct (spawn_inv _ _ _ _ Ha) as (ev & l & Hrx & Hio & ->). unfold joiner_drop in E. cbn in E. rewrite Hrx, lookup_insert_eq in E.
  cbn in E. unfold EventWaiter.drop in E. rewrite Hio in E. cbn in E. injection E as <-. eexists. cbn.
  split; [done|]. split; [done|]. split; [done|]. split.
  { eexists. cbn. unfold tx_of. cbn. rewrite lookup_insert_eq. by split. }
  split.
  { intros t' (ch & Hch & Hr) Hlt. exists ch. cbn. rewrite !lookup_insert_ne by lia. by split. }
  split; [unfold tx_of; cbn; lia|]. split; [lia|]. unfold Event.drop. rewrite quiet_close. exact Ev.
Qed.

Lemma spawn_blocks_prompt cs w w' :
  spawn_blocks code cs w = Ret w' -> Forall (fun t => detached w t /\ tx_of t < w_next w) (run_q (w_exec w)) ->
  exists ts, run_q (w_exec w') = run_q (w_exec w) ++ ts /\ waiting (w_exec w') = waiting (w_exec w) /\
    Forall2 runs_code cs ts /\ Forall (detached w') (run_q (w_exec w')) /\ view (w_libc w') = view (w_libc w).
Proof.
  revert w. induction cs as [|c cs IH]; intros w E Hd; cbn in E.
  { injection E as <-. exists []. rewrite app_nil_r. split; [done|]. split; [done|]. split; [constructor|].
    split; [|done]. by eapply Forall_impl; [exact Hd|]; intros t [? _]. }
  inv_bind. destruct (spawn_detached_prompt _ _ _ Ha) as (t & Eq & Ew & Hc & Ht & Hold & Hlt & Hle & Ev).
  destruct (IH _ E) as (ts & Eq' & Ew' & Hcs & Hd' & Ev').
  { rewrite Eq. apply Forall_app. split; [|by repeat constructor]. eapply Forall_impl; [exact Hd|].
    intros t' [Ht' Hlt']. split; [by apply Hold|lia]. }
  exists (t :: ts). rewrite Eq', Eq, <- app_assoc. split; [done|]. split; [congruence|]. split; [by constructor|].
  split; [|congruence]. rewrite Eq', Eq, <- app_assoc in Hd'. done.
Qed.

(** Spawned, and run later: the process may have changed in between. *)
Lemma run_later rounds fuel cs w w1 l :
  cs <> [] -> length cs <= rounds -> run_q (w_exec w) = [] -> slab_is_empty (waiting (w_exec w)) = true ->
  Forall prompt_code cs -> allowed (view l) cs -> spawn_blocks code cs w = Ret w1 ->
  exists w', run (poll_block code n) rounds fuel (set_libc l w1) = Ret w' /\
    view (w_libc w') = last_first (view l) cs /\ all_tasks (w_exec w') = [].
Proof.
  intros Hne Hlen Hq Hw Hp Hok Hsp. destruct (spawn_blocks_prompt _ _ _ Hsp) as (ts & Eq & Ew & Hcs & Hd & Ev); [by rewrite Hq|].
  rewrite Hq in Eq. cbn in Eq. pose proof (Forall2_length _ _ _ Hcs) as Hlen2. rewrite Eq in Hd.
  destruct (loop_prompt rounds fuel cs ts (set_libc l w1)) as (w' & Hrun & Hv & Hq' & Hw'); [|lia|done|by cbn; rewrite Ew|done..|].
  { intros ->. apply Forall2_nil_inv_r in Hcs. done. }
  exists w'. split; [done|]. split; [done|]. unfold all_tasks. rewrite Hq', Hw'. cbn. rewrite Ew.
  apply slab_is_empty_spec in Hw. by rewrite Hw, map_to_list_empty.
Qed.

Lemma run_spawned rounds fuel cs w w1 :
  cs <> [] -> length cs <= rounds -> run_q (w_exec w) = [] -> slab_is_empty (waiting (w_exec w)) = true ->
  Forall prompt_code cs -> allowed (view (w_libc w)) cs -> spawn_blocks code cs w = Ret w1 ->
  exists w', run (poll_block code n) rounds fuel w1 = Ret w' /\
    view (w_libc w') = last_first (view (w_libc w)) cs /\ all_tasks (w_exec w') = [].
Proof.
  intros Hne Hlen Hq Hw Hp Hok Hsp. destruct (spawn_blocks_prompt _ _ _ Hsp) as (_ & _ & _ & _ & _ & Ev); [by rewrite Hq|].
  rewrite <- Ev in Hok |- *. destruct (run_later rounds fuel cs w w1 (w_libc w1) Hne Hlen Hq Hw Hp Hok Hsp) as (w' & Hr).
  exists w'. by destruct w1.
Qed.

(** C10: tasks that never wait are run by one poll each, the one spawned last first,
    without waiting for the kernel: [run] returns after as many rounds as there
    are tasks, also when it may process no completion ([fuel] is 0), and
    what is seen of the process is what the tasks have done, in this order. *)
Theorem prompt_tasks_last_first rounds fuel cs w w1 :
  cs <> [] -> length cs <= rounds -> run_q (w_exec w) = [] -> slab_is_empty (waiting (w_exec w)) = true ->
  Forall prompt_code cs -> allowed (view (w_libc w)) cs -> spawn_blocks code cs w = Ret w1 ->
  exists w', run (poll_block code n) rounds fuel w1 = Ret w' /\
    view (w_libc w') = last_first (view (w_libc w)) cs /\ all_tasks (w_exec w') = [].
Proof.
  intros Hne Hlen Hq Hw Hp Hok Hsp. apply (run_spawned _ _ _ _ _ Hne Hlen Hq Hw Hp Hok Hsp).
Qed.

(** [block_on] such a block: one poll, and its value. *)
Theorem block_on_prompt rounds fuel fut pr v st w j w1 :
  run_q (w_exec w) = [] -> slab_is_empty (waiting (w_exec w)) = true ->
  prompt pr fut v st -> pr (view (w_libc w)) -> spawn fut w = Ret (j, w1) ->
  exists w', block_on (poll_block code n) (Datatypes.S rounds) fuel fut w = Ret (v, w') /\ view (w_libc w') = st (view (w_libc w)) /\
    run_q (w_exec w') = [] /\ waiting (w_exec w') = waiting (w_exec w).
Proof.
  intros Hq Hw Hp Hpre Hsp. unfold block_on. rewrite Hsp. cbn [mbind outcome_bind]. pose proof (spawn_quiet (view:=view) _ _ _ _ Hsp) as Ev.
  destruct (spawn_inv _ _ _ _ Hsp) as (ev & l & Hrx & Hio & ->).
  match goal with |- context [executor_loop _ (Datatypes.S rounds) fuel ?w1] =>
    destruct (round_prompt fuel w1 [] (MkTask (Datatypes.S (w_next w)) (MkTaskFuture fut ev (w_next w))) pr v st)
      as (l1 & c & c' & Hc & Er & Eb & Hround & El) end; [cbn; by rewrite Hq|done|done|by cbn in *; rewrite Ev| |].
  { exists channel_new. unfold tx_of. cbn. rewrite lookup_insert_eq. split; [done|by right]. }
  unfold tx_of in *. cbn in Hc. rewrite lookup_insert_eq in Hc. injection Hc as <-.
  cbn [executor_loop]. rewrite Hround. cbn. unfold join, recv_unwrap. cbn. rewrite Hrx, lookup_insert_eq. cbn.
  unfold recv. rewrite (Eb eq_refl). cbn. unfold joiner_drop. cbn. rewrite Hrx, lookup_insert_eq. cbn.
  unfold EventWaiter.drop. rewrite Hio. cbn. eexists. split; [done|]. cbn. unfold Event.drop. rewrite quiet_close.
  cbn in El, Ev. split; [congruence|done].
Qed.
End prompt.
