(* ===== verification/ProgramOutput.v ===== *)
(** What timer.rs and sub_tasks.rs print: the transcripts of their runs. *)
From ITree Require Import ITree.
From S2P Require Import Prelude Bytes Crates CrateModels Results Reactor Io Sqe Libc SockAddr Event ReadWrite Fs Timer Tcp Udp Mutex Task TaskProps TaskLoop Joins Async AsyncProps Output Seen History Recorded Programs ProgramProps Transcript.

Open Scope nat_scope.

Lemma greets_observed {Code Val} l (tr : list (obs (Code:=Code) (Val:=Val))) :
  greets l tr (Ret tt) -> prints tr = l.*2 /\ sleeps tr = l.*1 /\ spawns tr = [].
Proof.
  intros [[_ (ts & Hlen & ->)]|[? _]]; [|done]. revert ts Hlen.
  induction l as [|g l IH]; intros [|t ts] Hlen; try done. injection Hlen as Hlen.
  destruct (IH ts Hlen) as (E1 & E2 & E3). cbn [zip_with concat]. unfold prints, sleeps, spawns in *.
  rewrite !pick_app, E1, E2, E3. done.
Qed.

(** Two tasks spawned by a [main], which print each their lines and spawn nothing. *)
Section two.
Context {S : Type -> Type} `{SlabSpec S} {B : Type} `{RingBuffer B}.
Context {U : Type} `{IoUring U sqe} {L : Type} `{Libc L} `{!Process L} `{!Output L} `{Host} `{NetOrder}.
Context {Code Val : Type} (run_code : Code -> body Code Val Val) (lines : Code -> list string).
Context (Hlines : forall c tr v, halts (run_code c) tr (Ret v) -> prints tr = lines c /\ spawns tr = []).

Lemma two_spawned_output rounds fuel a b (w w1 w2 w' : world S B U L (body Code Val Val) Val) :
  all_tasks (w_exec w) = [] -> spawn_detached run_code a w = Ret w1 -> spawn_detached run_code b w1 = Ret w2 ->
  run (poll_block run_code fuel) rounds fuel w2 = Ret w' ->
  exists ls, out (w_libc w') = out (w_libc w) ++ ls /\ merge (lines a) (lines b) ls.
Proof.
  intros Hno Ha Hb Hm. apply (spawn_detached_effect _ (view:=out)) in Ha as [ch1 Ha], Hb as [ch2 Hb].
  pose proof (effect_trans _ _ _ _ _ _ _ _ Ha Hb) as He.
  destruct (run_explains _ _ _ _ _ _ _ _ Hno He Hm) as (es & Hex & Hh).
  assert (forall e, e ∈ es -> prints (e_trace e) = lines (e_code e) /\ spawns (e_trace e) = []) as Hes.
  { intros e Hin. destruct (Hh e Hin) as [v Hv]. by apply Hlines in Hv. }
  apply (two_tasks_merge run_code lines _ _ _ _ _ a b Hex); [|intros e Hin; by apply Hes].
  rewrite (explains_codes _ _ _ _ _ _ Hex), (none_spawned es) by (intros e Hin; by apply Hes). done.
Qed.
End two.

Section timer.
Context {S : Type -> Type} `{SlabSpec S} {B : Type} `{RingBuffer B}.
Context {U : Type} `{IoUring U sqe} {L : Type} `{Libc L} `{!Process L} `{!Output L} `{Host} `{NetOrder}.
Import TimerExample.
Abbreviation world := (world S B U L (body code unit unit) unit).

Definition upper_lines : list string := ["Hello A!"; "Hello B!"; "Hello C!"]%string.
Definition lower_lines : list string := ["Hello a!"; "Hello b!"; "Hello c!"]%string.
Definition lines_of_code (c : code) : list string := match c with TaskA => upper_lines | Taska => lower_lines end.

Lemma timer_code_lines c tr v : halts (run_code c) tr (Ret v) -> prints tr = lines_of_code c /\ spawns tr = [].
Proof.
  destruct v. intros Hh. destruct c; cbn [run_code] in Hh.
  - apply (halts_eutt _ _ _ _ hello_upper_talks), talk_greets, greets_observed in Hh as (E & _ & Es). by rewrite E.
  - apply (halts_eutt _ _ _ _ hello_lower_talks), talk_greets, greets_observed in Hh as (E & _ & Es). by rewrite E.
Qed.

(** Timer.rs: when [main] returns, both tasks have printed their three
    lines, in order, and nothing else was printed: the output is an
    interleaving of the two, whichever way the timers expire. *)
Theorem timer_output rounds fuel (w w' : world) :
  all_tasks (w_exec w) = [] -> main rounds fuel w = Ret w' ->
  exists ls, out (w_libc w') = out (w_libc w) ++ ls /\ merge upper_lines lower_lines ls.
Proof.
  intros Hno Hm. unfold main in Hm. inv_bind.
  apply (two_spawned_output run_code lines_of_code timer_code_lines _ _ _ _ _ _ _ _ Hno Ha Ha0 Hm).
Qed.
End timer.

Section sub_tasks.
Context {S : Type -> Type} `{SlabSpec S} {B : Type} `{RingBuffer B}.
Context {U : Type} `{IoUring U sqe} {L : Type} `{Libc L} `{!Process L} `{!Output L} `{Host} `{NetOrder}.
Import SubTasks.
Abbreviation world := (world S B U L (body code value value) value).

Definition main_lines : list string := ["Hello A!"; "Hello B!"; "Hello C!"]%string.
Definition task2_lines : list string := ["Hello from other task"; "Bye bye from other task"]%string.

Definition code_lines (c : code) : list string := match c with Main => main_lines | Task2 => task2_lines end.
Definition code_spawns (c : code) : list code := match c with Main => [Task2] | Task2 => [] end.

Lemma sub_code_lines c tr v :
  halts (run_code c) tr (Ret v) -> prints tr = code_lines c /\ spawns tr = code_spawns c.
Proof.
  intros Hh. destruct c; cbn [run_code] in Hh.
  - unfold main_block, sleep_for, println, assert_eq in Hh. inv_halts.
    match goal with Ha : halts (if decide ?P then _ else _) _ _ |- _ => destruct (decide P); inv_halts end. done.
  - unfold task2, sleep_for, println in Hh. inv_halts. done.
Qed.

(** Sub_tasks.rs: when [main] returns, the output is an interleaving of the
    three lines of the main task and the two of the task it spawned; in
    particular the joined value was the one asserted. *)
Theorem sub_tasks_output rounds fuel (w w' : world) v :
  all_tasks (w_exec w) = [] -> main rounds fuel w = Ret (v, w') ->
  exists ls, out (w_libc w') = out (w_libc w) ++ ls /\ merge main_lines task2_lines ls.
Proof.
  intros Hno Hm. unfold main, block_on in Hm. inv_bind. destruct a as [j w1]. inv_bind.
  apply (spawn_effect run_code (view:=out)) in Ha as He.
  destruct (run_explains _ _ _ _ _ _ _ _ Hno He Ha0) as (es & Hex & Hh).
  assert (out (w_libc w') = out (w_libc a)) as ->.
  { unfold join in Hm. inv_bind. destruct a0 as [u w2]. inv_bind. apply recv_unwrap_inv in Ha1 as (c & _ & _ & ->).
    apply (joiner_drop_effect run_code (view:=out)) in Ha2 as [Eo _ _]. by rewrite app_nil_r in Eo. }
  assert (forall e, e ∈ es -> prints (e_trace e) = code_lines (e_code e) /\
    spawns (e_trace e) = code_spawns (e_code e)) as Hes.
  { intros e Hin. destruct (Hh e Hin) as [u Hu]. by apply sub_code_lines in Hu. }
  apply (two_tasks_merge run_code code_lines _ _ _ _ _ Main Task2 Hex); [|intros e Hin; by apply Hes].
  apply (explains_root _ code_spawns _ _ _ _ _ _ Hex); [by intros []|]. intros e Hin. by apply Hes.
Qed.
End sub_tasks.
