(* ===== verification/Sleepers.v ===== *)
(** Tasks that sleep and print: they keep the contract of Progress.v, so a thread
    that spawns them and runs returns; timer.rs and the example of lib.rs do. *)
From ITree Require Import ITree.
From S2P Require Import Prelude Bytes Crates CrateModels Results Reactor Io RingFacts Mailbox Refinement RefineOps System ReactorProps Sqe Futures Libc SockAddr Event ReadWrite Fs Timer Tcp Udp Mutex Task TaskProps TaskLoop Progress Awaits Async AsyncProps Output Seen History Recorded Transcript Text Programs ProgramProps ProgramOutput.

Open Scope nat_scope.

(** One millisecond *)
Definition MS : Z := 10 ^ 6.

(** A process with timers to be had, and a clock that moves by less than a
    millisecond between two readings while a task runs. *)
Class SlowClock (L : Type) `{Roomy L} `{!Process L} : Prop := {
  room_now : forall l : L, room l -> room (sys_now l).2;
  room_print : forall s (l : L), room l -> room (print s l) /\ room (eprint s l);
  room_timer : forall (l : L), room l ->
    let '(fd, l') := sys_timerfd_create CLOCK_MONOTONIC TFD_NONBLOCK l in fd <> (-1)%Z /\ room l';
  room_settime : forall fd o x fl s ns (l : L), room l -> (0 <= s < 2 ^ 63)%Z -> (0 <= ns < NS)%Z ->
    k_fds (libc_view l) !! fd = Some o -> k_objs (libc_view l) !! o = Some (KTimer x) ->
    let '(r, l') := sys_timerfd_settime fd fl s ns l in r <> (-1)%Z /\ room l';
  clock_range : forall l : L, room l -> (0 <= (sys_now l).1 < 2 ^ 62 * NS)%Z;
  clock_slow : forall l : L, room l -> ((sys_now (sys_now l).2).1 < (sys_now l).1 + MS)%Z;
  clock_create : forall l : L, room l ->
    ((sys_now (sys_timerfd_create CLOCK_MONOTONIC TFD_NONBLOCK (sys_now l).2).2).1 < (sys_now l).1 + MS)%Z;
}.

(** ** The blocks *)
Section blocks.
Context {Code Val : Type}.
Abbreviation Fut := (body Code Val Val).
Implicit Types (t : Fut).

(** Any timer: the shape of the block does not depend on which. *)
Definition some_timer : Timer.Timer := Timer.MkTimer 0 Oneshot.New [] 0.

(** The timers the block still awaits, looking [fuel] steps ahead. *)
Fixpoint timers_left (fuel : nat) t : nat :=
  match fuel with
  | O => 0
  | Datatypes.S fuel =>
      match observe t with
      | RetF _ => 0
      | TauF t => timers_left fuel t
      | VisF e k =>
          match e in ioE _ _ X return (X -> Fut) -> nat with
          | Await a => fun k =>
              match a in awaitE _ X return (X -> Fut) -> nat with
              | ATimer _ => fun k => Datatypes.S (timers_left fuel (k tt))
              | _ => fun _ => 0
              end k
          | Call c => fun k =>
              match c in callE _ X return (X -> Fut) -> nat with
              | CPrint _ => fun k => timers_left fuel (k tt)
              | CEprint _ => fun k => timers_left fuel (k tt)
              | CSleep _ => fun k => timers_left fuel (k (Ok some_timer))
              | _ => fun _ => 0
              end k
          | Crash _ => fun _ => 0
          end k
      end
  end.

(** A block that prints and sleeps [n] times within [m] steps: each timer is
    awaited as soon as it is made, and is for two milliseconds at least. *)
Inductive sleeper : nat -> nat -> Fut -> Prop :=
  | sleeper_ret m t v : observe t = RetF v -> sleeper 0 (Datatypes.S m) t
  | sleeper_tau n m t t' : observe t = TauF t' -> sleeper n m t' -> sleeper n (Datatypes.S m) t
  | sleeper_print n m t s k : observe t = VisF (Call (CPrint s)) k -> sleeper n m (k tt) -> sleeper n (Datatypes.S m) t
  | sleeper_eprint n m t s k : observe t = VisF (Call (CEprint s)) k -> sleeper n m (k tt) -> sleeper n (Datatypes.S m) t
  | sleeper_sleep n m t d k (k2 : Timer.Timer -> unit -> Fut) :
      observe t = VisF (Call (CSleep d)) k -> (2 * MS <= d < 2 ^ 62 * NS)%Z ->
      (forall tm, observe (k (Ok tm)) = VisF (Await (ATimer tm)) (k2 tm)) ->
      (forall tm, sleeper n m (k2 tm tt)) -> sleeper (Datatypes.S n) (2 + m) t.

Lemma sleeper_timers n m t : sleeper n m t -> forall fuel, m <= fuel -> timers_left fuel t = n.
Proof.
  induction 1 as [m t v E|n m t t' E _ IH|n m t s k E _ IH|n m t s k E _ IH|n m t d k k2 E _ Ek _ IH];
    intros fuel Hf; (destruct fuel as [|fuel]; [lia|]); cbn [timers_left]; rewrite E; try done; try (apply IH; lia).
  destruct fuel as [|fuel]; [lia|]. cbn [timers_left]. rewrite (Ek some_timer). f_equal. apply IH. lia.
Qed.

Lemma sleeper_more n m m' t : sleeper n m t -> m <= m' -> sleeper n m' t.
Proof.
  intros Hs. revert m'. induction Hs as [m t v E|n m t t' E _ IH|n m t s k E _ IH|n m t s k E _ IH|n m t d k k2 E Hd Ek _ IH];
    intros m' Hm; (destruct m' as [|m']; [lia|]).
  - by eapply sleeper_ret.
  - eapply sleeper_tau; [done|apply IH; lia].
  - eapply sleeper_print; [done|apply IH; lia].
  - eapply sleeper_eprint; [done|apply IH; lia].
  - destruct m' as [|m']; [lia|]. eapply sleeper_sleep; [done..|]. intros tm. apply IH. lia.
Qed.

(** The handle a block awaits. *)
Definition timer_io t : Oneshot.IoState :=
  match observe t with
  | VisF (Await a) _ => match a with ATimer tm => Timer.io tm | _ => Oneshot.New end
  | _ => Oneshot.New
  end.

Context (fuel : nat).

(** A task that has not started, or that waits for a timer. *)
Definition resting t : Prop :=
  (exists n m, m <= fuel /\ sleeper n m t) \/
  (exists tm k n m, observe t = VisF (Await (ATimer tm)) k /\ Timer.io tm <> Oneshot.New /\ m < fuel /\ sleeper n m (k tt)).

Definition polls_left t : nat :=
  match observe t with
  | VisF (Await _) _ => timers_left fuel t
  | _ => Datatypes.S (timers_left fuel t)
  end.

Lemma sleeper_io n m t : sleeper n m t -> timer_io t = Oneshot.New.
Proof. intros Hs. unfold timer_io. by destruct Hs as [? ? ? ->|? ? ? ? ->|? ? ? ? ? ->|? ? ? ? ? ->|? ? ? ? ? ? ->]. Qed.

Lemma sleeper_polls n m t : sleeper n m t -> m <= fuel -> polls_left t = Datatypes.S n.
Proof.
  intros Hs Hm. unfold polls_left. rewrite (sleeper_timers n m t Hs fuel Hm).
  by destruct Hs as [? ? ? ->|? ? ? ? ->|? ? ? ? ? ->|? ? ? ? ? ->|? ? ? ? ? ? ->].
Qed.

Lemma waiting_polls t tm k n m :
  observe t = VisF (Await (ATimer tm)) k -> sleeper n m (k tt) -> m < fuel -> polls_left t = Datatypes.S n.
Proof.
  intros E Hs Hm. unfold polls_left. rewrite E. destruct fuel as [|f]; [lia|]. cbn [timers_left]. rewrite E.
  f_equal. apply (sleeper_timers n m _ Hs). lia.
Qed.
End blocks.

(** ** Sleeping *)
Section sleeping.
Context {S : Type -> Type} `{SlabSpec S} {B : Type} `{RingBufferSpec B}.
Context {U : Type} `{FuturesRing U} {L : Type} `{SlowClock L}.
Abbreviation reactor := (ReactorInner S B U nat).
Implicit Types (r : reactor) (a : areactor nat) (hs : gmap nat handle).

Lemma sleep_made d (l : L) :
  room l -> (2 * MS <= d < 2 ^ 62 * NS)%Z ->
  exists tm l1, Timer.sleep d l = Ret (Ok tm, l1) /\ Timer.io tm = Oneshot.New /\ room l1 /\
    Timer.expiration tm = ((sys_now l).1 + d)%Z /\ ((sys_now l1).1 < (sys_now l).1 + MS)%Z /\
    exists o, k_fds (libc_view l1) !! Timer.fd tm = Some o /\ k_objs (libc_view l1) !! o = Some (KTimer None).
Proof.
  intros Hl Hd. unfold Timer.sleep. pose proof (clock_range l Hl) as Hr. pose proof (clock_create l Hl) as Hc.
  pose proof (room_now l Hl) as Hn. destruct (sys_now l) as [now l0]. cbn [fst snd] in *.
  unfold time_add. rewrite decide_True by (unfold NS in *; lia). cbn [mbind outcome_bind mret outcome_ret].
  pose proof (room_timer l0 Hn) as Ht. pose proof (timerfd_create_spec CLOCK_MONOTONIC TFD_NONBLOCK l0) as Hv.
  destruct (sys_timerfd_create _ _ l0) as [fd l1]. destruct Ht as [Hfd Hl1]. rewrite decide_False by done.
  eexists _, l1. split; [reflexivity|]. cbn in *. split; [done|]. split; [done|]. split; [done|]. split; [done|].
  destruct Hv as [[? _]|(_ & _ & o & _ & ->)]; [done|]. exists o. cbn. by rewrite !lookup_insert_eq.
Qed.

(** The first poll of a timer just made: it is armed, and waits. *)
Lemma sleep_polled d cx (l : L) r hs n a :
  room l -> (2 * MS <= d < 2 ^ 62 * NS)%Z -> refines (Sys r hs n) a ->
  length (rv_sq (uring_view (uring r))) < RING_ENTRIES ->
  exists tm l1 slot r' l2, Timer.sleep d l = Ret (Ok tm, l1) /\
    Timer.poll tm cx r l1 = Ret (Pending, Timer.set_io (Oneshot.Submitted slot) tm, r', l2) /\ room l2 /\
    rv_cq (uring_view (uring r')) = rv_cq (uring_view (uring r)) /\ hs !! n = None /\
    refines (Sys r' (<[n := HOne (Oneshot.Submitted slot)]> hs) (Datatypes.S n))
      (AReactor (<[n := AOneWait]> (a_mail a)) (<[n := (cx, false)]> (a_out a))).
Proof.
  intros Hl Hd Hr Hsq. destruct (sleep_made d l Hl Hd) as (tm & l1 & E & Hio & Hl1 & Hexp & Hnow & o & Ho & Hx).
  pose proof (clock_range l Hl) as Hr0. exists tm, l1. rewrite Timer.timer_poll_eq.
  pose proof (room_now l1 Hl1) as Hl2. pose proof (clock_slow l1 Hl1) as Hslow. pose proof (now_spec l1) as Hv1.
  destruct (sys_now l1) as [now1 l2]. cbn [fst snd] in *. rewrite decide_False by (unfold MS in *; lia).
  pose proof (clock_range l2 Hl2) as Hr2. pose proof (room_now l2 Hl2) as Hl3. pose proof (now_spec l2) as Hv2.
  assert (exists e l4, prepare (tm, l2) = Ret (e, (tm, l4)) /\ is_multishot e = false /\ room l4) as (e & l4 & Hp & He & Hl4).
  { cbn. unfold Timer.arm_timer. destruct (sys_now l2) as [now2 l3]. cbn [fst snd] in *.
    unfold duration_since. rewrite decide_True by (unfold MS in *; lia). cbn [unwrap_result mbind outcome_bind mret outcome_ret].
    set (left := (Timer.expiration tm - now2)%Z). assert (0 <= left < 2 ^ 63 * NS)%Z as Hleft by (unfold left, MS, NS in *; lia).
    assert (as_s 64 (left / NS) = left / NS)%Z as ->.
    { apply as_s_id; [lia|]. unfold is_s, NS in *. split; [|apply Z.div_lt_upper_bound; lia].
      transitivity 0%Z; [done|]. apply Z.div_pos; lia. }
    rewrite <- Hv1, <- Hv2 in Ho, Hx.
    pose proof (room_settime (Timer.fd tm) o None 0 (left / NS) (left mod NS) l3 Hl3) as Hs.
    ospecialize (Hs _ _ Ho Hx).
    { unfold NS in *. split; [apply Z.div_pos; lia|apply Z.div_lt_upper_bound; lia]. }
    { apply Z.mod_pos_bound. done. }
    destruct (sys_timerfd_settime _ _ _ _ l3) as [ret l4]. destruct Hs as [Hret Hl4]. rewrite decide_False by done.
    cbn. by eexists _, l4. }
  destruct (submit_first r hs n a e cx Hr He Hsq) as (ud & slot & r' & Es & Hcq & Hn & Hr').
  exists slot, r', l4. split; [done|]. rewrite (poll_new (F:=Timer.Timer * L) (Out:=unit) (tm, l2) cx r e (tm, l4)), Es by done. done.
Qed.

(** A handle whose operation is over is dropped without being asked. *)
Lemma drop_over r hs n a h io0 v :
  refines (Sys r hs n) a -> hs !! h = Some (HOne io0) -> a_mail a !! h = Some (AOneReady v) ->
  exists r', Oneshot.drop io0 r = Ret r' /\ uring r' = uring r /\
    refines (Sys r' (delete h hs) n) (AReactor (delete h (a_mail a)) (a_out a)).
Proof.
  intros Hr Hh Hm. pose proof Hr as Hr1. rewrite <- (insert_id hs h _ Hh) in Hr1.
  destruct (drop_handle_ok _ _ _ _ _ _ Hr1) as (r' & a' & E & Ha & Hr'). exists r'. split; [done|]. split.
  - destruct io0 as [|slot|v']; cbn in E; [by injection E as ->| |by injection E as ->].
    destruct (OneshotStore.drop_result _ slot) as [o|p| |]; cbn in E; [|done..]. by injection E as <-.
  - inversion Ha; subst. done.
Qed.

(** The poll of a timer whose read is over: it is ready, and is dropped. *)
Lemma sleep_over tm cx (l : L) r hs n a h v :
  room l -> refines (Sys r hs n) a -> hs !! h = Some (HOne (Timer.io tm)) -> a_mail a !! h = Some (AOneReady v) ->
  Timer.io tm <> Oneshot.New -> (i32_min < v)%Z ->
  exists tm' r1 l1 r2, Timer.poll tm cx r l = Ret (Ready tt, tm', r1, l1) /\ Timer.fd tm' = Timer.fd tm /\
    Oneshot.drop (Timer.io tm') r1 = Ret r2 /\ room l1 /\ uring r2 = uring r /\
    refines (Sys r2 (delete h hs) n) (AReactor (delete h (a_mail a)) (a_out a)).
Proof.
  intros Hl Hr Hh Hm Hio Hv. unfold Timer.poll. pose proof (room_now l Hl) as Hl1.
  destruct (sys_now l) as [now l1]. cbn in Hl1. case_decide.
  - destruct (drop_over r hs n a h _ v Hr Hh Hm) as (r' & E & Hu & Hr'). by exists tm, r, l1, r'.
  - destruct (await_done r hs n a h (Timer.io tm) v (Read 0 (PollFrame "") 0 0) cx Hr Hh Hm eq_refl Hv) as (x & r' & E & Hu & Hr').
    rewrite (submitted_closure _ _ (tm, l1) tt _ (fun _ => mret (Read 0 (PollFrame "") 0 0, cx, tt)) Hio), E. cbn.
    by eexists _, _, l1, r'.
Qed.
End sleeping.

(** ** The contract *)
Section contract.
Context {S : Type -> Type} `{SlabSpec S} {B : Type} `{RingBufferSpec B}.
Context {U : Type} `{FuturesRing U} {L : Type} `{SlowClock L} `{NetOrder}.
Context {Code Val : Type} (code : Code -> body Code Val Val) (fuel : nat).
Abbreviation Fut := (body Code Val Val).
Abbreviation world := (world S B U L Fut Val).
Implicit Types (w : world) (t : Fut) (a : areactor nat) (hs : gmap nat handle).
Abbreviation none := (fun _ : Fut => 0).
Abbreviation polled := (polled (S:=S) (B:=B) (U:=U) (L:=L) (Val:=Val) (resting fuel) timer_io (polls_left fuel) none).

(** The poll went on with another block, or after a call of the system. *)
Lemma polled_after cx w1 w hs a t1 t p fut' w' :
  polled cx w1 hs a None t1 p fut' w' -> rv_cq (uring_view (uring (w_ring w1))) = rv_cq (uring_view (uring (w_ring w))) ->
  w_exec w1 = w_exec w -> w_next w1 = w_next w -> polls_left fuel t1 <= polls_left fuel t ->
  polled cx w hs a None t p fut' w'.
Proof.
  intros [Hroom Hcq (news & He & Hnews & Hwork) Hhs] Er Ee En Hp. split; [done|congruence| |done].
  exists news. rewrite He, Ee. split; [done|]. split; [by rewrite <- En|].
  destruct p as [v|]; [split; [lia|apply Hwork]|]. destruct Hwork as (? & ? & ?). split_and!; [done|lia|done].
Qed.

Lemma polled_none cx w hs n a t v fut' w' :
  refines (Sys (w_ring w) hs n) a -> room (w_libc w) -> w' = w -> polled cx w hs a None t (Ready v) fut' w'.
Proof.
  intros Hr Hl ->. split; [done|done| |].
  - exists []. rewrite app_nil_r. split; [by destruct (w_exec w)|]. split; [by intros x ?%elem_of_nil|].
    cbn. lia.
  - exists hs, n, a. split; [done|]. by destruct a.
Qed.

Lemma sleeper_polled n m t :
  sleeper n m t -> forall j cx w hs nh a, m <= j -> m <= fuel -> room (w_libc w) ->
  refines (Sys (w_ring w) hs nh) a -> length (rv_sq (uring_view (uring (w_ring w)))) < RING_ENTRIES ->
  exists p fut' w', poll_body code j t cx w = Ret (p, fut', w') /\ polled cx w hs a None t p fut' w'.
Proof.
  intros Hs. pose proof Hs as Hs0. induction Hs as [m t v E|n m t t' E Hs IH|n m t s k E Hs IH|n m t s k E Hs IH|n m t d k k2 E Hd Ek Hs _];
    intros [|j] cx w hs nh a Hj Hf Hl Hr Hsq; try lia.
  - destruct (poll_body_ret code j t cx w v E) as [t' Et]. exists (Ready v), t', w. split; [exact Et|].
    by eapply polled_none.
  - destruct (IH Hs j cx w hs nh a) as (p & fut' & w' & Ep & Hp); [lia|lia|done..|].
    exists p, fut', w'. split; [cbn; rewrite E; exact Ep|]. eapply polled_after; [exact Hp|done..|].
    rewrite (sleeper_polls fuel _ _ _ Hs0), (sleeper_polls fuel _ _ _ Hs); lia.
  - destruct (IH Hs j cx (set_libc (print s (w_libc w)) w) hs nh a) as (p & fut' & w' & Ep & Hp); [lia|lia|by apply room_print|done..|].
    exists p, fut', w'. split; [rewrite (poll_body_call _ _ _ _ _ _ _ E); exact Ep|]. eapply polled_after; [exact Hp|done..|].
    rewrite (sleeper_polls fuel _ _ _ Hs0), (sleeper_polls fuel _ _ _ Hs); lia.
  - destruct (IH Hs j cx (set_libc (eprint s (w_libc w)) w) hs nh a) as (p & fut' & w' & Ep & Hp); [lia|lia|by apply room_print|done..|].
    exists p, fut', w'. split; [rewrite (poll_body_call _ _ _ _ _ _ _ E); exact Ep|]. eapply polled_after; [exact Hp|done..|].
    rewrite (sleeper_polls fuel _ _ _ Hs0), (sleeper_polls fuel _ _ _ Hs); lia.
  - destruct j as [|j]; [lia|].
    destruct (sleep_polled d cx (w_libc w) (w_ring w) hs nh a Hl Hd Hr Hsq) as (tm & l1 & slot & r' & l2 & E1 & E2 & Hl2 & Hcq & Hn & Hr').
    rewrite (poll_body_call _ _ _ _ _ _ _ E). cbn [do_call]. rewrite E1. cbn [mbind outcome_bind mret outcome_ret].
    rewrite (poll_body_await _ _ _ _ _ _ _ (Ek tm)). cbn [poll_await]. unfold on_both. cbn [w_ring w_libc set_libc]. rewrite E2.
    cbn [mbind outcome_bind mret outcome_ret]. eexists _, _, _. split; [reflexivity|].
    set (tm' := Timer.set_io (Oneshot.Submitted slot) tm).
    assert (observe (Vis (Await (ATimer tm')) (k2 tm)) = VisF (Await (ATimer tm')) (k2 tm)) as Eo by done.
    split; [done|exact Hcq| |].
    + exists []. rewrite app_nil_r. split; [by destruct w as [? []]|]. split; [by intros x ?%elem_of_nil|]. split.
      { right. exists tm', (k2 tm), n, m. split; [done|]. split; [done|]. split; [lia|done]. }
      rewrite (sleeper_polls fuel _ _ _ Hs0) by lia. rewrite (waiting_polls fuel _ _ _ _ _ Eo (Hs tm)) by lia. cbn. lia.
    + exists (<[nh := HOne (Oneshot.Submitted slot)]> hs), (Datatypes.S nh). eexists. split; [exact Hr'|]. by exists nh.
Qed.

#[global] Instance sleepers_behaved :
  Behaved (S:=S) (B:=B) (U:=U) (L:=L) (resting fuel) timer_io (polls_left fuel) none (poll_block code fuel).
Proof.
  intros t cx w hs nh a old Hrest Hl Hr Haw Hsq. unfold poll_block.
  destruct Hrest as [(n & m & Hm & Hs)|(tm & k & n & m & E & Hio & Hm & Hs)].
  - destruct old as [h|]; [|by eapply sleeper_polled].
    destruct Haw as (v & Hh & Hmail & _). rewrite (sleeper_io n m t Hs) in Hh.
    destruct Hr as (own & I & _). pose proof (i_handle I h) as Hok. cbn in Hok. by rewrite Hh, Hmail in Hok.
  - assert (timer_io t = Timer.io tm) as Eio by by unfold timer_io; rewrite E.
    destruct old as [h|]; [|cbn in Haw; congruence]. destruct Haw as (v & Hh & Hmail & Hv). rewrite Eio in Hh.
    destruct (sleep_over tm cx (w_libc w) (w_ring w) hs nh a h v Hl Hr Hh Hmail Hio Hv)
      as (tm' & r1 & l1 & r2 & E1 & Efd & E2 & Hl1 & Hu & Hr2).
    destruct fuel as [|j] eqn:Ef; [lia|]. rewrite (poll_body_await _ _ _ _ _ _ _ E). cbn [poll_await]. unfold on_both. rewrite E1.
    cbn [mbind outcome_bind mret outcome_ret drop_await]. unfold drop_handle. cbn [w_ring w_libc set_libc set_ring]. rewrite E2.
    cbn [mbind outcome_bind mret outcome_ret w_ring w_libc set_libc set_ring]. rewrite <- Ef in *.
    match goal with |- context [poll_body code j (k tt) cx ?w1] => set (w2 := w1) end.
    destruct (sleeper_polled n m (k tt) Hs j cx w2 (delete h hs) nh (AReactor (delete h (a_mail a)) (a_out a)))
      as (p & fut' & w' & Ep & [Hroom Hcq (news & He & Hnews & Hwork) Hhs]); [lia|lia|by apply room_close|exact Hr2|by cbn; rewrite Hu|].
    exists p, fut', w'. split; [exact Ep|]. split; [done| | |exact Hhs].
    + rewrite Hcq. cbn. by rewrite Hu.
    + exists news. split; [exact He|]. split; [exact Hnews|].
      rewrite (waiting_polls fuel _ _ _ _ _ E Hs) by lia. rewrite (sleeper_polls fuel _ _ _ Hs) in Hwork by lia. exact Hwork.
Qed.
End contract.

(** ** The text of a block *)
Section text.
Context {Code Val : Type}.
Implicit Types (t : body Code Val Val).

Lemma sleeper_observe n m t t' : observe t = observe t' -> sleeper n m t -> sleeper n m t'.
Proof.
  intros E Hs. destruct Hs as [m t v Et|n m t t1 Et Hs|n m t s k Et Hs|n m t s k Et Hs|n m t d k k2 Et Hd Ek Hs]; rewrite E in Et.
  - by eapply sleeper_ret.
  - by eapply sleeper_tau.
  - by eapply sleeper_print.
  - by eapply sleeper_eprint.
  - by eapply sleeper_sleep.
Qed.

Lemma sleeper_sleep_for n m d (k : unit -> body Code Val Val) :
  (2 * MS <= d < 2 ^ 62 * NS)%Z -> sleeper n m (k tt) -> sleeper (Datatypes.S n) (2 + m) (sleep_for d ≫= k).
Proof.
  intros Hd Hs. eapply (sleeper_sleep n m _ d _ (fun tm u => ITree.bind (returned u) k)).
  - unfold sleep_for, call, mbind, itree_mbind. cbn. reflexivity.
  - done.
  - reflexivity.
  - intros tm. by apply (sleeper_observe n m (k tt)).
Qed.

Lemma sleeper_println n m s (k : unit -> body Code Val Val) :
  sleeper n m (k tt) -> sleeper n (Datatypes.S m) (println s ≫= k).
Proof.
  intros Hs. eapply (sleeper_print n m _ s (fun u => ITree.bind (returned u) k)); [reflexivity|].
  by apply (sleeper_observe n m (k tt)).
Qed.
End text.

Lemma sleeper_println_last {Code} n s : sleeper 0 (2 + n) (println s : body Code unit unit).
Proof. eapply sleeper_print; [reflexivity|]. by eapply sleeper_ret. Qed.

(** One step of the text. *)
Ltac sleeper_step :=
  lazymatch goal with
  | |- sleeper _ _ (sleep_for _ ≫= _) => apply sleeper_sleep_for; [by vm_compute|]
  | |- sleeper _ _ (println _ ≫= _) => apply sleeper_println
  | |- sleeper _ _ (println _) => apply sleeper_println_last
  end.

(** ** Programs of such tasks return *)
Section programs.
Context {S : Type -> Type} `{SlabSpec S} {B : Type} `{RingBufferSpec B}.
Context {U : Type} `{FuturesRing U} `{!KernelLive U} {L : Type} `{SlowClock L} `{NetOrder}.
Context {Code Val : Type} (code : Code -> body Code Val Val) (n : nat) (naps : Code -> nat).
Abbreviation Fut := (body Code Val Val).
Abbreviation world := (world S B U L Fut Val).
Implicit Types (w : world) (cs : list Code).
Abbreviation none := (fun _ : Fut => 0).
Abbreviation alive := (alive (S:=S) (B:=B) (U:=U) (L:=L) (Val:=Val) timer_io (resting n) none).

(** The tasks of these codes sleep so many times. *)
Definition naps_of (c : Code) : Prop := exists m, m <= n /\ sleeper (naps c) m (code c).

Lemma detach_alive c w :
  alive w -> naps_of c -> Datatypes.S (total none (all_tasks (w_exec w))) <= RING_ENTRIES ->
  exists w', spawn_detached code c w = Ret w' /\ alive w' /\
    forall g, total g (all_tasks (w_exec w')) = Datatypes.S (g (code c)) + total g (all_tasks (w_exec w)).
Proof.
  intros Ha (m & Hm & Hs) Hb.
  destruct (alive_spawn timer_io (resting n) none (code c) w Ha) as (j & w1 & ev & Hsp & Ha1 & _ & Hperm);
    [left; by eexists _, m|by eapply sleeper_io|exact Hb|].
  unfold spawn_detached. rewrite Hsp. cbn [mbind outcome_bind].
  destruct (spawn_inv _ _ _ _ Hsp) as (ev' & l & Hrx & Hio & E).
  assert (exists w', joiner_drop j w1 = Ret w' /\ w_ring w' = w_ring w1 /\ w_exec w' = w_exec w1 /\ w_ids w' = w_ids w1 /\
    w_libc w' = Event.drop (evt j) (w_libc w1)) as (w' & Ed & E1 & E2 & E3 & E4).
  { rewrite E. unfold joiner_drop. cbn. rewrite Hrx, lookup_insert_eq. cbn. unfold EventWaiter.drop. rewrite Hio. cbn. by eexists. }
  exists w'. split; [exact Ed|]. split.
  - destruct Ha1 as (hs & k & a & own & Hr & Hp & Hw & Hok & Hroom & Hgood & Hown & Hext).
    exists hs, k, a, own. rewrite E1, E2, E3, E4. split_and!; try done; [|by apply room_close].
    by eapply wf_user_steps, Hw; eapply joiner_drop_safe.
  - intros g. rewrite E2, Hperm. done.
Qed.

Lemma spawn_alive cs w :
  alive w -> Forall naps_of cs -> length cs + total none (all_tasks (w_exec w)) <= RING_ENTRIES ->
  exists w', spawn_blocks code cs w = Ret w' /\ alive w' /\
    forall g, total g (all_tasks (w_exec w')) = sum_list_with (fun c => Datatypes.S (g (code c))) cs + total g (all_tasks (w_exec w)).
Proof.
  revert w. induction cs as [|c cs IH]; intros w Ha Hcs Hb; [by exists w|].
  apply Forall_cons in Hcs as [Hc Hcs]. cbn [length] in Hb. destruct (detach_alive c w Ha Hc) as (w1 & E1 & Ha1 & Ht1); [lia|].
  destruct (IH w1 Ha1 Hcs) as (w2 & E2 & Ha2 & Ht2); [rewrite Ht1; cbn beta; lia|].
  exists w2. cbn. rewrite E1. split; [exact E2|]. split; [done|]. intros g. rewrite Ht2, Ht1. cbn. lia.
Qed.

(** A thread whose tasks sleep and print returns: the tasks are spawned,
    and [run] returns when all are over, without a panic, for a kernel that completes
    operations and a clock that moves slowly while a task runs.  The loop makes
    one round for each sleep, and two more for each task at most. *)
Theorem sleepers_return cs rounds fuel ring (l : L) :
  reactor_new = Ret ring -> room l -> cs <> [] -> length cs <= RING_ENTRIES -> Forall naps_of cs ->
  sum_list_with (fun c => 2 + naps c) cs <= rounds -> RING_ENTRIES < fuel ->
  exists w1 w2, spawn_blocks code cs (world_init ring l) = Ret w1 /\
    run (poll_block code n) rounds fuel w1 = Ret w2 /\ all_tasks (w_exec w2) = [].
Proof.
  intros Hring Hl Hne Hlen Hcs Hr Hf. pose proof (alive_init (Val:=Val) timer_io (resting n) none ring l Hring Hl) as Ha.
  assert (all_tasks (w_exec (world_init ring l : world)) = []) as E0.
  { unfold all_tasks. cbn. by rewrite slab_new_spec, map_to_list_empty. }
  destruct (spawn_alive cs _ Ha Hcs) as (w1 & E1 & Ha1 & Ht); [rewrite E0; change (length cs + 0 <= RING_ENTRIES); lia|]. rewrite E0 in Ht.
  assert (all_tasks (w_exec w1) <> []) as Hne1.
  { intros E. specialize (Ht none). rewrite E in Ht. by destruct cs. }
  destruct (loop_returns timer_io (resting n) (polls_left n) none (fun _ => True) 0 (poll_block code n) (block_safe code n)
    rounds fuel w1 Ha1) as [w2 E2]; [lia|done| |done|].
  { rewrite Ht. change (total (polls_left n) []) with 0. rewrite Nat.add_0_r. etransitivity; [|exact Hr]. clear -Hcs.
    induction Hcs as [|c cs (m & Hm & Hs) _ IH]; [done|]. cbn [sum_list_with]. rewrite (sleeper_polls n _ _ _ Hs Hm). lia. }
  exists w1, w2. split; [done|]. split; [exact E2|].
  apply (wf_loop (poll_block code n) (fun _ => True) 0 (block_safe code n) rounds fuel w1 w2 (alive_wf _ _ _ _ Ha1) (Nat.le_0_l _) E2).
Qed.

(** A [main] that spawns two such tasks. *)
Lemma two_sleepers_return c1 c2 rounds fuel ring (l : L) :
  reactor_new = Ret ring -> room l -> 2 <= RING_ENTRIES -> naps_of c1 -> naps_of c2 ->
  4 + naps c1 + naps c2 <= rounds -> RING_ENTRIES < fuel ->
  exists w1 w2 w3, spawn_detached code c1 (world_init ring l) = Ret w1 /\ spawn_detached code c2 w1 = Ret w2 /\
    run (poll_block code n) rounds fuel w2 = Ret w3 /\ all_tasks (w_exec w3) = [].
Proof.
  intros Hring Hl Hlen Hc1 Hc2 Hr Hf.
  destruct (sleepers_return [c1; c2] rounds fuel ring l) as (w2 & w3 & Hsp & Hrun & Hend); [done..| |cbn; lia|done|].
  { by repeat constructor. }
  cbn [spawn_blocks] in Hsp. inv_bind. by exists a, w2, w3.
Qed.
End programs.

(** ** timer.rs *)
Lemma ten_entries : 10 <= RING_ENTRIES.
Proof. by apply Nat.leb_le. Qed.

Section timer.
Context {S : Type -> Type} `{SlabSpec S} {B : Type} `{RingBufferSpec B}.
Context {U : Type} `{FuturesRing U} `{!KernelLive U} {L : Type} `{SlowClock L} `{!Output L} `{NetOrder}.
Import TimerExample.
Abbreviation world := (world S B U L (body code unit unit) unit).

Lemma hello_naps fuel c : RING_ENTRIES < fuel -> naps_of run_code fuel (fun _ => 3) c.
Proof.
  intros Hf. exists 10. split; [pose proof ten_entries; lia|].
  destruct c; cbn [run_code]; unfold hello_upper, hello_lower; repeat sleeper_step.
Qed.

(** C11: timer.rs: [main] returns, with both tasks over: it prints the three lines of each
    task, those of a task in order, and it takes at most ten rounds; for a kernel that
    completes operations, a process below its limits and a clock that moves
    slowly while a task runs. *)
Theorem timer_returns rounds fuel ring (l : L) :
  reactor_new = Ret ring -> room l -> 10 <= rounds -> RING_ENTRIES < fuel ->
  exists (w' : world) ls, main rounds fuel (world_init ring l) = Ret w' /\ all_tasks (w_exec w') = [] /\
    out (w_libc w') = out l ++ ls /\ merge upper_lines lower_lines ls.
Proof.
  intros Hring Hl Hr Hf.
  destruct (two_sleepers_return run_code fuel (fun _ => 3) TaskA Taska rounds fuel ring l) as (w1 & w2 & w' & E1 & E2 & Hrun & Hend);
    [done..|pose proof ten_entries; lia|by apply hello_naps|by apply hello_naps|done|done|].
  assert (main rounds fuel (world_init ring l) = Ret w') as Hm.
  { unfold main, run_blocks. rewrite E1. cbn. rewrite E2. exact Hrun. }
  destruct (timer_output rounds fuel (world_init ring l) w') as (ls & Ho & Hls); [|done|].
  { unfold all_tasks. cbn. by rewrite slab_new_spec, map_to_list_empty. }
  by exists w', ls.
Qed.
End timer.
