(* ===== verification/Monitor.v ===== *)
(** Monitors of blocks: an automaton reads the events of a block, and [keeps]
    says that it accepts them, whatever the answers are and however far the block has
    come.  The rules follow the text of the block, as those of a program logic. *)
From ITree Require Import ITree.
From Stdlib Require Import Program.Equality.
From S2P Require Import Prelude Bytes Crates CrateModels Results Reactor Io Sqe Libc SockAddr Event ReadWrite Fs Timer Tcp Udp Mutex Task TaskProps TaskLoop Joins Async AsyncProps Output Seen History Recorded.

Section monitor.
Context {Code Val St : Type} (step : St -> seen Code -> option St).
Abbreviation block := (body Code Val).
Implicit Types (st : St).

Fixpoint accepts_from st (l : list (seen Code)) : option St :=
  match l with
  | [] => Some st
  | e :: l => st ← step st e; accepts_from st l
  end.

Lemma accepts_from_app st l1 l2 : accepts_from st (l1 ++ l2) = (st1 ← accepts_from st l1; accepts_from st1 l2).
Proof.
  revert st. induction l1 as [|e l1 IH]; intros st; [done|]. cbn. destruct (step st e) as [st1|]; [apply IH|done].
Qed.

(** The monitor follows [t] from the state [st]; when [t] returns, [Q] holds. *)
Definition keeps {R} st (t : block R) (Q : R -> St -> Prop) : Prop :=
  forall tr s, trace t tr s -> exists st', accepts_from st (see <$> tr) = Some st' /\ forall v, observe s = RetF v -> Q v st'.

Lemma keeps_weaken {R} st (t : block R) (P Q : R -> St -> Prop) :
  keeps st t P -> (forall v st', P v st' -> Q v st') -> keeps st t Q.
Proof. intros Ht HPQ tr s Hs. destruct (Ht tr s Hs) as (st' & E & Hv). exists st'. split; [done|]. eauto. Qed.

(** ** Along the steps of a block *)
Lemma keeps_tau {R} st (t t1 : block R) Q : observe t = TauF t1 -> keeps st t Q <-> keeps st t1 Q.
Proof.
  intros E. split; intros Ht tr s Hs; [apply Ht; by eapply trace_tau|].
  destruct Hs as [t|t t2 tr s E2 Hs|t X e k x tr s E2 He Hs]; [|apply Ht; congruence|congruence].
  destruct (Ht [] t1 (trace_nil _)) as (st' & Es & _). exists st'. split; [done|]. intros v Ev. congruence.
Qed.

Lemma keeps_ret {R} st (t : block R) v (Q : R -> St -> Prop) : observe t = RetF v -> keeps st t Q <-> Q v st.
Proof.
  intros E. split.
  - intros Ht. destruct (Ht [] t (trace_nil _)) as (st' & [= <-] & Hv). by apply Hv.
  - intros Hv tr s Hs. destruct Hs as [t|t t2 tr s E2 Hs|t X e k x tr s E2 He Hs]; [|congruence..].
    exists st. split; [done|]. intros v'. rewrite E. by intros [= <-].
Qed.

Lemma keeps_vis {R X} st (t : block R) (e : ioE Code Val X) k Q :
  observe t = VisF e k -> answered e ->
  keeps st t Q <-> forall x, exists st1, step st (see (Obs e x)) = Some st1 /\ keeps st1 (k x) Q.
Proof.
  intros E He. split.
  - intros Ht x. destruct (Ht [Obs e x] (k x)) as (st' & Es & _); [eapply trace_vis; [exact E|exact He|constructor]|].
    rewrite fmap_cons in Es. cbn [accepts_from] in Es. destruct (step st (see (Obs e x))) as [st1|] eqn:E1; [|done]. exists st1. split; [done|].
    intros tr s Hs. destruct (Ht (Obs e x :: tr) s) as (st2 & Es2 & Hv); [by eapply trace_vis|].
    exists st2. split; [|done]. rewrite fmap_cons in Es2. cbn [accepts_from] in Es2. by rewrite E1 in Es2.
  - intros Hk tr s Hs. destruct Hs as [t|t t2 tr s E2 Hs|t X' e' k' x tr s E2 He' Hs]; [|congruence|].
    + exists st. split; [done|]. intros v Ev. congruence.
    + rewrite E in E2. dependent destruction E2. destruct (Hk x) as (st1 & E1 & Ht).
      destruct (Ht tr s Hs) as (st' & Es & Hv). exists st'. split; [|done]. rewrite fmap_cons. cbn [accepts_from]. by rewrite E1.
Qed.

Lemma keeps_crashed {R X} st (t : block R) p (k : X -> block R) Q : observe t = VisF (Crash p) k -> keeps st t Q.
Proof.
  intros E tr s Hs. destruct Hs as [t|t t2 tr s E2 Hs|t X' e' k' x tr s E2 He' Hs]; [|congruence|].
  - exists st. split; [done|]. intros v Ev. congruence.
  - rewrite E in E2. by dependent destruction E2.
Qed.

Lemma keeps_observe {R} st (t t' : block R) Q : observe t = observe t' -> keeps st t Q -> keeps st t' Q.
Proof.
  intros E Ht tr s Hs. destruct Hs as [t'|t' t2 tr s E2 Hs|t' X e k x tr s E2 He Hs].
  - destruct (Ht [] t (trace_nil _)) as (st' & Es & Hv). exists st'. rewrite <- E. by split.
  - rewrite <- E in E2. by apply Ht; eapply trace_tau.
  - rewrite <- E in E2. by apply Ht; eapply trace_vis.
Qed.

(** ** The rules *)
Lemma keeps_returned {R} st (v : R) (Q : R -> St -> Prop) : Q v st -> keeps st (mret v : block R) Q.
Proof. intros Hq. by apply (keeps_ret st _ v). Qed.

Lemma keeps_await {X} st (a : awaitE Val X) (Q : X -> St -> Prop) :
  (forall x, exists st1, step st (Awaited (label_of a) x) = Some st1 /\ Q x st1) -> keeps st (await a : block X) Q.
Proof.
  intros Ha. apply (keeps_vis st _ (Await a) (fun x => returned x)); [done..|]. intros x.
  destruct (Ha x) as (st1 & E1 & Hq). exists st1. split; [done|]. by apply keeps_returned.
Qed.

Lemma keeps_call {X} st (c : callE Code X) (Q : X -> St -> Prop) :
  (forall x, exists st1, step st (Called c x) = Some st1 /\ Q x st1) -> keeps st (call c : block X) Q.
Proof.
  intros Hc. apply (keeps_vis st _ (Call c) (fun x => returned x)); [done..|]. intros x.
  destruct (Hc x) as (st1 & E1 & Hq). exists st1. split; [done|]. by apply keeps_returned.
Qed.

Lemma keeps_crash {X} st p (Q : X -> St -> Prop) : keeps st (crash p : block X) Q.
Proof. by eapply keeps_crashed. Qed.

Lemma keeps_unwrap_io {X A} st (r : result X A) (Q : X -> St -> Prop) :
  (forall x, r = Ok x -> Q x st) -> keeps st (unwrap_io r : block X) Q.
Proof. intros Hr. destruct r; [by apply keeps_returned, Hr|apply keeps_crash]. Qed.

(** A block [u] that is, so far, the sequence of [t] and [k]. *)
Lemma keeps_seq {A R} (u s : block R) tr :
  trace u tr s -> forall st (t : block A) (k : A -> block R) (Q : R -> St -> Prop),
    observe u = observe (ITree.bind t k) -> keeps st t (fun a st' => keeps st' (k a) Q) ->
    exists st', accepts_from st (see <$> tr) = Some st' /\ forall v, observe s = RetF v -> Q v st'.
Proof.
  intros Hu. induction Hu as [u|u u1 tr s E Hu IH|u X e h x tr s E He Hu IH]; intros st t k Q Eu Ht;
    rewrite observe_bind in Eu; destruct (observe t) as [a|t1|X' e' h'] eqn:Et.
  - rewrite (keeps_ret _ _ _ _ Et) in Ht. symmetry in Eu. by apply (keeps_observe _ _ _ _ Eu Ht); constructor.
  - exists st. split; [done|]. intros v Ev. congruence.
  - exists st. split; [done|]. intros v Ev. congruence.
  - rewrite (keeps_ret _ _ _ _ Et) in Ht. symmetry in Eu. apply (keeps_observe _ _ _ _ Eu Ht). by eapply trace_tau.
  - rewrite E in Eu. injection Eu as ->. rewrite (keeps_tau _ _ _ _ Et) in Ht. by eapply IH.
  - congruence.
  - rewrite (keeps_ret _ _ _ _ Et) in Ht. symmetry in Eu. apply (keeps_observe _ _ _ _ Eu Ht). by eapply trace_vis.
  - congruence.
  - rewrite E in Eu. dependent destruction Eu. rewrite (keeps_vis _ _ _ _ _ Et He) in Ht.
    destruct (Ht x) as (st1 & E1 & Ht1). destruct (IH st1 _ _ _ eq_refl Ht1) as (st' & Es & Hv).
    exists st'. split; [|done]. rewrite fmap_cons. cbn [accepts_from]. by rewrite E1.
Qed.

Lemma keeps_bind {A R} st (t : block A) (k : A -> block R) (Q : R -> St -> Prop) :
  keeps st t (fun a st' => keeps st' (k a) Q) -> keeps st (t ≫= k) Q.
Proof. intros Ht tr s Hs. by eapply (keeps_seq _ _ _ Hs). Qed.

(** A loop, with an invariant of what a turn is given and the monitor. *)
Lemma keeps_iter {I R} (turn : I -> block (I + R)) (Inv : I -> St -> Prop) (Q : R -> St -> Prop) :
  (forall i st, Inv i st -> keeps st (turn i) (fun r st' => match r with inl j => Inv j st' | inr v => Q v st' end)) ->
  forall i st, Inv i st -> keeps st (ITree.iter turn i) Q.
Proof.
  intros Hturn i st Hi tr s Hs.
  assert (forall (u s : block R) tr, trace u tr s -> forall st t,
    observe u = observe (ITree.bind t (fun lr => match lr with inl l => Tau (ITree.iter turn l) | inr r => returned r end)) ->
    keeps st t (fun r st' => match r with inl j => Inv j st' | inr v => Q v st' end) ->
    exists st', accepts_from st (see <$> tr) = Some st' /\ forall v, observe s = RetF v -> Q v st') as Hloop;
    [|eapply Hloop; [exact Hs|apply iter_observe|by apply Hturn]].
  clear Hs i st Hi tr s. intros u s tr Hu.
  induction Hu as [u|u u1 tr s E Hu IH|u X e h x tr s E He Hu IH]; intros st t Eu Ht; rewrite observe_bind in Eu;
    destruct (observe t) as [[l|r]|t1|X' e' h'] eqn:Et; cbn in Eu; try congruence;
    try (exists st; split; [done|]; intros v Ev; congruence).
  - rewrite (keeps_ret _ _ _ _ Et) in Ht. exists st. split; [done|]. intros v Ev. rewrite Ev in Eu. by injection Eu as ->.
  - rewrite E in Eu. injection Eu as ->. rewrite (keeps_ret _ _ _ _ Et) in Ht.
    apply (IH st (turn l)); [apply iter_observe|by apply Hturn].
  - rewrite E in Eu. injection Eu as ->. apply (IH st t1); [done|]. by rewrite (keeps_tau _ _ _ _ Et) in Ht.
  - rewrite E in Eu. dependent destruction Eu. rewrite (keeps_vis _ _ _ _ _ Et He) in Ht.
    destruct (Ht x) as (st1 & E1 & Ht1). destruct (IH st1 (h' x) eq_refl Ht1) as (st' & Es & Hv).
    exists st'. split; [|done]. rewrite fmap_cons. cbn [accepts_from]. by rewrite E1.
Qed.
End monitor.

(** A loop, for a monitor with one state *)
Lemma keeps_loop {Code Val I R} (step : unit -> seen Code -> option unit) (turn : I -> body Code Val (I + R)) i (Q : R -> unit -> Prop) :
  (forall i, keeps step tt (turn i) (fun _ _ => True)) -> (forall v, Q v tt) -> keeps step tt (ITree.iter turn i) Q.
Proof.
  intros Ht Hq. apply (keeps_weaken _ _ _ (fun _ _ => True)); [|by intros v []].
  apply (keeps_iter _ turn (fun _ _ => True)); [|done]. intros j [] _. eapply keeps_weaken; [apply Ht|]. by intros [].
Qed.

(** Apply the rules along the text of a block. *)
Ltac keeps_step :=
  lazymatch goal with
  | |- keeps _ _ (_ ≫= _) _ => apply keeps_bind
  | |- keeps _ _ (ITree.bind _ _) _ => apply keeps_bind
  | |- keeps _ _ (await _) _ => apply keeps_await; intros ?; eexists; split; [reflexivity|cbn beta]
  | |- keeps _ _ (call _) _ => apply keeps_call; intros ?; eexists; split; [reflexivity|cbn beta]
  | |- keeps _ _ (crash _) _ => apply keeps_crash
  | |- keeps _ _ (mret _) _ => apply keeps_returned; cbn beta
  | |- keeps _ _ (unwrap_io _) _ => apply keeps_unwrap_io; intros ? ?; simplify_eq; cbn beta
  | |- keeps _ _ (if decide ?P then _ else _) _ => destruct (decide P)
  | |- keeps _ _ (match ?r with _ => _ end) _ => destruct r
  end.
Ltac keeps := repeat keeps_step.
Ltac loop_step :=
  lazymatch goal with
  | |- keeps _ _ (ITree.iter _ _) _ => apply keeps_loop; [intros ?|intros ?; cbn beta]
  | |- _ => keeps_step
  end.


(** ** What a block spawns *)
Section spawns_in.
Context {Code Val : Type} (P : Code -> Prop) `{!forall c, Decision (P c)}.
Definition spawns_in (_ : unit) (s : seen Code) : option unit := if decide (Forall P (spawned_of s).*1) then Some tt else None.

Lemma spawns_in_all (l : list (seen Code)) : accepts_from spawns_in tt l = Some tt -> Forall P (spawned l).*1.
Proof.
  induction l as [|e l IH]; [constructor|]. change (spawned (e :: l)) with (spawned_of e ++ spawned l). cbn [accepts_from].
  destruct (spawns_in tt e) as [[]|] eqn:E; [|done]. unfold spawns_in in E. case_decide; [|done]. intros Hl.
  rewrite fmap_app. apply Forall_app. split; [done|by apply IH].
Qed.

Lemma keeps_spawns {R} (t : body Code Val R) Q tr s :
  keeps spawns_in tt t Q -> trace t tr s -> Forall P (spawned (see <$> tr)).*1.
Proof. intros Ht Hs. destruct (Ht tr s Hs) as ([] & E & _). by apply spawns_in_all. Qed.
End spawns_in.

Definition no_spawn {Code} : unit -> seen Code -> option unit := spawns_in (fun _ => False).

Lemma keeps_no_spawn {Code Val R} (t : body Code Val R) Q tr s :
  keeps no_spawn tt t Q -> trace t tr s -> spawned (see <$> tr) = [].
Proof.
  intros Ht Hs. pose proof (keeps_spawns _ _ _ _ _ Ht Hs) as Hl.
  by destruct (spawned (see <$> tr)); [|inversion Hl].
Qed.

(** ** All the tasks of a thread *)
Section family.
Context {S : Type -> Type} `{SlabSpec S} {B : Type} `{RingBuffer B}.
Context {U : Type} `{IoUring U sqe} {L : Type} `{Libc L} `{Host} `{NetOrder} `{!Process L}.
Context {Code Val : Type} (code : Code -> body Code Val Val) (P : Code -> Prop) `{!forall c, Decision (P c)}.
Context {V : Type} {view : L -> V} {changes : V -> list (seen Code) -> V -> Prop}.
Context (Hspawns : forall c, P c -> keeps (spawns_in P) tt (code c) (fun _ _ => True)).

Lemma explains_family base bs h (w : world S B U L (body Code Val Val) Val) es :
  explains code (view:=view) (changes:=changes) base bs h w es -> Forall P bs.*1 ->
  forall e : entry (Code:=Code) (Val:=Val), e ∈ es -> P (e_code e).
Proof.
  intros Hex Hbs. rewrite Forall_forall in Hbs.
  assert (forall h1 h2, h = h1 ++ h2 -> forall b, b ∈ spawned h1.*2 -> P b.1) as Hh.
  { induction h1 as [|[ch s] h1 IH] using rev_ind; intros h2 Eh b; [by intros ?%elem_of_nil|].
    rewrite fmap_app, spawned_app. cbn [fmap list_fmap]. rewrite <- app_assoc in Eh. intros [Hb|Hb]%elem_of_app; [by eapply IH|].
    assert ((ch, s) ∈ h) as Hin by (rewrite Eh; apply elem_of_app; right; by left).
    apply (ex_tags _ _ _ _ _ _ Hex) in Hin as (e & Ech & He)%list_elem_of_fmap. cbn in Ech.
    assert (P (e_code e)) as He1.
    { destruct (ex_order _ _ _ _ _ _ Hex e He) as [Hi|(h1' & h2' & Eh' & Hb' & Hnone)].
      - apply Hbs. by apply (list_elem_of_fmap_2 fst _ (born e)).
      - apply (IH _ Eh (born e)). rewrite <- Ech in Hnone. rewrite Eh in Eh'.
        apply app_eq_inv in Eh' as [(k & -> & Ek)|(k & -> & Ek)]; [rewrite fmap_app, spawned_app; by apply elem_of_app; left|].
        destruct k as [|x k]; [by rewrite app_nil_r in Hb'|]. injection Ek as <- _.
        rewrite proj_app, proj_cons in Hnone. cbn [fst] in Hnone. rewrite decide_True in Hnone by done. by destruct (proj ch h1). }
    destruct (ex_trace _ _ _ _ _ _ Hex e He) as (s' & Hs'). pose proof (keeps_spawns _ _ _ _ _ (Hspawns _ He1) Hs') as Hall.
    rewrite <- (ex_proj _ _ _ _ _ _ Hex e He), Eh, <- Ech, proj_app in Hall. cbn [app] in Hall. rewrite proj_cons in Hall.
    cbn [fst snd] in Hall. rewrite decide_True in Hall by done. cbn [app] in Hall.
    rewrite spawned_app in Hall. change (s :: ?l) with ([s] ++ l) in Hall. rewrite spawned_app, !fmap_app in Hall.
    apply Forall_app in Hall as [_ Hall]. apply Forall_app in Hall as [Hall _]. rewrite Forall_forall in Hall.
    apply Hall. by apply (list_elem_of_fmap_2 fst). }
  intros e He. pose proof (ex_born _ _ _ _ _ _ Hex) as Hb. apply (list_elem_of_fmap_2 born) in He. rewrite Hb in He.
  apply elem_of_app in He as [He|He]; [apply Hbs; by apply (list_elem_of_fmap_2 fst _ (born e))|].
  apply (Hh h [] (eq_sym (app_nil_r _)) _ He).
Qed.
End family.
