(* ===== verification/Critical.v ===== *)
(** Critical sections: what the tasks of a thread do to an object behind a
    mutex is done by one guard after the other, whatever the order in which
    the tasks are polled. *)
From ITree Require Import ITree.
From S2P Require Import Prelude Bytes Crates CrateModels Results Reactor Io Sqe Libc SockAddr Event ReadWrite Fs Timer Tcp Udp Mutex Task TaskProps TaskLoop Joins Async AsyncProps Output Seen History Recorded Transcript Monitor.

Open Scope nat_scope.

#[export] Instance event_eq_dec : EqDecision Event.Event.
Proof. solve_decision. Defined.
#[export] Instance mutex_eq_dec : EqDecision (Mutex.Mutex nat).
Proof. solve_decision. Defined.
#[export] Instance access_eq_dec : EqDecision access.
Proof. solve_decision. Defined.

(** ** What concerns a mutex *)
Variant mevent := Grant | Release | Access (a : access).

Section mevents.
Context {Code : Type} (m : Mutex.Mutex nat).

Definition mevents_of (s : seen Code) : list mevent :=
  match s with
  | Awaited (LLock m') _ => if decide (m' = m) then [Grant] else []
  | Called (CGuardDrop m') _ => if decide (m' = m) then [Release] else []
  | _ => Access <$> access_of (Mutex.obj m) s
  end.
Definition mevents (l : list (seen Code)) : list mevent := l ≫= mevents_of.
End mevents.

(** A task on its own: it locks a mutex it has not locked, and uses the object with the guard only. *)
Definition guarded_step (held : bool) (e : mevent) : option bool :=
  match e, held with
  | Grant, false => Some true
  | Release, true => Some false
  | Access _, true => Some true
  | _, _ => None
  end.
Fixpoint guarded_by (held : bool) (l : list mevent) : option bool :=
  match l with
  | [] => Some held
  | e :: l => held ← guarded_step held e; guarded_by held l
  end.
Definition guarded {Code} m (held : bool) (s : seen Code) : option bool := guarded_by held (mevents_of m s).

Lemma guarded_by_app held l1 l2 : guarded_by held (l1 ++ l2) = (held ← guarded_by held l1; guarded_by held l2).
Proof.
  revert held. induction l1 as [|e l1 IH]; intros held; [done|]. cbn. destruct (guarded_step held e); [apply IH|done].
Qed.

Lemma guarded_events {Code} m held (l : list (seen Code)) : accepts_from (guarded m) held l = guarded_by held (mevents m l).
Proof.
  revert held. induction l as [|s l IH]; intros held; [done|].
  change (mevents m (s :: l)) with (mevents_of m s ++ mevents m l). rewrite guarded_by_app. cbn [accepts_from].
  change (guarded_by held (mevents_of m s)) with (guarded m held s).
  destruct (guarded m held s); [apply IH|done].
Qed.

(** The event of the mutex: [free] notifications to take, a guard gives one back. *)
Fixpoint semaphore (free : nat) (l : list mevent) : bool :=
  match l with
  | [] => true
  | Grant :: l => match free with O => false | S free => semaphore free l end
  | Release :: l => semaphore (S free) l
  | Access _ :: l => semaphore free l
  end.

(** ** Sections *)
Record section (K : Type) := Section_ { who : K; accs : list access }.
Arguments Section_ {K} who accs.
Arguments who {K} _.
Arguments accs {K} _.

(** [K]: what takes turns, the channels of tasks for one thread *)
Section sections.
Context {K : Type} `{EqDecision K}.
Implicit Types (c ch : K) (h : list (K * mevent)) (s : section K) (secs : list (section K)) (open : option (section K)).

Definition uses c (l : list access) : list (K * mevent) := (fun a => (c, Access a)) <$> l.
Definition events_of s : list (K * mevent) := (who s, Grant) :: uses (who s) (accs s) ++ [(who s, Release)].
(** The section of a guard that is still there. *)
Definition open_events (s : option (section K)) : list (K * mevent) :=
  match s with Some s => (who s, Grant) :: uses (who s) (accs s) | None => [] end.

(** One section after the other, and perhaps an open one. *)
Definition serial h secs open : Prop :=
  h = concat (events_of <$> secs) ++ open_events open.

(** From a point where [c] holds the guard. *)
Definition serial_in c h : Prop :=
  exists l, h = uses c l \/ exists h' secs open, h = uses c l ++ (c, Release) :: h' /\ serial h' secs open.

Lemma serial_grant c h : serial_in c h -> exists secs open, serial ((c, Grant) :: h) secs open.
Proof.
  intros (l & [->|(h' & secs & open & -> & ->)]).
  - by exists [], (Some (Section_ c l)).
  - exists (Section_ c l :: secs), open. unfold serial. cbn. unfold events_of at 1. cbn.
    by rewrite <- !app_assoc.
Qed.

Lemma serial_holder h (holder : option K) :
  (forall ch, exists b, guarded_by (bool_decide (holder = Some ch)) (proj ch h) = Some b) ->
  semaphore (match holder with Some _ => 0 | None => 1 end) h.*2 ->
  match holder with Some c => serial_in c h | None => exists secs open, serial h secs open end.
Proof.
  revert holder. induction h as [|[c e] h IH]; intros holder Hg Hs.
  { destruct holder; [exists []; by left|by exists [], None]. }
  destruct (Hg c) as [b Hb]. rewrite proj_cons in Hb. cbn [fst snd] in Hb. rewrite decide_True in Hb by done. cbn [app guarded_by] in Hb.
  assert (forall holder', guarded_step (bool_decide (holder = Some c)) e = Some (bool_decide (holder' = Some c)) ->
    (forall ch, ch <> c -> bool_decide (holder' = Some ch) = bool_decide (holder = Some ch)) ->
    forall ch, exists b, guarded_by (bool_decide (holder' = Some ch)) (proj ch h) = Some b) as Hnext.
  { intros holder' Hc Ho ch. destruct (decide (ch = c)) as [->|Hne]; [exists b; by rewrite Hc in Hb|].
    destruct (Hg ch) as [b' Hb']. exists b'. rewrite proj_cons in Hb'. cbn [fst snd] in Hb'.
    rewrite decide_False in Hb' by done. by rewrite Ho. }
  destruct holder as [c'|]; cbn [fmap list_fmap snd] in Hs.
  - destruct (decide (c' = c)) as [->|Hne].
    + destruct e as [| |a].
      * done.
      * rewrite bool_decide_true in Hnext by done. destruct (IH None) as (secs & open & Hser); [|done|].
        { apply Hnext; [done|]. intros ch Hch. rewrite !bool_decide_false; congruence. }
        exists []. right. by exists h, secs, open.
      * rewrite bool_decide_true in Hnext by done. destruct (IH (Some c)) as (l & Hl); [|done|].
        { apply Hnext; [by rewrite bool_decide_true|done]. }
        exists (a :: l). destruct Hl as [->|(h' & secs & open & -> & Hser)]; [by left|right]. by exists h', secs, open.
    + rewrite bool_decide_false in Hb by congruence. by destruct e.
  - rewrite bool_decide_false in Hb, Hnext by done. destruct e as [| |a]; [|done..]. apply serial_grant.
    apply (IH (Some c)); [|done]. apply Hnext; [by rewrite bool_decide_true|].
    intros ch Hch. rewrite !bool_decide_false; congruence.
Qed.

(** The guards are all dropped: no section is open. *)
Lemma serial_closed h secs open :
  serial h secs open -> (forall ch, guarded_by false (proj ch h) = Some false) -> open = None.
Proof.
  intros -> Hg. destruct open as [[c l]|]; [|done]. specialize (Hg c). exfalso. revert Hg.
  rewrite proj_app, guarded_by_app. cbn [open_events who accs]. destruct (guarded_by false (proj c _)) as [b|]; [|done].
  rewrite proj_cons. cbn [fst snd]. rewrite decide_True by done. cbn. destruct b; [done|]. cbn.
  induction l as [|a l IH]; [done|]. change (uses c (a :: l)) with ((c, Access a) :: uses c l). rewrite proj_cons. cbn [fst snd].
  rewrite decide_True by done. exact IH.
Qed.

(** The accesses of a history, section by section. *)
Definition accesses_of (e : mevent) : list access := match e with Access a => [a] | _ => [] end.

Lemma uses_accesses c l : (uses c l).*2 ≫= accesses_of = l.
Proof.
  unfold uses. rewrite <- list_fmap_compose. induction l as [|a l IH]; [done|]. rewrite fmap_cons. cbn. by f_equal.
Qed.

Lemma serial_accesses h secs open :
  serial h secs open -> h.*2 ≫= accesses_of = concat (accs <$> secs) ++ from_option accs [] open.
Proof.
  intros ->. rewrite fmap_app, bind_app. f_equal.
  - induction secs as [|s secs IH]; [done|]. cbn [fmap list_fmap concat]. rewrite fmap_app, bind_app, IH. f_equal.
    unfold events_of. rewrite fmap_cons, fmap_app.
    change (((uses (who s) (accs s)).*2 ++ [Release]) ≫= accesses_of = accs s). by rewrite bind_app, uses_accesses, app_nil_r.
  - destruct open as [s|]; [|done]. exact (uses_accesses (who s) (accs s)).
Qed.
End sections.

Lemma mevents_accesses {Code} m (l : list (seen Code)) : mevents m l ≫= accesses_of = accesses (Mutex.obj m) l.
Proof.
  induction l as [|s l IH]; [done|]. change (mevents m (s :: l)) with (mevents_of m s ++ mevents m l).
  change (accesses (Mutex.obj m) (s :: l)) with (access_of (Mutex.obj m) s ++ accesses (Mutex.obj m) l).
  rewrite bind_app, IH. f_equal.
  assert (forall l, (Access <$> l) ≫= accesses_of = l) as Hl by (induction l0 as [|a l0 IHl]; [done|cbn; by f_equal]).
  destruct s as [[] X x|X c x|]; try done; [by cbn; case_decide|].
  destruct c; try apply Hl. cbn. by case_decide.
Qed.

(** ** The tasks of a thread *)
Section thread.
Context {S : Type -> Type} `{SlabSpec S} {B : Type} `{RingBuffer B}.
Context {U : Type} `{IoUring U sqe} {L : Type} `{Libc L} `{!Process L} `{!Memory L} `{Host} `{NetOrder}.
Context {Code Val : Type} (code : Code -> body Code Val Val).
Abbreviation world := (world S B U L (body Code Val Val) Val).
Context (P : Code -> Prop) `{!forall c, Decision (P c)} (m : Mutex.Mutex nat).

(** The blocks [P] use the object of [m] with a guard only, and spawn only such blocks. *)
Record locking : Prop := {
  locking_guarded : forall c, P c -> keeps (guarded m) false (code c) (fun _ held => held = false);
  locking_spawns : forall c, P c -> keeps (spawns_in P) tt (code c) (fun _ _ => True);
}.

Definition mutex_history {K} (h : list (K * seen Code)) : list (K * mevent) := tagged (mevents_of m) h.

Lemma explains_guarded (Hl : locking) {V} {view : L -> V} {changes} base bs h (w : world) (es : list (entry (Code:=Code) (Val:=Val))) ch :
  explains code (view:=view) (changes:=changes) base bs h w es -> Forall P bs.*1 ->
  exists b, guarded_by false (proj ch (mutex_history h)) = Some b /\
    ((forall e, e ∈ es -> exists v, halts (code (e_code e)) (e_trace e) (Ret v)) -> b = false).
Proof.
  intros Hex Hbs. pose proof (explains_family _ _ (locking_spawns Hl) _ _ _ _ _ Hex Hbs) as HP.
  unfold mutex_history. rewrite proj_tagged. destruct (decide (ch ∈ e_ch <$> es)) as [(e & -> & He)%list_elem_of_fmap|Hn].
  - rewrite (ex_proj _ _ _ _ _ _ Hex e He). pose proof (locking_guarded Hl _ (HP e He)) as Hk.
    destruct (ex_trace _ _ _ _ _ _ Hex e He) as (s & Htr). destruct (Hk _ _ Htr) as (b & Hb & _).
    rewrite guarded_events in Hb. exists b. split; [exact Hb|]. intros Hh.
    destruct (Hh e He) as (v & s' & Htr' & Hv). destruct (Hk _ _ Htr') as (b' & Hb' & Hq).
    rewrite guarded_events in Hb'. rewrite <- (Hq v Hv). congruence.
  - exists false. rewrite proj_none; [done|]. apply Forall_forall. intros x Hx <-. apply Hn. by apply Hex.
Qed.

(** A history whose participants are guarded is serial, and closed once they all are. *)
Lemma guarded_serial {K} `{EqDecision K} (h : list (K * seen Code)) :
  (forall ch, exists b, guarded_by false (proj ch (mutex_history h)) = Some b) -> semaphore 1 (mevents m h.*2) ->
  exists secs open, serial (mutex_history h) secs open /\
    ((forall ch, guarded_by false (proj ch (mutex_history h)) = Some false) -> open = None).
Proof.
  intros Hg Hs. destruct (serial_holder (mutex_history h) None) as (secs & open & Hser).
  - intros ch. rewrite bool_decide_false by done. exact (Hg ch).
  - unfold mutex_history. by rewrite tagged_snd.
  - exists secs, open. split; [done|]. by apply (serial_closed _ _ _ Hser).
Qed.

Lemma explains_serial (Hl : locking) {V} {view : L -> V} {changes} base bs h (w : world) (es : list (entry (Code:=Code) (Val:=Val))) :
  explains code (view:=view) (changes:=changes) base bs h w es -> Forall P bs.*1 -> semaphore 1 (mevents m h.*2) ->
  exists secs open, serial (mutex_history h) secs open /\
    ((forall e, e ∈ es -> exists v, halts (code (e_code e)) (e_trace e) (Ret v)) -> open = None).
Proof.
  intros Hex Hbs Hs. pose proof (fun ch => explains_guarded Hl _ _ _ _ _ ch Hex Hbs) as Hg.
  destruct (guarded_serial h) as (secs & open & Hser & Hc); [|done|].
  { intros ch. destruct (Hg ch) as (b & Hb & _). by exists b. }
  exists secs, open. split; [done|]. intros Hend. apply Hc. intros ch.
  destruct (Hg ch) as (b & Hb & Hf). by rewrite Hb, (Hf Hend).
Qed.

End thread.
