(* ===== verification/Threads.v ===== *)
(** Several threads of one process: src/src/task.rs and src/src/reactor/mod.rs.

    [EXEC] and [REACTOR] are thread-locals: every thread has tables, tasks and
    a ring of its own, a [world], and shares the system with the others.  A thread runs
    synchronous code, calls of the crate's interface, until it enters the
    executor's loop; then it takes a task, polls it, and goes on with the loop.  The
    steps of the threads are interleaved in any order: a step is one call, one poll of a
    future of the library, or the start or the end of the poll of a task. *)
From ITree Require Import ITree.
From S2P Require Import Prelude Bytes Crates CrateModels Results Reactor Io Sqe Libc SockAddr Event ReadWrite Fs Timer Tcp Udp Mutex Task TaskProps TaskLoop Joins Async AsyncProps Output Seen History Recorded.

Open Scope nat_scope.

(** ** The events of a thread, and of its tasks *)
Section events.
Context {A : Type}.
Abbreviation plog := (list (nat * (option nat * A))).
Implicit Types (h : plog).

(** The events of the tasks of thread [i], and of its synchronous code *)
Definition tasks_of (i : nat) h : list (nat * A) :=
  proj i h ≫= fun x => match x.1 with Some ch => [(ch, x.2)] | None => [] end.
Definition sync_of (i : nat) h : list A := proj None (proj i h).

(** Each event with who has done it. *)
Definition named h : list (nat * option nat * A) := (fun x => (x.1, x.2.1, x.2.2)) <$> h.

Lemma tasks_of_app i h1 h2 : tasks_of i (h1 ++ h2) = tasks_of i h1 ++ tasks_of i h2.
Proof. unfold tasks_of. by rewrite proj_app, bind_app. Qed.

Lemma sync_of_app i h1 h2 : sync_of i (h1 ++ h2) = sync_of i h1 ++ sync_of i h2.
Proof. unfold sync_of. by rewrite !proj_app. Qed.

Definition by_tasks (i : nat) (l : list (nat * A)) : plog := (fun x => (i, (Some x.1, x.2))) <$> l.

Lemma by_tasks_tags i l : by_tasks i l = pair i <$> ((fun x => (Some x.1, x.2)) <$> l).
Proof. unfold by_tasks. by rewrite <- list_fmap_compose. Qed.

Lemma tasks_of_round i l : tasks_of i (by_tasks i l) = l.
Proof.
  unfold tasks_of. rewrite by_tasks_tags, proj_own. induction l as [|[ch x] l IH]; [done|].
  rewrite fmap_cons. cbn. f_equal. exact IH.
Qed.

Lemma sync_of_round i l : sync_of i (by_tasks i l) = [].
Proof.
  unfold sync_of. rewrite by_tasks_tags, proj_own. apply proj_none, Forall_forall.
  by intros x (y & -> & _)%list_elem_of_fmap.
Qed.

Lemma proj_round_other i j l : i <> j -> proj j (by_tasks i l) = [].
Proof. intros Hne. rewrite by_tasks_tags. by apply proj_other. Qed.

Lemma events_round i l : (by_tasks i l).*2.*2 = l.*2.
Proof. unfold by_tasks. rewrite <- !list_fmap_compose. by apply list_fmap_ext. Qed.

Lemma named_app h1 h2 : named (h1 ++ h2) = named h1 ++ named h2.
Proof. apply fmap_app. Qed.

Lemma named_snd h : (named h).*2 = h.*2.*2.
Proof. unfold named. rewrite <- !list_fmap_compose. by apply list_fmap_ext. Qed.

Lemma proj_named i (c : option nat) h : proj (i, c) (named h) = proj c (proj i h).
Proof.
  induction h as [|[j [d x]] h IH]; [done|]. unfold named. rewrite fmap_cons. fold (named h). rewrite !proj_cons. cbn [fst snd].
  destruct (decide (j = i)) as [->|Hne].
  - cbn [app]. rewrite proj_cons. cbn [fst snd]. rewrite IH.
    destruct (decide (d = c)) as [->|Hd]; [by rewrite decide_True|by rewrite decide_False by congruence].
  - by rewrite decide_False by congruence.
Qed.

Lemma proj_tasks ch (l : list (option nat * A)) :
  proj ch (l ≫= fun x => match x.1 with Some c => [(c, x.2)] | None => [] end) = proj (Some ch) l.
Proof.
  induction l as [|[[c|] x] l IH]; [done|..]; rewrite bind_cons, proj_app, IH, (proj_cons (Some ch)); cbn [fst snd]; [|done].
  f_equal. rewrite proj_cons. cbn [fst snd]. destruct (decide (c = ch)) as [->|Hne].
  - by rewrite decide_True.
  - by rewrite decide_False by congruence.
Qed.

Lemma proj_tasks_of i ch h : proj ch (tasks_of i h) = proj (Some ch) (proj i h).
Proof. apply proj_tasks. Qed.

Lemma tasks_of_one i j c x :
  tasks_of i [(j, (c, x))] = if decide (j = i) then match c with Some ch => [(ch, x)] | None => [] end else [].
Proof. unfold tasks_of. rewrite proj_cons. cbn [fst snd]. case_decide; [|done]. by destruct c. Qed.

(** A prefix of the events of the tasks of a thread is what a prefix of the history shows of them. *)
Lemma tasks_of_split i h l1 l2 :
  tasks_of i h = l1 ++ l2 -> exists h1 h2, h = h1 ++ h2 /\ tasks_of i h1 = l1.
Proof.
  revert l1. induction h as [|[j [c x]] h IH]; intros l1 E.
  { destruct l1; [|done]. by exists [], []. }
  change ((j, (c, x)) :: h) with ([(j, (c, x))] ++ h) in E. rewrite tasks_of_app in E.
  destruct l1 as [|y l1]; [by exists [], ((j, (c, x)) :: h)|].
  assert ((tasks_of i [(j, (c, x))] = [] /\ tasks_of i h = (y :: l1) ++ l2) \/ (tasks_of i [(j, (c, x))] = [y] /\ tasks_of i h = l1 ++ l2)) as Hc.
  { revert E. rewrite tasks_of_one. case_decide; [|by left]. destruct c as [c|]; [|by left]. cbn. intros [= <- E]. by right. }
  destruct Hc as [[E1 E2]|[E1 E2]]; destruct (IH _ E2) as (h1 & h2 & -> & Eh);
    exists ((j, (c, x)) :: h1), h2; (split; [done|]); change ((j, (c, x)) :: h1) with ([(j, (c, x))] ++ h1);
    by rewrite tasks_of_app, E1, Eh.
Qed.
End events.

(** ** Threads *)

(** Where a thread is: outside of the executor, in the loop between two polls,
    or in the poll of a task, which is then in no table; its future is what is left of its block. *)
Inductive phase (Fut : Type) := Outside | Between | Polling (t : Task Fut).
Arguments Outside {Fut}.
Arguments Between {Fut}.
Arguments Polling {Fut} t.

(** The system of the world of a thread is the one it left at its last step: [on] gives it the one there is. *)
Record Thread (W Fut : Type) := MkThread { t_world : W; t_phase : phase Fut }.
Arguments MkThread {W Fut} t_world t_phase.
Arguments t_world {W Fut} _.
Arguments t_phase {W Fut} _.

Record Proc (W Fut L : Type) := MkProc { threads : list (Thread W Fut); p_libc : L }.
Arguments MkProc {W Fut L} threads p_libc.
Arguments threads {W Fut L} _.
Arguments p_libc {W Fut L} _.

Section threads.
Context {S : Type -> Type} `{Slab S} {B : Type} `{RingBuffer B}.
Context {U : Type} `{IoUring U sqe} {L : Type} `{Libc L} `{Host} `{NetOrder} `{!Process L}.
Context {Code Val : Type} (code : Code -> body Code Val Val) (fuel : nat).
Abbreviation Fut := (body Code Val Val).
Abbreviation world := (world S B U L Fut Val).
Abbreviation phase := (phase Fut).
Abbreviation Thread := (Thread world Fut).
Abbreviation Proc := (Proc world Fut L).
Implicit Types (w : world) (t : Thread) (p : Proc) (task : Task Fut).

(** *** One step of a poll *)
Inductive progress :=
  | Goes (evs : list (seen Code)) (rest : Fut) w     (* and may go on *)
  | Stops (r : poll Val) (rest : Fut) w.             (* the poll of the block is over *)

Definition body_step (b : Fut) (cx : nat) w : outcome progress :=
  match observe b with
  | RetF v => mret (Stops (Ready v) (crash (Explicit "`async fn` resumed after completion")) w)
  | TauF b => mret (Goes [] b w)
  | VisF e k =>
      match e in ioE _ _ X return (X -> Fut) -> outcome progress with
      | Await a => fun k =>
          '(r, a', w) ← poll_await a cx w;
          match r with
          | Pending => mret (Stops Pending (Vis (Await a') k) w)
          | Ready x => w ← drop_await a' w; mret (Goes [Awaited (label_of a) x] (k x) w)
          end
      | Call c => fun k => '(x, w) ← do_call code c w; mret (Goes [Called c x] (k x) w)
      | Crash q => fun _ => Panic q
      end k
  end.

(** The task with what is left of its block *)
Definition with_rest (b : Fut) task : Task Fut :=
  MkTask (id task) (MkTaskFuture b (evt2 (future task)) (tx (future task))).

(** One step of the poll of a task; at the end of the poll, the rest of the round. *)
Definition poll_step task w : outcome (list (seen Code) * phase * world) :=
  s ← body_step (f (future task)) (id task) w;
  match s with
  | Goes evs b w => mret (evs, Polling (with_rest b task), w)
  | Stops r b w =>
      '(r, tf, w) ← poll_task (fun _ _ _ => mret (r, b, w)) (future task) (id task) w;
      let w := requeue (MkTask (id task) tf) r w in
      mret ([], if (if decide (run_q (w_exec w) = []) then slab_is_empty (waiting (w_exec w)) else false) then Outside else Between, w)
  end.

(** The start of a round: the reactor if no task is ready, then a task. *)
Definition take_task w : outcome (Task Fut * world) :=
  w ← (if decide (run_q (w_exec w) = []) then react_exec fuel w else mret w);
  '(task, q) ← unwrap (pop (run_q (w_exec w)));
  mret (task, set_exec (MkExecutor (waiting (w_exec w)) q) w).

(** *** The steps of the process *)

(** Who does something: a thread, and in it one of its tasks, named by its
    channel, or its synchronous code. *)
Abbreviation plog := (list (nat * (option nat * seen Code))).

Definition on p t : world := set_libc (p_libc p) (t_world t).

(** Thread [i] has done a step that leads it to [w]. *)
Definition moved p (i : nat) w (ph : phase) : Proc :=
  MkProc (<[i := MkThread w ph]> (threads p)) (w_libc w).

Definition in_poll t : bool := match t_phase t with Polling _ => true | _ => false end.

Inductive step p : plog -> Proc -> Prop :=
  (* [thread::spawn]: a thread with an executor and a reactor of its own *)
  | step_begin ring : reactor_new = Ret ring ->
      step p [] (MkProc (threads p ++ [MkThread (world_init ring (p_libc p)) Outside]) (p_libc p))
  (* a call made outside of the executor *)
  | step_sync i t X (c : callE Code X) x w :
      threads p !! i = Some t -> t_phase t = Outside -> do_call code c (on p t) = Ret (x, w) ->
      step p [(i, (None, Called c x))] (moved p i w Outside)
  (* [TaskJoiner::join] *)
  | step_join i t j v w :
      threads p !! i = Some t -> t_phase t = Outside -> join j (on p t) = Ret (v, w) ->
      step p [] (moved p i w Outside)
  (* [executor_loop], entered or in a next turn *)
  | step_take i t task w :
      threads p !! i = Some t -> in_poll t = false -> take_task (on p t) = Ret (task, w) ->
      step p [] (moved p i w (Polling task))
  (* in the poll of a task *)
  | step_poll i t task evs ph w :
      threads p !! i = Some t -> t_phase t = Polling task -> poll_step task (on p t) = Ret (evs, ph, w) ->
      step p (by_tasks i (pair (tx (future task)) <$> evs)) (moved p i w ph)
  (* [wake], of the identity [l] of thread [i], by thread [j]: [EXEC] is that of [j] *)
  | step_wake i l j s t :
      threads p !! i = Some s -> threads p !! j = Some t ->
      step p [] (moved p j (set_exec (wake (w_ids (t_world s)) l (w_exec (t_world t))) (on p t)) (t_phase t)).

(** Any number of steps, and what was done *)
Inductive steps p : plog -> Proc -> Prop :=
  | steps_none : steps p [] p
  | steps_more h p1 h1 p2 : steps p h p1 -> step p1 h1 p2 -> steps p (h ++ h1) p2.

Lemma steps_step p h p' : step p h p' -> steps p h p'.
Proof. intros Hs. change h with ([] ++ h). eapply steps_more; [constructor|done]. Qed.

Lemma steps_trans p h p1 h1 p2 : steps p h p1 -> steps p1 h1 p2 -> steps p (h ++ h1) p2.
Proof.
  intros Hs. induction 1 as [|h1 p1' h2 p2 _ IH Hst]; [by rewrite app_nil_r|]. rewrite app_assoc. by econstructor.
Qed.
End threads.

(** ** Schedules, computed *)
Section schedules.
Context {S : Type -> Type} `{Slab S} {B : Type} `{RingBuffer B}.
Context {U : Type} `{IoUring U sqe} {L : Type} `{Libc L} `{Host} `{NetOrder} `{!Process L}.
Context {Code Val : Type} (code : Code -> body Code Val Val) (fuel n : nat).
Abbreviation Fut := (body Code Val Val).
Abbreviation world := (world S B U L Fut Val).
Abbreviation Thread := (Thread world Fut).
Abbreviation Proc := (Proc world Fut L).
Abbreviation plog := (list (nat * (option nat * seen Code))).
Abbreviation round := (executor_round (poll_block code n) fuel).
Implicit Types (w : world) (t : Thread) (p : Proc) (task : Task Fut).

(** [Round]: a whole round of [executor_loop] that nothing interrupts. *)
Inductive action :=
  | Begin
  | Sync (i : nat) {X : Type} (c : callE Code X)
  | Join (i : nat) (j : TaskJoiner)
  | Take (i : nat)
  | Poll (i : nat)
  | Round (i : nat)
  | WakeFrom (i l j : nat).

Definition with_thread {A} (i : nat) p (k : Thread -> outcome A) : outcome A :=
  match threads p !! i with Some t => k t | None => Hang end.
Definition synchronous {A} (i : nat) p (k : world -> outcome A) : outcome A :=
  with_thread i p (fun t => match t_phase t with Outside => k (on p t) | _ => Hang end).

(** An action that is not for this thread to do now never comes. *)
Definition act (a : action) p : outcome (plog * Proc) :=
  match a with
  | Begin =>
      ring ← reactor_new;
      mret ([], MkProc (threads p ++ [MkThread (world_init ring (p_libc p)) Outside]) (p_libc p))
  | Sync i c => synchronous i p (fun w => '(x, w) ← do_call code c w; mret ([(i, (None, Called c x))], moved p i w Outside))
  | Join i j => synchronous i p (fun w => '(_, w) ← join j w; mret ([], moved p i w Outside))
  | Take i =>
      with_thread i p (fun t =>
        if in_poll t then Hang else '(task, w) ← take_task fuel (on p t); mret ([], moved p i w (Polling task)))
  | Poll i =>
      with_thread i p (fun t =>
        match t_phase t with
        | Polling task =>
            '(evs, ph, w) ← poll_step code task (on p t);
            mret (by_tasks i (pair (tx (future task)) <$> evs), moved p i w ph)
        | _ => Hang
        end)
  | Round i =>
      with_thread i p (fun t =>
        if in_poll t then Hang else
        '(b, w) ← round (on p t);
        mret (by_tasks i (round_log code fuel n (on p t)), moved p i w (if b : bool then Outside else Between)))
  | WakeFrom i l j =>
      with_thread i p (fun s => with_thread j p (fun t =>
        mret ([], moved p j (set_exec (wake (w_ids (t_world s)) l (w_exec (t_world t))) (on p t)) (t_phase t))))
  end.

Fixpoint acts (sched : list action) p : outcome (plog * Proc) :=
  match sched with
  | [] => mret ([], p)
  | a :: sched => '(h1, p) ← act a p; '(h2, p) ← acts sched p; mret (h1 ++ h2, p)
  end.

(** *** A round is a sequence of steps *)
Lemma poll_body_step m b cx w :
  poll_body code (Datatypes.S m) b cx w =
    (s ← body_step code b cx w; match s with Goes _ b w => poll_body code m b cx w | Stops r b w => mret (r, b, w) end).
Proof.
  cbn [poll_body]. unfold body_step. destruct (observe b) as [v|b1|X e k]; [done..|]. destruct e as [X a|X c|X q]; [| |done].
  - destruct (poll_await a cx w) as [[[[x|] a'] w1]|q| |]; cbn [mbind outcome_bind]; try done. by destruct (drop_await a' w1).
  - by destruct (do_call code c w) as [[x w1]| | |].
Qed.

Lemma poll_log_step m b cx w :
  poll_log code (Datatypes.S m) b cx w =
    match body_step code b cx w with Ret (Goes evs b w) => evs ++ poll_log code m b cx w | _ => [] end.
Proof.
  cbn [poll_log]. unfold body_step. destruct (observe b) as [v|b1|X e k]; [done..|]. destruct e as [X a|X c|X q]; [| |done].
  - destruct (poll_await a cx w) as [[[[x|] a'] w1]|q| |]; cbn [mbind outcome_bind]; try done. by destruct (drop_await a' w1).
  - by destruct (do_call code c w) as [[x w1]| | |].
Qed.

Lemma round_take w :
  round w = ('(task, w) ← take_task fuel w;
    '(r, tf, w) ← poll_task (poll_block code n) (future task) (id task) w;
    let w := requeue (MkTask (id task) tf) r w in
    mret (if decide (run_q (w_exec w) = []) then slab_is_empty (waiting (w_exec w)) else false, w)).
Proof.
  unfold executor_round, take_task. destruct (if decide _ then _ else _) as [w1| | |]; [|done..]. cbn [mbind outcome_bind].
  by destruct (pop (run_q (w_exec w1))) as [[task q]|].
Qed.

Lemma round_log_take w :
  round_log code fuel n w =
    match take_task fuel w with
    | Ret (task, w) => (tx (future task),.) <$> poll_log code n (f (future task)) (id task) w
    | _ => []
    end.
Proof.
  unfold round_log, take_task. destruct (if decide _ then _ else _) as [w1| | |]; [|done..]. cbn [mbind outcome_bind].
  by destruct (pop (run_q (w_exec w1))) as [[task q]|].
Qed.

(** Thread [i] moves twice: the first world is the one it goes on with. *)
Lemma moved_twice p (i : nat) w ph w' ph' : moved (moved p i w ph) i w' ph' = moved p i w' ph'.
Proof. unfold moved. cbn. by rewrite list_insert_insert_eq. Qed.

Lemma on_moved p (i : nat) w ph : on (moved p i w ph) (MkThread w ph) = w.
Proof. unfold on, set_libc. by destruct w. Qed.

Lemma moved_lookup p (i : nat) t w ph : threads p !! i = Some t -> threads (moved p i w ph) !! i = Some (MkThread w ph).
Proof. intros Ht. cbn. apply list_lookup_insert_eq. by eapply lookup_lt_Some. Qed.

(** The poll of a block, up to its last step *)
Lemma poll_body_steps p (i : nat) t m task w r b' w1 :
  threads p !! i = Some t -> poll_body code m (f (future task)) (id task) w = Ret (r, b', w1) ->
  exists b2 w2, body_step code b2 (id task) w2 = Ret (Stops r b' w1) /\
    steps code fuel (moved p i w (Polling task))
      (by_tasks i (pair (tx (future task)) <$> poll_log code m (f (future task)) (id task) w)) (moved p i w2 (Polling (with_rest b2 task))).
Proof.
  intros Ht. revert task w. induction m as [|m IH]; intros task w E; [done|].
  rewrite poll_body_step in E. rewrite poll_log_step.
  destruct (body_step code (f (future task)) (id task) w) as [[evs b w2|r2 b w2]| | |] eqn:Eb; cbn [mbind outcome_bind] in E; [| |done..].
  - destruct (IH (with_rest b task) w2 E) as (b3 & w3 & Es & Hst). exists b3, w3. split; [exact Es|].
    unfold by_tasks. rewrite !fmap_app. eapply steps_trans; [|exact Hst]. apply steps_step.
    rewrite <- (moved_twice p i w (Polling task) w2). eapply step_poll; [by eapply moved_lookup|done|].
    unfold poll_step. rewrite on_moved, Eb. done.
  - injection E as -> -> ->. exists (f (future task)), w. split; [done|]. destruct task as [ti [tb te tt]]. constructor.
Qed.

(** The wrapper of the block is told how the poll of the block ended. *)
Lemma poll_task_rest pu tf cx w r b w1 b2 w2 :
  pu (f tf) cx w = Ret (r, b, w1) ->
  poll_task (fun _ _ _ => mret (r, b, w1)) (MkTaskFuture b2 (evt2 tf) (tx tf)) cx w2 = poll_task (Val:=Val) pu tf cx w.
Proof. intros E. unfold poll_task. by rewrite E. Qed.

(** A round of [executor_loop] is a sequence of steps of its thread, with the same events. *)
Lemma round_steps p (i : nat) t b w :
  threads p !! i = Some t -> in_poll t = false -> round (on p t) = Ret (b, w) ->
  steps code fuel p (by_tasks i (round_log code fuel n (on p t))) (moved p i w (if b : bool then Outside else Between)).
Proof.
  intros Ht Hph E. rewrite round_take in E. rewrite round_log_take. destruct (take_task fuel (on p t)) as [[task w1]| | |] eqn:Et; [|done..].
  cbn [mbind outcome_bind] in E. inv_bind. destruct a as [[r tf] w2]. inv_bind.
  destruct (poll_block code n (f (future task)) (id task) w1) as [[[r1 b1] w3]| | |] eqn:Eb;
    [|unfold poll_task in Ha; rewrite Eb in Ha; done..].
  destruct (poll_body_steps p i t n task w1 r1 b1 w3 Ht Eb) as (b2 & w4 & Es & Hst).
  change (by_tasks i ?l) with ([] ++ by_tasks i l). eapply steps_trans; [apply steps_step; by eapply step_take|].
  rewrite <- (app_nil_r (by_tasks i _)). eapply steps_more; [exact Hst|].
  rewrite <- (moved_twice p i w4 (Polling (with_rest b2 task)) (requeue (MkTask (id task) tf) r w2)).
  eapply (step_poll code fuel _ i (MkThread w4 _) (with_rest b2 task) []); [by eapply moved_lookup|done|]. unfold poll_step. rewrite on_moved. cbn [f future with_rest id]. rewrite Es.
  cbn [mbind outcome_bind]. pose proof (poll_task_rest _ (future task) _ _ _ _ _ b2 w3 Eb) as Er. cbn [future with_rest] in Er |- *.
  rewrite Er, Ha. done.
Qed.

(** So is all of [Executor::run], with the [history] of the thread. *)
Lemma run_steps p (i : nat) t k w :
  threads p !! i = Some t -> in_poll t = false -> run (poll_block code n) k fuel (on p t) = Ret w ->
  steps code fuel p (by_tasks i (history code fuel n k (on p t))) (moved p i w Outside).
Proof.
  unfold run. revert p t. induction k as [|k IH]; intros p t Ht Hph E; [done|]. cbn [executor_loop history] in E |- *. inv_bind.
  destruct a as [b w1]. pose proof (round_steps p i t b w1 Ht Hph Ha) as Hr. unfold by_tasks. rewrite fmap_app, Ha. destruct b.
  - injection E as ->. by rewrite app_nil_r.
  - eapply steps_trans; [exact Hr|]. rewrite <- (moved_twice p i w1 Between w).
    specialize (IH _ _ (moved_lookup p i t w1 Between Ht) eq_refl). rewrite on_moved in IH. exact (IH E).
Qed.

Lemma with_thread_inv {A} (i : nat) p (k : Thread -> outcome A) x :
  with_thread i p k = Ret x -> exists t, threads p !! i = Some t /\ k t = Ret x.
Proof. unfold with_thread. destruct (threads p !! i) as [t|]; [|done]. by exists t. Qed.

Lemma synchronous_inv {A} (i : nat) p (k : world -> outcome A) x :
  synchronous i p k = Ret x -> exists t, threads p !! i = Some t /\ t_phase t = Outside /\ k (on p t) = Ret x.
Proof.
  intros (t & Ht & E)%with_thread_inv. exists t. destruct (t_phase t); done.
Qed.

Lemma act_steps a p h p' : act a p = Ret (h, p') -> steps code fuel p h p'.
Proof.
  destruct a as [|i X c|i j|i|i|i|i l j]; cbn [act]; intros E.
  - inv_bind. by apply steps_step, step_begin.
  - apply synchronous_inv in E as (t & Ht & Hph & E). inv_bind. destruct a as [x w]. inv_bind. apply steps_step. by eapply step_sync.
  - apply synchronous_inv in E as (t & Ht & Hph & E). inv_bind. destruct a as [x w]. inv_bind. apply steps_step. by eapply step_join.
  - apply with_thread_inv in E as (t & Ht & E). destruct (in_poll t) eqn:Hph; [done|]. inv_bind. destruct a as [task w]. inv_bind.
    apply steps_step. by eapply step_take.
  - apply with_thread_inv in E as (t & Ht & E). destruct (t_phase t) as [| |task] eqn:Hph; try done. inv_bind.
    destruct a as [[evs ph] w]. inv_bind. apply steps_step. by eapply step_poll.
  - apply with_thread_inv in E as (t & Ht & E). destruct (in_poll t) eqn:Hph; [done|]. inv_bind. destruct a as [b w]. inv_bind.
    by apply round_steps.
  - apply with_thread_inv in E as (s & Hs & (t & Ht & E)%with_thread_inv). inv_bind. apply steps_step. by eapply step_wake.
Qed.

(** Every step is an action, and what a schedule computes are steps. *)
Lemma step_act p h p' : step code fuel p h p' -> exists a, act a p = Ret (h, p').
Proof.
  unfold act, synchronous, with_thread.
  intros [ring Hr|i t X c x w Ht Hph E|i t j v w Ht Hph E|i t task w Ht Hph E|i t task evs ph w Ht Hph E|i l j s t Hs Ht].
  - exists Begin. by rewrite Hr.
  - exists (Sync i c). by rewrite Ht, Hph, E.
  - exists (Join i j). by rewrite Ht, Hph, E.
  - exists (Take i). by rewrite Ht, Hph, E.
  - exists (Poll i). by rewrite Ht, Hph, E.
  - exists (WakeFrom i l j). by rewrite Hs, Ht.
Qed.

Lemma acts_steps sched p h p' : acts sched p = Ret (h, p') -> steps code fuel p h p'.
Proof.
  revert p h. induction sched as [|a sched IH]; intros p h E; cbn in E; [injection E as <- <-; constructor|].
  inv_bind. destruct a0 as [h1 p1]. inv_bind. destruct a0 as [h2 p2]. inv_bind.
  eapply steps_trans; [by eapply act_steps|by apply IH].
Qed.
End schedules.
