(* ===== verification/ThreadProps.v ===== *)
(** What holds of the threads of a process in every interleaving of their
    steps: their tables, the history of each of them, the objects they share. *)
From ITree Require Import ITree.
From S2P Require Import Prelude Bytes Crates CrateModels Results Reactor Io Sqe Libc SockAddr Event ReadWrite Fs Timer Tcp Udp Mutex Task TaskProps TaskLoop Joins Async AsyncProps Output Seen History Recorded Monitor Critical Threads.

Open Scope nat_scope.

Section props.
Context {S : Type -> Type} `{SlabSpec S} {B : Type} `{RingBuffer B}.
Context {U : Type} `{IoUring U sqe} {L : Type} `{Libc L} `{Host} `{NetOrder} `{!Process L}.
Context {Code Val : Type} (code : Code -> body Code Val Val) (fuel : nat).
Abbreviation Fut := (body Code Val Val).
Abbreviation world := (world S B U L Fut Val).
Abbreviation Thread := (Thread world Fut).
Abbreviation Proc := (Proc world Fut L).
Abbreviation step := (step code fuel).
Abbreviation steps := (steps code fuel).
Abbreviation plog := (list (nat * (option nat * seen Code))).
Implicit Types (w : world) (t : Thread) (p : Proc) (h : plog) (task : Task Fut) (ph : phase Fut).

(** The task that a thread polls, and all its tasks *)
Definition polled ph : list (Task Fut) := match ph with Polling task => [task] | _ => [] end.
Definition tasks t : list (Task Fut) := polled (t_phase t) ++ all_tasks (w_exec (t_world t)).

Lemma polls_none t : in_poll t = false -> polled (t_phase t) = [].
Proof. unfold in_poll. by destruct (t_phase t). Qed.

(** ** The parts of a round *)
Lemma take_inv w task w' :
  take_task fuel w = Ret (task, w') ->
  exists w1 q, (w1 = w \/ run_q (w_exec w) = [] /\ react_exec fuel w = Ret w1) /\
    pop (run_q (w_exec w1)) = Some (task, q) /\ w' = set_exec (MkExecutor (waiting (w_exec w1)) q) w1.
Proof.
  unfold take_task. intros E. inv_bind. rename a into w1. destruct a0 as [task' q]. inv_bind.
  destruct (pop (run_q (w_exec w1))) as [x|] eqn:Ep; [|done]. injection Ha0 as ->. exists w1, q. split; [|done]. case_decide; [by right|left]. by injection Ha as ->.
Qed.

Lemma poll_step_inv task w evs ph w' :
  poll_step code task w = Ret (evs, ph, w') ->
  (exists b, body_step code (f (future task)) (id task) w = Ret (Goes evs b w') /\ ph = Polling (with_rest b task)) \/
  (exists r b w1 q tf w2,
    body_step code (f (future task)) (id task) w = Ret (Stops r b w1) /\
    poll_task (fun _ _ _ => mret (r, b, w1)) (future task) (id task) w = Ret (q, tf, w2) /\
    evs = [] /\ w' = requeue (MkTask (id task) tf) q w2 /\ polled ph = [] /\ (ph = Outside -> all_tasks (w_exec w') = [])).
Proof.
  unfold poll_step. intros E. inv_bind. destruct a as [evs' b w1|r b w1]; [left|right].
  - injection E as <- <- <-. by exists b.
  - inv_bind. destruct a as [[q tf] w2]. injection E as <- <- <-. exists r, b, w1, q, tf, w2. split; [done|].
    split; [by rewrite <- Ha0|]. split; [done|]. split; [done|]. split; [by repeat case_match|]. case_decide as Hq; [|done].
    destruct (slab_is_empty _) eqn:He; [|done]. apply slab_is_empty_spec in He. intros _. unfold all_tasks.
    by rewrite He, Hq, map_to_list_empty.
Qed.

Lemma body_step_safe b cx w s :
  body_step code b cx w = Ret s -> rtc (user_step (fun _ => True)) w (match s with Goes _ _ w' | Stops _ _ w' => w' end).
Proof.
  unfold body_step. destruct (observe b) as [v|b1|X e k]; [by intros [= <-]..|]. destruct e as [X a|X c|X q]; [| |done]; intros E; inv_bind.
  - destruct a0 as [[[x|] a'] w1]; inv_bind; apply poll_await_safe in Ha0; [|done].
    etransitivity; [exact Ha0|]. by eapply drop_await_safe.
  - destruct a as [x w1]. inv_bind. by eapply do_call_safe.
Qed.

(** ** The tables of the executors *)
Definition tables_ok p : Prop := Forall (fun t => wf (polled (t_phase t)) (t_world t)) (threads p).

Lemma wf_wake_any ids l cur w : wf cur w -> wf cur (set_exec (wake ids l (w_exec w)) w).
Proof.
  intros Hw. eapply wf_exec; [exact Hw|by rewrite wake_perm|].
  intros k t Ht. apply wake_sub in Ht. by apply (wf_ids _ _ Hw).
Qed.

Lemma moved_tables p i w ph : tables_ok p -> wf (polled ph) w -> tables_ok (moved p i w ph).
Proof. intros Hp Hw. by apply Forall_insert. Qed.

Lemma join_inv j w v w' : join j w = Ret (v, w') -> w_next w' = w_next w /\ w_exec w' = w_exec w.
Proof.
  unfold join, joiner_drop. intros E. inv_bind. destruct a as [x w1]. inv_bind. by apply recv_unwrap_inv in Ha as (c & _ & _ & ->).
Qed.

Lemma join_safe j w v w' : join j w = Ret (v, w') -> rtc (user_step (fun _ => True)) w w'.
Proof.
  unfold join. intros E. inv_bind. destruct a as [x w1]. inv_bind. eapply rtc_l; [by eapply us_recv|]. by eapply joiner_drop_safe.
Qed.

Lemma wf_take w task w' : wf [] w -> take_task fuel w = Ret (task, w') -> wf [task] w'.
Proof.
  intros Hw (w1 & q & Hw1 & Hpop & ->)%take_inv. apply wf_pop; [|done].
  destruct Hw1 as [->|[_ Hr]]; [done|by eapply wf_react].
Qed.

Lemma wf_poll_step task w evs ph w' : wf [task] w -> poll_step code task w = Ret (evs, ph, w') -> wf (polled ph) w'.
Proof.
  intros Hw [(b & Eb & ->)|(r & b & w1 & q & tf & w2 & Eb & Eq & _ & -> & -> & _)]%poll_step_inv; apply body_step_safe in Eb.
  - apply (wf_same_cur [task]); [done..|]. by eapply wf_user_steps.
  - apply (fun Hw1 => proj1 (wf_leave _ _ _ _ _ _ _ _ _ Eq eq_refl Hw1)). by eapply wf_user_steps.
Qed.

Lemma step_tables p h p' : step p h p' -> tables_ok p -> tables_ok p'.
Proof.
  intros Hs Hp. assert (forall i t, threads p !! i = Some t -> wf (polled (t_phase t)) (on p t)) as Hon.
  { intros i t Ht. apply wf_outside. by eapply Forall_lookup_1 in Hp. }
  destruct Hs as [ring Hr|i t X c x w Ht Hph E|i t j v w Ht Hph E|i t task w Ht Hph E|i t task evs ph w Ht Hph E|i l j s t Hs Ht];
    [|apply moved_tables; [done|]; specialize (Hon _ _ Ht)..].
  - apply Forall_app. split; [done|]. apply Forall_singleton, wf_init.
  - rewrite Hph in Hon. apply do_call_safe in E. by eapply wf_user_steps.
  - rewrite Hph in Hon. apply join_safe in E. by eapply wf_user_steps.
  - rewrite (polls_none _ Hph) in Hon. by eapply wf_take.
  - rewrite Hph in Hon. by eapply wf_poll_step.
  - by apply (wf_wake_any _ _ _ (on p t)).
Qed.

Lemma steps_tables p h p' : steps p h p' -> tables_ok p -> tables_ok p'.
Proof. induction 1; eauto using step_tables. Qed.

(** ** The history *)

(** A process whose threads have no tasks *)
Definition idle p : Prop := Forall (fun t => tasks t = []) (threads p).

(** A task of thread [i] is spawned before it does anything. *)
Definition came_before (i : nat) (b : Code * nat) h : Prop :=
  exists h1 h2, h = h1 ++ h2 /\ b ∈ spawned (proj i h1).*2 /\ proj (Some b.2) (proj i h1) = [].

Lemma came_before_app i b h h' : came_before i b h -> came_before i b (h ++ h').
Proof. intros (h1 & h2 & -> & Hrest). exists h1, (h2 ++ h'). by rewrite app_assoc. Qed.

(** What a thread has spawned *)
Lemma spawned_thread i h : spawned (proj i h).*2 ≡ₚ spawned (sync_of i h) ++ spawned (tasks_of i h).*2.
Proof.
  unfold sync_of, tasks_of. generalize (proj i h) as l. clear h. induction l as [|[[ch|] x] l IH]; [done|..].
  - rewrite proj_cons, bind_cons, fmap_cons, fmap_app. cbn [fst snd]. rewrite decide_False by done. cbn [app fmap list_fmap snd].
    change (spawned (x :: ?k)) with (spawned_of x ++ spawned k). rewrite IH. apply Permutation_app_swap_app.
  - rewrite proj_cons, bind_cons, fmap_cons. cbn [fst snd]. rewrite decide_True by done. cbn [app].
    change (spawned (x :: ?k)) with (spawned_of x ++ spawned k). by rewrite IH, app_assoc.
Qed.

Section poll_effect.
Context {V : Type} {view : L -> V} {changes : V -> list (seen Code) -> V -> Prop} `{!Watched view changes}.

(** What a step of a poll does *)
Lemma body_step_effect (b : Fut) cx w s :
  body_step code b cx w = Ret s ->
  match s with
  | Goes evs b' w' => effect code (view:=view) (changes:=changes) w w' evs (spawned evs) /\ exists tr, trace b tr b' /\ see <$> tr = evs
  | Stops r b' w' => effect code (view:=view) (changes:=changes) w w' [] [] /\
      match r with Ready v => observe b = RetF v | Pending => waits_at b b' end
  end.
Proof.
  unfold body_step. destruct (observe b) as [v|b1|X e k] eqn:Eb.
  - intros [= <-]. split; [by apply effect_quiet|done].
  - intros [= <-]. split; [by apply effect_quiet|]. exists []. split; [|done]. eapply trace_tau; [done|constructor].
  - destruct e as [X a|X c|X q]; [| |done]; intros E; inv_bind.
    + destruct a0 as [[[x|] a'] w1]; inv_bind; pose proof (poll_await_label _ _ _ _ _ _ Ha0) as El;
        apply (poll_await_effect code (view:=view) (changes:=changes)) in Ha0.
      * match goal with Hd : drop_await _ _ = Ret _ |- _ => apply (drop_await_effect code (view:=view) (changes:=changes)) in Hd as Hd2 end.
        split; [|exists [Obs (Await a) x]; split; [|done]; by eapply trace_vis; [..|constructor]].
        apply (effect_seen code (view:=view) (changes:=changes)); [exact (effect_trans _ _ _ _ [] [] [] [] Ha0 Hd2)|]. intros v. apply watched_awaited.
      * split; [done|]. by exists X, a, a', k.
    + destruct a as [x w1]. inv_bind. apply (do_call_effect code (view:=view) (changes:=changes)) in Ha. split; [done|].
      exists [Obs (Call c) x]. split; [|done]. by eapply trace_vis; [..|constructor].
Qed.
End poll_effect.

Section watched.
Context {V : Type} {view : L -> V} {changes : V -> list (seen Code) -> V -> Prop} `{!Watched view changes}.

(** What thread [i] has done; nothing is said of the system, that other threads change. *)
Abbreviation own i h es cur w :=
  (recorded code (view:=unseen) (changes:=fun _ _ _ => True) tt (spawned (sync_of i h)) es (tasks_of i h) cur w).

Record logged (base : V) h p : Prop := {
  lg_view : changes base h.*2.*2 (view (p_libc p));
  lg_own : forall i t, threads p !! i = Some t -> exists es, own i h es (polled (t_phase t)) (t_world t);
  lg_in : forall x, x ∈ h -> x.1 < length (threads p);
  lg_sync : forall i b, b ∈ spawned (sync_of i h) -> came_before i b h;
}.

Lemma own_on i h es cur p t : own i h es cur (t_world t) -> own i h es cur (on p t).
Proof. intros Hr. by eapply recorded_world; [exact Hr|..]. Qed.

Lemma nothing_recorded cur w :
  cur ++ all_tasks (w_exec w) = [] -> recorded code (view:=unseen) (changes:=fun _ _ _ => True) tt [] [] [] cur w.
Proof.
  intros [-> E]%app_nil. apply (recorded_start code (view:=unseen) (changes:=fun _ _ _ => True) w w [] E). by apply effect_quiet.
Qed.

Lemma logged_start p : idle p -> logged (view (p_libc p)) [] p.
Proof.
  intros Hi. split.
  - apply watched_nil.
  - intros i t Ht. eapply Forall_lookup_1 in Hi; [|done]. exists [].
    by apply nothing_recorded.
  - by intros x ?%elem_of_nil.
  - by intros i b ?%elem_of_nil.
Qed.

(** Thread [i] does [evs]. *)
Lemma logged_move base h p i t w ph evs :
  logged base h p -> threads p !! i = Some t ->
  (forall x, x ∈ evs -> x.1 = i) -> changes (view (p_libc p)) evs.*2.*2 (view (w_libc w)) ->
  (forall es, own i h es (polled (t_phase t)) (on p t) -> exists es', own i (h ++ evs) es' (polled ph) w) ->
  (forall b, b ∈ spawned (sync_of i evs) -> came_before i b (h ++ evs)) ->
  logged base (h ++ evs) (moved p i w ph).
Proof.
  intros [Hv Ho Hin Hsy] Ht Hi Hc Hw Hb.
  assert (forall j, j <> i -> proj j (h ++ evs) = proj j h) as Hj.
  { intros j Hne. rewrite proj_app, (proj_none j evs); [apply app_nil_r|]. apply Forall_forall. intros x Hx E.
    apply Hne. rewrite <- E. by apply Hi. }
  split.
  - rewrite !fmap_app. by eapply watched_app.
  - intros j t'. cbn. intros [(<- & <- & _)|[Hne Hlk]]%list_lookup_insert_Some.
    + destruct (Ho _ _ Ht) as [es Hes]. by apply (Hw es), own_on.
    + destruct (Ho _ _ Hlk) as [es Hes]. exists es. unfold sync_of, tasks_of in *. by rewrite Hj.
  - intros x. cbn. rewrite length_insert, elem_of_app. intros [Hx|Hx]; [by apply Hin|]. rewrite (Hi x Hx). by eapply lookup_lt_Some.
  - intros j b'. destruct (decide (j = i)) as [->|Hne].
    + rewrite sync_of_app, spawned_app, elem_of_app. intros [Hx|Hx]; [by apply came_before_app, Hsy|by apply Hb].
    + unfold sync_of. rewrite Hj by done. intros Hx. by apply came_before_app, Hsy.
Qed.

Lemma logged_begin base h p ring :
  logged base h p -> logged base h (MkProc (threads p ++ [MkThread (world_init ring (p_libc p)) Outside]) (p_libc p)).
Proof.
  intros [Hv Ho Hin Hsy]. split; [done| |intros x Hx; cbn; rewrite length_app; cbn; specialize (Hin x Hx); lia|done].
  intros i t. cbn. rewrite lookup_snoc_Some. intros [[_ Ht]|[-> <-]]; [by eapply Ho|]. exists [].
  assert (proj (length (threads p)) h = []) as E.
  { apply proj_none, Forall_forall. intros x Hx Ex. specialize (Hin x Hx). lia. }
  unfold sync_of, tasks_of. rewrite E.
  apply nothing_recorded.
  cbn. unfold all_tasks. cbn. by rewrite slab_new_spec, map_to_list_empty.
Qed.

Lemma one_sync i (s : seen Code) : tasks_of i [(i, (None, s))] = [] /\ sync_of i [(i, (None, s))] = [s].
Proof. unfold tasks_of, sync_of. rewrite !proj_cons. cbn [fst snd]. by rewrite decide_True by done. Qed.

(** The tasks of a thread, when its synchronous code has spawned some. *)
Lemma own_sync i h es w w' X (c : callE Code X) x :
  own i h es [] w -> do_call code c w = Ret (x, w') -> exists es', own i (h ++ [(i, (None, Called c x))]) es' [] w'.
Proof.
  intros Hr E. apply (do_call_effect code (view:=unseen) (changes:=fun _ _ _ => True)) in E as [_ Ht Hrg Hnd Hle].
  destruct (one_sync i (Called c x)) as [E1 E2]. rewrite sync_of_app, tasks_of_app, E1, E2, app_nil_r, spawned_app.
  eexists. eapply (recorded_grow code (view:=unseen) (changes:=fun _ _ _ => True)); [exact Hr|]. by split.
Qed.

Lemma sync_came_before i h es w w' X (c : callE Code X) x b :
  own i h es [] w -> do_call code c w = Ret (x, w') -> b ∈ spawned [Called c x] -> came_before i b (h ++ [(i, (None, Called c x))]).
Proof.
  intros Hr E Hb. apply (do_call_effect code (view:=unseen) (changes:=fun _ _ _ => True)) in E as [_ _ Hrg _ _].
  exists (h ++ [(i, (None, Called c x))]), []. split; [by rewrite app_nil_r|]. split.
  - rewrite spawned_thread, sync_of_app, spawned_app. rewrite !elem_of_app. left. right.
    by destruct (one_sync i (Called c x)) as [_ ->].
  - rewrite <- proj_tasks_of, tasks_of_app. destruct (one_sync i (Called c x)) as [-> _]. rewrite app_nil_r.
    apply proj_none, Forall_forall. intros y Hy Ey. apply (rc_tags _ _ _ _ _ _ _ Hr), list_elem_of_fmap in Hy as (e & Ee & He).
    pose proof (rc_next _ _ _ _ _ _ _ Hr e He). rewrite Forall_forall in Hrg.
    specialize (Hrg _ (list_elem_of_fmap_2 snd _ _ Hb)). lia.
Qed.
Lemma join_effect j w v w' : join j w = Ret (v, w') -> effect code (view:=view) (changes:=changes) w w' [] [].
Proof.
  unfold join. intros E. inv_bind. destruct a as [x w1]. inv_bind. apply recv_unwrap_inv in Ha as (c & _ & _ & ->).
  eapply (effect_trans _ _ _ _ [] [] [] []); [|by eapply joiner_drop_effect]. by apply effect_quiet.
Qed.

Lemma own_goes i h es task w evs b w' :
  own i h es [task] w -> body_step code (f (future task)) (id task) w = Ret (Goes evs b w') ->
  exists es', own i (h ++ by_tasks i (pair (tx (future task)) <$> evs)) es' [with_rest b task] w'.
Proof.
  intros Hl Hs. apply (body_step_effect (view:=unseen) (changes:=fun _ _ _ => True)) in Hs as (Heff & tr & Htr & Hsee).
  rewrite sync_of_app, tasks_of_app, sync_of_round, tasks_of_round, app_nil_r.
  destruct (rc_tasks _ _ _ _ _ _ _ Hl task (list_elem_of_here _ _)) as (e & He & Ech & Hpast).
  apply list_elem_of_split in He as (es1 & es2 & ->).
  destruct (past_trace _ _ _ _ _ Hpast Htr) as (tr' & E1 & s' & Ht' & Hs'). rewrite Hsee in E1.
  change (tx (future task)) with (tx_of task). rewrite <- Ech.
  eexists. eapply (recorded_advance code (view:=unseen) (changes:=fun _ _ _ => True)); [exact Hl|exact Heff|exact Ech|exact E1|].
  right. eexists. split; [done|]. split; [done|]. exists s'. split; [done|]. destruct Hs' as [->|[-> Hw]]; [by left|by right].
Qed.

Lemma own_stops i h es task w r b w' :
  own i h es [task] w -> body_step code (f (future task)) (id task) w = Ret (Stops r b w') ->
  exists es', own i h es' (match r with Ready _ => [] | Pending => [with_rest b task] end) w'.
Proof.
  intros Hl Hs. apply (body_step_effect (view:=unseen) (changes:=fun _ _ _ => True)) in Hs as (Heff & Hr).
  destruct (rc_tasks _ _ _ _ _ _ _ Hl task (list_elem_of_here _ _)) as (e & He & Ech & Hpast).
  apply list_elem_of_split in He as (es1 & es2 & ->).
  rewrite <- (app_nil_r (tasks_of i h)). destruct r as [v|].
  - destruct (past_ends _ _ _ _ _ _ Hpast (trace_nil _) Hr) as (tr' & E1 & Hh). eexists.
    eapply (recorded_advance code (view:=unseen) (changes:=fun _ _ _ => True) _ _ _ _ _ _ _ _ _ _ [] tr'); [exact Hl|exact Heff|exact Ech|exact E1|].
    left. split; [done|]. by exists v.
  - destruct (past_stays _ _ _ _ _ _ Hpast (trace_nil _) Hr) as (tr' & E1 & Hp). eexists.
    eapply (recorded_advance code (view:=unseen) (changes:=fun _ _ _ => True) _ _ _ _ _ _ _ _ _ _ [] tr'); [exact Hl|exact Heff|exact Ech|exact E1|].
    right. by eexists.
Qed.

(** A step of a poll: what the view sees, and what the thread has done *)
Lemma poll_step_changes task w evs ph w' :
  poll_step code task w = Ret (evs, ph, w') -> changes (view (w_libc w)) evs (view (w_libc w')).
Proof.
  intros [(b & Eb & ->)|(r & b & w1 & q & tf & w2 & Eb & Eq & -> & -> & _)]%poll_step_inv;
    apply (body_step_effect (view:=view) (changes:=changes)) in Eb as (Heff & _); pose proof (eff_view _ _ _ _ _ Heff) as Hv; [done|].
  destruct (poll_task_quiet (view:=view) _ _ _ _ _ _ _ _ _ _ Eq eq_refl) as (Eo & _ & _). rewrite <- Eo in Hv.
  unfold requeue. destruct q; [done|]. by destruct (slab_insert _ _).
Qed.

Lemma own_poll_step i h es task w evs ph w' :
  own i h es [task] w -> poll_step code task w = Ret (evs, ph, w') ->
  exists es', own i (h ++ by_tasks i (pair (tx (future task)) <$> evs)) es' (polled ph) w'.
Proof.
  intros Hl [(b & Eb & ->)|(r & b & w1 & q & tf & w2 & Eb & Eq & -> & -> & -> & _)]%poll_step_inv; [by eapply own_goes|].
  destruct (own_stops _ _ _ _ _ _ _ _ Hl Eb) as (es' & Hl'). exists es'. rewrite app_nil_r.
  by eapply (recorded_leave code (view:=unseen)).
Qed.

Lemma logged_step base h p evs p' : logged base h p -> step p evs p' -> logged base (h ++ evs) p'.
Proof.
  intros Hl Hs.
  destruct Hs as [ring Hr|i t X c x w Ht Hph E|i t j v w Ht Hph E|i t task w Ht Hph E|i t task evs ph w Ht Hph E|i l j s t Hs Ht].
  - rewrite app_nil_r. by apply logged_begin.
  - eapply logged_move; [exact Hl|exact Ht|by intros y ->%list_elem_of_singleton|rewrite ?Hph..].
    + apply (do_call_effect code (view:=view) (changes:=changes)) in E. exact (eff_view _ _ _ _ _ E).
    + intros es Hes. by eapply own_sync.
    + intros b Hb. destruct (lg_own _ _ _ Hl _ _ Ht) as [es Hes]. rewrite Hph in Hes.
      destruct (one_sync i (Called c x)) as [_ E2]. rewrite E2 in Hb.
      eapply sync_came_before; [by apply own_on|exact E|exact Hb].
  - eapply logged_move; [exact Hl|exact Ht|by intros y ?%elem_of_nil|rewrite ?Hph..|by intros b ?%elem_of_nil].
    + pose proof (join_effect _ _ _ _ E) as He. exact (eff_view _ _ _ _ _ He).
    + intros es Hes. rewrite app_nil_r. exists es.
      apply join_inv in E as (En & Ee). by eapply recorded_world; [exact Hes|done|done|by rewrite Ee].
  - apply take_inv in E as (w1 & q & Hw1 & Hpop & ->).
    eapply logged_move; [exact Hl|exact Ht|by intros y ?%elem_of_nil| | |by intros b ?%elem_of_nil].
    + cbn. assert (view (w_libc w1) = view (p_libc p)) as ->; [|apply watched_nil].
      destruct Hw1 as [->|[_ He]]; [done|]. by apply react_exec_inv in He as (r & ls & ->).
    + rewrite (polls_none _ Hph), app_nil_r. intros es Hes. exists es. by eapply (recorded_taken code (view:=unseen)).
  - eapply logged_move; [exact Hl|exact Ht| |rewrite ?Hph..|].
    + by intros y (z & -> & _)%list_elem_of_fmap.
    + rewrite events_round, tags_snd. exact (poll_step_changes _ _ _ _ _ E).
    + intros es Hes. by eapply own_poll_step.
    + intros b'. by rewrite sync_of_round; intros ?%elem_of_nil.
  - eapply logged_move; [exact Hl|exact Ht|by intros y ?%elem_of_nil|apply watched_nil| |by intros b ?%elem_of_nil].
    intros es Hes. rewrite app_nil_r. exists es. eapply recorded_world; [exact Hes|done|done|]. cbn. by rewrite wake_perm.
Qed.

Lemma logged_steps base p h p' : logged base [] p -> steps p h p' -> logged base h p'.
Proof. intros Hl. induction 1; eauto using logged_step. Qed.

(** Thread [i], on its own, the task it polls put back *)
Lemma logged_explains base h p i t :
  logged base h p -> threads p !! i = Some t ->
  exists es w, all_tasks (w_exec w) ≡ₚ tasks t /\
    explains code (view:=unseen) (changes:=fun _ _ _ => True) tt (spawned (sync_of i h)) (tasks_of i h) w es.
Proof.
  intros Hl Ht. destruct (lg_own _ _ _ Hl _ _ Ht) as [es Hes]. set (w := t_world t) in *. exists es.
  assert (all_tasks (MkExecutor (waiting (w_exec w)) (run_q (w_exec w) ++ polled (t_phase t))) ≡ₚ tasks t) as Hp.
  { unfold tasks, all_tasks. cbn. rewrite app_assoc. apply Permutation_app_comm. }
  exists (set_exec (MkExecutor (waiting (w_exec w)) (run_q (w_exec w) ++ polled (t_phase t))) w). split; [exact Hp|].
  eapply recorded_explains, recorded_world; [exact Hes|done|done|exact Hp].
Qed.

(** The tasks of a thread *)
Record tasks_explained (i : nat) h t (es : list (entry (Code:=Code) (Val:=Val))) : Prop := {
  te_nodup : NoDup (e_ch <$> es);
  te_born : born <$> es ≡ₚ spawned (proj i h).*2;
  te_tags : forall x, x ∈ tasks_of i h -> x.1 ∈ e_ch <$> es;
  te_task : forall e, e ∈ es ->
    proj (Some (e_ch e)) (proj i h) = see <$> e_trace e /\
    came_before i (born e) h /\
    (exists s, trace (code (e_code e)) (e_trace e) s) /\
    (tasks t = [] -> exists v, halts (code (e_code e)) (e_trace e) (Ret v));
}.

Lemma thread_tasks base h p i t : logged base h p -> threads p !! i = Some t -> exists es, tasks_explained i h t es.
Proof.
  intros Hl Ht. destruct (logged_explains _ _ _ _ _ Hl Ht) as (es & w & Hp & Hex). exists es. split; [apply Hex| |apply Hex|intros e He].
  { by rewrite spawned_thread, (ex_born _ _ _ _ _ _ Hex). }
  split; [by rewrite <- proj_tasks_of, (ex_proj _ _ _ _ _ _ Hex e He)|]. split; [|split].
  - destruct (ex_order _ _ _ _ _ _ Hex e He) as [Hi|(l1 & l2 & E & Hsp & Hno)]; [by eapply lg_sync|].
    apply tasks_of_split in E as (h1 & h2 & -> & <-). exists h1, h2. split; [done|]. split.
    + rewrite spawned_thread, elem_of_app. by right.
    + by rewrite <- proj_tasks_of.
  - by eapply (ex_trace _ _ _ _ _ _ Hex).
  - intros Hno. rewrite Hno in Hp. apply Permutation_nil_r in Hp.
    destruct (ex_state _ _ _ _ _ _ Hex e He) as [Hin|Hh]; [|done]. rewrite Hp in Hin. by apply elem_of_nil in Hin.
Qed.
End watched.

(** C4: several threads run their tasks as their text says, whatever the interleaving: the
    threads of a process, which have no tasks at first, start other threads, make calls,
    spawn tasks and do the steps of their executors, in any order and for any
    time.  The output of the process is what its threads have printed, in this order, and an
    object that they share has the value stored last, by any of them, and was never read to have
    another.  The tasks of a thread are those that it has spawned itself,
    one for each block; what a task has done is what a trace of its own block does,
    and begins after the task is spawned; when a thread has no task left all of
    its tasks have come to their ends. *)
Theorem threads_any_time `{!Output L} `{!Memory L} p0 h p :
  idle p0 -> steps p0 h p ->
  out (p_libc p) = out (p_libc p0) ++ said h.*2.*2 /\
  (forall i, replays (load i (p_libc p0)) (accesses i h.*2.*2) (load i (p_libc p))) /\
  (forall x, x ∈ h -> x.1 < length (threads p)) /\
  forall i t, threads p !! i = Some t ->
    exists es : list (entry (Code:=Code) (Val:=Val)),
      NoDup (e_ch <$> es) /\ born <$> es ≡ₚ spawned (proj i h).*2 /\
      (forall x, x ∈ tasks_of i h -> x.1 ∈ e_ch <$> es) /\
      forall e, e ∈ es ->
        proj (Some (e_ch e)) (proj i h) = see <$> e_trace e /\
        came_before i (born e) h /\
        (exists s, trace (code (e_code e)) (e_trace e) s) /\
        (tasks t = [] -> exists v, halts (code (e_code e)) (e_trace e) (Ret v)).
Proof.
  intros Hi Hs. pose proof (logged_steps (view:=out) _ _ _ _ (logged_start (view:=out) _ Hi) Hs) as Hl.
  split; [exact (lg_view _ _ _ Hl)|]. split; [|split; [apply Hl|]].
  { intros i. exact (lg_view _ _ _ (logged_steps (view:=load i) _ _ _ _ (logged_start (view:=load i) _ Hi) Hs)). }
  intros i t Ht. destruct (thread_tasks (view:=out) _ _ _ _ _ Hl Ht) as (es & [Hnd Hb Htags Htask]). by exists es.
Qed.

(** C40: the executors of the threads do not disturb each other: in every interleaving of
    the steps of the threads, tasks being woken from other threads included, the tables of the executor of
    every thread are well formed, the task that the thread is polling being in none of them; and when the poll
    of a task ends the loop of its thread, this thread has no task left. *)
Theorem threads_keep_tables p h p1 i t task evs w :
  tables_ok p -> steps p h p1 -> threads p1 !! i = Some t -> t_phase t = Polling task ->
  poll_step code task (on p1 t) = Ret (evs, Outside, w) ->
  tables_ok p1 /\ wf [] w /\ all_tasks (w_exec w) = [].
Proof.
  intros Hp Hs Ht Hph E. pose proof (steps_tables _ _ _ Hs Hp) as Hp1. split; [done|].
  assert (wf [task] (on p1 t)) as Hw.
  { apply wf_outside. eapply Forall_lookup_1 in Hp1; [|exact Ht]. by rewrite Hph in Hp1. }
  split; [by eapply (wf_poll_step _ _ _ Outside)|].
  destruct (poll_step_inv _ _ _ _ _ E) as [(b & _ & [=])|(r & b & w1 & q & tf & w2 & _ & _ & _ & _ & _ & Hend)]. by apply Hend.
Qed.

(** C19: a waker that is used on another thread does not wake its task: [TaskId::wake] looks in the
    executor of the thread that calls it.  A task waits on thread [i], at the key [k]; thread [j] wakes its
    identity.  Thread [i] is as before, so the task still waits; and if a task of
    thread [j] waits at the same key, it is this one that is queued. *)
Theorem wake_from_elsewhere p i s j t k task :
  i <> j -> threads p !! i = Some s -> threads p !! j = Some t -> tables_ok p ->
  slab_view (waiting (w_exec (t_world s))) !! k = Some task ->
  exists p' t', act code fuel 0 (WakeFrom i (id task) j) p = Ret ([], p') /\
    threads p' !! i = Some s /\ threads p' !! j = Some t' /\ t_phase t' = t_phase t /\
    match slab_view (waiting (w_exec (t_world t))) !! k with
    | Some other =>
        slab_view (waiting (w_exec (t_world t'))) = delete k (slab_view (waiting (w_exec (t_world t)))) /\
        run_q (w_exec (t_world t')) = run_q (w_exec (t_world t)) ++ [other]
    | None => w_exec (t_world t') = w_exec (t_world t)
    end.
Proof.
  intros Hne Hs Ht Hp Hk. cbn. unfold with_thread. rewrite Hs, Ht. eapply Forall_lookup_1 in Hp as Hw; [|exact Hs]. eexists _, _. split; [done|]. cbn.
  rewrite list_lookup_insert_ne, list_lookup_insert_eq by (done || by eapply lookup_lt_Some).
  split; [done|]. split; [done|]. split; [done|]. cbn. pose proof (wf_ids _ _ Hw _ _ Hk) as Hid.
  destruct (wake_cases (w_ids (t_world s)) (id task) (w_exec (t_world t))) as [[-> Hn]|(k' & o & wt & Hk' & Ho & Hwt & ->)].
  - by rewrite (Hn _ Hid).
  - rewrite Hid in Hk'. injection Hk' as <-. by rewrite Ho.
Qed.
End props.

(** ** Objects behind a mutex that several threads share *)
Section sections.
Context {S : Type -> Type} `{SlabSpec S} {B : Type} `{RingBuffer B}.
Context {U : Type} `{IoUring U sqe} {L : Type} `{Libc L} `{!Process L} `{!Memory L} `{Host} `{NetOrder}.
Context {Code Val : Type} (code : Code -> body Code Val Val) (fuel : nat).
Context (P : Code -> Prop) `{!forall c, Decision (P c)} (m : Mutex.Mutex nat).
Abbreviation Proc := (Proc (world S B U L (body Code Val Val) Val) (body Code Val Val) L).
Abbreviation plog := (list (nat * (option nat * seen Code))).
Implicit Types (p : Proc) (h : plog).

(** The synchronous code of the threads leaves the mutex and its object alone, and spawns blocks [P]. *)
Definition sync_aside h : Prop :=
  forall i s, s ∈ sync_of i h -> mevents_of m s = [] /\ Forall P (spawned_of s).*1.

(** The same, computed *)
Lemma sync_aside_all h :
  forallb (fun x => match x.2.1 with
    | None => bool_decide (mevents_of m x.2.2 = []) && bool_decide (Forall P (spawned_of x.2.2).*1)
    | Some _ => true
    end) h -> sync_aside h.
Proof.
  intros Ha i s Hs. unfold sync_of, proj in Hs.
  apply list_elem_of_fmap in Hs as ([c s'] & -> & [Hc Hs]%list_elem_of_filter). cbn in Hc. subst c.
  apply list_elem_of_fmap in Hs as ([j [c s2]] & [= <- <-] & [_ Hs]%list_elem_of_filter).
  apply Is_true_true in Ha. pose proof (proj1 (forallb_forall _ _) Ha _ (proj1 (list_elem_of_In _ _) Hs)) as Hx. cbn in Hx.
  apply andb_true_iff in Hx as [Hx1 Hx2]. split; by apply (bool_decide_eq_true _).
Qed.

Lemma sync_aside_spawns h i : sync_aside h -> Forall P (spawned (sync_of i h)).*1.
Proof.
  intros Hs. apply Forall_forall. intros c (b & -> & Hb)%list_elem_of_fmap.
  apply list_elem_of_bind in Hb as (s & Hb & Hin). destruct (Hs _ _ Hin) as [_ HP]. rewrite Forall_forall in HP.
  apply HP. by apply list_elem_of_fmap_2.
Qed.

Lemma sync_aside_quiet h i : sync_aside h -> proj (i, None) (mutex_history m (named h)) = [].
Proof.
  intros Hs. unfold mutex_history. rewrite proj_tagged, proj_named. fold (sync_of i h). specialize (Hs i).
  induction (sync_of i h) as [|s l IH]; [done|]. rewrite bind_cons.
  destruct (Hs s (list_elem_of_here _ _)) as [-> _]. apply IH. intros x Hx. apply Hs. by right.
Qed.

(** What a task of a thread does to the mutex *)
Lemma threads_guarded (Hl : locking code P m) base h p i ch :
  logged code (view:=load (Mutex.obj m)) (changes:=fun v l v' => replays v (accesses (Mutex.obj m) l) v') base h p ->
  sync_aside h ->
  exists b, guarded_by false (proj (i, Some ch) (mutex_history m (named h))) = Some b /\ (idle p -> b = false).
Proof.
  intros Hlog Hs. assert (proj (i, Some ch) (mutex_history m (named h)) = proj ch (mutex_history m (tasks_of i h))) as ->.
  { unfold mutex_history. by rewrite !proj_tagged, proj_named, proj_tasks_of. }
  destruct (threads p !! i) as [t|] eqn:Ht.
  - destruct (logged_explains _ _ _ _ _ _ Hlog Ht) as (es & w & Hp & Hex).
    destruct (explains_guarded code P m Hl _ _ _ _ _ ch Hex (sync_aside_spawns _ i Hs)) as (b & Hb & Hf).
    exists b. split; [done|]. intros Hi. apply Hf. intros e He.
    destruct (ex_state _ _ _ _ _ _ Hex e He) as [Hin|Hh]; [|done]. eapply Forall_lookup_1 in Hi; [|done].
    rewrite Hi in Hp. apply Permutation_nil_r in Hp. rewrite Hp in Hin. by apply elem_of_nil in Hin.
  - exists false. split; [|done]. assert (tasks_of i h = []) as ->; [|done]. unfold tasks_of. rewrite proj_none; [done|].
    apply Forall_forall. intros x Hx E. apply (lg_in _ _ _ _ Hlog) in Hx. rewrite E in Hx.
    apply lookup_ge_None in Ht. lia.
Qed.

End sections.
