(* ===== verification/WebServer.v ===== *)
(** The web server: src/examples/web_server.rs.

    [Args] are the arguments of the program, of which [webroot] is the second.
    Logging has no effect and is left out. *)
From ITree Require Import ITree.
From S2P Require Import Prelude Bytes Crates CrateModels Results Reactor Io Sqe Libc SockAddr Event ReadWrite Fs Timer Tcp Udp Mutex Task TaskProps TaskLoop Joins Async AsyncProps Text Programs.

Open Scope Z_scope.

(** [enum Response] with its two conversions *)
Module Response.
Inductive Response := NotImplemented | ServerError | Ok | NotFound.

Definition to_u32 (value : Response) : Z :=
  match value with
  | NotImplemented => 501
  | ServerError => 500
  | Ok => 200
  | NotFound => 404
  end.

Definition to_str (value : Response) : string :=
  match value with
  | NotImplemented => "Not Implemented"
  | ServerError => "Internal Server Error"
  | Ok => "OK"
  | NotFound => "Not Found"
  end.
End Response.

(** [e.kind() == ErrorKind::NotFound]: ENOENT is 2. *)
Definition is_not_found (e : io_error) : bool := bool_decide (e = KindError NotFound \/ e = OsError 2).

Definition CRLF : string := String.String (Ascii.ascii_of_nat 13) (String.String (Ascii.ascii_of_nat 10) "").

(** [struct Args] *)
Record Args := MkArgs { port : Z; root : list Z }.

(** The tasks: the one of [main], and those it spawns. *)
Inductive code := Server (listener : TcpListener.TcpListener) | Connection (conn : TcpStream.TcpStream).

Section server.
Context {E : Type} `{Anyhow E} (webroot : list Z).
Abbreviation block := (body code unit).

(** The bytes of a response header *)
Definition response_hdr (code : Response.Response) (content_length : Z) : list Z :=
  lit (String.concat "" ["HTTP/1.1 "; show (Response.to_u32 code); " "; Response.to_str code; CRLF;
                         "Server: tws"; CRLF; "Content-Length: "; show content_length; CRLF; CRLF]).

Definition send_response_hdr (conn : TcpStream.TcpStream) (code : Response.Response) (content_length : Z) :
    block (result unit E) :=
  let response := response_hdr code content_length in
  r ← await (AWrite response (TcpStream.write conn (Z.of_nat (length response))));
  match r with
  | Ok _ => mret (Ok tt)
  | Err e => mret (Err (from_io e))
  end.

(** A turn of the [loop] of [send_file]; on the right: the function returns. *)
Definition send_turn (conn : TcpStream.TcpStream) (f : File.File) (_ : unit) : block (unit + result unit E) :=
  let buf := replicate 4096 0 in
  r ← await (ARead (File.read f (Z.of_nat (length buf))));
  match r with
  | Err e => mret (inr (Err (from_io e)))
  | Ok bs =>
      let buf := fill buf bs in
      if decide (length bs = 0%nat) then mret (inr (Ok tt))
      else
        r ← await (AWrite buf (TcpStream.write conn (Z.of_nat (length buf))));
        match r with
        | Err e => mret (inr (Err (from_io e)))
        | Ok _ => mret (inl tt)
        end
  end.

(** The arm [Ok(mut f)] *)
Definition send_opened (conn : TcpStream.TcpStream) (f : File.File) : block (result unit E) :=
  r ← call (CSeek f (File.End 0));
  match r with
  | Err e => mret (Err (from_io e))
  | Ok len =>
      let len := as_u 64 len in
      r ← call (CSeek f (File.Start 0));
      match r with
      | Err e => mret (Err (from_io e))
      | Ok _ =>
          r ← send_response_hdr conn Response.Ok len;
          match r with
          | Err e => mret (Err e)
          | Ok _ => ITree.iter (send_turn conn f) tt
          end
      end
  end.

Definition send_file (conn : TcpStream.TcpStream) (path : list Z) : block (result unit E) :=
  opening ← call (COpen path);
  f ← await (AOpen opening);
  r ← match f with
      | Ok f =>
          r ← send_opened conn f;
          _ ← close (File.inner f);
          mret r
      | Err e =>
          if is_not_found e then send_response_hdr conn Response.NotFound 0
          else send_response_hdr conn Response.ServerError 0
      end;
  _ ← close (TcpStream.inner conn);
  mret r.

(** A turn of the [while] of [handle_connection]: the text of the request so far. *)
Definition read_turn (conn : TcpStream.TcpStream) (request : str) : block (str + result str E) :=
  if contains (lit (String.append CRLF CRLF)) request then mret (inr (Ok request))
  else
    r ← await (ARead (TcpStream.read conn 1024));
    match r with
    | Err e => mret (inr (Err (from_io e)))
    | Ok bs =>
        match from_utf8 bs with
        | Some s => mret (inl (request ++ s))
        | None => crash UnwrapErr
        end
    end.

(** The rest of [handle_connection], up to the answer: what is answered. *)
Inductive answer := Refuse (code : Response.Response) | Serve (file : list Z).

Definition index {A} (l : list A) (i : nat) : outcome A :=
  match l !! i with Some x => mret x | None => Panic IndexOutOfBounds end.

Definition route (request : str) : outcome answer :=
  req_hdr ← unwrap (head (split 10 request));
  let parts := split 32 (trim req_hdr) in
  method ← index parts 0;
  path ← index parts 1;
  if decide (to_lowercase method = lit "get") then
    let path := to_utf8 path in
    if is_root path then mret (Serve (path_join webroot (lit "index.html")))
    else match strip_root path with
         | Some path => mret (Serve (path_join webroot path))
         | None => mret (Refuse Response.NotFound)
         end
  else mret (Refuse Response.NotImplemented).

Definition handle_connection (conn : TcpStream.TcpStream) : block (result unit E) :=
  r ← ITree.iter (read_turn conn) [];
  match r with
  | Err e => _ ← close (TcpStream.inner conn); mret (Err e)
  | Ok request =>
      match route request with
      | Ret (Serve file) => send_file conn file
      | Ret (Refuse code) =>
          r ← send_response_hdr conn code 0;
          _ ← close (TcpStream.inner conn);
          mret r
      | Panic p => crash p
      | _ => ITree.spin          (* [route] returns or panics: see route_panics *)
      end
  end.

(** A turn of the [while let] of [main]; on the right: [None]. *)
Definition accept_turn (listener : TcpListener.TcpListener) :
    block (TcpListener.TcpListener + TcpListener.TcpListener) :=
  '(conn, listener) ← await (ANext listener);
  match conn with
  | Some (Ok conn) =>
      joiner ← call (CSpawn (Connection conn));
      _ ← call (CDetach joiner);
      mret (inl listener)
  | Some (Err _) => mret (inl listener)
  | None => mret (inr listener)
  end.

(** The block [main] runs *)
Definition serve (listener : TcpListener.TcpListener) : block unit :=
  listener ← ITree.iter accept_turn listener;
  _ ← call (CEprint "Bye!");
  call (CListenerDrop listener).

(** The block of [main], and the one spawned for a connection *)
Definition run_code (c : code) : block unit :=
  match c with
  | Server listener => serve listener
  | Connection conn => _ ← handle_connection conn; mret tt
  end.
End server.

Section main.
Context {E : Type} `{Anyhow E}.
Context {S : Type -> Type} `{Slab S} {B : Type} `{RingBuffer B}.
Context {U : Type} `{IoUring U sqe} {L : Type} `{Libc L} `{Host} `{NetOrder} `{!Process L}.
Abbreviation world := (world S B U L (body code unit unit) unit).

Definition main (args : Args) (rounds fuel : nat) (w : world) : outcome (result unit E * world) :=
  '(r, l) ← TcpListener.bind (Ok [V4 UNSPECIFIED (port args)]) (w_libc w);
  let w := set_libc l w in
  match r with
  | Err e => mret (Err (context "Could not setup socket listener" e), w)
  | Ok listener =>
      '(_, w) ← block_on (poll_block (run_code (root args)) fuel) rounds fuel (run_code (root args) (Server listener)) w;
      mret (Ok tt, w)
  end.
End main.
