(* ===== verification/RouteProps.v ===== *)
(** What the web server answers: the request line, the file it names, and
    where this file can be. *)
From ITree Require Import ITree.
From S2P Require Import Prelude Bytes SockAddr Text Programs WebServer.

Open Scope Z_scope.

(** ** Splitting, trimming *)
Ltac app_eq := repeat (cbn [app]; rewrite <- app_assoc); reflexivity.

Lemma split_not_nil c s : split c s <> [].
Proof. induction s as [|x s IH]; cbn; [done|]. case_decide; [done|]. by destruct (split c s). Qed.

Lemma split_absent c s : c ∉ s -> split c s = [s].
Proof.
  induction s as [|x s IH]; intros Hc; cbn; [done|].
  apply not_elem_of_cons in Hc as [Hx Hs]. rewrite decide_False by done. by rewrite IH.
Qed.

Lemma split_at c p s : c ∉ p -> split c (p ++ c :: s) = p :: split c s.
Proof.
  induction p as [|x p IH]; intros Hc; cbn; [by rewrite decide_True|].
  apply not_elem_of_cons in Hc as [Hx Hp]. rewrite decide_False by done. by rewrite IH.
Qed.

Lemma split_pieces c s p : p ∈ split c s -> c ∉ p.
Proof.
  revert p. induction s as [|x s IH]; intros p; cbn.
  { intros ->%list_elem_of_singleton. apply not_elem_of_nil. }
  case_decide as Hx.
  - intros [->|Hp]%elem_of_cons; [apply not_elem_of_nil|by apply IH].
  - destruct (split c s) as [|q qs]; [intros ->%list_elem_of_singleton; set_solver|].
    intros [->|Hp]%elem_of_cons.
    + apply not_elem_of_cons. split; [done|]. apply IH. by left.
    + apply IH. by right.
Qed.

Lemma split_one c s p : split c s = [p] -> p = s /\ c ∉ s.
Proof.
  revert p. induction s as [|x s IH]; intros p; cbn; [intros [= <-]; split; [done|apply not_elem_of_nil]|].
  case_decide as Hx; [intros [= _ E]; by apply split_not_nil in E|].
  destruct (split c s) as [|q [|]] eqn:E; [by apply split_not_nil in E| |done].
  intros [= <-]. destruct (IH q eq_refl) as [-> Hc]. split; [done|]. set_solver.
Qed.

Lemma trim_start_stops a c b : is_whitespace c = false -> trim_start (c :: a ++ b) = c :: a ++ b.
Proof. intros Hc. cbn. by rewrite Hc. Qed.

Definition trim_end (s : str) : str := rev (trim_start (rev s)).

Lemma trim_start_app a c b : is_whitespace c = false -> exists a', trim_start (a ++ c :: b) = a' ++ c :: b.
Proof.
  intros Hc. induction a as [|x a [a' IH]]; cbn.
  - rewrite Hc. by exists [].
  - destruct (is_whitespace x); [by exists a'|]. by exists (x :: a).
Qed.

(** Trimming the end of a text keeps everything up to its last visible character. *)
Lemma trim_end_app a c b : is_whitespace c = false -> exists b', trim_end (a ++ c :: b) = a ++ c :: b' /\
  (b' = [] \/ head b' = head b).
Proof.
  intros Hc. unfold trim_end. rewrite rev_app_distr. cbn [rev]. rewrite <- app_assoc. cbn [app].
  assert (exists b', trim_start (rev b ++ c :: rev a) = rev b' ++ c :: rev a /\ (b' = [] \/ head b' = head b))
    as (b' & -> & Hb).
  { induction b as [|x b IH] using rev_ind; cbn.
    - rewrite Hc. exists []. by split; [|left].
    - rewrite rev_app_distr. cbn. destruct (is_whitespace x).
      + destruct IH as (b' & -> & [->|Hb]); [by exists []; split; [|left]|].
        exists b'. split; [done|]. destruct b; [|by right]. destruct b'; [by left|done].
      + exists (b ++ [x]). split; [by rewrite rev_app_distr|by right]. }
  exists b'. split; [|done]. rewrite rev_app_distr, rev_involutive. cbn. by rewrite <- app_assoc, rev_involutive.
Qed.

(** ** Paths *)
Lemma drop_trivial_sub q ps : q ∈ drop_trivial ps -> q ∈ ps.
Proof.
  induction ps as [|p ps IH]; cbn; [done|]. destruct (trivial_piece p); [|done].
  intros Hq. apply list_elem_of_further. by apply IH.
Qed.

Lemma drop_trivial_head ps p ps' : drop_trivial ps = p :: ps' -> trivial_piece p = false.
Proof.
  induction ps as [|q ps IH]; cbn; [done|]. destruct (trivial_piece q) eqn:E; [done|]. by intros [= <- _].
Qed.

Lemma drop_trivial_last ps p : drop_trivial (ps ++ [p]) = [] \/ exists qs, drop_trivial (ps ++ [p]) = qs ++ [p].
Proof.
  induction ps as [|q ps IH]; cbn.
  - destruct (trivial_piece p); [by left|right; by exists []].
  - destruct (trivial_piece q); [done|]. right. by exists (q :: ps).
Qed.

Lemma drop_trivial_nil ps : drop_trivial ps = [] <-> forallb trivial_piece ps.
Proof.
  induction ps as [|p ps IH]; cbn; [done|]. destruct (trivial_piece p); cbn; [done|]. by split.
Qed.

Lemma split_join ps : ps <> [] -> Forall (fun p => SLASH ∉ p) ps -> split SLASH (join_pieces ps) = ps.
Proof.
  intros Hne Hps. induction Hps as [|p ps Hp Hps IH]; [done|]. cbn.
  destruct ps as [|q ps]; [by apply split_absent|]. by rewrite split_at, IH.
Qed.

Lemma join_not_absolute p ps : p <> [] -> SLASH ∉ p -> is_absolute (join_pieces (p :: ps)) = false.
Proof.
  intros Hne Hp. unfold is_absolute. apply bool_decide_eq_false. destruct p as [|x p]; [done|].
  assert (head (join_pieces ((x :: p) :: ps)) = Some x) as -> by by destruct ps.
  intros [= ->]. apply Hp. by left.
Qed.

(** Both ends dropped. *)
Definition inner_pieces (ps : list (list Z)) : list (list Z) := rev (drop_trivial (rev (drop_trivial ps))).

Lemma inner_pieces_sub q ps : q ∈ inner_pieces ps -> q ∈ ps.
Proof.
  unfold inner_pieces. rewrite !list_elem_of_In, <- in_rev, <- !list_elem_of_In. intros Hq%drop_trivial_sub.
  rewrite list_elem_of_In, <- in_rev, <- list_elem_of_In in Hq. by apply drop_trivial_sub.
Qed.

Lemma inner_pieces_cases ps :
  forallb trivial_piece ps \/ exists p qs, inner_pieces ps = p :: qs /\ trivial_piece p = false.
Proof.
  destruct (drop_trivial ps) as [|p qs] eqn:E; [left; by apply drop_trivial_nil|]. right.
  pose proof (drop_trivial_head _ _ _ E) as Hp. unfold inner_pieces. rewrite E. cbn [rev].
  destruct (drop_trivial_last (rev qs) p) as [En|[rs Er]].
  - apply drop_trivial_nil in En. rewrite forallb_app in En. cbn in En. rewrite Hp in En.
    by rewrite andb_false_r in En.
  - exists p, (rev rs). by rewrite Er, rev_app_distr.
Qed.

(** What is left of an absolute path that is not the root is relative, and has no other pieces. *)
Lemma strip_root_some path rel :
  strip_root path = Some rel -> is_root path = false ->
  is_absolute rel = false /\ forall q, q ∈ split SLASH rel -> q ∈ split SLASH path.
Proof.
  unfold strip_root, is_root. destruct (is_absolute path); [|done]. cbn. intros [= <-] Hr.
  fold (inner_pieces (split SLASH path)).
  destruct (inner_pieces_cases (split SLASH path)) as [Ht|(p & qs & E & Hp)]; [rewrite Hr in Ht; done|].
  assert (Forall (fun p => SLASH ∉ p) (inner_pieces (split SLASH path))) as Hns.
  { apply Forall_forall. intros q Hq. by apply inner_pieces_sub, split_pieces in Hq. }
  split.
  - rewrite E in *. apply Forall_cons in Hns as [Hns _]. apply join_not_absolute; [|done]. by intros ->.
  - intros q. rewrite split_join by (done || by rewrite E). apply inner_pieces_sub.
Qed.

Lemma starts_with_app p s : starts_with p (p ++ s).
Proof. induction p as [|x p IH]; cbn; [done|]. by rewrite bool_decide_true. Qed.

Lemma path_join_starts base rel : is_absolute rel = false -> starts_with base (path_join base rel).
Proof.
  intros Hr. unfold path_join. rewrite Hr. destruct (last base) as [c|] eqn:El.
  - case_decide; apply starts_with_app.
  - apply last_None in El as ->. done.
Qed.

(** ** The route of a request *)
Definition first_line (request : str) : str := default [] (head (split 10 request)).
Definition DOTDOT : list Z := [DOT; DOT].

Section route.
Context (webroot : list Z).

Lemma route_eq request :
  route webroot request =
    method ← index (split 32 (trim (first_line request))) 0;
    path ← index (split 32 (trim (first_line request))) 1;
    if decide (to_lowercase method = lit "get") then
      let path := to_utf8 path in
      if is_root path then mret (Serve (path_join webroot (lit "index.html")))
      else match strip_root path with
           | Some path => mret (Serve (path_join webroot path))
           | None => mret (Refuse Response.NotFound)
           end
    else mret (Refuse Response.NotImplemented).
Proof.
  unfold route, first_line. destruct (split 10 request) as [|l ls] eqn:E; [by apply split_not_nil in E|]. done.
Qed.

(** The panic of the request line: computing the answer never hangs, and it
    panics, out of the bounds of the parts of the line, exactly when the first line
    of the request holds no space once it is trimmed. *)
Lemma route_panics request :
  match route webroot request with
  | Ret _ => 32 ∈ trim (first_line request)
  | Panic p => p = IndexOutOfBounds /\ 32 ∉ trim (first_line request)
  | _ => False
  end.
Proof.
  rewrite route_eq. set (line := trim (first_line request)).
  destruct (decide (32 ∈ line)) as [Hin|Hin].
  - destruct (split 32 line) as [|m [|p ps]] eqn:E; [by apply split_not_nil in E|by apply split_one in E as [_ E]|].
    cbn. case_decide; [|done]. destruct (is_root _); [done|]. by destruct (strip_root _).
  - by rewrite (split_absent _ _ Hin).
Qed.

(** The file or the answer for a path. *)
Definition resource (path : list Z) : answer :=
  if is_root path then Serve (path_join webroot (lit "index.html"))
  else match strip_root path with
       | Some rel => Serve (path_join webroot rel)
       | None => Refuse Response.NotFound
       end.

Definition visible (s : str) : Prop := s <> [] /\ Forall (fun c => is_whitespace c = false) s.

Lemma visible_absent c s : visible s -> is_whitespace c -> c ∉ s.
Proof. intros [_ Hs] Hc Hin. rewrite Forall_forall in Hs. rewrite (Hs c Hin) in Hc. done. Qed.

(** A well-formed request line: method, path and the rest separated by spaces, whatever
    follows the line: the answer is the file of the path when the method
    is GET, in any case of its letters, and 501 otherwise. *)
Theorem route_request m path rest tail :
  visible m -> visible path -> 10 ∉ rest ->
  route webroot (m ++ 32 :: path ++ 32 :: rest ++ 10 :: tail) =
    Ret (if decide (to_lowercase m = lit "get") then resource (to_utf8 path)
         else Refuse Response.NotImplemented).
Proof.
  intros Hm Hp Hrest.
  assert (first_line (m ++ 32 :: path ++ 32 :: rest ++ 10 :: tail) = m ++ 32 :: path ++ 32 :: rest) as El.
  { unfold first_line. pose proof (visible_absent 10 m Hm I). pose proof (visible_absent 10 path Hp I).
    replace (m ++ 32 :: path ++ 32 :: rest ++ 10 :: tail) with ((m ++ 32 :: path ++ 32 :: rest) ++ 10 :: tail)
      by app_eq.
    rewrite split_at; [done|]. rewrite !not_elem_of_app, !not_elem_of_cons, !not_elem_of_app, !not_elem_of_cons. done. }
  assert (exists ps, split 32 (trim (m ++ 32 :: path ++ 32 :: rest)) = m :: path :: ps) as [ps Es].
  { pose proof (visible_absent 32 m Hm I) as Hm32. pose proof (visible_absent 32 path Hp I) as Hp32.
    destruct Hm as [Hm0 Hm]. destruct m as [|c m]; [done|]. apply Forall_cons in Hm as [Hc _].
    unfold trim. rewrite <- app_comm_cons, trim_start_stops by done.
    destruct Hp as [Hp0 Hp]. destruct (exists_last Hp0) as (q & z & ->).
    apply Forall_app in Hp as [_ Hz]. apply Forall_cons in Hz as [Hz _].
    replace (c :: m ++ 32 :: (q ++ [z]) ++ 32 :: rest) with ((c :: m ++ 32 :: q) ++ z :: 32 :: rest)
      by app_eq.
    destruct (trim_end_app (c :: m ++ 32 :: q) z (32 :: rest) Hz) as (b & Eb & Hb). unfold trim_end in Eb. rewrite Eb.
    replace ((c :: m ++ 32 :: q) ++ z :: b) with ((c :: m) ++ 32 :: (q ++ [z]) ++ b)
      by app_eq.
    rewrite split_at by done. destruct Hb as [->|Hb].
    - rewrite app_nil_r, split_absent by done. by exists [].
    - destruct b as [|y b]; [done|]. injection Hb as ->. rewrite split_at by done. by eexists. }
  rewrite route_eq, El, Es. cbn. unfold resource. case_decide; [|done].
  destruct (is_root _); [done|]. by destruct (strip_root _).
Qed.

(** C39: where the served files are: the file is named below the root of the server, by
    appending a relative path to it, and the relative path goes up with a
    piece .. only when the path of the request has one. *)
Theorem route_below request file :
  route webroot request = Ret (Serve file) ->
  exists path rel, index (split 32 (trim (first_line request))) 1 = Ret path /\
    file = path_join webroot rel /\ starts_with webroot file /\ is_absolute rel = false /\
    (DOTDOT ∈ split SLASH rel -> DOTDOT ∈ split SLASH (to_utf8 path)).
Proof.
  rewrite route_eq. intros Hr. inv_bind. rename a0 into path. exists path.
  case_decide; [|done]. cbn in Hr. destruct (is_root (to_utf8 path)) eqn:Er.
  - injection Hr as <-. exists (lit "index.html"). split; [eassumption|]. split; [reflexivity|].
    split; [apply path_join_starts; reflexivity|]. split; [reflexivity|]. intros Hd. exfalso. revert Hd.
    apply (bool_decide_unpack (DOTDOT ∉ split SLASH (lit "index.html"))). vm_compute. exact I.
  - destruct (strip_root (to_utf8 path)) as [rel|] eqn:Es; [|done]. injection Hr as <-.
    destruct (strip_root_some _ _ Es Er) as [Habs Hsub]. exists rel. split; [eassumption|]. split; [reflexivity|].
    split; [by apply path_join_starts|]. split; [exact Habs|by apply Hsub].
Qed.
End route.
