(* ===== verification/ServerProps.v ===== *)
(** What a connection of the web server sees, and what becomes of the
    connections accepted. *)
From ITree Require Import ITree ITreeFacts.
From S2P Require Import Prelude Bytes Crates CrateModels Results Reactor Io Sqe Libc SockAddr Event ReadWrite Fs Timer Tcp Udp Mutex Task TaskProps TaskLoop Joins Async AsyncProps Text Programs ProgramProps WebServer RouteProps.

Open Scope Z_scope.

Section server.
Context {E : Type} `{Anyhow E} (webroot : list Z).
Abbreviation block := (body code unit).
Abbreviation events := (list (obs (Code:=code) (Val:=unit))).
Implicit Types (tr : events) (conn : TcpStream.TcpStream) (f : File.File).
Abbreviation sock := TcpStream.inner.

(** What is observed of the parts of a trace *)
Ltac observe_trace :=
  unfold reads, writes, closes, opens, opened, seeks, accepts, spawns in *; rewrite ?pick_app.

(** ** Sending a file *)
(** A buffer of the loop: the bytes read, then zeros up to 4096. *)
Definition padded (bs : list Z) : list Z := fill (replicate 4096 0) bs.

Lemma length_padded bs : length (padded bs) = 4096%nat.
Proof. unfold padded. by rewrite length_fill, length_replicate. Qed.

(** The same for a trace that starts with a message. *)
Ltac observe_hdr := cbn -[response_hdr padded]; rewrite ?decide_True by done; try done.

(** [tr] reads [chunks] and then [last] from the file, and sends the chunks. *)
Definition sent conn f (chunks : list (list Z)) (last : list (io_result (list Z))) tr : Prop :=
  Forall (fun bs => bs <> []) chunks /\
  reads (File.inner f) tr = (Ok <$> chunks) ++ last /\
  writes (sock conn) tr = padded <$> chunks /\ closes tr = [] /\ opens tr = [] /\
  opened tr = [] /\ seeks tr = [].

Definition file_read f : ioE code unit (io_result (list Z)) := Await (ARead (File.read f 4096)).
Definition conn_write conn bs : ioE code unit (io_result Z) :=
  Await (AWrite bs (TcpStream.write conn (Z.of_nat (length bs)))).

Lemma send_turn_halts conn f tr (o : outcome (unit + result unit E)) :
  halts (send_turn conn f tt : block _) tr o ->
  (o = Ret (inr (Ok tt)) /\ tr = [Obs (file_read f) (Ok [])]) \/
  (exists e, o = Ret (inr (Err (from_io e))) /\ tr = [Obs (file_read f) (Err e)]) \/
  exists bs r, bs <> [] /\ tr = [Obs (file_read f) (Ok bs); Obs (conn_write conn (padded bs)) r] /\
    match r with Ok _ => o = Ret (inl tt) | Err e => o = Ret (inr (Err (from_io e))) end.
Proof.
  intros Ht. unfold send_turn in Ht. rewrite length_replicate in Ht. fold padded in Ht. inv_halts.
  inv_result bs e; [|inv_halts; right; left; by exists e].
  change (fill (replicate 4096 0) bs) with (padded bs) in Ht.
  case_decide as Hbs; [apply nil_length_inv in Hbs as ->; inv_halts; by left|].
  right; right. exists bs. inv_halts. inv_result m e; inv_halts; eexists; (split; [by intros ->|]); by split.
Qed.

Lemma sent_turn conn f bs r chunks last tr :
  bs <> [] -> sent conn f chunks last tr ->
  sent conn f (bs :: chunks) last ([Obs (file_read f) (Ok bs); Obs (conn_write conn (padded bs)) r] ++ tr).
Proof.
  intros Hbs (Hc & Hr & Hw & Hcl & Ho & Hod & Hs). split; [by constructor|]. observe_trace.
  rewrite Hr, Hw, Hcl, Ho, Hod, Hs. cbn -[padded]. by rewrite !decide_True.
Qed.

Lemma sent_last conn f r : sent conn f [] [r] [Obs (file_read f) r].
Proof. split; [done|]. unfold reads, writes. cbn. by rewrite decide_True. Qed.

Lemma sent_nothing conn f : sent conn f [] [] [].
Proof. done. Qed.

Lemma send_rounds conn f tr (o : outcome (result unit E)) :
  halts (ITree.iter (send_turn conn f) tt : block _) tr o ->
  exists chunks,
    (o = Ret (Ok tt) /\ sent conn f chunks [Ok []] tr) \/
    (exists e, o = Ret (Err (from_io e)) /\ (sent conn f chunks [Err e] tr \/ sent conn f chunks [] tr)).
Proof.
  intros Hr%halts_iter. remember tt as st eqn:Est. clear Est.
  induction Hr as [i tr v Hr|i tr p Hr|i j tr1 tr2 o Hr _ IH]; destruct i;
    apply send_turn_halts in Hr as [[? ->]|[(e & ? & ->)|(bs & r & Hbs & -> & Ho)]]; simplify_eq.
  - exists []. left. split; [done|apply sent_last].
  - exists []. right. exists e. split; [done|]. left. apply sent_last.
  - destruct r as [m|e]; simplify_eq. exists [bs]. right. exists e. split; [done|]. right.
    apply (sent_turn conn f bs (Err e) [] [] []); [done|apply sent_nothing].
  - by destruct r.
  - destruct r as [m|e]; simplify_eq. destruct IH as (chunks & Hc). exists (bs :: chunks).
    destruct Hc as [[-> He]|(e & -> & He)].
    + left. split; [done|]. by apply sent_turn.
    + right. exists e. split; [done|]. destruct He; [left|right]; by apply sent_turn.
Qed.

(** ** Headers *)
Lemma send_response_hdr_halts conn c n tr (o : outcome (result unit E)) :
  halts (send_response_hdr conn c n : block _) tr o ->
  exists r, tr = [Obs (conn_write conn (response_hdr c n)) r] /\
    o = Ret (match r with Ok _ => Ok tt | Err e => Err (from_io e) end).
Proof. unfold send_response_hdr. intros Ht. inv_halts. inv_result m e; inv_halts; by eexists. Qed.

(** What the arm [Ok(mut f)] does. *)
Definition file_sent conn f tr (r : result unit E) : Prop :=
  match r with
  | Ok _ => exists len z chunks,
      seeks tr = [(File.End 0, Ok len); (File.Start 0, Ok z)] /\ Forall (fun bs => bs <> []) chunks /\
      reads (File.inner f) tr = (Ok <$> chunks) ++ [Ok []] /\
      writes (sock conn) tr = response_hdr Response.Ok (as_u 64 len) :: (padded <$> chunks)
  | Err e => exists e' len chunks, e = from_io e' /\
      (writes (sock conn) tr = [] \/
       writes (sock conn) tr = response_hdr Response.Ok (as_u 64 len) :: (padded <$> chunks))
  end.

Lemma file_sent_ext conn f tr tr' r :
  seeks tr' = seeks tr -> reads (File.inner f) tr' = reads (File.inner f) tr ->
  writes (sock conn) tr' = writes (sock conn) tr -> file_sent conn f tr r -> file_sent conn f tr' r.
Proof. unfold file_sent. by intros -> -> ->. Qed.

Lemma send_opened_halts conn f tr (o : outcome (result unit E)) :
  halts (send_opened conn f : block _) tr o ->
  closes tr = [] /\ opens tr = [] /\ opened tr = [] /\ exists r, o = Ret r /\ file_sent conn f tr r.
Proof.
  unfold send_opened. intros Ht. inv_halts.
  inv_result sz e.
  2: { inv_halts. split_and!; try done. eexists. split; [done|]. exists e, 0, []. split; [done|]. by left. }
  inv_halts. inv_result z e.
  2: { inv_halts. split_and!; try done. eexists. split; [done|]. exists e, 0, []. split; [done|]. by left. }
  apply halts_bind in Ht as [(r & tr1 & tr2 & -> & Hh & Ht)|(p & -> & Hh)];
    apply send_response_hdr_halts in Hh as (w & -> & Hw); [|done].
  destruct w as [m|e]; simplify_eq.
  - apply send_rounds in Ht as (chunks & [[-> Hs]|(e & -> & Hs)]).
    + destruct Hs as (Hne & Hr & Hwr & Hcl & Ho & Hod & Hsk). observe_trace.
      rewrite Hcl, Ho, Hod. split_and!; [done..|]. eexists. split; [done|].
      exists sz, z, chunks. observe_trace. rewrite Hsk, Hr, Hwr. split; [done|]. by observe_hdr.
    + assert (closes tr2 = [] /\ opens tr2 = [] /\ opened tr2 = [] /\ writes (sock conn) tr2 = padded <$> chunks)
        as (Hcl & Ho & Hod & Hwr) by (destruct Hs as [Hs|Hs]; by destruct Hs as (_ & _ & ? & ? & ? & ? & _)).
      observe_trace. rewrite Hcl, Ho, Hod. split_and!; [done..|]. eexists. split; [done|].
      exists e, sz, chunks. split; [done|]. right. observe_trace. rewrite Hwr. by observe_hdr.
  - inv_halts. split_and!; [done..|]. eexists. split; [done|].
    exists e, sz, []. split; [done|]. right. unfold writes. by observe_hdr.
Qed.

(** What a client that asked for [path] sees, given how opening the file went. *)
Definition replied conn path tr (r : result unit E) : Prop :=
  exists ans, opens tr = [path] /\ opened tr = [ans] /\
    match ans with
    | Ok f => closes tr = [File.inner f; sock conn] /\ file_sent conn f tr r
    | Err e => closes tr = [sock conn] /\
        writes (sock conn) tr =
          [response_hdr (if is_not_found e then Response.NotFound else Response.ServerError) 0]
    end.

Lemma reply_halts conn (ans : io_result File.File) tr (o : outcome (result unit E)) :
  halts (match ans with
         | Ok f => r ← send_opened conn f; _ ← close (File.inner f); mret r
         | Err e =>
             if is_not_found e then send_response_hdr conn Response.NotFound 0
             else send_response_hdr conn Response.ServerError 0
         end : block _) tr o ->
  exists r, o = Ret r /\ opens tr = [] /\ opened tr = [] /\
    match ans with
    | Ok f => closes tr = [File.inner f] /\ file_sent conn f tr r
    | Err e => closes tr = [] /\
        writes (sock conn) tr =
          [response_hdr (if is_not_found e then Response.NotFound else Response.ServerError) 0]
    end.
Proof.
  intros Ht. unfold close in Ht. destruct ans as [f|e].
  - apply halts_bind in Ht as [(r & tr1 & tr2 & -> & Hs & Ht)|(p & -> & Hs)];
      apply send_opened_halts in Hs as (Hcl & Ho & Hod & r' & ? & Hs); simplify_eq.
    inv_halts. exists r'. split; [done|]. split; [observe_trace; by rewrite Ho|].
    split; [observe_trace; by rewrite Hod|]. split; [observe_trace; by rewrite Hcl|].
    eapply file_sent_ext; [..|exact Hs]; observe_trace; apply app_nil_r.
  - assert (halts (send_response_hdr conn (if is_not_found e then Response.NotFound else Response.ServerError) 0) tr o)
      as Hh by by destruct (is_not_found e).
    apply send_response_hdr_halts in Hh as (w & -> & ->). eexists. split; [done|]. split_and!; [done..|].
    unfold writes. by observe_hdr.
Qed.

(** Sending a file: opening, seeking, reading and writing can go any way,
    and the reply is one of these: the header with the size found by the first
    seek, then one full buffer of 4096 bytes for every successful read, padded with
    zeros after the bytes read, until the end of the file; a header alone, 404
    when the file is missing and 500 when it cannot be opened otherwise; or the
    beginning of the first, when a call fails half-way.  The file, then the connection
    are closed, once, in each case, and nothing panics. *)
Lemma send_file_replies conn path tr (o : outcome (result unit E)) :
  halts (send_file conn path : block _) tr o -> exists r, o = Ret r /\ replied conn path tr r.
Proof.
  unfold send_file. intros Ht.
  apply halts_bind in Ht as [(op & tr1 & tr2 & -> & Hop & Ht)|(p & -> & Hop)]; [|by inv_halts].
  apply halts_bind in Ht as [(ans & tr3 & tr4 & -> & Ha & Ht)|(p & -> & Ha)]; [|by inv_halts].
  apply halts_call in Hop as (op' & _ & ->). apply halts_await in Ha as (a & Ea & ->). injection Ea as <-.
  apply halts_bind in Ht as [(r & tr5 & tr6 & -> & Hr & Ht)|(p & -> & Hr)];
    apply reply_halts in Hr as (r' & ? & Ho & Hod & Hr); simplify_eq.
  unfold close in Ht. inv_halts. eexists. split; [done|]. exists ans.
  split; [observe_trace; by rewrite Ho|]. split; [observe_trace; by rewrite Hod|].
  destruct ans as [f|e]; destruct Hr as [Hcl Hr]; (split; [observe_trace; by rewrite Hcl|]).
  - eapply file_sent_ext; [..|exact Hr]; observe_trace; apply app_nil_r.
  - observe_trace. by rewrite Hr.
Qed.

Lemma length_padded_all chunks : length (concat (padded <$> chunks)) = (4096 * length chunks)%nat.
Proof. induction chunks as [|bs chunks IH]; [done|]. cbn -[padded Nat.mul]. rewrite length_app, length_padded, IH. lia. Qed.

Lemma full_chunks (chunks : list (list Z)) :
  Forall (fun bs => (length bs <= 4096)%nat) chunks ->
  (length (concat chunks) <= 4096 * length chunks)%nat /\
  (length (concat chunks) = (4096 * length chunks)%nat <-> Forall (fun bs => length bs = 4096%nat) chunks).
Proof.
  induction 1 as [|bs chunks Hb _ [IH1 IH2]]; [done|]. cbn [concat length]. rewrite length_app.
  split; [lia|]. rewrite Forall_cons, <- IH2. lia.
Qed.

(** C24: the length promised and the bytes sent: when a file is sent completely, the
    body is 4096 bytes for each read, whatever the reads gave; so it has the
    length promised in the header, that of the file, exactly when all the reads
    filled their buffer, and it is longer when one did not. *)
Theorem content_length conn path tr f :
  halts (send_file conn path : block (result unit E)) tr (Ret (Ok tt)) -> opened tr = [Ok f] ->
  exists n chunks body,
    writes (sock conn) tr = response_hdr Response.Ok n :: body /\
    reads (File.inner f) tr = (Ok <$> chunks) ++ [Ok []] /\
    length (concat body) = (4096 * length chunks)%nat /\
    (n = Z.of_nat (length (concat chunks)) -> Forall (fun bs => (length bs <= 4096)%nat) chunks ->
       n <= Z.of_nat (length (concat body)) /\
       (n = Z.of_nat (length (concat body)) <-> Forall (fun bs => length bs = 4096%nat) chunks)).
Proof.
  intros Ht Hf. apply send_file_replies in Ht as (r & [= <-] & ans & _ & Ho & Hr).
  rewrite Hf in Ho. injection Ho as <-. destruct Hr as (_ & sz & z & chunks & _ & _ & Hr & Hw).
  exists (as_u 64 sz), chunks, (padded <$> chunks). split; [done|]. split; [done|]. rewrite length_padded_all.
  split; [done|]. intros -> Hc. destruct (full_chunks chunks Hc) as [Hle Hiff]. rewrite <- Hiff. lia.
Qed.

(** ** Reading the request *)
Definition END : str := lit (String.append CRLF CRLF).
Definition conn_read conn : ioE code unit (io_result (list Z)) := Await (ARead (TcpStream.read conn 1024)).

Lemma read_turn_halts conn request tr (o : outcome (str + result str E)) :
  halts (read_turn conn request : block _) tr o ->
  (contains END request /\ o = Ret (inr (Ok request)) /\ tr = []) \/
  (contains END request = false /\
    ((exists e, o = Ret (inr (Err (from_io e))) /\ tr = [Obs (conn_read conn) (Err e)]) \/
     exists bs, tr = [Obs (conn_read conn) (Ok bs)] /\
       o = match from_utf8 bs with Some s => Ret (inl (request ++ s)) | None => Panic UnwrapErr end)).
Proof.
  unfold read_turn. fold END. destruct (contains END request) eqn:Ec; intros Ht; [inv_halts; by left|].
  right. split; [done|]. inv_halts. inv_result bs e; [|inv_halts; left; by exists e].
  right. exists bs. destruct (from_utf8 bs); inv_halts; by split.
Qed.

(** [tr] reads [chunks], the text [texts], and then [last] from the connection, and does nothing else. *)
Definition received conn (chunks : list (list Z)) (texts : list str) (last : list (io_result (list Z))) tr : Prop :=
  Forall2 (fun bs s => from_utf8 bs = Some s) chunks texts /\
  reads (sock conn) tr = (Ok <$> chunks) ++ last /\
  (forall fd, writes fd tr = []) /\ closes tr = [] /\ opens tr = [].

Lemma received_turn conn bs s chunks texts last tr :
  from_utf8 bs = Some s -> received conn chunks texts last tr ->
  received conn (bs :: chunks) (s :: texts) last ([Obs (conn_read conn) (Ok bs)] ++ tr).
Proof.
  intros Hbs (Hc & Hr & Hw & Hcl & Ho). split; [by constructor|]. observe_trace. rewrite Hr, Hcl, Ho. cbn.
  by rewrite decide_True.
Qed.

Lemma received_last conn r : received conn [] [] [r] [Obs (conn_read conn) r].
Proof. split; [done|]. unfold reads. cbn. by rewrite decide_True. Qed.

(** The text of a request: complete after the last piece, not before. *)
Definition completes (request : str) (texts : list str) : Prop :=
  contains END (request ++ concat texts) /\
  forall n, (n < length texts)%nat -> contains END (request ++ concat (take n texts)) = false.

Lemma read_rounds conn request tr (o : outcome (result str E)) :
  rounds (read_turn conn : _ -> block _) request tr o ->
  exists chunks texts,
    (completes request texts /\ received conn chunks texts [] tr /\ o = Ret (Ok (request ++ concat texts))) \/
    (exists e, received conn chunks texts [Err e] tr /\ o = Ret (Err (from_io e))) \/
    (exists bs, from_utf8 bs = None /\ received conn chunks texts [Ok bs] tr /\ o = Panic UnwrapErr).
Proof.
  induction 1 as [i tr v Hr|i tr p Hr|i j tr1 tr2 o Hr _ IH];
    apply read_turn_halts in Hr as [(Hc & ? & ->)|(Hc & [(e & ? & ->)|(bs & -> & Ho)])]; simplify_eq.
  - exists [], []. left. rewrite app_nil_r. split; [|done]. split; [by rewrite app_nil_r|]. cbn. lia.
  - exists [], []. right; left. exists e. split; [apply received_last|done].
  - by destruct (from_utf8 bs).
  - destruct (from_utf8 bs) eqn:Eb; simplify_eq. exists [], []. right; right. exists bs.
    split; [done|]. split; [apply received_last|done].
  - destruct (from_utf8 bs) as [s|] eqn:Eb; simplify_eq. destruct IH as (chunks & texts & Hx).
    exists (bs :: chunks), (s :: texts). cbn [concat]. rewrite app_assoc.
    destruct Hx as [(Hcm & Hrv & ->)|[(e & Hrv & ->)|(bad & Hbad & Hrv & ->)]].
    + left. split; [|split; [by apply received_turn|done]]. destruct Hcm as [Hend Hbefore].
      split; [cbn; by rewrite app_assoc|]. intros [|n] Hn; cbn; [by rewrite app_nil_r|].
      rewrite app_assoc. apply Hbefore. cbn in Hn. lia.
    + right; left. exists e. split; [by apply received_turn|done].
    + right; right. exists bad. split; [done|]. split; [by apply received_turn|done].
Qed.

(** What is done once the request is there. *)
Definition answered_with conn (request : str) tr (o : outcome (result unit E)) : Prop :=
  match route webroot request with
  | Ret (Serve file) => exists r, o = Ret r /\ replied conn file tr r
  | Ret (Refuse c) => exists w u r, o = Ret r /\
      tr = [Obs (conn_write conn (response_hdr c 0)) w; Obs (Call (CClose (sock conn))) u]
  | Panic p => o = Panic p /\ tr = []
  | _ => False
  end.

(** A connection at its end: the request was read, in whatever pieces it came, and
    answered; or a read failed; or a piece was no text. *)
Definition connection_over conn tr (o : outcome (result unit E)) : Prop :=
  exists chunks texts tr1 tr2, tr = tr1 ++ tr2 /\
    ((completes [] texts /\ received conn chunks texts [] tr1 /\ answered_with conn (concat texts) tr2 o) \/
     (exists e u, received conn chunks texts [Err e] tr1 /\ tr2 = [Obs (Call (CClose (sock conn))) u] /\
        o = Ret (Err (from_io e))) \/
     (exists bs, from_utf8 bs = None /\ received conn chunks texts [Ok bs] tr1 /\ tr2 = [] /\ o = Panic UnwrapErr)).

Lemma connection_ends conn tr (o : outcome (result unit E)) :
  halts (handle_connection webroot conn : block _) tr o -> connection_over conn tr o.
Proof.
  unfold handle_connection, close. intros Ht.
  apply halts_bind in Ht as [(r & tr1 & tr2 & -> & Hr & Ht)|(p & -> & Hr)];
    apply halts_iter, read_rounds in Hr as (chunks & texts & [(Hcm & Hrv & ?)|[(e & Hrv & ?)|(bs & Hbs & Hrv & ?)]]);
    simplify_eq.
  - exists chunks, texts, tr1, tr2. split; [done|]. left. split; [done|]. split; [done|].
    cbn [app] in Ht. unfold answered_with. pose proof (route_panics webroot (concat texts)) as Hroute.
    destruct (route webroot (concat texts)) as [[c|file]|p| |]; [| |by inv_halts|done..].
    + apply halts_bind in Ht as [(r & tr3 & tr4 & -> & Hh & Ht)|(p & -> & Hh)];
        apply send_response_hdr_halts in Hh as (w & -> & ?); simplify_eq. inv_halts. by eexists _, _, _.
    + by apply send_file_replies in Ht.
  - exists chunks, texts, tr1, tr2. split; [done|]. right; left. inv_halts. by eexists _, _.
  - exists chunks, texts, tr, []. rewrite app_nil_r. split; [done|]. right; right. by exists bs.
Qed.

(** C12: a connection: it is read, in whatever pieces it comes, until the text of
    the request holds an empty line, and no further; then the answer is that of
    the route of this text.  An error of a read closes the connection and ends
    the task; a piece that is not valid UTF-8 of its own panics, and so does a
    request line without a space. *)
Theorem connection_answers conn tr (o : outcome (result unit E)) :
  halts (handle_connection webroot conn : block _) tr o ->
  exists chunks texts tr1 tr2, tr = tr1 ++ tr2 /\
    ((completes [] texts /\ received conn chunks texts [] tr1 /\ answered_with conn (concat texts) tr2 o) \/
     (exists e u, received conn chunks texts [Err e] tr1 /\ tr2 = [Obs (Call (CClose (sock conn))) u] /\
        o = Ret (Err (from_io e))) \/
     (exists bs, from_utf8 bs = None /\ received conn chunks texts [Ok bs] tr1 /\ tr2 = [] /\ o = Panic UnwrapErr)).
Proof. apply connection_ends. Qed.

(** Reads that give nothing complete no request, and no read of them is an error. *)
Lemma never_received conn tr (o : outcome (result str E)) chunks texts :
  Forall (fun r => r = Ok []) (reads (sock conn) tr) ->
  (completes [] texts /\ received conn chunks texts [] tr /\ o = Ret (Ok ([] ++ concat texts))) \/
  (exists e, received conn chunks texts [Err e] tr /\ o = Ret (Err (from_io e))) \/
  (exists bs, from_utf8 bs = None /\ received conn chunks texts [Ok bs] tr /\ o = Panic UnwrapErr) -> False.
Proof.
  intros Hall Hx.
  assert (forall last, received conn chunks texts last tr -> concat texts = [] /\ Forall (fun r => r = Ok []) last)
    as Hnil.
  { intros last (H2 & Hr & _). rewrite Hr in Hall. apply Forall_app in Hall as [Hc Hl]. split; [|done].
    clear Hx Hr Hl. induction H2 as [|bs s chunks texts Hs _ IH]; [done|]. apply Forall_cons in Hc as [[= ->] Hc].
    injection Hs as <-. by apply IH. }
  destruct Hx as [([Hend _] & Hrv & _)|[(e & Hrv & _)|(bs & Hbs & Hrv & _)]]; apply Hnil in Hrv as [Ht Hl].
  - by rewrite Ht in Hend.
  - by apply Forall_cons in Hl as [? _].
  - apply Forall_cons in Hl as [[= ->] _]. done.
Qed.

(** After such a read the task is where it was. *)
Lemma waits_again conn :
  exists k, observe (handle_connection webroot conn : block (result unit E)) = VisF (conn_read conn) k /\
    observe (k (Ok [])) = TauF (handle_connection webroot conn).
Proof.
  unfold handle_connection. eexists. split.
  - unfold mbind, itree_mbind. rewrite observe_bind, iter_observe, observe_bind. reflexivity.
  - reflexivity.
Qed.


(** ** Accepting *)
(** The connections among the answers of the listener. *)
Definition connections tr : list TcpStream.TcpStream :=
  omap (fun x => match x with Some (Ok conn) => Some conn | _ => None end) (accepts tr).

(** A turn of the accepting loop, as far as it got. *)
Lemma serve_turn l tr s :
  trace (serve l : block unit) tr s ->
  tr = [] \/ exists x l' tr', tr = Obs (Await (ANext l)) (x, l') :: tr' /\
    match x with
    | Some (Ok conn) => tr' = [] \/ exists j tr1, tr' = Obs (Call (CSpawn (Connection conn))) j :: tr1 /\
        (tr1 = [] \/ exists u tr2, tr1 = Obs (Call (CDetach j)) u :: tr2 /\
           (tr2 = [] \/ trace (serve l') tr2 s))
    | Some (Err _) => tr' = [] \/ trace (serve l') tr' s
    | None => spawns tr' = [] /\ connections tr' = []
    end.
Proof.
  intros Ht. destruct (trace_vis_inv _ _ _ Ht _ _ eq_refl I) as [->|([x l'] & tr' & -> & Ht1)]; [by left|].
  right. exists x, l', tr'. split; [done|]. destruct x as [[conn|e]|].
  - destruct (trace_vis_inv _ _ _ Ht1 _ _ eq_refl I) as [->|(j & tr1 & -> & Ht2)]; [by left|].
    right. exists j, tr1. split; [done|].
    destruct (trace_vis_inv _ _ _ Ht2 _ _ eq_refl I) as [->|(u & tr2 & -> & Ht3)]; [by left|].
    right. exists u, tr2. split; [done|]. exact (trace_tau_inv _ _ _ Ht3 _ eq_refl).
  - exact (trace_tau_inv _ _ _ Ht1 _ eq_refl).
  - destruct (trace_vis_inv _ _ _ Ht1 _ _ eq_refl I) as [->|(u & tr1 & -> & Ht2)]; [done|].
    destruct (trace_vis_inv _ _ _ Ht2 _ _ eq_refl I) as [->|(u' & tr2 & -> & Ht3)]; [done|].
    by rewrite (trace_ret_inv _ _ _ Ht3 _ eq_refl).
Qed.

(** Accepting: at any moment, the tasks the server has spawned are those of the
    connections its listener has given, each once and in order: all of them, or
    all but the last, which is spawned before the listener is asked again.  An error
    of the listener is skipped. *)
Theorem accepted_spawned l tr s :
  trace (serve l : block unit) tr s ->
  spawns tr = Connection <$> connections tr \/
  exists conn, Connection <$> connections tr = spawns tr ++ [Connection conn].
Proof.
  remember (length tr) as n eqn:En. revert l tr En. induction (lt_wf n) as [n _ IH]. intros l tr -> Ht.
  assert (forall l' tr1 tr', length tr' < length tr -> tr = tr1 ++ tr' -> (tr' = [] \/ trace (serve l') tr' s) ->
    spawns tr1 = Connection <$> connections tr1 ->
    spawns tr = Connection <$> connections tr \/
    exists conn, Connection <$> connections tr = spawns tr ++ [Connection conn])%nat as Hnext.
  { intros l' tr1 tr' Hlen -> Ht' E1. unfold connections in *. observe_trace. rewrite omap_app, fmap_app, E1.
    destruct Ht' as [->|Ht']; [left; by rewrite !app_nil_r|].
    destruct (IH _ Hlen l' tr' eq_refl Ht') as [->|[conn Ec]]; [by left|]. right. exists conn.
    unfold connections, accepts in Ec. by rewrite Ec, app_assoc. }
  destruct (serve_turn l tr s Ht) as [->|(x & l' & tr' & -> & Hx)]; [by left|]. destruct x as [[conn|e]|].
  - destruct Hx as [->|(j & tr1 & -> & [->|(u & tr2 & -> & Ht2)])].
    + right. by exists conn.
    + by left.
    + apply (Hnext l' [Obs (Await (ANext l)) (Some (Ok conn), l'); Obs (Call (CSpawn (Connection conn))) j;
                       Obs (Call (CDetach j)) u] tr2); [cbn; lia|done..].
  - apply (Hnext l' [Obs (Await (ANext l)) (Some (Err e), l')] tr'); [cbn; lia|done..].
  - left. destruct Hx as [Hs Hc]. change (spawns tr' = Connection <$> connections tr'). by rewrite Hs, Hc.
Qed.
End server.
