(* ===== verification/ServerHistory.v ===== *)
(** The web server at any time: what its tasks are, and what each of them has done. *)
From ITree Require Import ITree ITreeFacts.
From S2P Require Import Prelude Bytes Crates CrateModels Results Reactor Io Sqe Libc SockAddr Event ReadWrite Fs Timer Tcp Udp Mutex Task TaskProps TaskLoop Joins Async AsyncProps Output Seen History Recorded Transcript Monitor Text Programs ProgramProps WebServer RouteProps ServerProps.

Open Scope nat_scope.

(** ** A connection spawns nothing *)
Section connection.
Context {E : Type} `{Anyhow E} (webroot : list Z).
Abbreviation block := (body code unit).

Lemma connection_spawns_nothing P `{!forall c, Decision (P c)} conn : keeps (spawns_in P) tt (run_code (E:=E) webroot (Connection conn) : block unit) (fun _ _ => True).
Proof.
  cbn [run_code]. unfold handle_connection, close. apply keeps_bind. apply keeps_bind, keeps_loop.
  - intros request. unfold read_turn. repeat loop_step. all: try done.
  - intros [request|e]; [|by repeat loop_step]. pose proof (route_panics webroot request) as Hr.
    destruct (route webroot request) as [[c|file]|p| |]; try done; clear Hr.
    + unfold send_response_hdr. repeat loop_step. all: try done.
    + unfold send_file, send_opened, send_response_hdr, send_turn, close. repeat loop_step. all: try done.
    + apply keeps_crash.
Qed.
End connection.

(** ** The tasks of the server *)

(** Tasks that spawn nothing leave the spawning to one task. *)
Lemma spawned_by_one {Code} ch (h : list (nat * seen Code)) :
  (forall x, x ∈ h -> x.1 <> ch -> spawned_of x.2 = []) -> spawned h.*2 = spawned (proj ch h).
Proof.
  induction h as [|x h IH]; intros Hx; [done|]. rewrite fmap_cons, proj_cons, spawned_app.
  change (spawned (x.2 :: h.*2)) with (spawned_of x.2 ++ spawned h.*2). rewrite IH by (intros y Hy; apply Hx; by right).
  f_equal. case_decide; [cbn; by rewrite app_nil_r|]. by rewrite Hx by (by left || done).
Qed.

Lemma spawned_elem {Code} (s : seen Code) (l : list (seen Code)) : s ∈ l -> spawned l = [] -> spawned_of s = [].
Proof. intros (l1 & l2 & ->)%list_elem_of_split. rewrite spawned_app. by intros [_ [E _]%app_nil]%app_nil. Qed.

(** The elements of a list in another order. *)
Lemma map_permuted {A B} (f : A -> B) (k : list B) : forall l, f <$> l ≡ₚ k -> exists l', l ≡ₚ l' /\ f <$> l' = k.
Proof.
  induction k as [|b k IH]; intros l Hl.
  - apply Permutation_nil_r, fmap_nil_inv in Hl as ->. by exists [].
  - assert (b ∈ f <$> l) as Hb by (rewrite Hl; by left).
    apply list_elem_of_fmap in Hb as (a & -> & (l1 & l2 & ->)%list_elem_of_split).
    rewrite <- Permutation_middle in Hl. cbn in Hl. apply Permutation_cons_inv in Hl.
    destruct (IH _ Hl) as (l' & Hp & <-). exists (a :: l'). split; [|done]. by rewrite <- Permutation_middle, Hp.
Qed.

Section server.
Context {E : Type} `{Anyhow E} (webroot : list Z).
Context {S : Type -> Type} `{SlabSpec S} {B : Type} `{RingBuffer B}.
Context {U : Type} `{IoUring U sqe} {L : Type} `{Libc L} `{!Process L} `{Host} `{NetOrder}.
Abbreviation world := (world S B U L (body code unit unit) unit).
Abbreviation tasks := (list (entry (Code:=code) (Val:=unit))).
Abbreviation run_code := (run_code (E:=E) webroot).

(** A task has followed a trace of its block, and is still there unless the trace has ended. *)
Definition goes_along (h : list (nat * seen code)) (w : world) (e : entry (Code:=code) (Val:=unit)) (R : Type) (t : body code unit R) : Prop :=
  proj (e_ch e) h = see <$> e_trace e /\ (exists s, trace t (e_trace e) s) /\
  (e_ch e ∈ tx_of <$> all_tasks (w_exec w) \/ exists v, halts t (e_trace e) (Ret v)).

Lemma connection_task_over conn tr v :
  halts (run_code (Connection conn)) tr (Ret v) -> exists r : result unit E, connection_over webroot conn tr (Ret r).
Proof.
  cbn [WebServer.run_code]. intros Hh. apply halts_bind in Hh as [(r & tr1 & tr2 & -> & Hr & Hm)|(p & [=] & _)].
  apply halts_returned in Hm as [-> _]. rewrite app_nil_r. exists r. by apply connection_ends.
Qed.

Definition is_connection (c : code) : Prop := match c with Connection _ => True | Server _ => False end.
#[local] Instance is_connection_dec c : Decision (is_connection c).
Proof. destruct c; apply _. Defined.


Lemma server_spawns c : keeps (spawns_in is_connection) tt (run_code c) (fun _ _ => True).
Proof.
  destruct c as [l|conn]; [|apply connection_spawns_nothing]. cbn [WebServer.run_code]. unfold serve, accept_turn.
  apply keeps_bind, keeps_loop; intros l'; [|by repeat loop_step].
  apply keeps_bind, keeps_await. intros [[[conn|e]|] l2]; exists tt; (split; [reflexivity|]); [|by repeat loop_step..].
  apply keeps_bind, keeps_call. intros jn. exists tt. split; [|by repeat loop_step].
  unfold spawns_in. rewrite decide_True; [done|]. cbn. by rewrite Forall_singleton.
Qed.

Section history.
Context (listener : TcpListener.TcpListener) (j : nat) (h : list (nat * seen code)) (w : world) (es : tasks).
Context {V : Type} {view : L -> V} {changes : V -> list (seen code) -> V -> Prop} {v0 : V}.
Context (Hex : explains run_code (view:=view) (changes:=changes) v0 [(Server listener, j)] h w es).

Lemma explained_along e : e ∈ es -> goes_along h w e unit (run_code (e_code e)).
Proof. intros He. split; [by apply Hex|]. split; by apply (ex_trace _ _ _ _ _ _ Hex)||by apply (ex_state _ _ _ _ _ _ Hex). Qed.

Lemma spawned_connections : Forall is_connection (spawned h.*2).*1.
Proof.
  rewrite (spawned_by_task h es) by apply Hex.
  assert (forall e, e ∈ es -> Forall is_connection (spawns (e_trace e))) as Hes.
  { intros e He. destruct (ex_trace _ _ _ _ _ _ Hex e He) as (s & Hs). rewrite <- spawned_see.
    by eapply keeps_spawns; [apply server_spawns|]. }
  clear -Hes. induction es as [|e es' IH]; [constructor|]. cbn. apply Forall_app.
  split; [apply Hes; by left|apply IH; intros x Hx; apply Hes; by right].
Qed.

(** The task of [main], and the others in the order in which they were spawned. *)
Lemma server_tasks : exists main conns, es ≡ₚ main :: conns /\ born main = (Server listener, j) /\ born <$> conns = spawned h.*2.
Proof.
  pose proof (ex_born _ _ _ _ _ _ Hex) as Hb. apply map_permuted in Hb as (es' & Hp & Eb).
  destruct es' as [|main conns]; [done|]. injection Eb as Em Ech Ec. exists main, conns.
  split; [done|]. split; [unfold born; congruence|done].
Qed.

Lemma tasks_accepted main conns :
  es ≡ₚ main :: conns -> born main = (Server listener, j) -> born <$> conns = spawned h.*2 ->
  e_code <$> conns = spawns (e_trace main).
Proof.
  intros Hp [= Ec Ech] Hconns. assert (main ∈ es) as Hmain by (rewrite Hp; by left).
  transitivity (spawned h.*2).*1; [by rewrite <- Hconns, <- list_fmap_compose|].
  rewrite <- spawned_see, <- (ex_proj _ _ _ _ _ _ Hex main Hmain). f_equal. apply spawned_by_one. intros x Hx Hne.
  apply (ex_tags _ _ _ _ _ _ Hex) in Hx as Hch. apply list_elem_of_fmap in Hch as (e & Ee & He).
  assert (e ∈ conns) as Hec by (rewrite Hp in He; apply elem_of_cons in He as [->|?]; [congruence|done]).
  assert (is_connection (e_code e)) as Hc.
  { pose proof spawned_connections as Hall. rewrite <- Hconns, Forall_forall in Hall. apply Hall.
    rewrite <- list_fmap_compose. by apply (list_elem_of_fmap_2 (fst ∘ born)). }
  destruct (e_code e) as [l|conn] eqn:Ecode; [done|].
  destruct (ex_trace _ _ _ _ _ _ Hex e He) as (s & Hs). rewrite Ecode in Hs.
  eapply spawned_elem; [|eapply keeps_no_spawn; [apply connection_spawns_nothing|exact Hs]].
  rewrite <- (ex_proj _ _ _ _ _ _ Hex e He). unfold proj. apply list_elem_of_fmap. exists x. split; [done|].
  by apply list_elem_of_filter.
Qed.
End history.

(** C5: the web server at any time: after any number of rounds, the tasks of the
    thread are the one that accepts and, in order, one for each connection the listener has
    given (but perhaps the last, not spawned yet).  Everything the thread
    has done was done by one of them along its own text: the first along the
    loop of [main], each other along [handle_connection] for its own
    connection, whatever the other clients send or fail to send; and a connection whose task is
    over has been answered as its request says. *)
Theorem server_any_time listener (w w1 w' : world) j n fuel k ended :
  all_tasks (w_exec w) = [] -> spawn (run_code (Server listener)) w = Ret (j, w1) ->
  after run_code fuel n k w1 = Ret (ended, w') ->
  let h := history run_code fuel n k w1 in
  exists (main : entry (Code:=code) (Val:=unit)) (conns : tasks),
    NoDup (e_ch <$> main :: conns) /\ (forall x, x ∈ h -> x.1 ∈ e_ch <$> main :: conns) /\
    e_ch main = rx j /\ goes_along h w' main unit (serve listener) /\
    (e_code <$> conns = Connection <$> connections (e_trace main) \/
     exists conn, Connection <$> connections (e_trace main) = (e_code <$> conns) ++ [Connection conn]) /\
    forall e, e ∈ conns -> exists conn, e_code e = Connection conn /\ goes_along h w' e unit (run_code (Connection conn)) /\
      forall v, halts (run_code (Connection conn)) (e_trace e) (Ret v) ->
        exists r : result unit E, connection_over webroot conn (e_trace e) (Ret r).
Proof.
  intros Hno Hsp Ha h. apply (spawn_effect run_code (view:=unseen)) in Hsp as Heff.
  destruct (after_explains _ _ _ _ _ _ _ _ _ Hno Heff Ha) as (es & Hex & _). fold h in Hex.
  destruct (server_tasks _ _ _ _ _ Hex) as (main & conns & Hp & Emain & Hconns).
  pose proof (tasks_accepted _ _ _ _ _ Hex _ _ Hp Emain Hconns) as Hcodes. injection Emain as Ec Ech.
  assert (main ∈ es) as Hmain by (rewrite Hp; by left).
  assert (forall e, e ∈ conns -> e ∈ es) as Hin by (intros e He; rewrite Hp; by right).
  exists main, conns. rewrite <- Hp. split; [apply Hex|]. split; [setoid_rewrite <- Hp; apply Hex|]. split; [done|].
  pose proof (explained_along _ _ _ _ _ Hex _ Hmain) as Hal. rewrite Ec in Hal. split; [done|]. rewrite Hcodes.
  split; [destruct Hal as (_ & (s & Hs) & _); by eapply accepted_spawned|]. intros e He.
  pose proof (spawned_connections _ _ _ _ _ Hex) as Hall. rewrite <- Hconns, Forall_forall in Hall.
  assert (is_connection (e_code e)) as Hc.
  { apply Hall. rewrite <- list_fmap_compose. by apply (list_elem_of_fmap_2 (fst ∘ born)). }
  pose proof (explained_along _ _ _ _ _ Hex _ (Hin e He)) as Hale. destruct (e_code e) as [l|conn]; [done|].
  exists conn. split; [done|]. split; [done|]. intros v. apply connection_task_over.
Qed.
End server.
