(* ===== verification/Handlers.v ===== *)
(** Running a block alone, against a script of the answers it gets: how the
    concrete traces of the examples are made. *)
From ITree Require Import ITree.
From S2P Require Import Prelude Bytes Crates Results Reactor Io Sqe Libc SockAddr Event ReadWrite Fs Timer Tcp Udp Mutex Task Async AsyncProps.

Open Scope Z_scope.

Section handler.
Context {Code Val St : Type}.
Abbreviation block := (body Code Val).
Context (on_await : forall X, awaitE Val X -> St -> X * St).
Context (on_call : forall X, callE Code X -> St -> X * St).

(** The trace of the block, and how it ended with the last state, if it did within [fuel] steps. *)
Fixpoint handle_with {R} (fuel : nat) (t : block R) (st : St) :
    list (obs (Code:=Code) (Val:=Val)) * option (outcome R * St) :=
  match fuel with
  | O => ([], None)
  | S fuel =>
      match observe t with
      | RetF v => ([], Some (Ret v, st))
      | TauF t => handle_with fuel t st
      | VisF e k =>
          match e in ioE _ _ X return (X -> block R) -> _ with
          | Await a => fun k =>
              let (x, st) := on_await _ a st in
              let (tr, o) := handle_with fuel (k x) st in (Obs (Await a) x :: tr, o)
          | Call c => fun k =>
              let (x, st) := on_call _ c st in
              let (tr, o) := handle_with fuel (k x) st in (Obs (Call c) x :: tr, o)
          | Crash p => fun _ => ([], Some (Panic p, st))
          end k
      end
  end.

Definition handle {R} (fuel : nat) (t : block R) (st : St) : list (obs (Code:=Code) (Val:=Val)) * option (outcome R) :=
  let (tr, o) := handle_with fuel t st in (tr, fst <$> o).

Lemma handle_with_halts {R} fuel (t : block R) st tr o : handle_with fuel t st = (tr, Some o) -> halts t tr o.1.
Proof.
  revert t st tr. induction fuel as [|fuel IH]; intros t st tr E; [done|]. cbn in E.
  destruct (observe t) as [v|t1|X e k] eqn:Et.
  - injection E as <- <-. by apply (halts_ret t v).
  - apply (halts_tau t t1); [done|]. by eapply IH.
  - destruct e as [X a|X c|X p].
    + destruct (on_await X a st) as [x st']. destruct (handle_with fuel (k x) st') as [tr' o'] eqn:Eh.
      injection E as <- ->. apply (halts_vis t (Await a) k); [done..|]. eexists x, tr'. split; [done|]. by eapply IH.
    + destruct (on_call X c st) as [x st']. destruct (handle_with fuel (k x) st') as [tr' o'] eqn:Eh.
      injection E as <- ->. apply (halts_vis t (Call c) k); [done..|]. eexists x, tr'. split; [done|]. by eapply IH.
    + injection E as <- <-. by eapply halts_crash.
Qed.

Lemma handle_halts {R} fuel (t : block R) st tr o : handle fuel t st = (tr, Some o) -> halts t tr o.
Proof.
  unfold handle. destruct (handle_with fuel t st) as [tr' [p|]] eqn:E; [|done]. intros [= <- <-].
  by eapply handle_with_halts.
Qed.
End handler.

(** A script: the data each descriptor gives, read by read, then the end of its
    stream; what opening a file gives; the sizes of the files. *)
Record script := Script {
  data : gmap Z (list (list Z));
  files : list (io_result File.File);
  file_size : Z;
}.

Definition scripted_await {Val} (v : Val) X (a : awaitE Val X) (s : script) : X * script :=
  match a in awaitE _ X return X * script with
  | ATimer _ => (tt, s)
  | ARead r =>
      match data s !! AsyncReader.fd r with
      | Some (b :: bs) => (Ok b, Script (<[AsyncReader.fd r := bs]> (data s)) (files s) (file_size s))
      | _ => (Ok [], s)
      end
  | AWrite bs _ => (Ok (Z.of_nat (length bs)), s)
  | AOpen _ =>
      match files s with
      | f :: fs => (f, Script (data s) fs (file_size s))
      | [] => (Err (OsError 2), s)
      end
  | AMkdir _ => (Ok tt, s)
  | ANext l => ((None, l), s)
  | AConnect _ => (Ok (TcpStream.MkStream 7), s)
  | ASockConnect _ => (Ok tt, s)
  | ARecvFrom _ => (Err (OsError 5), s)
  | ASendTo _ => (Ok 0, s)
  | AWait _ => (Ok tt, s)
  | ALock _ _ => (tt, s)
  | AJoin _ => (v, s)
  end.

Definition scripted_call {Code} X (c : callE Code X) (s : script) : X * script :=
  match c in callE _ X return X * script with
  | CPrint _ | CEprint _ | CEventDrop _ | CGuardDrop _ | CStore _ _ | CListenerDrop _ | CClose _ | CDetach _ => (tt, s)
  | CSleep d => (Ok (Timer.MkTimer d Oneshot.New [] 3), s)
  | CNow => (0, s)
  | CEventNew => (Ok (Event.MkEvent 3), s)
  | CNotify _ => (Ok tt, s)
  | CEventClone e => (e, s)
  | CLoad _ => ([], s)
  | COpen p => (FileOpen.MkOpen p 0 Oneshot.New, s)
  | CCreate p => (FileOpen.MkOpen p 0 Oneshot.New, s)
  | CMkdir p => (Mkdir.MkMkdir Oneshot.New p, s)
  | CSeek _ pos => (Ok (match pos with File.End _ => file_size s | _ => 0 end), s)
  | CBind _ => (Ok (TcpListener.MkListener 3 Multishot.New), s)
  | CUdpBind _ | CSocket _ => (Ok 3, s)
  | CSpawn _ => (MkJoiner 0 (Event.MkEvent 3) (EventWaiter.wait (Event.MkEvent 3)), s)
  end.

Definition alone {Code Val R} (v : Val) (fuel : nat) (t : body Code Val R) (s : script) :=
  handle (scripted_await v) scripted_call fuel t s.
