(* ===== verification/Console.v ===== *)
(** One executable instance of the interface of Async.v: the system calls of
    LibcModel.v, next to a console that keeps what was printed, the shared
    memory, and a script of the data that arrives on the descriptors. *)
From S2P Require Import Prelude Bytes Libc LibcModel SockAddr ReadWrite Fs Timer Tcp Udp Mutex Task Async.

Open Scope Z_scope.

Record console := Console {
  stdout : list string;
  stderr : list string;
  cells : gmap nat (list Z);
  incoming : gmap Z (list (list Z));    (* per descriptor: the buffers of its next reads *)
  names : gmap Z (list Z);              (* the senders of the datagrams *)
}.

Definition console_new (incoming : gmap Z (list (list Z))) (names : gmap Z (list Z)) : console :=
  Console [] [] ∅ incoming names.

(** A system with a console beside it. *)
Definition beside {L C} `{Libc L} : Libc (L * C) := {|
  last_os_error l := last_os_error l.1;
  sys_eventfd n fl l := let (r, k) := sys_eventfd n fl l.1 in (r, (k, l.2));
  sys_write fd bs l := let (r, k) := sys_write fd bs l.1 in (r, (k, l.2));
  try_clone fd l := let (r, k) := try_clone fd l.1 in (r, (k, l.2));
  sys_close fd l := (sys_close fd l.1, l.2);
  sys_socket f t p l := let (r, k) := sys_socket f t p l.1 in (r, (k, l.2));
  sys_bind fd a n l := let (r, k) := sys_bind fd a n l.1 in (r, (k, l.2));
  sys_listen fd n l := let (r, k) := sys_listen fd n l.1 in (r, (k, l.2));
  sys_lseek fd o wh l := let (r, k) := sys_lseek fd o wh l.1 in (r, (k, l.2));
  sys_timerfd_create c fl l := let (r, k) := sys_timerfd_create c fl l.1 in (r, (k, l.2));
  sys_timerfd_settime fd fl s ns l := let (r, k) := sys_timerfd_settime fd fl s ns l.1 in (r, (k, l.2));
  sys_now l := let (t, k) := sys_now l.1 in (t, (k, l.2))
|}.

#[export] Instance console_libc `{Host} : Libc (kernel * console) := beside.

Definition on_console (f : console -> console) (l : kernel * console) : kernel * console := (l.1, f l.2).

(** A datagram socket: a descriptor of its own, as [sys_socket] gives. *)
#[export] Instance console_process `{Host} : Process (kernel * console) := {
  print s := on_console (fun c => Console (stdout c ++ [s]) (stderr c) (cells c) (incoming c) (names c));
  eprint s := on_console (fun c => Console (stdout c) (stderr c ++ [s]) (cells c) (incoming c) (names c));
  load i l := default [] (cells l.2 !! i);
  store i v := on_console (fun c => Console (stdout c) (stderr c) (<[i := v]> (cells c)) (incoming c) (names c));
  buffer_of fd n l :=
    match incoming l.2 !! fd with
    | Some (b :: bs) =>
        (take (Z.to_nat n) b,
         on_console (fun c => Console (stdout c) (stderr c) (cells c) (<[fd := bs]> (incoming c)) (names c)) l)
    | _ => (replicate (Z.to_nat n) 0, l)
    end;
  name_of fd l := default [] (names l.2 !! fd);
  udp_bind a l :=
    let (fd, l) := sys_socket (if is_ipv4 a then AF_INET else AF_INET6) 2 0 l in
    if decide (fd = -1) then (Err (last_os_error l), l) else (Ok fd, l);
  instant := sys_now;
}.
