(* ===== verification/ReactorTests.v ===== *)
(** The unit tests of src/src/reactor/uring.rs replayed in the model, and the
    witnesses of the properties of the reactor.

    A test is the list of calls its body makes; the script says which
    completions the kernel posts when the reactor waits (the effect of the peer
    thread of the test).  [run_test] is the harness of the tests: it runs the
    body on a new reactor and checks at the end that nothing is left in the
    result stores. *)
From S2P Require Import Prelude Crates CrateModels Results Reactor Io RingFacts Mailbox Refinement RefineOps System ReactorProps ReactorLimits Sqe.

Definition ring_of (script : KernelScript) : ReactorInner gslab lring sring nat :=
  MkReactor (SRing rv_empty RING_ENTRIES script) ∅ (MkResults ∅ ∅).

Section with_script.
Context (script : KernelScript).

Abbreviation test_sys := (sys gslab lring sring nat).
Abbreviation test_op := (op sqe nat).

Definition run_ops (ops : list test_op) : outcome (list (label nat) * test_sys) :=
  exec ops (s_init (ring_of script)).

Definition run_test (ops : list test_op) : outcome (list (label nat) * bool) :=
  '(ls, s) ← run_ops ops;
  mret (ls, RingResults.is_empty (ring_results (s_ring s))).

Lemma reactor_new_ring : reactor_new (Entry:=sqe) = Ret (ring_of script).
Proof. reflexivity. Qed.

(** The run of a list of calls. *)
Fixpoint enabled_run (ops : list test_op) (s : test_sys) : Prop :=
  match ops with
  | [] => True
  | o :: ops => enabled s o /\
      match run_op s o with Ret (_, s) => enabled_run ops s | _ => False end
  end.
End with_script.

Lemma exec_run (script : KernelScript) (ops : list (op sqe nat)) s0 tr0 s tr s' :
  run (Entry:=sqe) s0 tr0 s -> exec ops s = Ret (tr, s') -> enabled_run script ops s ->
  run s0 (tr0 ++ tr) s'.
Proof.
  revert tr0 s tr. induction ops as [|o ops IH]; intros tr0 s tr Hrun Hex Hen.
  - injection Hex as <- <-. by rewrite app_nil_r.
  - cbn in Hex, Hen. destruct Hen as [He Hen].
    destruct (run_op s o) as [[l s1]| | |] eqn:Eo; cbn in Hex, Hen; try done.
    destruct (exec ops s1) as [[ls s2]| | |] eqn:Ex; cbn in Hex; try done.
    injection Hex as <- <-. replace (tr0 ++ l :: ls) with ((tr0 ++ [l]) ++ ls)
      by by rewrite <- app_assoc.
    eapply IH; [|done|done]. by econstructor.
Qed.

Definition read1 (fd : Z) : sqe := Read fd (BorrowedBy "buf") 1 0.
Definition write_n (fd n : Z) : sqe := Write fd (BorrowedBy "buf") n 0.

(** *** [single_wakeup_read] *)
Definition single_wakeup_read : outcome (list (label nat) * bool) :=
  run_test [[(0, 1%Z, false)]]
    [ONew false; OPoll 0 (read1 5) 10; OReact; ONext; ONext; OPoll 0 (read1 5) 10; ODrop 0].

Example single_wakeup_read_ok : single_wakeup_read =
  Ret ([LNew 0 false; LPollOne 0 10 Pending; LReact; LComplete 10 1%Z false; LReact;
        LPollOne 0 10 (Ready (Ok 1%Z)); LDrop 0], true).
Proof. vm_compute. reflexivity. Qed.

(** *** [io_dropped_before_react_cleanup] *)
Definition io_dropped_before_react_cleanup : outcome (list (label nat) * bool) :=
  run_test [[(0, 1%Z, false)]]
    [ONew false; OPoll 0 (read1 5) 10; ODrop 0; OReact; ONext; ONext].

Example io_dropped_before_react_cleanup_ok : io_dropped_before_react_cleanup =
  Ret ([LNew 0 false; LPollOne 0 10 Pending; LDrop 0; LReact; LComplete 10 1%Z false; LReact],
       true).
Proof. vm_compute. reflexivity. Qed.

(** *** [single_wakeup_write] *)
Definition single_wakeup_write : outcome (list (label nat) * bool) :=
  run_test [[(0, 1%Z, false)]]
    [ONew false; OPoll 0 (write_n 5 1) 20; OReact; ONext; ONext; OPoll 0 (write_n 5 1) 20; ODrop 0].

Example single_wakeup_write_ok : single_wakeup_write =
  Ret ([LNew 0 false; LPollOne 0 20 Pending; LReact; LComplete 20 1%Z false; LReact;
        LPollOne 0 20 (Ready (Ok 1%Z)); LDrop 0], true).
Proof. vm_compute. reflexivity. Qed.

(** *** [multi_events_same_fd_read] *)
Definition multi_events_same_fd_read : outcome (list (label nat) * bool) :=
  run_test [[(1, 1%Z, false); (0, 1%Z, false)]]
    [ONew false; OPoll 0 (read1 5) 10; ONew false; OPoll 1 (read1 5) 20;
     OReact; ONext; ONext; ONext;
     OPoll 0 (read1 5) 10; OPoll 1 (read1 5) 20; ODrop 1; ODrop 0].

Example multi_events_same_fd_read_ok : multi_events_same_fd_read =
  Ret ([LNew 0 false; LPollOne 0 10 Pending; LNew 1 false; LPollOne 1 20 Pending;
        LReact; LComplete 20 1%Z false; LComplete 10 1%Z false; LReact;
        LPollOne 0 10 (Ready (Ok 1%Z)); LPollOne 1 20 (Ready (Ok 1%Z));
        LDrop 1; LDrop 0], true).
Proof. vm_compute. reflexivity. Qed.

(** *** [multi_events_same_fd_write] *)
Definition multi_events_same_fd_write : outcome (list (label nat) * bool) :=
  run_test [[(0, 2%Z, false); (1, 2%Z, false)]]
    [ONew false; OPoll 0 (write_n 5 2) 10; ONew false; OPoll 1 (write_n 5 2) 20;
     OReact; ONext; ONext; ONext;
     OPoll 0 (write_n 5 2) 10; OPoll 1 (write_n 5 2) 20; ODrop 1; ODrop 0].

Example multi_events_same_fd_write_ok : multi_events_same_fd_write =
  Ret ([LNew 0 false; LPollOne 0 10 Pending; LNew 1 false; LPollOne 1 20 Pending;
        LReact; LComplete 10 2%Z false; LComplete 20 2%Z false; LReact;
        LPollOne 0 10 (Ready (Ok 2%Z)); LPollOne 1 20 (Ready (Ok 2%Z));
        LDrop 1; LDrop 0], true).
Proof. vm_compute. reflexivity. Qed.

(** ** Witnesses

    A run with a oneshot read and a multishot accept: the read completes with 5,
    the accept yields the descriptor 7, then ends. *)
#[local] Instance demo_script : KernelScript :=
  [[(0, 5%Z, false); (1, 7%Z, true)]; [(1, (-103)%Z, false)]].

Definition demo_ops : list (op sqe nat) :=
  [ONew false; OPoll 0 (read1 5) 10; ONew true; OPoll 1 (AcceptMulti 6) 20; OReact; ONext].

Definition result_of (ops : list (op sqe nat)) :
    list (label nat) * sys gslab lring sring nat :=
  match run_ops demo_script ops with
  | Ret x => x
  | _ => ([], s_init (ring_of demo_script))
  end.

(** Half way: the read is done, the accept has a completion to process. *)
Definition demo := result_of demo_ops.
(** The accept is over. *)
Definition demo_over := result_of (demo_ops ++ [ONext; OReact; ONext]).

Lemma run_from_init ops :
  run_ops demo_script ops = Ret (result_of ops) ->
  enabled_run demo_script ops (s_init (ring_of demo_script)) ->
  run (Entry:=sqe) (s_init (ring_of demo_script)) (result_of ops).1 (result_of ops).2.
Proof.
  intros E He. change ((result_of ops).1) with ([] ++ (result_of ops).1).
  eapply (exec_run demo_script ops); [constructor| |done].
  unfold run_ops in E. rewrite E. by destruct (result_of ops).
Qed.

Lemma demo_run : run (Entry:=sqe) (s_init (ring_of demo_script)) demo.1 demo.2.
Proof. apply run_from_init; [reflexivity|vm_compute; naive_solver]. Qed.

Lemma demo_over_run :
  run (Entry:=sqe) (s_init (ring_of demo_script)) demo_over.1 demo_over.2.
Proof. apply run_from_init; [reflexivity|vm_compute; naive_solver]. Qed.

Lemma oneshot_lifecycle_witness :
  let (k, st0) := OneshotStore.create_slot (∅ : gslab ResultState) in
  OneshotStore.get_result st0 k = Ret (None, st0).
Proof.
  pose proof (oneshot_lifecycle (S:=gslab) ∅ 5 6) as H. cbn in *. apply H.
Defined.

Lemma multishot_queue_witness :
  returns (let (k, st0) := MultishotStore.create_slot (∅ : gslab (MultishotResultState lring)) in
           s1 ← push_results st0 [4; 5]%Z k;
           s2 ← MultishotStore.set_finished s1 k;
           pop_results 3 s2 k)
          (fun '(rs, _) => rs = [MrValue 4; MrValue 5; MrFinished]).
Proof.
  exact (multishot_queue (S:=gslab) (B:=lring) ∅ [4; 5]%Z true).
Defined.

Lemma reactor_refines_mailboxes_witness :
  exists a, arun a_init demo.1 a /\ refines demo.2 a.
Proof.
  exact (reactor_refines_mailboxes (ring_of demo_script) demo.1 demo.2 eq_refl demo_run).
Defined.

Lemma reactor_calls_safe_witness :
  match run_op demo.2 (ONext (Entry:=sqe)) with
  | Ret _ => True
  | Panic p => may_panic (Entry:=sqe) demo.2 ONext p
  | Hang => (ONext : op sqe nat) = OReact
  | NoFuel => False
  end.
Proof.
  exact (reactor_calls_safe (ring_of demo_script) demo.1 demo.2 ONext eq_refl demo_run I).
Defined.

Lemma reactor_user_data_unique_witness :
  NoDup (places smore (uring_view (uring (s_ring demo.2)))) /\
  places smore (uring_view (uring (s_ring demo.2))) = [1].
Proof.
  split.
  - exact (proj1 (reactor_user_data_unique (Entry:=sqe) (ring_of demo_script) demo.1 demo.2
                    eq_refl demo_run)).
  - vm_compute. reflexivity.
Defined.

(** One read, from its submission to the drop of its handle. *)
Definition demo_clean := result_of
  [ONew false; OPoll 0 (read1 5) 10; OReact; ONext; OPoll 0 (read1 5) 10; ODrop 0].

Lemma demo_clean_run :
  run (Entry:=sqe) (s_init (ring_of demo_script)) demo_clean.1 demo_clean.2.
Proof. apply run_from_init; [reflexivity|vm_compute; naive_solver]. Qed.


(** The state after the accept has been submitted, its two completions still to come. *)
Definition demo_wait := result_of [ONew true; OPoll 0 (AcceptMulti 6) 20; ONew false; OPoll 1 (read1 5) 10].

Lemma demo_wait_run :
  run (Entry:=sqe) (s_init (ring_of demo_script)) demo_wait.1 demo_wait.2.
Proof. apply run_from_init; [reflexivity|vm_compute; naive_solver]. Qed.

Definition demo_it : ReactorInner gslab lring sring nat :=
  match react (Entry:=sqe) (s_ring demo_wait.2)
  with Ret it => it | _ => ring_of [] end.

Lemma react_wakes_all_witness :
  returns (react_collect (Entry:=sqe) 2 (s_ring demo_wait.2)) (fun '(it', wakers) =>
    rv_cq (uring_view (uring it')) = [] /\ length wakers = 1) /\ 1 <= 1.
Proof.
  assert (length (rv_cq (uring_view (Entry:=sqe) (uring demo_it))) = 1) as E by reflexivity.
  pose proof (react_wakes_all (Entry:=sqe) (ring_of demo_script) demo_wait.1 demo_wait.2 demo_it 2
                eq_refl demo_wait_run eq_refl) as H.
  cbv zeta in H. rewrite E in H. apply H. lia.
Defined.

(** The ring after one read has been submitted and has completed with 5. *)
Definition ring_done : ReactorInner gslab lring sring nat :=
  MkReactor (SRing rv_empty RING_ENTRIES []) ∅
    (MkResults {[0 := RsSet 5]} {[0 := MkMultishot (1024, [5%Z]) false false]}).

Definition three_polls : list (ReactorInner gslab lring sring nat * sqe * nat) :=
  [(ring_of demo_script, read1 5, 10); (ring_done, read1 5, 10); (ring_done, read1 5, 10)].

Lemma submit_closure_once_witness :
  exists ps1 io1 n1 ps2 io2 n2,
    poll_oneshot Oneshot.new 0 three_polls = Ret (ps1, io1, n1) /\
    poll_multishot Multishot.new 0 three_polls = Ret (ps2, io2, n2) /\
    n1 = 1 /\ head ps1 = Some Pending /\ n2 = 1 /\ head ps2 = Some Pending.
Proof.
  do 6 eexists. split; [vm_compute; reflexivity|]. split; [vm_compute; reflexivity|].
  refine (submit_closure_once three_polls _ _ _ _ _ _ _ _); vm_compute; reflexivity.
Defined.

Lemma multishot_pending_never_reclaimed_witness :
  exists t, slab_get (pending (s_ring demo_over.2)) 1 = Some (MkPending t 0 Multi).
Proof.
  exact (multishot_pending_never_reclaimed (Entry:=sqe) (ring_of demo_script)
           demo_over.1 demo_over.2 1 0 1 [] demo_over.2
           eq_refl demo_over_run eq_refl (run_nil _)).
Defined.

Lemma multishot_drop_panics_witness :
  run_op demo_over.2 (ODrop 1 : op sqe nat) = Panic UnwrapErr.
Proof.
  refine (multishot_drop_panics (Entry:=sqe) (ring_of demo_script) demo_over.1 demo_over.2 1 0 1
           eq_refl demo_over_run eq_refl _).
  left. eexists. split; [vm_compute; reflexivity|reflexivity].
Defined.

Lemma submission_limit_witness :
  match exec (submit_many 2 (read1 5) 10) (s_init (ring_of demo_script)) with
  | Ret _ => 2 <= RING_ENTRIES
  | Panic p => p = UnwrapErr /\ RING_ENTRIES < 2
  | _ => False
  end.
Proof. exact (submission_limit (Entry:=sqe) (ring_of demo_script) (read1 5) 10 2 eq_refl eq_refl). Defined.
