(* ===== verification/FutureTests.v ===== *)
(** Witnesses of the properties of the futures: each one applied to a concrete
    state of the reactor, of the descriptor table and of the future. *)
From S2P Require Import Prelude Bytes Crates CrateModels Results Reactor Io RingFacts Mailbox Refinement RefineOps System ReactorProps ReactorLimits Sqe ReactorTests Futures Libc LibcModel SockAddr Event ReadWrite Fs Timer Tcp Udp Mutex FuturesProps.

#[export] Instance sring_futures `{KernelScript} : FuturesRing sring.
Proof. done. Qed.

#[local] Existing Instance demo_script.
#[local] Existing Instance little_endian.
#[local] Existing Instance swapping.
#[local] Existing Instance little_endian_spec.

(** A oneshot handle, 0, and a multishot one, 1, with nothing submitted. *)
Definition idle := result_of [ONew false; ONew true].

Lemma idle_refines : exists a, refines (Entry:=sqe) idle.2 a.
Proof.
  destruct (run_refines (Entry:=sqe) (ring_of demo_script) idle.1 idle.2) as (a & _ & Ha); eauto.
  apply run_from_init; [reflexivity|vm_compute; naive_solver].
Qed.

(** In [demo] the operation of the handle 0 has completed with 5. *)
Lemma demo_refines : exists a, refines (Entry:=sqe) demo.2 a /\ a_mail a !! 0 = Some (AOneReady 5).
Proof.
  destruct (run_refines (Entry:=sqe) (ring_of demo_script) demo.1 demo.2
              (reactor_new_ring demo_script) demo_run)
    as (a & _ & Ha).
  exists a. split; [exact Ha|]. by apply (delivered_mail _ _ _ _ 0 0 5 Ha).
Qed.

(** ** Readers and writers *)
Lemma read_write_follow_mailbox_witness :
  match AsyncReader.poll (AsyncReader.MkReader 7 Oneshot.new 512 true) 10 (s_ring idle.2),
        AsyncWriter.poll (AsyncWriter.MkWriter 7 (Oneshot.Submitted 0) 512 false) 10 (s_ring demo.2) with
  | Ret (p, _, _), Ret (p', _, _) => p = Pending /\ exists q, resolves_with q p'
  | _, _ => False
  end.
Proof.
  destruct idle_refines as [a Ha]. destruct demo_refines as (a' & Ha' & _).
  destruct (read_write_follow_mailbox idle.2 a 0 Oneshot.New 10 7 512 true Ha eq_refl ltac:(lia)) as [H _].
  destruct (read_write_follow_mailbox demo.2 a' 0 (Oneshot.Submitted 0) 10 7 512 false Ha' eq_refl ltac:(lia))
    as [_ H'].
  destruct (AsyncReader.poll _ 10 (s_ring idle.2)) as [[[p f] r]|e| |] eqn:E; [|by vm_compute in E..].
  destruct (AsyncWriter.poll _ 10 (s_ring demo.2)) as [[[p' f'] r']|e| |] eqn:E'; [|by vm_compute in E'..].
  destruct H as (q & [_ Hq] & Hp & _). destruct H' as (q' & _ & Hp' & _).
  split; [|by exists q']. by destruct (Hq eq_refl) as [-> _].
Defined.

Example read_five :
  match AsyncReader.poll (AsyncReader.MkReader 7 (Oneshot.Submitted 0) 512 true) 10 (s_ring demo.2) with
  | Ret (p, f, _) => p = Ready (Ok 5%Z) /\ AsyncReader.io f = Oneshot.Finished 5
  | _ => False
  end.
Proof. vm_compute. done. Qed.

(** ** Files *)
Definition tmp : list Z := [116; 109; 112]%Z.

Lemma open_follows_mailbox_witness :
  FileOpen.create tmp = Ret (FileOpen.MkOpen tmp 66 Oneshot.New) /\
  FileOpen.open (tmp ++ [0%Z]) = Panic UnwrapErr.
Proof.
  split.
  - refine (proj1 (proj2 (open_follows_mailbox (S:=gslab) (B:=lring) (U:=sring) (T:=nat) true tmp)) _).
    intros H. vm_compute in H. set_solver.
  - refine (proj1 (open_follows_mailbox (S:=gslab) (B:=lring) (U:=sring) (T:=nat) false (tmp ++ [0%Z])) _).
    set_solver.
Defined.

Lemma mkdir_follows_mailbox_witness :
  match Mkdir.poll (Mkdir.MkMkdir Oneshot.new tmp) 10 (s_ring idle.2) with
  | Ret (p, _, _) => p = Pending
  | _ => False
  end.
Proof.
  destruct idle_refines as [a Ha].
  pose proof (proj2 (proj2 (mkdir_follows_mailbox (T:=nat) tmp)) idle.2 a 0 Oneshot.new 10 Ha eq_refl) as H.
  destruct (Mkdir.poll _ 10 (s_ring idle.2)) as [[[p f] r]|e| |] eqn:E; [|by vm_compute in E..].
  destruct H as (q & [_ Hq] & -> & _). by destruct (Hq eq_refl) as [-> _].
Defined.

(** ** Kernels *)

(** Nothing open; every call succeeds; the clock reads 100, then 200. *)
Definition k_empty : kernel := Kernel (KView ∅ ∅) [] 0 [100; 200]%Z.

(** Descriptor 3 is an event with the counter [c], 4 a timer. *)
Definition k_open (c : Z) : kernel :=
  Kernel (KView {[3%Z := 0; 4%Z := 1]}
            {[0 := KEvent c (EFD_NONBLOCK + EFD_SEMAPHORE); 1 := KTimer None]}) [] 0 [100; 200]%Z.

Lemma seek_result_witness :
  let '(r, _) := File.seek (File.MkFile 3) (File.Start 77) k_empty in
  match r with Ok n => n = 77%Z /\ is_u 63 n | Err _ => False end.
Proof.
  pose proof (seek_result (File.MkFile 3) (File.Start 77) k_empty) as H.
  cbn [seek_args] in H. destruct (File.seek _ _ k_empty) as [r l] eqn:E.
  assert (sys_lseek 3 77 SEEK_SET k_empty = (77%Z, k_empty)) as El by reflexivity.
  rewrite decide_True in H by done. change (File.inner (File.MkFile 3)) with 3%Z in H. rewrite El in H.
  destruct H as (_ & _ & Hr); [done|]. destruct r; [done|]. by destruct Hr.
Defined.

(** ** Timers *)
Definition a_timer (io : Oneshot.IoState) : Timer.Timer :=
  Timer.MkTimer 1000 io (replicate 8 0%Z) 4.

Lemma timer_first_poll_witness :
  match Timer.poll (a_timer Oneshot.New) 10 (s_ring idle.2) (k_open 0) with
  | Ret (p, _, _, l) => p = Pending /\ k_objs (libc_view l) !! 1 = Some (KTimer (Some 800%Z))
  | _ => False
  end.
Proof.
  destruct idle_refines as [a Ha].
  pose proof (timer_first_poll idle.2 a 0 (a_timer Oneshot.New) 10 (k_open 0) 1 Ha eq_refl eq_refl eq_refl) as H.
  specialize (H ltac:(split; [reflexivity|by exists None])). cbn [sys_now kernel_libc k_open kn_clock] in H.
  specialize (H ltac:(vm_compute; reflexivity)).
  destruct (Timer.poll _ 10 (s_ring idle.2) (k_open 0)) as [[[[p f] r] l]|e| |] eqn:E;
    [|by vm_compute in E..].
  destruct H as [[H _]|(_ & _ & -> & _ & _ & Hv)]; [by vm_compute in H|].
  split; [done|]. rewrite Hv. apply lookup_insert_eq.
Defined.

Lemma timer_later_polls_witness :
  match Timer.poll (a_timer (Oneshot.Submitted 0)) 10 (s_ring demo.2) (k_open 0) with
  | Ret (p, t, _, _) => t = Timer.set_io (Timer.io t) (a_timer (Oneshot.Submitted 0))
  | _ => False
  end.
Proof.
  destruct demo_refines as (a & Ha & _).
  pose proof (timer_later_polls demo.2 a 0 (a_timer (Oneshot.Submitted 0)) 10 (k_open 0) Ha eq_refl) as H.
  specialize (H ltac:(done)). cbn [sys_now kernel_libc k_open kn_clock] in H.
  destruct (Timer.poll _ 10 (s_ring demo.2) (k_open 0)) as [[[[p f] r] l]|e| |] eqn:E;
    [|by vm_compute in E..].
  by destruct H as (_ & Hf & _).
Defined.

(** A timer of no duration, polled before the clock moves, is not armed. *)
Example zero_sleep_is_not_armed :
  match Timer.sleep 0 (Kernel (KView ∅ ∅) [] 0 [500%Z]) with
  | Ret (Ok t, l) =>
      match Timer.poll t 10 (s_ring idle.2) l with
      | Ret (p, t, _, l) => p = Pending /\ k_objs (kn_view l) !! 1 = Some (KTimer None)
      | _ => False
      end
  | _ => False
  end.
Proof. vm_compute. done. Qed.

(** The clock passes the expiration between its two readings. *)
Example late_timer_panics :
  Timer.poll (a_timer Oneshot.New) 10 (s_ring idle.2)
    (Kernel (kn_view (k_open 0)) [] 0 [999; 1001]%Z) = Panic UnwrapErr.
Proof. vm_compute. done. Qed.

(** ** Events *)
Lemma notifications_counted_witness :
  let '(rs, l) := notify_all [Event.MkEvent 3; Event.MkEvent 3] (k_open 5) in
  k_objs (libc_view l) !! 0 = Some (KEvent (5 + count_ok rs) (EFD_NONBLOCK + EFD_SEMAPHORE)) /\
  length rs = 2.
Proof.
  pose proof (notifications_counted [Event.MkEvent 3; Event.MkEvent 3] 0 5
                (EFD_NONBLOCK + EFD_SEMAPHORE) (k_open 5)) as H.
  destruct (notify_all _ (k_open 5)) as [rs l].
  destruct H as (Hv & Hl & _); [repeat constructor|done|].
  rewrite Hv. split; [apply lookup_insert_eq|done].
Defined.

(** ** TCP *)
Example bind_localhost :
  match TcpListener.bind (Ok [localhost]) k_empty with
  | Ret (Ok lst, l) => TcpListener.inner lst = 3%Z /\ k_fds (kn_view l) !! 3%Z = Some 1
  | _ => False
  end.
Proof. vm_compute. done. Qed.

Example bind_nowhere : TcpListener.bind (Ok []) k_empty = Ret (Err (KindError NotFound), k_empty).
Proof. reflexivity. Qed.

(** The first address cannot be bound (EADDRINUSE), the second can. *)
Example bind_second :
  match TcpListener.bind (Ok [localhost; link_local])
          (Kernel (KView ∅ ∅) [None; Some 98%Z] 0 []) with
  | Ret (Ok lst, l) => TcpListener.inner lst = 3%Z /\ k_fds (kn_view l) = {[3%Z := 2]}
  | _ => False
  end.
Proof. vm_compute. done. Qed.


Definition connecting (io : Oneshot.IoState) : SockConnect.SockConnect :=
  SockConnect.MkConnect 3 io localhost.


Lemma connect_descriptors_witness :
  match Connect.poll (L:=kernel) (Connect.Unresumed (Ok [localhost])) 10 (s_ring idle.2) k_empty with
  | Ret (p, st, _, l) => holds (libc_view k_empty) p st (libc_view l)
  | _ => False
  end.
Proof.
  destruct (Connect.poll _ 10 (s_ring idle.2) k_empty) as [[[[p st] r] l]|e| |] eqn:E;
    [|by vm_compute in E..].
  exact (proj1 (connect_descriptors (Ok [localhost]) 3 (connecting Oneshot.New) (KindError InvalidData)
                  10 (s_ring idle.2) k_empty (libc_view k_empty) 0) p st r l E).
Defined.

(** ** UDP *)
Lemma recv_from_first_poll_witness :
  match RecvFrom.poll (RecvFrom.recv_from 8 1500) 10 (s_ring idle.2) with
  | Ret (p, f, _) => p = Pending /\ RecvFrom.iov f = MkIovec (Some (BorrowedBy "buf")) 1500
  | _ => False
  end.
Proof.
  destruct idle_refines as [a Ha].
  pose proof (recv_from_first_poll idle.2 a 0 8 1500 10 Ha eq_refl) as H.
  destruct (RecvFrom.poll _ 10 (s_ring idle.2)) as [[[p f] r]|e| |] eqn:E; [|by vm_compute in E..].
  by destruct H as (-> & _ & _ & ->).
Defined.

Lemma recv_from_result_witness :
  exists f r, RecvFrom.poll
    (kernel_received (wire link_local)
       (RecvFrom.set_io (Oneshot.Submitted 0) (RecvFrom.setup (RecvFrom.recv_from 8 1500)).2))
    10 (s_ring demo.2) = Ret (Ready (Ok (5%Z, link_local)), f, r).
Proof.
  destruct demo_refines as (a & Ha & Hm).
  refine (proj1 (recv_from_result demo.2 a 0 8 1500 10 (Oneshot.Submitted 0) 5 (wire link_local)
                   Ha eq_refl Hm _) _ link_local _ eq_refl); vm_compute; done.
Defined.

Lemma send_to_first_poll_witness :
  match SendTo.poll (SendTo.send_to 8 4 (Ok [localhost])) 10 (s_ring idle.2) with
  | Ret (p, f, _) => p = Pending /\ SendTo.csock f = CSockAddr_from localhost
  | _ => False
  end.
Proof.
  destruct idle_refines as [a Ha].
  pose proof (send_to_first_poll idle.2 a 0 8 4 (Ok [localhost]) 10 Ha eq_refl) as H.
  destruct (SendTo.poll _ 10 (s_ring idle.2)) as [[[p f] r]|e| |] eqn:E; [|by vm_compute in E..].
  destruct H as (-> & t & ts & Ht & _ & -> & _). by simplify_eq.
Defined.

Example send_to_unresolved_panics :
  SendTo.poll (SendTo.send_to 8 4 (Err (KindError InvalidInput))) 10 (s_ring idle.2) = Panic UnwrapErr.
Proof. vm_compute. done. Qed.

(** ** Mutexes *)
Definition a_mutex : Mutex.Mutex nat := Mutex.MkMutex (Event.MkEvent 3) 0%nat.

Lemma mutex_new_unlock_witness :
  match Mutex.guard_drop a_mutex (k_open 0) with
  | Ret l => k_objs (libc_view l) !! 0 = Some (KEvent 1 (EFD_NONBLOCK + EFD_SEMAPHORE))
  | Panic p => p = UnwrapErr
  | _ => False
  end.
Proof.
  pose proof (proj2 (mutex_new_unlock 0 (k_open 0)) a_mutex (k_open 0) 0 0%Z
                (EFD_NONBLOCK + EFD_SEMAPHORE)%Z eq_refl eq_refl) as H.
  destruct (Mutex.guard_drop a_mutex (k_open 0)) as [l|p| |]; try done.
  rewrite H. apply lookup_insert_eq.
Defined.

(** Once its read has taken the notification, [lock] returns the guard. *)
Lemma lock_implements_witness :
  match Mutex.lock a_mutex
          (Mutex.Waiting (Event.MkEvent 4) (EventWaiter.MkWaiter 4 (Oneshot.Submitted 0) (replicate 8 0%Z)))
          10 (s_ring demo.2) (k_open 0) with
  | Ret (p, st, _, l) => p = Ready tt /\ st = Mutex.Returned /\ l = Event.drop (Event.MkEvent 4) (k_open 0)
  | _ => False
  end.
Proof.
  destruct demo_refines as (a & Ha & Hm).
  pose proof (lock_implements a_mutex demo.2 a 0 (Event.MkEvent 4)
    (EventWaiter.MkWaiter 4 (Oneshot.Submitted 0) (replicate 8 0%Z)) 10 (k_open 0) 0 Ha eq_refl) as [_ H].
  destruct (H eq_refl) as [H' _]. clear H. rename H' into H.
  match goal with |- context [Mutex.lock ?m ?w ?c ?r ?l] =>
    destruct (Mutex.lock m w c r l) as [[[[p st] r'] l']|e| |] eqn:E end;
    [|by vm_compute in E..].
  destruct H as [(-> & _)|(-> & -> & -> & _)]; [by vm_compute in E|done].
Defined.

(** One task takes the mutex while another waits, then hands it over. *)
Definition nobody : areactor nat := AReactor ∅ ∅.

Lemma one_guard : exists m, rtc mstep (m_init nobody) m /\ m_guards m = 1.
Proof.
  set (a1 := put_mail 0 AOneNew nobody). set (a2 := put_out 0 7 false (put_mail 0 AOneWait a1)).
  set (a3 := complete 0 8 a2). set (a4 := put_mail 0 (AOneDone 8) a3).
  set (a5 := AReactor (delete 0 (a_mail a4)) (a_out a4)).
  set (m2 := MState a2 ({[0]} ∪ ∅) ∅ 0 1 0). set (m3 := MState a3 ({[0]} ∪ ∅) ∅ 0 0 0).
  assert (mstep (m_init nobody) m2) as S1.
  { apply (M_first (m_init nobody) 0 7 a1 a2); [by apply (A_new nobody 0 false)|by apply A_one_submit]. }
  assert (mstep m2 m3) as S2 by (apply (M_read m2 0 7 8 0); [set_solver|done..]).
  eexists. split.
  - eapply rtc_l; [exact S1|]. eapply rtc_l; [exact S2|]. apply rtc_once.
    apply (M_acquire m3 0 9 8 a4 a5); [set_solver|by apply (A_one_ready a3 0 9 8)|].
    by apply (A_drop a4 0 (AOneDone 8)).
  - done.
Qed.



(** ** Memory *)
Lemma drop_leaves_operation_witness :
  exists s, run_op demo_wait.2 (ODrop 1 : op sqe nat) = Ret (LDrop 1, s) /\
    uring (s_ring s) = uring (s_ring demo_wait.2).
Proof.
  destruct (run_refines (Entry:=sqe) (ring_of demo_script) demo_wait.1 demo_wait.2
              (reactor_new_ring demo_script) demo_wait_run) as (a & _ & Ha).
  assert (s_hs demo_wait.2 !! 1 = Some (HOne (Oneshot.Submitted 0))) as Hh by (vm_compute; reflexivity).
  assert (a_mail a !! 1 = Some AOneWait) as Hm.
  { apply (waiting_mail (s_ring demo_wait.2) (s_hs demo_wait.2) (s_next demo_wait.2) a 1 0);
      [exact Ha|exact Hh|vm_compute; reflexivity]. }
  destruct (drop_leaves_operation demo_wait.2 1 0 a Ha Hh Hm) as (s & E & Hu & _).
  by exists s.
Defined.

