(* ===== verification/TaskTests.v ===== *)
(** Runs of the executor on straight-line tasks, and the witnesses of its properties. *)
From S2P Require Import Prelude Bytes Crates CrateModels Results Reactor Io RingFacts Mailbox Refinement RefineOps System ReactorProps Sqe Futures Libc LibcModel Event Task TaskProps TaskLoop ExecutorProps Progress Script ScriptProgress.

#[local] Instance host : Host := false.

Abbreviation test_world := (world gslab lring sring kernel prog results).

Section runs.
Context (script : KernelScript).

Definition thread : test_world :=
  world_init (MkReactor (SRing rv_empty RING_ENTRIES script) ∅ (MkResults ∅ ∅))
    (Kernel (KView ∅ ∅) [] 0 []).

(** Spawn the tasks in order. *)
Fixpoint spawn_bodies (bodies : list (list cmd)) (w : test_world) : outcome test_world :=
  match bodies with
  | [] => mret w
  | b :: bodies => '(_, w) ← spawn (prog_new b) w; spawn_bodies bodies w
  end.

(** [for b in bodies { Executor::spawn(b); } Executor::run();]: what the
    channels hold at the end. *)
Definition run_all (bodies : list (list cmd)) : outcome (list (nat * option results)) :=
  w ← spawn_bodies bodies thread;
  w ← run poll_prog 100 100 w;
  mret ((fun '(ch, c) => (ch, buffer c)) <$> map_to_list (w_chans w)).

(** [Executor::block_on(async { body })] on a new thread. *)
Definition block_on_new (body : list cmd) : outcome results :=
  '(v, _) ← block_on poll_prog 100 100 (prog_new body) thread; mret v.
End runs.

Definition rd (fd : Z) : sqe := Read fd (BorrowedBy "buf") 1 0.

(** Nothing to wait for: [block_on(async { .. })] runs without the kernel. *)
Example block_on_immediate : block_on_new [] [] = Ret [].
Proof. vm_compute. reflexivity. Qed.

(** The last spawned task runs first; each gets its own results. *)
Example two_tasks :
  run_all [[(0, 7%Z, false)]; [(1, (-5)%Z, false)]; [(0, 9%Z, false)]]
    [[CIo (rd 3); CIo (rd 3)]; [CIo (rd 4)]] =
  Ret [(2, Some [Ok 7%Z]); (0, Some [Err (OsError 5); Ok 9%Z])].
Proof. vm_compute. reflexivity. Qed.

(** A task that spawns another, detaches it, and is over before it: the value
    of the other is lost. *)
Example spawned_task :
  run_all [[(0, 1%Z, false)]] [[CSpawn [CIo (rd 3)]]] =
  Ret [(2, None); (0, Some [])].
Proof. vm_compute. reflexivity. Qed.

(** One completion for a task that is over, while another task waits: the
    reactor wakes nobody and the loop unwraps the task it does not find. *)
Example orphan_completion_panics :
  run_all [[(1, 1%Z, false)]; [(1, 1%Z, false)]; [(0, 1%Z, false)]]
    [[CIo (rd 3); CAbandon (rd 3)]; [CIo (rd 4)]] = Panic UnwrapNone.
Proof. vm_compute. reflexivity. Qed.

(** A future that yields by waking its task never runs again. *)
Example yield_hangs : run_all [] [[CYield]] = Hang.
Proof. vm_compute. reflexivity. Qed.

(** ** Witnesses *)
#[local] Instance demo : KernelScript := [[(0, 7%Z, false)]].

Definition demo_spawned : test_world :=
  match spawn (prog_new [CIo (rd 3)]) (thread demo) with Ret (_, w) => w | _ => thread demo end.
Definition demo_done : test_world :=
  match executor_loop poll_prog 5 5 demo_spawned with Ret w => w | _ => thread demo end.

Lemma demo_wf : wf [] demo_spawned.
Proof.
  destruct (spawn (prog_new [CIo (rd 3)]) (thread demo)) as [[j w]|p| |] eqn:E; [|by vm_compute in E..].
  pose proof (wf_spawn _ _ _ _ _ (wf_init _ _) E) as Hw. unfold demo_spawned. by rewrite E.
Qed.


Lemma block_on_value_witness :
  exists v w, block_on poll_prog 5 5 (prog_new [CIo (rd 3)]) (thread demo) = Ret (v, w) /\
    yields poll_prog (prog_new [CIo (rd 3)]) v.
Proof.
  destruct (spawn (prog_new [CIo (rd 3)]) (thread demo)) as [[j w]|p| |] eqn:E; [|by vm_compute in E..].
  destruct (executor_loop poll_prog 5 5 w) as [w2|p| |] eqn:E2;
    [|vm_compute in E; injection E as <- <-; by vm_compute in E2..].
  destruct (block_on_value poll_prog (fun ch => 1 <= ch) 5 5 (prog_new [CIo (rd 3)]) (thread demo) j w w2
              (poll_prog_safe 1) (wf_init _ _) ltac:(cbn; lia) E E2) as (v & w3 & Eb & Hy & _).
  exists v, w3. split; [exact Eb|exact Hy].
Defined.

(** A task waiting at the key 0 of the slab. *)
Definition demo_waiting : test_world :=
  match executor_round poll_prog 5 demo_spawned with Ret (_, w) => w | _ => thread demo end.

Lemma demo_waiting_wf : wf [] demo_waiting.
Proof.
  destruct (executor_round poll_prog 5 demo_spawned) as [[b w]|p| |] eqn:E; [|by vm_compute in E..].
  destruct (wf_round poll_prog _ 0 (poll_prog_safe 0) _ _ _ _ demo_wf (Nat.le_0_l _) E) as [Hw _].
  unfold demo_waiting. by rewrite E.
Qed.

Lemma wake_moves_task_witness :
  length (run_q (wake (w_ids demo_waiting) 1 (w_exec demo_waiting))) = 1.
Proof.
  destruct (wake_moves_task [] demo_waiting 1 demo_waiting_wf) as (_ & _ & Hmove & _).
  destruct (slab_view (waiting (w_exec demo_waiting)) !! 0) as [t|] eqn:E; [|by vm_compute in E].
  destruct (Hmove 0 t E) as [-> _]; [by vm_compute in E; injection E as <-|]. vm_compute. reflexivity.
Defined.

Definition yielding : Task prog := MkTask 1 (MkTaskFuture (prog_new [CYield]) (Event.MkEvent 4) 0).

(** The world while the only task is being polled. *)
Definition demo_polling : test_world :=
  World (w_ring (thread demo)) (MkExecutor ∅ []) {[1 := 0]} {[0 := channel_new]} 2 (w_libc (thread demo)).

Lemma demo_polling_wf : wf [yielding] demo_polling.
Proof.
  split; cbn.
  - intros k t E. by rewrite lookup_empty in E.
  - repeat constructor. set_solver.
  - intros t Ht. apply elem_of_cons in Ht as [->|Ht]; [|by apply elem_of_nil in Ht].
    cbn. split; [by eexists|]. by exists channel_new.
  - repeat constructor. set_solver.
  - intros ch c Hc Ha. apply lookup_singleton_Some in Hc as [<- <-]. exists yielding.
    split; [by left|done].
  - split; intros l [x Hx]; apply lookup_singleton_Some in Hx as [<- _]; lia.
Qed.

Lemma self_wake_is_lost_witness :
  run_q (w_exec (requeue yielding Pending
    (set_exec (wake (w_ids demo_polling) 1 (w_exec demo_polling)) demo_polling))) = [].
Proof.
  destruct (self_wake_is_lost yielding (future yielding) demo_polling demo_polling_wf) as [_ [k Hk]].
  vm_compute. reflexivity.
Defined.

Lemma run_nothing_never_returns_witness :
  run poll_prog 9 9 (thread demo) <> Ret (thread demo).
Proof. exact (run_nothing_never_returns poll_prog 9 9 (thread demo) (thread demo) eq_refl eq_refl). Defined.

(** ** The executor returns *)
#[local] Instance ering_futures : FuturesRing ering.
Proof. done. Qed.

#[local] Instance ering_live : KernelLive ering.
Proof.
  split.
  - intros u Hv. cbn. assert (1 <= length (rv_cq (complete_all (rv_submit (er_view u))))) as Hl.
    { destruct (decide (rv_fly (rv_submit (er_view u)) = [])) as [E|E]; [|by apply complete_all_posts].
      unfold complete_all. rewrite E. cbn in E |- *. apply app_eq_nil in E as [E1 E2].
      destruct u as [[sq fly [|c cq]] cap]; cbn in *; [by subst|lia]. }
    rewrite decide_True by done. eauto.
  - intros u u'. cbn. case_decide; [|done]. intros [= <-] Hok. cbn. by apply complete_all_ones.
  - done.
Qed.

(** A process whose calls do not fail. *)
#[local] Instance kernel_roomy : Roomy kernel.
Proof.
  refine {| room l := kn_fail l = [] |}; cbn.
  - intros n fl l Hl. unfold m_open, fallible. rewrite Hl. cbn.
    split; [|done]. pose proof (next_fd_bounds (kn_view l)). lia.
  - intros fd l Hl [o Ho]. unfold fallible. rewrite Hl. cbn in Ho. rewrite Ho. cbn. eauto.
  - intros fd bs l Hl. unfold m_change, fallible. rewrite Hl. by repeat case_match.
  - done.
Defined.

Definition eager_ring : ReactorInner gslab lring ering nat :=
  MkReactor (ERing rv_empty RING_ENTRIES) ∅ (MkResults ∅ ∅).
Definition quiet_kernel : kernel := Kernel (KView ∅ ∅) [] 0 [].

(** Two tasks, of which the first spawns a third. *)
Definition demo_tasks : list prog :=
  [prog_new [CIo (rd 3); CSpawn [CIo (rd 5)]; CIo (rd 3)]; prog_new [CIo (rd 4)]].

Lemma run_returns_witness :
  exists js w1 w2, spawn_all demo_tasks (world_init eager_ring quiet_kernel) = Ret (js, w1) /\
    run poll_prog 20 1025 w1 = Ret w2 /\ all_tasks (w_exec w2) = [].
Proof.
  destruct (run_returns (S:=gslab) (B:=lring) (U:=ering) (L:=kernel) poll_prog prog_good io prog_work prog_extra
    (fun ch => 4 <= ch) demo_tasks eager_ring quiet_kernel 20 1025) as (js & w1 & w2 & E1 & E2 & E3 & _).
  - apply (poll_prog_safe 4).
  - cbn. lia.
  - apply prog_behaved.
  - reflexivity.
  - reflexivity.
  - repeat constructor.
  - done.
  - vm_compute. lia.
  - vm_compute. lia.
  - vm_compute. lia.
  - by exists js, w1, w2.
Defined.

Lemma block_on_returns_witness :
  exists v w, block_on poll_prog 9 1025 (prog_new [CIo (rd 3); CIo (rd 3)])
    (world_init eager_ring quiet_kernel : world gslab lring ering kernel prog results) = Ret (v, w).
Proof.
  destruct (block_on_returns (S:=gslab) (B:=lring) (U:=ering) (L:=kernel) poll_prog prog_good io prog_work prog_extra
    (fun ch => 1 <= ch) (prog_new [CIo (rd 3); CIo (rd 3)]) eager_ring quiet_kernel 9 1025) as (v & w & E & _).
  - apply (poll_prog_safe 1).
  - lia.
  - apply prog_behaved.
  - reflexivity.
  - reflexivity.
  - repeat constructor.
  - vm_compute. lia.
  - vm_compute. lia.
  - vm_compute. lia.
  - by exists v, w.
Defined.
