(* ===== verification/UnitTests.v ===== *)
(** The unit tests of src/src/futures: event.rs, mutex.rs, timer.rs, udp.rs
    and fs.rs, as blocks of Async.v.  UnitRuns.v runs them.

    A test that [block_on]s a block is a program on a world; of the tests of
    files only the block is modelled, with the path it is given, since the
    directory around it is made by another library. *)
From ITree Require Import ITree.
From S2P Require Import Prelude Bytes Crates CrateModels Results Reactor Io Sqe Libc SockAddr Event ReadWrite Fs Timer Tcp Udp Mutex Task TaskProps TaskLoop Joins Async AsyncProps Text Programs.

Open Scope Z_scope.

(** ** What the tests have in common *)
Section blocks.
Context {Code Val : Type}.
Abbreviation block := (body Code Val).

(** [assert!(b)] *)
Definition assert (b : bool) : block unit :=
  if b then mret tt else crash (Explicit "assertion failed").

(** [evt.wait().await.unwrap()] *)
Definition wait_for (evt : Event.Event) : block unit :=
  r ← await (AWait (EventWaiter.wait evt));
  unwrap_io r.

(** [evt.notify_one().unwrap()] *)
Definition notify (evt : Event.Event) : block unit :=
  r ← call (CNotify evt);
  unwrap_io r.

(** [Event::new().unwrap()] *)
Definition new_event : block Event.Event :=
  r ← call CEventNew;
  unwrap_io r.

(** [v.lock().await], and what its guard is used for: [obj] is the cell of the object. *)
Definition lock (v : Mutex.Mutex nat) : block unit := await (ALock v Mutex.Unresumed).
Definition deref (v : Mutex.Mutex nat) : block (list Z) := call (CLoad (Mutex.obj v)).
Definition deref_mut (v : Mutex.Mutex nat) (f : list Z -> list Z) : block unit :=
  x ← call (CLoad (Mutex.obj v));
  call (CStore (Mutex.obj v) (f x)).
Definition drop_guard (v : Mutex.Mutex nat) : block unit := call (CGuardDrop v).

(** [Vec::push] *)
Definition push (x : Z) (v : list Z) : list Z := v ++ [x].

(** [Instant::now() - before] *)
Definition since (before : Z) : block Z :=
  now ← call CNow;
  mret (Z.max 0 (now - before)).

(** [assert!(Instant::now() - before > d)], and [<] *)
Definition assert_later (before d : Z) : block unit :=
  t ← since before;
  assert (bool_decide (t > d)).
Definition assert_sooner (before d : Z) : block unit :=
  t ← since before;
  assert (bool_decide (t < d)).
End blocks.

(** ** event.rs *)
Module EventTests.
Inductive code := Once (evt : Event.Event) | Forty (evt : Event.Event).
Abbreviation block := (body code unit).

(** The task of [simple] *)
Definition wait_once (evt : Event.Event) : block unit :=
  _ ← wait_for evt;
  call (CEventDrop evt).

Definition simple : block unit :=
  evt ← new_event;
  evt2 ← call (CEventClone evt);
  task ← call (CSpawn (Once evt2));
  _ ← notify evt;
  _ ← await (AJoin task);
  call (CEventDrop evt).

(** The task of [multi_notifiers] *)
Definition wait_forty (evt : Event.Event) : block unit :=
  _ ← ITree.iter (fun count =>
        if decide (count < 40) then _ ← wait_for evt; count ← add_one 31 count; mret (inl count)
        else mret (inr tt)) 0;
  call (CEventDrop evt).

(** The two threads notify in turns: [true] for the first.  Nothing else
    happens on this thread while it joins them. *)
Fixpoint notifiers (turns : list bool) (t1 t2 : Event.Event) : block unit :=
  match turns with
  | [] => mret tt
  | turn :: turns => _ ← notify (if turn : bool then t1 else t2); notifiers turns t1 t2
  end.

Definition multi_notifiers (turns : list bool) : block unit :=
  evt ← new_event;
  evt2 ← call (CEventClone evt);
  task ← call (CSpawn (Forty evt2));
  t1 ← call (CEventClone evt);
  t2 ← call (CEventClone evt);
  _ ← notifiers turns t1 t2;
  _ ← call (CEventDrop t1);
  _ ← call (CEventDrop t2);
  _ ← await (AJoin task);
  call (CEventDrop evt).

Definition run_code (c : code) : block unit :=
  match c with Once evt => wait_once evt | Forty evt => wait_forty evt end.
End EventTests.

(** ** mutex.rs *)
Module MutexTests.
Inductive code :=
  | Simple (v : Mutex.Mutex nat)
  | MultipleLocks (v : Mutex.Mutex nat)
  | Push (v : Mutex.Mutex nat)
  | SleepPush (v : Mutex.Mutex nat).
Abbreviation block := (body code unit).

(** [v.lock().await.push(2)] *)
Definition push_two (v : Mutex.Mutex nat) : block unit :=
  _ ← lock v;
  _ ← deref_mut v (push 2);
  drop_guard v.

Definition sleep_push (v : Mutex.Mutex nat) : block unit :=
  _ ← sleep_for (from_millis 500);
  push_two v.

Definition simple_block (v : Mutex.Mutex nat) : block unit :=
  _ ← lock v;
  t2 ← call (CSpawn (Push v));
  _ ← sleep_for (from_millis 250);
  _ ← deref_mut v (push 1);
  _ ← drop_guard v;
  await (AJoin t2).

Definition multiple_locks_block (vv : Mutex.Mutex nat) : block unit :=
  _ ← lock vv;
  t2 ← call (CSpawn (Push vv));
  t3 ← call (CSpawn (Push vv));
  t4 ← call (CSpawn (Push vv));
  t5 ← call (CSpawn (SleepPush vv));
  _ ← sleep_for (from_millis 500);
  _ ← deref_mut vv (push 1);
  _ ← drop_guard vv;
  _ ← await (AJoin t2);
  _ ← await (AJoin t3);
  _ ← await (AJoin t5);
  await (AJoin t4).

Definition run_code (c : code) : block unit :=
  match c with
  | Simple v => simple_block v
  | MultipleLocks v => multiple_locks_block v
  | Push v => push_two v
  | SleepPush v => sleep_push v
  end.

Section tests.
Context {S : Type -> Type} `{Slab S} {B : Type} `{RingBuffer B}.
Context {U : Type} `{IoUring U sqe} {L : Type} `{Libc L} `{Host} `{NetOrder} `{!Process L}.
Abbreviation world := (world S B U L (body code unit unit) unit).

(** A test: the mutex, in cell 0, the block, and the assertion on the object at the end. *)
Definition test (main : Mutex.Mutex nat -> code) (expected : list Z) (rounds fuel : nat) (w : world) :
    outcome (result unit io_error * world) :=
  let (r, l) := Mutex.new 0%nat (store 0 [0] (w_libc w)) in
  match r with
  | Err e => mret (Err e, set_libc l w)
  | Ok v =>
      '(_, w) ← block_on (poll_block run_code fuel) rounds fuel (run_code (main v)) (set_libc l w);
      if decide (load (Mutex.obj v) (w_libc w) = expected) then
        mret (Ok tt, set_libc (Event.drop (Mutex.evt v) (w_libc w)) w)
      else Panic (Explicit "assertion `left == right` failed")
  end.

Definition simple : nat -> nat -> world -> outcome (result unit io_error * world) :=
  test Simple [0; 1; 2].
Definition multiple_locks : nat -> nat -> world -> outcome (result unit io_error * world) :=
  test MultipleLocks [0; 1; 2; 2; 2; 2].
End tests.
End MutexTests.

(** ** timer.rs *)
Module TimerTests.
Inductive code := Sleep (secs : Z).
Abbreviation block := (body code unit).

Definition run_code (c : code) : block unit := match c with Sleep secs => sleep_for (from_secs secs) end.

Definition multiple_tasks_block : block unit :=
  before ← call CNow;
  t1 ← call (CSpawn (Sleep 1));
  t2 ← call (CSpawn (Sleep 1));
  t3 ← call (CSpawn (Sleep 2));
  _ ← await (AJoin t1);
  _ ← await (AJoin t2);
  _ ← assert_later before (from_millis 900);
  _ ← assert_sooner before (from_millis 1100);
  _ ← await (AJoin t3);
  _ ← assert_later before (from_millis 1900);
  assert_sooner before (from_millis 2100).

Definition subtasks_block (before : Z) : block unit :=
  _ ← sleep_for (from_secs 1);
  _ ← assert_later before (from_millis 900);
  _ ← assert_sooner before (from_millis 1100);
  t1 ← call (CSpawn (Sleep 1));
  t2 ← call (CSpawn (Sleep 1));
  _ ← await (AJoin t1);
  _ ← await (AJoin t2);
  _ ← assert_later before (from_millis 1900);
  assert_sooner before (from_millis 2100).

Section tests.
Context {S : Type -> Type} `{Slab S} {B : Type} `{RingBuffer B}.
Context {U : Type} `{IoUring U sqe} {L : Type} `{Libc L} `{Host} `{NetOrder} `{!Process L}.
Abbreviation world := (world S B U L (body code unit unit) unit).

Definition now (w : world) : Z * world := let (t, l) := instant (w_libc w) in (t, set_libc l w).

(** [assert!(Instant::now() - before > d)] outside the block, and [<] *)
Definition check (test : Z -> bool) (before : Z) (w : world) : outcome world :=
  let (t, w) := now w in
  if test (Z.max 0 (t - before)) then mret w else Panic (Explicit "assertion failed").

Definition sleep_simple (rounds fuel : nat) (w : world) : outcome world :=
  let (before, w) := now w in
  '(_, w) ← block_on (poll_block run_code fuel) rounds fuel (sleep_for (from_secs 1)) w;
  check (fun t => bool_decide (t > from_millis 900)) before w.

Definition sleep_multiple_tasks (rounds fuel : nat) (w : world) : outcome world :=
  '(_, w) ← block_on (poll_block run_code fuel) rounds fuel multiple_tasks_block w;
  mret w.

Definition sleep_subtasks (rounds fuel : nat) (w : world) : outcome world :=
  let (before, w) := now w in
  '(_, w) ← block_on (poll_block run_code fuel) rounds fuel (subtasks_block before) w;
  w ← check (fun t => bool_decide (t > from_millis 1900)) before w;
  check (fun t => bool_decide (t < from_millis 2100)) before w.
End tests.
End TimerTests.

(** ** udp.rs *)
Module UdpTests.
Inductive code := Receive (rx_sock : Z).
Abbreviation block := (body code unit).

Definition receive (rx_sock : Z) : block unit :=
  r ← await (ARecvFrom (RecvFrom.recv_from rx_sock 4));
  _ ← unwrap_io r;
  close rx_sock.

Definition run_code (c : code) : block unit := match c with Receive rx_sock => receive rx_sock end.

Definition send_recv : block unit :=
  let dst := V4 LOCALHOST 8086 in
  r ← call (CUdpBind (V4 LOCALHOST 0));
  tx_sock ← unwrap_io r;
  r ← call (CUdpBind dst);
  rx_sock ← unwrap_io r;
  task ← call (CSpawn (Receive rx_sock));
  let buf := le_bytes 4 3735928559 in
  r ← await (ASendTo (SendTo.send_to tx_sock (Z.of_nat (length buf)) (Ok [dst])));
  _ ← unwrap_io r;
  _ ← await (AJoin task);
  close tx_sock.
End UdpTests.

(** ** fs.rs *)
Module FsTests.
Section tests.
Context {Code Val : Type} (child_path : list Z).
Abbreviation block := (body Code Val).

(** [File::open(path).await], and [create] *)
Definition open (path : list Z) : block (io_result File.File) :=
  f ← call (COpen path);
  await (AOpen f).
Definition create (path : list Z) : block (io_result File.File) :=
  f ← call (CCreate path);
  await (AOpen f).

(** [f.write(bytes).await.unwrap()] *)
Definition write (f : File.File) (bytes : list Z) : block Z :=
  r ← await (AWrite bytes (File.write f (Z.of_nat (length bytes))));
  unwrap_io r.

(** [f.read(&mut buf).await.unwrap()]: the number of bytes, and the buffer *)
Definition read (f : File.File) (buf : list Z) : block (Z * list Z) :=
  r ← await (ARead (File.read f (Z.of_nat (length buf))));
  bs ← unwrap_io r;
  mret (Z.of_nat (length bs), fill buf bs).

(** [f.read(&mut buf).await.unwrap(); assert_eq!(buf, expected)] *)
Definition expect (f : File.File) (buf : list Z) (expected : string) : block (list Z) :=
  '(_, buf) ← read f buf;
  _ ← assert (bool_decide (buf = lit expected));
  mret buf.

Definition simple_write : block Z :=
  r ← create child_path;
  f ← unwrap_io r;
  n ← write f (lit "Hello, world!");
  _ ← close (File.inner f);
  mret n.

Definition simple_read : block unit :=
  r ← open child_path;
  f ← unwrap_io r;
  let buf := replicate 1024 0 in
  '(len, buf) ← read f buf;
  _ ← assert (bool_decide (take (Z.to_nat len) buf = lit "Hello, async!"));
  close (File.inner f).

Definition no_file_open_error : block unit :=
  f ← open child_path;
  assert (match f with Err _ => true | Ok _ => false end).

Definition create_on_existing_file : block unit :=
  f ← create child_path;
  match f with
  | Ok f => close (File.inner f)
  | Err _ => assert false
  end.

Definition consecutive_writes : block unit :=
  r ← create child_path;
  f ← unwrap_io r;
  _ ← write f (lit "Hello");
  _ ← write f (lit "ABCD");
  close (File.inner f).

Definition consecutive_reads : block unit :=
  let buf := [0; 0] in
  r ← open child_path;
  f ← unwrap_io r;
  buf ← expect f buf "ab";
  buf ← expect f buf "cd";
  _ ← expect f buf "ef";
  close (File.inner f).

Definition simple_seek : block unit :=
  let buf := [0; 0] in
  r ← open child_path;
  f ← unwrap_io r;
  buf ← expect f buf "ab";
  buf ← expect f buf "cd";
  buf ← expect f buf "ef";
  r ← call (CSeek f (File.Current (-4)));
  _ ← unwrap_io r;
  buf ← expect f buf "cd";
  _ ← expect f buf "ef";
  close (File.inner f).

(** [dir_path] is [child_path] here. *)
Definition simple_mkdir : block unit :=
  m ← call (CMkdir (path_join child_path (lit "test_dir")));
  r ← await (AMkdir m);
  unwrap_io r.
End tests.
End FsTests.
