(* ===== verification/DocTests.v ===== *)
(** The examples in the documentation of src/src, which rustdoc compiles and
    runs as tests: lib.rs, task.rs, and event.rs, mutex.rs, timer.rs, fs.rs, tcp.rs and
    udp.rs of src/src/futures.  DocRuns.v runs them.

    The examples with threads of their own are run by Threads.v: the blocks of
    the tasks are here, and the calls of a thread that has no executor are a list of actions. *)
From ITree Require Import ITree.
From S2P Require Import Prelude Bytes Crates CrateModels Results Reactor Io Sqe Libc SockAddr Event ReadWrite Fs Timer Tcp Udp Mutex Task TaskProps TaskLoop Joins Async AsyncProps Threads Text Programs UnitTests.

Open Scope Z_scope.

(** [assert_eq!] outside a block *)
Definition assert_eq {A} `{EqDecision A} (x y : A) : outcome unit :=
  if decide (x = y) then mret tt else Panic (Explicit "assertion `left == right` failed").

(** [*x += k] on an [i32], behind a [RefCell] or a [std::sync::Mutex] in cell [i] *)
Definition add_assign {Code Val} (i : nat) (k : Z) : body Code Val unit :=
  v ← call (CLoad i);
  let x := default 0 (head v) + k in
  if decide (x < 2 ^ 31) then call (CStore i [x]) else crash ArithOverflow.

(** ** task.rs *)
Module TaskDocs.
Inductive code := Hello | World | Add (i : nat) (k : Z).
Abbreviation block := (body code unit).

Definition run_code (c : code) : block unit :=
  match c with
  | Hello => println "Hello"
  | World => println "World!"
  | Add i k => add_assign i k
  end.

Section docs.
Context {S : Type -> Type} `{Slab S} {B : Type} `{RingBuffer B}.
Context {U : Type} `{IoUring U sqe} {L : Type} `{Libc L} `{Host} `{NetOrder} `{!Process L}.
Abbreviation world := (world S B U L (body code unit unit) unit).

(** [Executor::block_on(async { println!("Hello, world!"); })] *)
Definition hello_world (rounds fuel : nat) (w : world) : outcome (unit * world) :=
  block_on (poll_block run_code fuel) rounds fuel (println "Hello, world!") w.

(** [let x = Executor::block_on(async { 2 + 8 }); assert_eq!(x, 10);] *)
Definition value (rounds fuel : nat) (w : Task.world S B U L (body code Z Z) Z) :
    outcome (Task.world S B U L (body code Z Z) Z) :=
  '(x, w) ← block_on (poll_block (fun _ : code => mret 0) fuel) rounds fuel (mret (2 + 8)) w;
  _ ← assert_eq x 10;
  mret w.

(** Two top-level tasks *)
Definition two_tasks (rounds fuel : nat) (w : world) : outcome world :=
  w ← spawn_detached run_code Hello w;
  w ← spawn_detached run_code World w;
  run (poll_block run_code fuel) rounds fuel w.

(** [Rc<RefCell<i32>>], in cell 0 *)
Definition not_sync (rounds fuel : nat) (w : world) : outcome world :=
  let w := set_libc (store 0 [0] (w_libc w)) w in
  w ← spawn_detached run_code (Add 0 10) w;
  w ← spawn_detached run_code (Add 0 10) w;
  w ← run (poll_block run_code fuel) rounds fuel w;
  _ ← assert_eq (load 0 (w_libc w)) [20];
  mret w.

(** [thread::spawn(f)] and [join]: the thread has an executor and a reactor of
    its own, and shares the process.  Here the spawning thread does nothing in between. *)
Definition in_thread (f : world -> outcome world) (w : world) : outcome world :=
  ring ← reactor_new;
  w2 ← f (world_init ring (w_libc w));
  mret (set_libc (w_libc w2) w).

(** [Arc<Mutex<i32>>], in cell 0 *)
Definition threads (rounds fuel : nat) (w : world) : outcome world :=
  let w := set_libc (store 0 [0] (w_libc w)) w in
  w ← spawn_detached run_code (Add 0 1) w;
  w ← spawn_detached run_code (Add 0 1) w;
  w ← in_thread (fun w =>
    w ← spawn_detached run_code (Add 0 1) w;
    run (poll_block run_code fuel) rounds fuel w) w;
  _ ← assert_eq (load 0 (w_libc w)) [1];
  w ← run (poll_block run_code fuel) rounds fuel w;
  _ ← assert_eq (load 0 (w_libc w)) [3];
  mret w.
End docs.
End TaskDocs.

(** ** lib.rs *)
Module LibDocs.
Inductive code := Hello | World.
Definition run_code (c : code) : body code unit unit :=
  match c with
  | Hello => _ ← sleep_for (from_secs 1); println "Hello, "
  | World => _ ← sleep_for (from_secs 2); println "World!"
  end.

Section docs.
Context {S : Type -> Type} `{Slab S} {B : Type} `{RingBuffer B}.
Context {U : Type} `{IoUring U sqe} {L : Type} `{Libc L} `{Host} `{NetOrder} `{!Process L}.

Definition main (rounds fuel : nat) (w : world S B U L (body code unit unit) unit) : outcome _ :=
  w ← spawn_detached run_code Hello w;
  w ← spawn_detached run_code World w;
  run (poll_block run_code fuel) rounds fuel w.
End docs.
End LibDocs.

(** ** event.rs *)
Module EventDocs.
Inductive code := Main | Waits (evt2 : Event.Event) | Queued | WaitsTwenty (evt2 : Event.Event).
Inductive value := Unit | Res (r : result unit io_error).
Abbreviation block := (body code value).

(** The block; [?] leaves it early, and then drops what it has. *)
Definition main_block : block (result unit io_error) :=
  r ← call CEventNew;
  match r with
  | Err e => mret (Err e)
  | Ok evt =>
      evt2 ← call (CEventClone evt);
      tsk ← call (CSpawn (Waits evt2));
      _ ← sleep_for (from_secs 1);
      r ← call (CNotify evt);
      match r with
      | Err e => _ ← call (CDetach tsk); _ ← call (CEventDrop evt); mret (Err e)
      | Ok _ => _ ← await (AJoin tsk); _ ← call (CEventDrop evt); mret (Ok tt)
      end
  end.

(** The second example: notifications that queue up.  [for _ in 0..n] *)
Fixpoint times (n : nat) (t : block unit) : block unit :=
  match n with O => mret tt | Datatypes.S n => _ ← t; times n t end.

(** [evt.notify_one();], its result unused *)
Definition notify_quietly (evt : Event.Event) : block unit := _ ← call (CNotify evt); mret tt.

(** The block.  The thread it starts before it notifies is [notifier]. *)
Definition queued_block : block (result unit io_error) :=
  r ← call CEventNew;
  match r with
  | Err e => mret (Err e)
  | Ok evt =>
      evt2 ← call (CEventClone evt);
      evt3 ← call (CEventClone evt);
      tsk ← call (CSpawn (WaitsTwenty evt2));
      _ ← times 10 (notify_quietly evt);
      _ ← await (AJoin tsk);
      _ ← call (CEventDrop evt);
      mret (Ok tt)
  end.

Definition wait_twenty (evt2 : Event.Event) : block unit :=
  _ ← ITree.iter (fun count =>
        if decide (count < 20) then _ ← wait_for evt2; count ← add_one 31 count; mret (inl count)
        else mret (inr tt)) 0;
  call (CEventDrop evt2).

Definition run_code (c : code) : block value :=
  match c with
  | Main => r ← main_block; mret (Res r)
  | Waits evt2 => _ ← wait_for evt2; _ ← call (CEventDrop evt2); mret Unit
  | Queued => r ← queued_block; mret (Res r)
  | WaitsTwenty evt2 => _ ← wait_twenty evt2; mret Unit
  end.

(** The thread [i] that the block starts: ten notifications, then the event is dropped. *)
Definition notifier (i : nat) (evt3 : Event.Event) : list (action (Code:=code)) :=
  replicate 10 (Sync i (CNotify evt3)) ++ [Sync i (CEventDrop evt3)].
End EventDocs.

(** ** mutex.rs *)
Module MutexDocs.
Inductive code := First (cell : Mutex.Mutex nat) | Second (cell : Mutex.Mutex nat) | Final (cell : Mutex.Mutex nat).
Abbreviation block := (body code unit).

Definition first (cell : Mutex.Mutex nat) : block unit :=
  _ ← lock cell;
  _ ← sleep_for (from_secs 1);
  _ ← add_assign (Mutex.obj cell) 1;
  drop_guard cell.

Definition second (cell : Mutex.Mutex nat) : block unit :=
  _ ← sleep_for (from_millis 100);
  _ ← lock cell;
  _ ← add_assign (Mutex.obj cell) 1;
  drop_guard cell.

(** The last owner of the mutex: its event is dropped at the end. *)
Definition final (cell : Mutex.Mutex nat) : block unit :=
  _ ← lock cell;
  x ← deref cell;
  _ ← assert (bool_decide (x = [2]));
  _ ← drop_guard cell;
  call (CEventDrop (Mutex.evt cell)).

Definition run_code (c : code) : block unit :=
  match c with First cell => first cell | Second cell => second cell | Final cell => final cell end.

Section docs.
Context {S : Type -> Type} `{Slab S} {B : Type} `{RingBuffer B}.
Context {U : Type} `{IoUring U sqe} {L : Type} `{Libc L} `{Host} `{NetOrder} `{!Process L}.

Definition main (rounds fuel : nat) (w : world S B U L (body code unit unit) unit) : outcome _ :=
  let (r, l) := Mutex.new 0%nat (store 0 [0] (w_libc w)) in
  cell ← unwrap_result r;
  w ← spawn_detached run_code (First cell) (set_libc l w);
  w ← spawn_detached run_code (Second cell) w;
  w ← run (poll_block run_code fuel) rounds fuel w;
  '(_, w) ← block_on (poll_block run_code fuel) rounds fuel (run_code (Final cell)) w;
  mret w.
End docs.
End MutexDocs.

(** ** timer.rs, fs.rs, tcp.rs, udp.rs *)
Section docs.
Context {Code Val : Type}.
Abbreviation block := (body Code Val).
Abbreviation io_block := (block (result unit io_error)).

Definition timer_doc : io_block :=
  now ← call CNow;
  _ ← sleep_for (from_secs 2);
  _ ← assert_later now (from_secs 2);
  mret (Ok tt).

(** [path] is in a directory made by another library.  [rewind] is a seek to the start. *)
Definition fs_doc (path : list Z) : io_block :=
  let buf := replicate 1024 0 in
  f ← call (CCreate path);
  file ← await (AOpen f);
  match file with
  | Err e => mret (Err e)
  | Ok file =>
      let text := lit "Hello, world!" in
      r ← await (AWrite text (File.write file (Z.of_nat (length text))));
      r ← match r with
        | Err e => mret (Err e)
        | Ok _ =>
            r ← call (CSeek file (File.Start 0));
            match r with
            | Err e => mret (Err e)
            | Ok _ =>
                r ← await (ARead (File.read file (Z.of_nat (length buf))));
                match r with
                | Err e => mret (Err e)
                | Ok bs =>
                    let buf := fill buf bs in
                    _ ← assert (bool_decide (take (length bs) buf = text));
                    mret (Ok tt)
                end
            end
        end;
      _ ← close (File.inner file);
      mret r
  end.

(** The inner [loop] of the echo server *)
Definition tcp_turn (sock : TcpStream.TcpStream) (buf : list Z) : block (list Z + result unit io_error) :=
  r ← await (ARead (TcpStream.read sock (Z.of_nat (length buf))));
  match r with
  | Err e => mret (inr (Err e))
  | Ok bs =>
      let buf := fill buf bs in
      if decide (length bs = 0%nat) then mret (inr (Ok tt))
      else
        r ← await (AWrite buf (TcpStream.write sock (Z.of_nat (length buf))));
        match r with
        | Err e => mret (inr (Err e))
        | Ok _ => mret (inl buf)
        end
  end.

(** A turn of the [while let]: the inner loop has no [break], so each way out
    of the body is a [return] of the block. *)
Definition tcp_accept (listener : TcpListener.TcpListener) :
    block (TcpListener.TcpListener + TcpListener.TcpListener * result unit io_error) :=
  '(conn, listener) ← await (ANext listener);
  match conn with
  | Some (Ok sock) =>
      r ← ITree.iter (tcp_turn sock) [0];
      _ ← close (TcpStream.inner sock);
      mret (inr (listener, r))
  | _ => mret (inr (listener, Ok tt))
  end.

Definition tcp_doc : io_block :=
  r ← call (CBind (Ok [V4 UNSPECIFIED 8888]));
  match r with
  | Err e => mret (Err e)
  | Ok listener =>
      '(listener, r) ← ITree.iter tcp_accept listener;
      _ ← call (CListenerDrop listener);
      mret r
  end.

(** A turn of the [loop] of the echo server; [&buf[..len]] panics out of bounds. *)
Definition udp_turn (sock : Z) (_ : unit) : block (unit + result unit io_error) :=
  r ← await (ARecvFrom (RecvFrom.recv_from sock 1500));
  match r with
  | Err e => mret (inr (Err e))
  | Ok (len, src) =>
      if decide (len <= 1500) then
        r ← await (ASendTo (SendTo.send_to sock len (Ok [src])));
        match r with
        | Err e => mret (inr (Err e))
        | Ok _ => mret (inl tt)
        end
      else crash IndexOutOfBounds
  end.

Definition udp_doc : io_block :=
  r ← call (CUdpBind (V4 UNSPECIFIED 8888));
  match r with
  | Err e => mret (Err e)
  | Ok sock =>
      r ← ITree.iter (udp_turn sock) tt;
      _ ← close sock;
      mret r
  end.

Definition recv_from_doc : io_block :=
  r ← call (CUdpBind (V4 UNSPECIFIED 0));
  match r with
  | Err e => mret (Err e)
  | Ok sock =>
      r ← await (ARecvFrom (RecvFrom.recv_from sock 1500));
      _ ← close sock;
      mret (match r with Ok _ => Ok tt | Err e => Err e end)
  end.

(** 192.168.0.1 *)
Definition send_to_doc : io_block :=
  r ← call (CUdpBind (V4 UNSPECIFIED 0));
  match r with
  | Err e => mret (Err e)
  | Ok sock =>
      let buf := [173; 190; 239] in
      r ← await (ASendTo (SendTo.send_to sock (Z.of_nat (length buf)) (Ok [V4 3232235521 8080])));
      _ ← close sock;
      mret (match r with Ok _ => Ok tt | Err e => Err e end)
  end.
End docs.
