(* ===== verification/EventThreads.v ===== *)
(** Events between threads: a task that waits for more notifications than its
    own thread gives has received the others from other threads.  The example is the
    second one in the documentation of src/src/futures/event.rs. *)
From ITree Require Import ITree.
From S2P Require Import Prelude Bytes Crates CrateModels Results Reactor Io Sqe Libc SockAddr Event ReadWrite Fs Timer Tcp Udp Mutex Task TaskProps TaskLoop Joins Async AsyncProps Output Seen History Recorded Monitor Critical Threads ThreadProps Programs UnitTests DocTests.

Open Scope nat_scope.

(** ** Counting events *)
Section tally.
Context {A : Type} (f : A -> bool).

Definition tally (l : list A) : nat := length (filter (fun x => f x) l).

Lemma tally_app l1 l2 : tally (l1 ++ l2) = tally l1 + tally l2.
Proof. unfold tally. by rewrite filter_app, length_app. Qed.

Lemma tally_cons x l : tally (x :: l) = (if f x then 1 else 0) + tally l.
Proof. unfold tally. rewrite filter_cons. destruct (f x); by case_decide. Qed.

Lemma tally_length l : tally l <= length l.
Proof. apply length_filter. Qed.

(** The events of one participant, and those of the others *)
Definition others {K} `{EqDecision K} (k : K) (h : list (K * A)) : list (K * A) := filter (fun x => x.1 <> k) h.

Lemma tally_others {K} `{EqDecision K} (k : K) h : tally h.*2 = tally (proj k h) + tally (others k h).*2.
Proof.
  induction h as [|[j x] h IH]; [done|]. rewrite fmap_cons, tally_cons, IH, proj_cons, tally_app. unfold others. rewrite filter_cons.
  cbn [fst snd]. destruct (decide (j = k)) as [Hj|Hj].
  - rewrite decide_False by tauto. rewrite tally_cons. change (tally []) with 0. lia.
  - rewrite decide_True by done. rewrite fmap_cons, tally_cons. change (tally []) with 0. cbn [snd]. lia.
Qed.
End tally.

Section events.
Context {Code : Type}.

(** A wait on [fd] that is over; a notification on one of [fds] that was given. *)
Definition is_wait (fd : Z) (s : seen Code) : bool :=
  match s with Awaited (LWait fd') _ => bool_decide (fd' = fd) | _ => false end.
Definition is_notice (fds : list Z) (s : seen Code) : bool :=
  match s with
  | Called c x =>
      match c in callE _ Y return Y -> bool with
      | CNotify e => fun r => bool_decide (Event.inner e ∈ fds) && match r with Ok _ => true | Err _ => false end
      | _ => fun _ => false
      end x
  | _ => false
  end.
End events.

(** ** Monitors that count, and that write down *)
Section monitors.
Context {Code Val : Type}.

Definition counting (f : seen Code -> bool) (n : nat) (s : seen Code) : option nat := Some ((if f s then 1 else 0) + n).
Definition recording (l : list (seen Code)) (s : seen Code) : option (list (seen Code)) := Some (l ++ [s]).

Lemma counting_tally f n l : accepts_from (counting f) n l = Some (tally f l + n).
Proof.
  revert n. induction l as [|s l IH]; intros n; [done|]. cbn [accepts_from]. change (counting f n s) with (Some ((if f s then 1 else 0) + n)).
  cbn [mbind option_bind]. rewrite IH, tally_cons. f_equal. lia.
Qed.

Lemma recording_all l1 l2 : accepts_from recording l1 l2 = Some (l1 ++ l2).
Proof.
  revert l1. induction l2 as [|s l2 IH]; intros l1; cbn; [by rewrite app_nil_r|]. rewrite IH, <- app_assoc. done.
Qed.

Lemma keeps_halts {St R} (step : St -> seen Code -> option St) st (t : body Code Val R) Q tr v :
  keeps step st t Q -> halts t tr (Ret v) -> exists st', accepts_from step st (see <$> tr) = Some st' /\ Q v st'.
Proof. intros Hk (s & Hs & Hv). destruct (Hk _ _ Hs) as (st' & E & Hq). exists st'. split; [done|]. by apply Hq. Qed.
End monitors.

(** ** The blocks of the example *)
Import EventDocs.

Lemma wait_twenty_waits evt2 tr v :
  halts (run_code (WaitsTwenty evt2)) tr (Ret v) -> tally (is_wait (Event.inner evt2)) (see <$> tr) = 20.
Proof.
  set (fd := Event.inner evt2). assert (keeps (counting (is_wait fd)) 0 (run_code (WaitsTwenty evt2)) (fun _ n => n = 20)) as Hk.
  { cbn [run_code]. unfold wait_twenty. apply keeps_bind, keeps_bind.
    apply (keeps_iter _ _ (fun count n => count = Z.of_nat n /\ n <= 20)); [|split; [done|lia]].
    intros count n [-> Hn]. case_decide as Hc.
    - apply keeps_bind. unfold wait_for. apply keeps_bind, keeps_await. intros r. eexists. split; [reflexivity|].
      apply keeps_unwrap_io. intros [] _. unfold add_one. apply keeps_bind. case_decide; [|apply keeps_crash].
      do 2 apply keeps_returned. cbn. rewrite bool_decide_true by done. split; lia.
    - apply keeps_returned. apply keeps_call. intros []. eexists. split; [reflexivity|]. apply keeps_returned. cbn. lia. }
  intros Hh. destruct (keeps_halts _ _ _ _ _ _ Hk Hh) as (n & E & ->). rewrite counting_tally in E. injection E. lia.
Qed.

(** What the block has done when it is over *)
Definition queued_events (evt evt2 evt3 : Event.Event) j (rs : list (io_result unit)) (v : value) : list (seen code) :=
  [Called CEventNew (Ok evt); Called (CEventClone evt) evt2; Called (CEventClone evt) evt3; Called (CSpawn (WaitsTwenty evt2)) j] ++
  ((fun r => Called (CNotify evt) r) <$> rs) ++ [Awaited (LJoin (rx j)) v; Called (CEventDrop evt) tt].

Lemma times_events evt k l :
  keeps recording l (times k (notify_quietly evt)) (fun _ l' => exists rs, length rs = k /\ l' = l ++ ((fun r => Called (CNotify evt) r) <$> rs)).
Proof.
  revert l. induction k as [|k IH]; intros l; cbn [times].
  - apply keeps_returned. exists []. by rewrite app_nil_r.
  - apply keeps_bind. unfold notify_quietly. apply keeps_bind, keeps_call. intros r. eexists. split; [reflexivity|].
    apply keeps_returned. eapply keeps_weaken; [apply IH|]. intros _ l' (rs & <- & ->). exists (r :: rs). by rewrite <- app_assoc.
Qed.

Lemma queued_trace tr v :
  halts (run_code Queued) tr (Ret v) ->
  (exists e, see <$> tr = [Called CEventNew (Err e)]) \/
  exists evt evt2 evt3 j rs v', length rs = 10 /\ see <$> tr = queued_events evt evt2 evt3 j rs v'.
Proof.
  intros Hh. assert (keeps recording [] (run_code Queued) (fun _ l => (exists e, l = [Called CEventNew (Err e)]) \/
    exists evt evt2 evt3 j rs v', length rs = 10 /\ l = queued_events evt evt2 evt3 j rs v')) as Hk.
  { cbn [run_code]. unfold queued_block. apply keeps_bind, keeps_bind, keeps_call. intros r. eexists. split; [reflexivity|].
    destruct r as [evt|e]; [|do 2 apply keeps_returned; left; by exists e].
    apply keeps_bind, keeps_call. intros evt2. eexists. split; [reflexivity|].
    apply keeps_bind, keeps_call. intros evt3. eexists. split; [reflexivity|].
    apply keeps_bind, keeps_call. intros j. eexists. split; [reflexivity|].
    apply keeps_bind. eapply keeps_weaken; [apply times_events|]. intros _ l (rs & Hrs & ->).
    apply keeps_bind, keeps_await. intros v'. eexists. split; [reflexivity|].
    apply keeps_bind, keeps_call. intros []. eexists. split; [reflexivity|]. do 2 apply keeps_returned.
    right. exists evt, evt2, evt3, j, rs, v'. split; [done|]. unfold queued_events. cbn. by rewrite <- !app_assoc. }
  destruct (keeps_halts _ _ _ _ _ _ Hk Hh) as (l & E & Hq). rewrite recording_all in E. by injection E as <-.
Qed.

(** ** The threads *)
Section threads.
Context {S : Type -> Type} `{SlabSpec S} {B : Type} `{RingBuffer B}.
Context {U : Type} `{IoUring U sqe} {L : Type} `{Libc L} `{Host} `{NetOrder} `{!Process L}.
Context (fuel : nat).
Abbreviation world := (world S B U L (body code value value) value).
Abbreviation Proc := (Proc world (body code value value) L).
Implicit Types (p : Proc) (h : list (nat * (option nat * seen code))).

(** A task of a thread that has no task left *)
Lemma ended_task {i h} {t : Thread world (body code value value)} {es c ch} :
  tasks_explained run_code i h t es -> tasks t = [] -> (c, ch) ∈ spawned (proj i h).*2 ->
  exists tr v, proj (Some ch) (proj i h) = see <$> tr /\ halts (run_code c) tr (Ret v).
Proof.
  intros Hte Hno Hin. rewrite <- (te_born _ _ _ _ _ Hte) in Hin. apply list_elem_of_fmap in Hin as (e & [= -> ->] & He).
  destruct (te_task _ _ _ _ _ Hte e He) as (Hp & _ & _ & Hend). destruct (Hend Hno) as [v Hv]. by exists (e_trace e), v.
Qed.

Lemma proj_spawns {i h} ch c j :
  Called (CSpawn c) j ∈ proj (Some ch) (proj i h) -> (c, rx j) ∈ spawned (proj i h).*2.
Proof.
  intros Hin. unfold proj at 1 in Hin. apply list_elem_of_fmap in Hin as (y & Ey & [_ Hy]%list_elem_of_filter).
  apply list_elem_of_bind. exists y.2. split; [rewrite <- Ey; by left|]. by apply list_elem_of_fmap_2.
Qed.

(** The notifications of the block itself *)
Lemma queued_notices fds evt evt2 evt3 j rs v : tally (is_notice fds) (queued_events evt evt2 evt3 j rs v) <= length rs.
Proof.
  unfold queued_events. rewrite !tally_app. rewrite !tally_cons. cbn [is_notice]. change (tally ?f []) with 0.
  pose proof (tally_length (is_notice fds) ((fun r => Called (CNotify (Code:=code) evt) r) <$> rs)) as Hl. rewrite length_fmap in Hl. lia.
Qed.

End threads.
