(* ===== verification/DocProps.v ===== *)
(** What the examples of the documentation do, whatever the kernel answers. *)
From ITree Require Import ITree ITreeFacts.
From S2P Require Import Prelude Bytes Crates CrateModels Results Reactor Io Sqe Libc SockAddr Event ReadWrite Fs Timer Tcp Udp Mutex Task TaskProps TaskLoop Joins Async AsyncProps Output Seen History Recorded Transcript Text Programs ProgramProps ProgramOutput Progress Futures Sleepers UnitTests Prompt DocTests.

Open Scope Z_scope.

Lemma assert_eq_refl {A} `{EqDecision A} (x : A) : assert_eq x x = Ret tt.
Proof. unfold assert_eq. by rewrite decide_True. Qed.

(** ** task.rs: tasks that never wait *)
Section task_docs.
Context {S : Type -> Type} `{SlabSpec S} {B : Type} `{RingBuffer B}.
Context {U : Type} `{IoUring U sqe} {L : Type} `{Libc L} `{!Process L} `{Host} `{NetOrder}.
Import TaskDocs.
Abbreviation world := (world S B U L (body code unit unit) unit).

Lemma println_prompt `{!Output L} n c s :
  run_code c = println s -> (2 <= n)%nat ->
  prompt (S:=S) (B:=B) (U:=U) (view:=out (L:=L)) run_code n (fun _ => True) (run_code c) tt (fun ls => ls ++ [s]).
Proof.
  intros E Hn cx w _. destruct n as [|[|n]]; [lia..|]. rewrite E. eexists _, (print s (w_libc w)). split; [reflexivity|apply out_print].
Qed.

Definition printed (c : code) (ls : list string) : list string :=
  match c with Hello => ls ++ ["Hello"%string] | World => ls ++ ["World!"%string] | Add _ _ => ls end.

(** Two tasks that print: the second one first. *)
Theorem two_tasks_doc `{!Output L} rounds fuel (w w1 : world) :
  (2 <= rounds)%nat -> (2 <= fuel)%nat -> run_q (w_exec w) = [] -> slab_is_empty (waiting (w_exec w)) = true ->
  spawn_blocks run_code [Hello; World] w = Ret w1 ->
  exists w', two_tasks rounds fuel w = Ret w' /\ out (w_libc w') = out (w_libc w) ++ ["World!"; "Hello"]%string.
Proof.
  intros Hr Hf Hq Hw Hsp.
  destruct (run_spawned (view:=out) run_code fuel (fun _ _ => True) printed rounds fuel [Hello; World] w w1) as (w' & Hrun & Ev & _); try done.
  { repeat constructor; exists tt; by apply println_prompt. }
  exists w'. split.
  - unfold two_tasks. cbn in Hsp. destruct (spawn_detached run_code Hello w) as [w2|p| |]; [|done..]. cbn in *.
    destruct (spawn_detached run_code World w2) as [w3|p| |]; [|done..]. cbn in *. by injection Hsp as ->.
  - rewrite Ev. cbn. by rewrite <- app_assoc.
Qed.

(** *** Tasks that add to a number, in cell 0 *)
Definition number (v : list Z) : Z := default 0 (head v).
Definition may_add (c : code) (v : list Z) : Prop :=
  match c with Add i k => i = 0%nat /\ number v + k < 2 ^ 31 | _ => False end.
Definition added (c : code) (v : list Z) : list Z := match c with Add _ k => [number v + k] | _ => v end.

Lemma add_prompt `{!Memory L} n k :
  (3 <= n)%nat ->
  prompt (S:=S) (B:=B) (U:=U) (view:=load (L:=L) 0) run_code n (may_add (Add 0 k)) (run_code (Add 0 k)) tt (added (Add 0 k)).
Proof.
  intros Hn cx w [_ Hk]. destruct n as [|[|[|n]]]; [lia..|]. eexists _, (store 0 [number (load 0 (w_libc w)) + k] (w_libc w)).
  split; [|by rewrite load_store].
  unfold poll_block. cbn -[decide]. unfold number in *.
  match goal with |- context [ITree.subst ?k ?t] => change (ITree.subst k t) with (ITree.bind t k) end.
  rewrite observe_bind. cbn -[decide]. rewrite decide_True by done. reflexivity.
Qed.
Lemma adds_prompt `{!Memory L} n cs :
  (3 <= n)%nat -> Forall (fun c => exists k, c = Add 0 k) cs ->
  Forall (prompt_code (S:=S) (B:=B) (U:=U) (view:=load (L:=L) 0) run_code n may_add added) cs.
Proof. intros Hn Hc. eapply Forall_impl; [exact Hc|]. intros c [k ->]. exists tt. by apply add_prompt. Qed.

(** Single-threaded tasks may share what is not [Sync]. *)
Theorem not_sync_doc `{!Memory L} rounds fuel (w w1 : world) :
  (2 <= rounds)%nat -> (3 <= fuel)%nat -> run_q (w_exec w) = [] -> slab_is_empty (waiting (w_exec w)) = true ->
  spawn_blocks run_code [Add 0 10; Add 0 10] (set_libc (store 0 [0] (w_libc w)) w) = Ret w1 ->
  exists w', not_sync rounds fuel w = Ret w'.
Proof.
  intros Hr Hf Hq Hw Hsp. unfold not_sync. set (w0 := set_libc (store 0 [0] (w_libc w)) w) in *.
  assert (load 0 (w_libc w0) = [0]) as E0 by by cbn; rewrite load_store.
  destruct (run_spawned (view:=load 0) run_code fuel may_add added rounds fuel [Add 0 10; Add 0 10] w0 w1) as (w' & Hrun & Ev & _); try done.
  { apply adds_prompt; [done|]. repeat constructor; by eexists. }
  { rewrite E0. cbn. lia. }
  cbn in Hsp. destruct (spawn_detached run_code (Add 0 10) w0) as [w2|p| |]; [|done..]. cbn [mbind outcome_bind] in *.
  destruct (spawn_detached run_code (Add 0 10) w2) as [w3|p| |]; [|done..]. cbn [mbind outcome_bind] in *. injection Hsp as ->.
  rewrite Hrun. cbn [mbind outcome_bind]. rewrite Ev, E0. cbn. by exists w'.
Qed.

(** Threads: a thread runs the tasks spawned on it, and no others: after
    the other thread has run, the number is 1 and not 3, the tasks
    of this thread are still to be run, and their [run] makes it 3; the
    assertions of the example hold, whatever the kernel answers. *)
Theorem threads_doc `{!Memory L} rounds fuel (w w1 w2 : world) ring :
  (2 <= rounds)%nat -> (3 <= fuel)%nat -> run_q (w_exec w) = [] -> slab_is_empty (waiting (w_exec w)) = true ->
  spawn_blocks run_code [Add 0 1; Add 0 1] (set_libc (store 0 [0] (w_libc w)) w) = Ret w1 ->
  reactor_new = Ret ring -> spawn_blocks run_code [Add 0 1] (world_init ring (w_libc w1)) = Ret w2 ->
  exists w', threads rounds fuel w = Ret w' /\ all_tasks (w_exec w') = [].
Proof.
  intros Hr Hf Hq Hw Hsp Hring Hsp2. unfold threads. set (w0 := set_libc (store 0 [0] (w_libc w)) w) in *.
  assert (load 0 (w_libc w0) = [0]) as E0 by by cbn; rewrite load_store.
  assert (load 0 (w_libc w1) = [0]) as E1.
  { destruct (spawn_blocks_prompt (view:=load 0) run_code _ _ _ Hsp) as (_ & _ & _ & _ & _ & ->); [by cbn; rewrite Hq|done]. }
  destruct (run_spawned (view:=load 0) run_code fuel may_add added rounds fuel [Add 0 1] (world_init ring (w_libc w1)) w2)
    as (w3 & Hrun & Ev & _); [done|cbn; lia|done|by apply slab_is_empty_spec, slab_new_spec| |cbn; rewrite E1; cbn; lia|done|].
  { apply adds_prompt; [done|]. repeat constructor; by eexists. }
  cbn [w_libc world_init] in Ev. rewrite E1 in Ev. cbn in Ev.
  destruct (run_later (view:=load 0) run_code fuel may_add added rounds fuel [Add 0 1; Add 0 1] w0 w1 (w_libc w3))
    as (w' & Hrun2 & Ev2 & Hend); [done|cbn; lia|done|done| |rewrite Ev; cbn; lia|done|].
  { apply adds_prompt; [done|]. repeat constructor; by eexists. }
  exists w'. split; [|done]. cbn in Hsp. destruct (spawn_detached run_code (Add 0 1) w0) as [w4|p| |]; [|done..]. cbn [mbind outcome_bind] in *.
  destruct (spawn_detached run_code (Add 0 1) w4) as [w5|p| |]; [|done..]. cbn [mbind outcome_bind] in *. injection Hsp as ->.
  unfold in_thread. rewrite Hring. cbn [mbind outcome_bind].
  cbn in Hsp2. destruct (spawn_detached run_code (Add 0 1) (world_init ring (w_libc w1))) as [w6|p| |]; [|done..].
  cbn [mbind outcome_bind] in *. injection Hsp2 as ->. rewrite Hrun. cbn [mbind outcome_bind mret outcome_ret w_libc set_libc].
  rewrite Ev, assert_eq_refl. cbn [mbind outcome_bind]. rewrite Hrun2. cbn [mbind outcome_bind]. by rewrite Ev2, Ev.
Qed.
End task_docs.

(** ** lib.rs: two tasks that sleep *)
Section lib_docs.
Context {S : Type -> Type} `{SlabSpec S} {B : Type} `{RingBuffer B}.
Context {U : Type} `{IoUring U sqe} {L : Type} `{Libc L} `{!Process L} `{!Output L} `{Host} `{NetOrder}.
Import LibDocs.
Abbreviation world := (world S B U L (body code unit unit) unit).

Definition line_of (c : code) : Z * string :=
  match c with Hello => (from_secs 1, "Hello, "%string) | World => (from_secs 2, "World!"%string) end.

Lemma lib_talks c : run_code c ≈ talk [line_of c].
Proof. destruct c; cbn [run_code talk line_of fst snd]; greeting_steps. Qed.

Lemma lib_code_lines c tr v : halts (run_code c) tr (Ret v) -> prints tr = [(line_of c).2] /\ spawns tr = [].
Proof.
  destruct v. intros Hh. by apply (halts_eutt _ _ _ _ (lib_talks c)), talk_greets, greets_observed in Hh as (E & _ & Es).
Qed.

(** Both lines are printed, once each.  Which comes first is up to the timers. *)
Theorem lib_doc_output rounds fuel (w w' : world) :
  all_tasks (w_exec w) = [] -> main rounds fuel w = Ret w' ->
  exists ls, out (w_libc w') = out (w_libc w) ++ ls /\ merge ["Hello, "%string] ["World!"%string] ls.
Proof.
  intros Hno Hm. unfold main in Hm. inv_bind.
  apply (two_spawned_output run_code (fun c => [(line_of c).2]) lib_code_lines _ _ _ _ _ _ _ _ Hno Ha Ha0 Hm).
Qed.
End lib_docs.

(** And the example does return. *)
Section lib_returns.
Context {S : Type -> Type} `{SlabSpec S} {B : Type} `{RingBufferSpec B}.
Context {U : Type} `{FuturesRing U} `{!KernelLive U} {L : Type} `{SlowClock L} `{!Output L} `{NetOrder}.
Import LibDocs.

Lemma lib_naps fuel c : (RING_ENTRIES < fuel)%nat -> naps_of run_code fuel (fun _ => 1%nat) c.
Proof.
  intros Hf. exists 4%nat. split; [pose proof ten_entries; lia|]. destruct c; cbn [run_code]; repeat sleeper_step.
Qed.

Theorem lib_doc_returns rounds fuel ring (l : L) :
  reactor_new = Ret ring -> room l -> (6 <= rounds)%nat -> (RING_ENTRIES < fuel)%nat ->
  exists (w' : world S B U L (body code unit unit) unit) ls, main rounds fuel (world_init ring l) = Ret w' /\
    out (w_libc w') = out l ++ ls /\ merge ["Hello, "%string] ["World!"%string] ls.
Proof.
  intros Hring Hl Hr Hf.
  destruct (two_sleepers_return run_code fuel (fun _ => 1%nat) Hello World rounds fuel ring l) as (w1 & w2 & w' & E1 & E2 & Hrun & Hend);
    [done..|pose proof ten_entries; lia|by apply lib_naps|by apply lib_naps|done|done|].
  assert (main rounds fuel (world_init ring l) = Ret w') as Hm.
  { unfold main. rewrite E1. cbn. rewrite E2. exact Hrun. }
  destruct (lib_doc_output rounds fuel (world_init ring l) w') as (ls & Ho & Hls); [|done|].
  { unfold all_tasks. cbn. by rewrite slab_new_spec, map_to_list_empty. }
  by exists w', ls.
Qed.
End lib_returns.

(** ** tcp.rs and udp.rs: the servers *)
Section servers.
Context {Code Val : Type}.
Abbreviation block := (body Code Val).
Implicit Types (tr : list (obs (Code:=Code) (Val:=Val))).

(** A turn of the loop over a connection: the end of the stream, an error, or a byte written back. *)
Lemma tcp_turn_halts sock x tr (o : outcome (list Z + result unit io_error)) :
  let read := Await (ARead (TcpStream.read sock 1)) in
  let write bs := Await (AWrite bs (TcpStream.write sock 1)) in
  halts (tcp_turn sock [x] : block _) tr o ->
  (o = Ret (inr (Ok tt)) /\ tr = [Obs read (Ok [])]) \/
  (exists e, o = Ret (inr (Err e)) /\ tr = [Obs read (Err e)]) \/
  exists bs, bs <> [] /\
    ((exists m, o = Ret (inl (take 1 bs)) /\ tr = [Obs read (Ok bs); Obs (write (take 1 bs)) (Ok m)]) \/
     (exists e, o = Ret (inr (Err e)) /\ tr = [Obs read (Ok bs); Obs (write (take 1 bs)) (Err e)])).
Proof.
  intros read write Ht. unfold tcp_turn in Ht. cbn [length] in Ht. inv_halts.
  inv_result bs e; [|inv_halts; right; left; by exists e].
  case_decide as Hbs; [apply nil_length_inv in Hbs as ->; inv_halts; by left|].
  right; right. exists bs. split; [by intros ->|]. rewrite length_fill, fill_one in Ht by by intros ->.
  inv_halts. inv_result m e; inv_halts; [left|right]; by eexists.
Qed.

(** The loop: the bytes are written back until the end of the stream or an error. *)
Definition tcp_outcome sock tr (o : outcome (result unit io_error)) : Prop :=
  exists chunks,
    (o = Ret (Ok tt) /\ echoed sock chunks [Ok []] tr) \/
    (exists e, o = Ret (Err e) /\ (echoed sock chunks [Err e] tr \/ echoed sock chunks [] tr)).

Lemma tcp_rounds sock x tr o : rounds (tcp_turn sock : _ -> block _) [x] tr o -> tcp_outcome sock tr o.
Proof.
  intros Hr. remember [x] as st eqn:Est. revert x Est.
  induction Hr as [i tr v Hr|i tr p Hr|i j tr1 tr2 o Hr _ IH]; intros x ->;
    apply tcp_turn_halts in Hr as [[? ->]|[(e & ? & ->)|(bs & Hbs & [(m & ? & ->)|(e & ? & ->)])]]; simplify_eq.
  - exists []. left. split; [done|apply echoed_last].
  - exists []. right. exists e. split; [done|]. left. apply echoed_last.
  - exists [bs]. right. exists e. split; [done|]. right. eapply (echoed_turn sock bs (Err e) [] [] []); [done|]. by split.
  - assert (exists y, take 1 bs = [y]) as [y Ey] by (destruct bs as [|y bs]; [done|by exists y]).
    destruct (IH y Ey) as (chunks & Hc). exists (bs :: chunks).
    destruct Hc as [[-> He]|(e & -> & He)]; [left|right; exists e]; (split; [done|]).
    + by apply echoed_turn.
    + destruct He; [left|right]; by apply echoed_turn.
Qed.

(** The body of the [while let] leaves the loop, whatever happens. *)
Lemma tcp_accept_halts l tr (o : outcome (TcpListener.TcpListener + TcpListener.TcpListener * result unit io_error)) :
  halts (tcp_accept l : block _) tr o ->
  exists conn l' r tr1, o = Ret (inr (l', r)) /\ tr = Obs (Await (ANext l)) (conn, l') :: tr1 /\
    match conn with
    | Some (Ok sock) => exists tr2, tr1 = tr2 ++ [Obs (Call (CClose (TcpStream.inner sock))) tt] /\ tcp_outcome sock tr2 (Ret r)
    | _ => tr1 = [] /\ r = Ok tt
    end.
Proof.
  intros Ht. unfold tcp_accept, close in Ht. apply halts_bind in Ht as [([conn l'] & tr1 & tr2 & -> & Ha & Ht)|(p & -> & Ha)];
    [|inv_halts]. inv_halts. destruct conn as [[sock|e]|].
  - apply halts_bind in Ht as [(r & tr1 & tr3 & -> & Hl & Ht)|(p & -> & Hl)]; apply halts_iter, tcp_rounds in Hl.
    + inv_halts. exists (Some (Ok sock)), l', r, (tr1 ++ [Obs (Call (CClose (TcpStream.inner sock))) tt]).
      split; [done|]. split; [by match goal with u : unit |- _ => destruct u end|]. by exists tr1.
    + destruct Hl as (chunks & [[? _]|(e & ? & _)]); done.
  - inv_halts. by exists (Some (Err e)), l', (Ok tt), [].
  - inv_halts. by exists None, l', (Ok tt), [].
Qed.

(** The echo server of the documentation of tcp.rs serves one connection: it
    accepts once, writes the bytes of this connection back until the end of
    its stream or an error, closes it, drops the listener and returns.  It never panics. *)
Theorem tcp_doc_serves_one tr (o : outcome (result unit io_error)) :
  halts (tcp_doc : block _) tr o ->
  (exists e, o = Ret (Err e) /\ tr = [Obs (Call (CBind (Ok [V4 UNSPECIFIED 8888]))) (Err e)]) \/
  exists l conn l' r tr1, o = Ret r /\
    tr = [Obs (Call (CBind (Ok [V4 UNSPECIFIED 8888]))) (Ok l); Obs (Await (ANext l)) (conn, l')] ++ tr1 ++
         [Obs (Call (CListenerDrop l')) tt] /\
    match conn with
    | Some (Ok sock) => exists tr2, tr1 = tr2 ++ [Obs (Call (CClose (TcpStream.inner sock))) tt] /\ tcp_outcome sock tr2 (Ret r)
    | _ => tr1 = [] /\ r = Ok tt
    end.
Proof.
  intros Ht. unfold tcp_doc in Ht. inv_halts. inv_result l e; [|inv_halts; left; by exists e]. right.
  apply halts_bind in Ht as [([l' r] & tr1 & tr2 & -> & Hl & Ht)|(p & -> & Hl)]; apply halts_iter in Hl;
    inversion Hl as [? ? ? Hr|? ? ? Hr|? j ? ? ? Hr]; subst; apply tcp_accept_halts in Hr as (conn & l2 & r2 & body & ? & -> & Hc);
    simplify_eq.
  inv_halts. exists l, conn, l2, r2, body. split; [done|].
  split; [|done]. by match goal with u : unit |- _ => destruct u end.
Qed.

(** A datagram sent back to its sender, with the size it came with. *)
Definition bounced sock (d : Z * SocketAddr) (m : Z) : list (obs (Code:=Code) (Val:=Val)) :=
  [Obs (Await (ARecvFrom (RecvFrom.recv_from sock 1500))) (Ok d);
   Obs (Await (ASendTo (SendTo.send_to sock d.1 (Ok [d.2])))) (Ok m)].

(** What ends the loop: a datagram that does not come or go, or a size larger than the buffer. *)
Definition udp_end sock tr (o : outcome (result unit io_error)) : Prop :=
  (exists e, o = Ret (Err e) /\
    (tr = [Obs (Await (ARecvFrom (RecvFrom.recv_from sock 1500))) (Err e)] \/
     exists d, d.1 <= 1500 /\ tr = [Obs (Await (ARecvFrom (RecvFrom.recv_from sock 1500))) (Ok d);
       Obs (Await (ASendTo (SendTo.send_to sock d.1 (Ok [d.2])))) (Err e)])) \/
  (exists d, 1500 < d.1 /\ o = Panic IndexOutOfBounds /\
    tr = [Obs (Await (ARecvFrom (RecvFrom.recv_from sock 1500))) (Ok d)]).

Lemma udp_turn_halts sock u tr (o : outcome (unit + result unit io_error)) :
  halts (udp_turn sock u : block _) tr o ->
  (exists d m, d.1 <= 1500 /\ o = Ret (inl tt) /\ tr = bounced sock d m) \/
  exists o', udp_end sock tr o' /\ o = (r ← o'; mret (inr r)).
Proof.
  intros Ht. unfold udp_turn in Ht. inv_halts. inv_result d e.
  - destruct d as [n src]. case_decide; inv_halts.
    + inv_result m e; inv_halts; [left; by exists (n, src), m|right]. exists (Ret (Err e)). split; [|done].
      left. exists e. split; [done|]. right. by exists (n, src).
    + right. exists (Panic IndexOutOfBounds). split; [|done]. right. exists (n, src). split; [cbn; lia|done].
  - inv_halts. right. exists (Ret (Err e)). split; [|done]. left. exists e. split; [done|]. by left.
Qed.

Lemma udp_rounds sock tr o :
  rounds (udp_turn sock : _ -> block _) tt tr o ->
  exists ds ms tr1, length ds = length ms /\ Forall (fun d => d.1 <= 1500) ds /\
    tr = concat (zip_with (bounced sock) ds ms) ++ tr1 /\ udp_end sock tr1 o.
Proof.
  induction 1 as [i tr v Hr|i tr p Hr|i j tr1 tr2 o Hr _ IH];
    apply udp_turn_halts in Hr as [(d & m & Hd & ? & ->)|(o' & He & Eo)]; simplify_eq.
  - exists [], [], tr. destruct o'; cbn in Eo; simplify_eq. split; [done|]. split; [constructor|]. split; [done|]. first [by injection Eo as ->|done].
  - exists [], [], tr. destruct o'; cbn in Eo; simplify_eq. split; [done|]. split; [constructor|]. split; [done|]. first [by injection Eo as ->|done].
  - destruct IH as (ds & ms & tr1 & Hl & Hds & -> & He). exists (d :: ds), (m :: ms), tr1. cbn [length].
    split; [by f_equal|]. split; [by constructor|]. by split.
  - by destruct o'.
Qed.

(** The echo server of udp.rs sends each datagram back to its sender before it
    waits for the next; it ends with the first error, and closes its socket then. *)
Theorem udp_doc_bounces tr (o : outcome (result unit io_error)) :
  halts (udp_doc : block _) tr o ->
  (exists e, o = Ret (Err e) /\ tr = [Obs (Call (CUdpBind (V4 UNSPECIFIED 8888))) (Err e)]) \/
  exists sock ds ms tr1, length ds = length ms /\ Forall (fun d => d.1 <= 1500) ds /\ udp_end sock tr1 o /\
    tr = [Obs (Call (CUdpBind (V4 UNSPECIFIED 8888))) (Ok sock)] ++ concat (zip_with (bounced sock) ds ms) ++ tr1 ++
      match o with Ret _ => [Obs (Call (CClose sock)) tt] | _ => [] end.
Proof.
  intros Ht. unfold udp_doc, close in Ht. inv_halts. inv_result sock e; [|inv_halts; left; by exists e]. right.
  apply halts_bind in Ht as [(r & tr1 & tr2 & -> & Hl & Ht)|(p & -> & Hl)];
    apply halts_iter, udp_rounds in Hl as (ds & ms & tr3 & Hlen & Hds & -> & He).
  - inv_halts. exists sock, ds, ms, tr3. split; [done|]. split; [done|]. split; [done|].
    rewrite <- (app_assoc (concat _)). by match goal with u : unit |- _ => destruct u end.
  - exists sock, ds, ms, tr3. rewrite app_nil_r. by split_and!.
Qed.
End servers.
