(* ===== verification/MutexData.v ===== *)
(** What the unit tests of src/src/futures/mutex.rs leave in the vector behind
    their mutex, whatever the order in which their tasks run. *)
From ITree Require Import ITree.
From S2P Require Import Prelude Bytes Crates CrateModels Results Reactor Io Sqe Libc SockAddr Event ReadWrite Fs Timer Tcp Udp Mutex Task TaskProps TaskLoop Joins Async AsyncProps Output Seen History Recorded Transcript Monitor Critical Programs ProgramProps UnitTests.

Open Scope nat_scope.
Import MutexTests.

(** ** Tasks with one section each, that pushes one number *)
Definition push_events (y : Z) (x : list Z) : list mevent := [Grant; Access (Load x); Access (Store (push y x)); Release].

Lemma proj_events_own (s : section nat) : proj (who s) (events_of s) = Grant :: (Access <$> accs s) ++ [Release].
Proof.
  unfold events_of. rewrite proj_cons, proj_app. cbn [fst snd]. rewrite decide_True by done. cbn [app]. f_equal.
  rewrite proj_cons. cbn [fst snd]. rewrite decide_True by done. f_equal. unfold uses.
  rewrite <- (proj_own (who s) (Access <$> accs s)). by rewrite <- list_fmap_compose.
Qed.

Lemma proj_events_other ch (s : section nat) : who s <> ch -> proj ch (events_of s) = [].
Proof.
  intros Hne. apply proj_none, Forall_forall. intros x Hx. unfold events_of in Hx.
  apply elem_of_cons in Hx as [->|Hx]; [done|]. apply elem_of_app in Hx as [Hx| ->%list_elem_of_singleton]; [|done].
  by apply list_elem_of_fmap in Hx as (a & -> & _).
Qed.

Lemma section_pushes y x (s : section nat) (r : list mevent) :
  (Grant :: (Access <$> accs s) ++ [Release]) ++ r = push_events y x -> accs s = [Load x; Store (push y x)] /\ r = [].
Proof.
  intros [= E]. destruct (accs s) as [|a [|b [|d l]]]; cbn in E; simplify_eq. done.
Qed.

(** The sections push the numbers of their tasks, one after the other. *)
Lemma one_push_each (y : nat -> Z) (secs : list (section nat)) :
  let h := concat (events_of <$> secs) in
  (forall ch, proj ch h = [] \/ exists x, proj ch h = push_events (y ch) x) ->
  NoDup (who <$> secs) /\ (forall ch, ch ∈ who <$> secs <-> proj ch h <> []) /\
  forall v v', replays v (concat (accs <$> secs)) v' -> v' = v ++ (y <$> (who <$> secs)).
Proof.
  induction secs as [|s secs IH]; cbn [fmap list_fmap concat]; intros Hp.
  { split; [constructor|]. split; [intros ch; split; [by intros ?%elem_of_nil|done]|]. intros v v' Hr. cbn in *. by rewrite app_nil_r. }
  set (h := concat (events_of <$> secs)) in *.
  assert (exists x, accs s = [Load x; Store (push (y (who s)) x)] /\ proj (who s) h = []) as (x & Ex & Enil).
  { destruct (Hp (who s)) as [E|[x E]]; rewrite proj_app, proj_events_own in E; [done|]. exists x. by apply section_pushes in E. }
  destruct IH as (Hnd & Hin & Hr).
  { intros ch. destruct (decide (who s = ch)) as [<-|Hne]; [by left|]. specialize (Hp ch).
    by rewrite proj_app, proj_events_other in Hp. }
  split; [|split].
  - apply NoDup_cons. split; [|done]. rewrite Hin. intros Hc. by apply Hc.
  - intros ch. rewrite elem_of_cons, Hin, proj_app. destruct (decide (who s = ch)) as [<-|Hne].
    + rewrite proj_events_own. split; [done|by left].
    + rewrite proj_events_other by done. cbn. split; [by intros [->|]|by right].
  - intros v v'. rewrite Ex. cbn. intros [-> Hrest]. rewrite (Hr _ _ Hrest). unfold push. by rewrite <- app_assoc.
Qed.

(** ** The blocks of the tests *)
Section blocks.
Context (m : Mutex.Mutex nat).

Definition of_mutex (c : code) : Prop :=
  match c with Simple v | MultipleLocks v | Push v | SleepPush v => v = m end.
#[export] Instance of_mutex_dec c : Decision (of_mutex c).
Proof. destruct c; cbn; apply _. Defined.

(** The rules of the monitor for the operations of the mutex. *)
Lemma keeps_lock {Val} (Q : unit -> bool -> Prop) : (forall x, Q x true) -> keeps (guarded m) false (lock m : body code Val unit) Q.
Proof.
  intros Hq. apply keeps_await. intros x. exists true. split; [|done]. unfold guarded. cbn. by rewrite decide_True.
Qed.
Lemma keeps_deref_mut {Val} f (Q : unit -> bool -> Prop) :
  (forall x, Q x true) -> keeps (guarded m) true (deref_mut m f : body code Val unit) Q.
Proof.
  intros Hq. unfold deref_mut. apply keeps_bind, keeps_call. intros x. exists true.
  split; [unfold guarded; cbn; by rewrite decide_True|]. apply keeps_call. intros [].
  exists true. split; [unfold guarded; cbn; by rewrite decide_True|done].
Qed.
Lemma keeps_drop_guard {Val} (Q : unit -> bool -> Prop) :
  (forall x, Q x false) -> keeps (guarded m) true (drop_guard m : body code Val unit) Q.
Proof.
  intros Hq. apply keeps_call. intros x. exists false. split; [|done]. unfold guarded. cbn. by rewrite decide_True.
Qed.

Ltac mutex_step :=
  lazymatch goal with
  | |- keeps (guarded m) false (lock m) _ => apply keeps_lock; intros []; cbn beta
  | |- keeps (guarded m) true (deref_mut m _) _ => apply keeps_deref_mut; intros []; cbn beta
  | |- keeps (guarded m) true (drop_guard m) _ => apply keeps_drop_guard; intros []; cbn beta
  | |- keeps _ _ (sleep_for _) _ => unfold sleep_for
  | |- _ => keeps_step
  end.

Ltac spawn_step :=
  lazymatch goal with
  | |- keeps _ _ (call (CSpawn _)) _ =>
      apply keeps_call; intros ?; eexists; split;
        [unfold spawns_in; rewrite decide_True; [reflexivity|cbn; rewrite ?Forall_singleton, ?Forall_nil; done]|cbn beta]
  | |- _ => keeps_step
  end.

Lemma tests_locking : locking run_code of_mutex m.
Proof.
  split; intros [v|v|v|v]; cbn [of_mutex]; intros ->; cbn [run_code];
    unfold simple_block, multiple_locks_block, sleep_push, push_two.
  1-4: by repeat mutex_step.
  all: unfold lock, deref_mut, drop_guard, sleep_for; by repeat spawn_step.
Qed.
(** *** What the tasks do with the mutex, and spawn *)
Definition pushes (c : code) : Z := match c with Simple _ | MultipleLocks _ => 1 | _ => 2 end.
Definition spawned_by (c : code) : list code :=
  match c with
  | Simple v => [Push v]
  | MultipleLocks v => [Push v; Push v; Push v; SleepPush v]
  | _ => []
  end.

Lemma mutex_task c tr v :
  of_mutex c -> halts (run_code c) tr (Ret v) ->
  (exists x, mevents m (see <$> tr) = push_events (pushes c) x) /\ spawns tr = spawned_by c /\
  (spawned_by c <> [] -> exists l, see <$> tr = Awaited (LLock m) tt :: l).
Proof.
  destruct c as [u|u|u|u]; cbn [of_mutex]; intros -> Hh; cbn [run_code] in Hh;
    unfold simple_block, multiple_locks_block, sleep_push, push_two, sleep_for, lock, deref_mut, drop_guard in Hh; inv_halts;
    repeat match goal with x : unit |- _ => destruct x end;
    (split; [eexists; cbn; rewrite !decide_True by done; reflexivity|]; split; [done|]; cbn; first [done|intros _; by eexists]).
Qed.
End blocks.

(** ** The tests *)
Section tests.
Context {S : Type -> Type} `{SlabSpec S} {B : Type} `{RingBuffer B}.
Context {U : Type} `{IoUring U sqe} {L : Type} `{Libc L} `{!Process L} `{!Memory L} `{Host} `{NetOrder}.
Abbreviation world := (world S B U L (body code unit unit) unit).
Abbreviation tasks := (list (entry (Code:=code) (Val:=unit))).

Section ended.
Context (m : Mutex.Mutex nat) (main : code) (j : nat) (base : list Z) (h : list (nat * seen code)) (w : world) (es : tasks).
Context (Hex : explains run_code (view:=load (Mutex.obj m)) (changes:=fun v l v' => replays v (accesses (Mutex.obj m) l) v')
  base [(main, j)] h w es).
Context (Hmain : of_mutex m main) (Hroot : spawned_by main <> []).
Context (Hend : forall e, e ∈ es -> exists v, halts (run_code (e_code e)) (e_trace e) (Ret v)).

Lemma task_events e : e ∈ es ->
  (exists x, mevents m (proj (e_ch e) h) = push_events (pushes (e_code e)) x) /\ spawns (e_trace e) = spawned_by (e_code e) /\
  (spawned_by (e_code e) <> [] -> exists l, proj (e_ch e) h = Awaited (LLock m) tt :: l).
Proof.
  intros He. rewrite (ex_proj _ _ _ _ _ _ Hex e He). destruct (Hend e He) as [v Hv]. eapply mutex_task; [|exact Hv].
  apply (explains_family run_code (of_mutex m) (locking_spawns _ _ _ (tests_locking m)) _ _ _ _ _ Hex); [|done].
  by repeat constructor.
Qed.

Lemma test_codes : e_code <$> es ≡ₚ main :: spawned_by main.
Proof. apply (explains_root _ spawned_by _ _ _ _ _ _ Hex); [by intros []|]. intros e He. by apply task_events. Qed.

(** The task of [block_on] is the one with the channel [j], and the others were spawned by it. *)
Lemma test_order e : e ∈ es -> e_ch e = j \/ spawned_before h e.
Proof.
  intros He. destruct (ex_order _ _ _ _ _ _ Hex e He) as [Hi|Hs]; [left|by right].
  apply list_elem_of_singleton in Hi. by injection Hi.
Qed.

(** A task that spawns has the lock first. *)
Lemma spawner_locks h1 h2 b : h = h1 ++ h2 -> b ∈ spawned h1.*2 -> mutex_history m h1 <> [].
Proof.
  intros Eh Hb. assert (exists x, x ∈ h1 /\ spawned_of x.2 <> []) as (x & Hx & Hsp).
  { apply list_elem_of_bind in Hb as (s & Hs & Hin). apply list_elem_of_fmap in Hin as (x & -> & Hx). exists x.
    split; [done|]. intros E. rewrite E in Hs. by apply elem_of_nil in Hs. }
  assert (x.1 ∈ e_ch <$> es) as Hch by (apply Hex; rewrite Eh; by apply elem_of_app; left).
  apply list_elem_of_fmap in Hch as (e & Ech & He). destruct (task_events e He) as (_ & Es & Hfirst).
  assert (x.2 ∈ proj (e_ch e) h1) as Hx1.
  { unfold proj. apply list_elem_of_fmap. exists x. split; [done|]. by apply list_elem_of_filter. }
  destruct Hfirst as [l El].
  { rewrite <- Es. intros E. rewrite <- spawned_see in E. rewrite <- (ex_proj _ _ _ _ _ _ Hex e He), Eh, proj_app in E.
    apply fmap_nil_inv in E. rewrite spawned_app in E. apply app_nil in E as [E _].
    assert (spawned_of x.2 = []) as E0; [|done]. destruct (spawned_of x.2) as [|b' l] eqn:Eb; [done|].
    assert (b' ∈ spawned (proj (e_ch e) h1)) as Hb'; [|rewrite E in Hb'; by apply elem_of_nil in Hb'].
    apply list_elem_of_bind. exists x.2. rewrite Eb. split; [by left|done]. }
  rewrite Eh, proj_app in El. destruct (proj (e_ch e) h1) as [|s l1] eqn:Ep; [by apply elem_of_nil in Hx1|].
  injection El as -> _. intros E. assert (proj (e_ch e) (mutex_history m h1) = []) as E1 by by rewrite E.
  unfold mutex_history in E1. rewrite proj_tagged, Ep in E1. cbn in E1. by rewrite decide_True in E1.
Qed.

Lemma test_tasks : exists e0 es', es ≡ₚ e0 :: es' /\ born e0 = (main, j) /\ e_code <$> es' ≡ₚ spawned_by main.
Proof.
  pose proof test_codes as Hc. assert ((main, j) ∈ born <$> es) as (e0 & Eb & (l1 & l2 & ->)%list_elem_of_split)%list_elem_of_fmap.
  { rewrite (ex_born _ _ _ _ _ _ Hex). by left. }
  exists e0, (l1 ++ l2). split; [by rewrite Permutation_middle|]. split; [done|].
  rewrite <- Permutation_middle in Hc. cbn in Hc. injection Eb as -> _. by apply Permutation_cons_inv in Hc.
Qed.

(** What the task of a channel pushes. *)
Definition pushes_of (ch : nat) : Z := if decide (ch = j) then 1 else 2.

Lemma pushes_code e : e ∈ es -> pushes_of (e_ch e) = pushes (e_code e).
Proof.
  intros He. destruct test_tasks as (e0 & es' & Hp & [= Ec Ech] & Hc). unfold pushes_of.
  pose proof (ex_nodup _ _ _ _ _ _ Hex) as Hnd. rewrite Hp in Hnd, He. cbn in Hnd. apply NoDup_cons in Hnd as [Hn _].
  apply elem_of_cons in He as [->|He].
  - rewrite decide_True by done. rewrite Ec. by destruct main.
  - rewrite decide_False. 2:{ intros E. apply Hn. rewrite <- Ech in E. rewrite <- E. apply list_elem_of_fmap. by exists e. }
    apply (list_elem_of_fmap_2 e_code) in He. rewrite Hc in He. clear -He. destruct main; cbn in He;
      repeat (apply elem_of_cons in He as [->|He]; [done|]); by apply elem_of_nil in He.
Qed.

Lemma history_events ch :
  (exists x, proj ch (mutex_history m h) = push_events (pushes_of ch) x) /\ ch ∈ e_ch <$> es \/
  proj ch (mutex_history m h) = [] /\ ch ∉ e_ch <$> es.
Proof.
  unfold mutex_history. rewrite proj_tagged. destruct (decide (ch ∈ e_ch <$> es)) as [Hin|Hn]; [left|right].
  - split; [|done]. apply list_elem_of_fmap in Hin as (e & -> & He). rewrite pushes_code by done. by apply task_events.
  - split; [|done]. rewrite proj_none; [done|]. apply Forall_forall. intros x Hx <-. by apply Hn, Hex.
Qed.

Lemma test_first (secs : list (section nat)) : serial (mutex_history m h) secs None -> head (who <$> secs) = Some j.
Proof.
  intros Hser. unfold serial in Hser. rewrite app_nil_r in Hser. destruct secs as [|s secs]; cbn in *.
  - destruct test_tasks as (e0 & es' & Hp & _). destruct (history_events (e_ch e0)) as [[[x E] _]|[_ Hn]].
    + by rewrite Hser in E.
    + destruct Hn. apply list_elem_of_fmap. exists e0. split; [done|]. rewrite Hp. by left.
  - f_equal. destruct (history_events (who s)) as [[_ Hin]|[E _]].
    2:{ rewrite Hser in E. change (proj (who s) (events_of s ++ concat (events_of <$> secs)) = []) in E.
        by rewrite proj_app, proj_events_own in E. }
    apply list_elem_of_fmap in Hin as (e & Ee & He). destruct (test_order e He) as [Ej|(h1 & h2 & Eh & Hb & Hnone)]; [congruence|].
    exfalso. pose proof (spawner_locks _ _ _ Eh Hb) as Hne. unfold mutex_history in Hser, Hne.
    rewrite Eh, tagged_app in Hser. destruct (tagged (mevents_of m) h1) as [|x k] eqn:Et; [done|]. injection Hser as -> _.
    assert (proj (e_ch e) (tagged (mevents_of m) h1) = []) as E1 by by rewrite proj_tagged, Hnone.
    rewrite Et, proj_cons, <- Ee in E1. cbn [fst snd] in E1. by rewrite decide_True in E1.
Qed.

Lemma test_value : semaphore 1 (mevents m h.*2) ->
  load (Mutex.obj m) (w_libc w) = base ++ 1%Z :: replicate (length (spawned_by main)) 2%Z.
Proof.
  intros Hs. destruct (explains_serial run_code (of_mutex m) m (tests_locking m) _ _ _ _ _ Hex) as (secs & open & Hser & Hopen);
    [by repeat constructor|done|]. rewrite (Hopen Hend) in Hser. pose proof (test_first _ Hser) as Hfirst.
  pose proof (ex_view _ _ _ _ _ _ Hex) as Hv. cbn beta in Hv. rewrite <- mevents_accesses in Hv. unfold mevents in Hv.
  rewrite <- tagged_snd in Hv. fold (mutex_history m h) in Hv. rewrite (serial_accesses _ _ _ Hser) in Hv. cbn in Hv. rewrite app_nil_r in Hv.
  unfold serial in Hser. cbn in Hser. rewrite app_nil_r in Hser.
  destruct (one_push_each pushes_of secs) as (Hnd & Hin & Hr).
  { intros ch. rewrite <- Hser. destruct (history_events ch) as [[Hx _]|[Hx _]]; [by right|by left]. }
  rewrite (Hr _ _ Hv). f_equal. destruct (who <$> secs) as [|j' chs] eqn:Ew; [done|]. injection Hfirst as ->.
  cbn. unfold pushes_of at 1. rewrite decide_True by done. f_equal. apply NoDup_cons in Hnd as [Hj Hnd].
  assert (j :: chs ≡ₚ e_ch <$> es) as Hchs.
  { apply NoDup_Permutation; [by apply NoDup_cons|apply Hex|]. intros ch. rewrite Hin, <- Hser.
    destruct (history_events ch) as [[[x ->] ?]|[-> ?]]; [by split|]. split; [by intros []|done]. }
  assert (length chs = length (spawned_by main)) as <-.
  { apply Permutation_length in Hchs. pose proof (Permutation_length test_codes) as Hl. rewrite !length_fmap in *. cbn in *. lia. }
  clear -Hj. induction chs as [|ch chs IH]; [done|]. apply not_elem_of_cons in Hj as [Hne Hj]. cbn. rewrite IH by done.
  unfold pushes_of. by rewrite decide_False.
Qed.
End ended.

Lemma mutex_new_quiet {V} (view : L -> V) `{!Quiet view} o l : view (Mutex.new (A:=nat) o l).2 = view l.
Proof.
  unfold Mutex.new. pose proof (event_new_quiet (view:=view) l) as E1. destruct (Event.new l) as [[ev|e] l1]; [|done].
  pose proof (notify_quiet (view:=view) ev l1) as E2. destruct (Event.notify_one ev l1) as [[u|e] l2]; cbn in *; [congruence|].
  unfold Event.drop. rewrite quiet_close. congruence.
Qed.

End tests.
