(* ===== verification/ProgramTests.v ===== *)
(** Runs of the examples on the scripted kernel. *)
From ITree Require Import ITree.
From S2P Require Import Prelude Bytes Crates CrateModels Results Reactor Io Sqe Libc LibcModel SockAddr Event ReadWrite Fs Timer Tcp Udp Mutex Task TaskProps TaskLoop Joins Async AsyncProps AsyncFns Handlers Console Text Programs ProgramProps Output Seen History Recorded Transcript ProgramOutput.

Open Scope Z_scope.

#[local] Existing Instance little_endian.
#[local] Existing Instance swapping.

Abbreviation process := (kernel * console)%type.

(** A thread whose kernel follows a script, with a constant clock. *)
Section thread.
Context {Code Val : Type} (script : KernelScript) (incoming : gmap Z (list (list Z))) (names : gmap Z (list Z)).

Definition thread : world gslab lring sring process (body Code Val Val) Val :=
  world_init (MkReactor (SRing rv_empty RING_ENTRIES script) ∅ (MkResults ∅ ∅))
    (Kernel (KView ∅ ∅) [] 0 [1000], console_new incoming names).

(** What a run printed. *)
Definition lines {X} (get : X -> world gslab lring sring process (body Code Val Val) Val) (o : outcome X) :
    outcome (list string * list string) :=
  x ← o; mret (stdout (w_libc (get x)).2, stderr (w_libc (get x)).2).
End thread.


#[local] Instance errors : Anyhow (list string * io_error) := {
  from_io e := ([], e);
  context s e := ([s], e);
}.
Abbreviation E := (list string * io_error)%type.

(** Scripts: one completion after the other, or everything in flight at once. *)
Definition one_by_one (l : list (nat * Z)) : KernelScript := (fun c => [(c.1, c.2, false)]) <$> l.
Definition all_at_once (n : nat) : KernelScript :=
  replicate n [(0%nat, 8, false); (1%nat, 8, false); (2%nat, 8, false); (3%nat, 8, false)].

Definition timer_run (script : KernelScript) :=
  lines (fun w => w) (TimerExample.main 100 100 (thread script ∅ ∅)).
Definition sub_run (script : KernelScript) := lines snd (SubTasks.main 100 100 (thread script ∅ ∅)).
Definition udp_run (script : KernelScript) (names : gmap Z (list Z)) :=
  lines (fun w => w) (UdpExample.main 100 100 (thread script ∅ names)).
Abbreviation echo_block := (body echo_code (echo_value E) (echo_value E)).
Definition echo_lines (o : outcome (result unit E * world gslab lring sring process echo_block (echo_value E))) :=
  '(r, w) ← o; mret (r, stdout (w_libc w).2, stderr (w_libc w).2).
Definition tcp_run (script : KernelScript) (incoming : gmap Z (list (list Z))) :=
  echo_lines (TcpExample.main 100 100 (thread script incoming ∅)).
Definition tcp_serv_run (script : KernelScript) (incoming : gmap Z (list (list Z))) :=
  echo_lines (TcpServ.main 100 100 (thread script incoming ∅)).

(** The tasks of timer.rs take turns; the last one spawned starts. *)
Example timer_example :
  timer_run (one_by_one [(0%nat, 8); (1%nat, 8); (0%nat, 8); (1%nat, 8); (0%nat, 8); (1%nat, 8)]) =
  Ret (["Hello a!"; "Hello A!"; "Hello b!"; "Hello B!"; "Hello c!"; "Hello C!"]%string, []).
Proof. vm_compute. reflexivity. Qed.

(** Whichever of the two timers of a second expires first. *)
Example sub_tasks_example :
  sub_run (one_by_one [(0%nat, 8); (1%nat, 8); (0%nat, 8); (0%nat, 8); (0%nat, 8)]) =
    Ret (["Hello A!"; "Hello from other task"; "Bye bye from other task"; "Hello B!"; "Hello C!"]%string, []) /\
  sub_run (one_by_one [(0%nat, 8); (0%nat, 8); (1%nat, 8); (0%nat, 8); (0%nat, 8)]) =
    Ret (["Hello A!"; "Hello from other task"; "Hello B!"; "Bye bye from other task"; "Hello C!"]%string, []).
Proof. split; vm_compute; reflexivity. Qed.

Definition localhost_names : gmap Z (list Z) :=
  list_to_map ((fun fd => (Z.of_nat fd, as_sockaddr (CSockAddr_from (V4 LOCALHOST 9998)))) <$> seq 0 20).

Example udp_example :
  udp_run (all_at_once 20) localhost_names =
  Ret (["Hello A!"; "Received 8 bytes from 127.0.0.1:9998"; "Sent 8 bytes"; "Hello B!"; "Hello C!"]%string, []).
Proof. vm_compute. reflexivity. Qed.

(** Two bytes, then the end of the stream. *)
Definition two_bytes : gmap Z (list (list Z)) :=
  list_to_map ((fun fd => (Z.of_nat fd, [[104]; [105]])) <$> seq 0 30).
Definition sock_done (n : Z) : list (nat * Z * bool) := [(0%nat, n, false); (2%nat, n, false); (3%nat, n, false)].

Example tcp_example :
  tcp_run
    ([sock_done 0; sock_done 1; sock_done 1; sock_done 1; sock_done 1; sock_done 0] ++ all_at_once 9) two_bytes =
    Ret (Ok tt, ["Hello A!"; "Hello B!"; "Hello C!"]%string, ["Conversation finished.  Read 2 bytes"%string]) /\
  tcp_run ([sock_done (-111)] ++ all_at_once 9) two_bytes =
    Ret (Err (["Could not connect"%string], OsError 111), ["Hello A!"; "Hello B!"; "Hello C!"]%string, []).
Proof. split; vm_compute; reflexivity. Qed.

Example tcp_serv_example :
  tcp_serv_run
    ([[(0%nat, 9, true)]; sock_done 1; sock_done 1; sock_done 1; sock_done 1; sock_done 0] ++ all_at_once 9) two_bytes =
  Ret (Ok tt, ["Waiting for connection on 127.0.0.1:5000"; "Hello A!"; "Hello B!"; "Hello C!"; "Hello D!"]%string,
       ["Conversation finished.  Read 2 bytes"%string]).
Proof. vm_compute. reflexivity. Qed.

(** ** The standard output of this system *)
Ltac console := intros; cbn; try reflexivity;
  unfold m_open, m_change, fallible, try_clone; cbn; repeat (case_match; simplify_eq; cbn; try reflexivity).

#[export] Instance stdout_quiet : Quiet (L:=process) (fun l => stdout l.2).
Proof. split; console. Qed.
#[export] Instance console_output : Output process.
Proof. refine {| out := fun l => stdout l.2 |}; console. Defined.

#[export] Instance console_memory : Memory process.
Proof.
  split; [intros i; split; console|console|]. intros i j v l. cbn. case_decide as Hij.
  - subst. by rewrite lookup_insert_eq.
  - by rewrite lookup_insert_ne.
Qed.

(** ** Witnesses *)
#[local] Instance demo : KernelScript :=
  one_by_one [(0%nat, 8); (1%nat, 8); (0%nat, 8); (1%nat, 8); (0%nat, 8); (1%nat, 8)].
Abbreviation unit_world C := (world gslab lring sring process (body C unit unit) unit).

Definition run_end {X} (o : outcome X) (d : X) : X := match o with Ret x => x | _ => d end.
Definition returned {X} (o : outcome X) : bool := match o with Ret _ => true | _ => false end.

(** A run is evaluated to see that it ends, never to print its last state, whose tasks are trees. *)
Lemma run_ends {X} (o : outcome X) (d : X) : returned o -> o = Ret (run_end o d).
Proof. by destruct o. Qed.
Lemma run_ends_pair {A B} (o : outcome (A * B)) (d : A * B) : returned o -> o = Ret ((run_end o d).1, (run_end o d).2).
Proof. intros Ho. rewrite <- surjective_pairing. by apply run_ends. Qed.

Lemma run_ends_at {A B} (o : outcome (A * B)) (d : A * B) a : (fst <$> o) = Ret a -> o = Ret (a, (run_end o d).2).
Proof. destruct o as [[a' x]| | |]; cbn; by intros [= <-]. Qed.

Definition timer_start : unit_world TimerExample.code := thread demo ∅ ∅.
Definition timer_end : unit_world TimerExample.code := run_end (TimerExample.main 100 100 timer_start) timer_start.

Lemma timer_no_task : all_tasks (w_exec timer_start) = [].
Proof. vm_compute. reflexivity. Qed.

Lemma timer_ends : TimerExample.main 100 100 timer_start = Ret timer_end.
Proof. unfold timer_end; apply run_ends. vm_compute. exact I. Qed.

Lemma timer_output_witness :
  exists ls, out (w_libc timer_end) = out (w_libc timer_start) ++ ls /\ merge upper_lines lower_lines ls.
Proof. apply (timer_output 100 100 timer_start timer_end timer_no_task timer_ends). Defined.

Definition both : list TimerExample.code := [TimerExample.TaskA; TimerExample.Taska].
Definition timer_spawned : unit_world TimerExample.code := run_end (spawn_blocks TimerExample.run_code both timer_start) timer_start.

Lemma timer_spawns : spawn_blocks TimerExample.run_code both timer_start = Ret timer_spawned.
Proof. unfold timer_spawned; apply run_ends. vm_compute. exact I. Qed.

Definition timer_ran : unit_world TimerExample.code := run_end (run (poll_block TimerExample.run_code 100) 100 100 timer_spawned) timer_start.
Lemma timer_runs : run (poll_block TimerExample.run_code 100) 100 100 timer_spawned = Ret timer_ran.
Proof. unfold timer_ran; apply run_ends. vm_compute. exact I. Qed.

(** The same two tasks, after seven rounds: five lines are printed. *)
Definition timer_history : list (nat * seen TimerExample.code) := history TimerExample.run_code 100 100 7 timer_spawned.
Definition timer_seven : unit_world TimerExample.code :=
  (run_end (after TimerExample.run_code 100 100 7 timer_spawned) (false, timer_start)).2.
Lemma timer_after : after TimerExample.run_code 100 100 7 timer_spawned = Ret (false, timer_seven).
Proof. apply run_ends_at. vm_compute. reflexivity. Qed.

Lemma history_any_time_witness :
  said timer_history.*2 = ["Hello a!"; "Hello A!"; "Hello b!"; "Hello B!"; "Hello c!"]%string /\
  out (w_libc timer_seven) = out (w_libc timer_start) ++ said timer_history.*2 /\
  exists (bs : list (TimerExample.code * nat)) (es : list (entry (Code:=TimerExample.code) (Val:=unit))),
    bs.*1 = both /\ born <$> es ≡ₚ bs ++ spawned timer_history.*2 /\
    forall e, e ∈ es -> proj (e_ch e) timer_history = see <$> e_trace e.
Proof.
  split; [vm_compute; reflexivity|].
  destruct (history_any_time TimerExample.run_code both timer_start timer_spawned 100 100 7 false timer_seven
    timer_no_task timer_spawns timer_after) as (E & _ & bs & es & Ebs & Eborn & _ & _ & He).
  split; [exact E|]. exists bs, es. split; [exact Ebs|]. split; [exact Eborn|]. intros e Hin. apply (He e Hin).
Defined.

Lemma run_transcript_witness :
  exists es tagged, out (w_libc timer_ran) = out (w_libc timer_start) ++ tagged.*2 /\
    (forall e : entry (Code:=TimerExample.code) (Val:=unit), e ∈ es ->
       lines_of (e_ch e) tagged = prints (e_trace e) /\
       exists v, halts (TimerExample.run_code (e_code e)) (e_trace e) (Ret v)) /\
    e_code <$> es ≡ₚ both ++ concat ((fun e => spawns (e_trace e)) <$> es).
Proof.
  destruct (run_transcript TimerExample.run_code both timer_start timer_spawned timer_ran 100 100 100
              timer_no_task timer_spawns timer_runs) as (es & tagged & E & _ & _ & He & Hc).
  exists es, tagged. split; [exact E|]. split; [exact He|exact Hc].
Defined.

Abbreviation sub_world := (world gslab lring sring process (body SubTasks.code SubTasks.value SubTasks.value) SubTasks.value).
Definition sub_script : KernelScript := one_by_one [(0%nat, 8); (0%nat, 8); (1%nat, 8); (0%nat, 8); (0%nat, 8)].
Definition sub_start : sub_world := thread sub_script ∅ ∅.
Definition sub_end : SubTasks.value * sub_world := run_end (SubTasks.main 100 100 sub_start) (SubTasks.Unit, sub_start).

Lemma sub_no_task : all_tasks (w_exec sub_start) = [].
Proof. vm_compute. reflexivity. Qed.

Lemma sub_ends : SubTasks.main 100 100 sub_start = Ret (SubTasks.Unit, sub_end.2).
Proof.
  unfold sub_end. rewrite (run_ends_pair (SubTasks.main 100 100 sub_start) (SubTasks.Unit, sub_start)) at 1 by (vm_compute; exact I).
  do 2 f_equal.
Qed.

Lemma sub_tasks_output_witness :
  exists ls, out (w_libc sub_end.2) = out (w_libc sub_start) ++ ls /\ merge main_lines task2_lines ls.
Proof. apply (sub_tasks_output 100 100 sub_start sub_end.2 SubTasks.Unit sub_no_task sub_ends). Defined.

(** A task, run and joined. *)
Definition sub_user : body SubTasks.code SubTasks.value SubTasks.value -> nat -> sub_world ->
    outcome (poll SubTasks.value * body SubTasks.code SubTasks.value SubTasks.value * sub_world) :=
  poll_block SubTasks.run_code 20.
Definition join_start : TaskJoiner * sub_world :=
  run_end (spawn SubTasks.task2 sub_start) (MkJoiner 0 (Event.MkEvent 0) (EventWaiter.wait (Event.MkEvent 0)), sub_start).
Definition join_ran : sub_world :=
  run_end (Task.run sub_user 9 9 join_start.2) sub_start.
Definition join_end : SubTasks.value * sub_world := run_end (join join_start.1 join_ran) (SubTasks.Unit, sub_start).

Lemma join_spawns : spawn SubTasks.task2 sub_start = Ret (join_start.1, join_start.2).
Proof. unfold join_start; apply run_ends_pair. vm_compute. exact I. Qed.
Lemma join_runs : Task.run sub_user 9 9 join_start.2 = Ret join_ran.
Proof. unfold join_ran; apply run_ends. vm_compute. exact I. Qed.
Lemma join_joins : join join_start.1 join_ran = Ret (join_end.1, join_end.2).
Proof. unfold join_end; apply run_ends_pair. vm_compute. exact I. Qed.

Lemma sub_safe : user_safe sub_user (fun _ => True) 0.
Proof. unfold sub_user. apply block_safe. Qed.

Lemma joined_value_witness :
  join_end.1 = SubTasks.I32 24 /\ yields sub_user SubTasks.task2 join_end.1.
Proof.
  split; [vm_compute; reflexivity|].
  exact (joined_value _ sub_safe SubTasks.task2 sub_start join_start.1 join_start.2 join_start.2
           9 9 join_ran join_end.1 join_end.2 (wf_init _ _) join_spawns (rtc_refl _ _) join_runs join_joins).
Defined.

Definition first_poll : poll unit * body TimerExample.code unit unit * unit_world TimerExample.code :=
  run_end (poll_block TimerExample.run_code 20 TimerExample.hello_upper 1 timer_start) (Pending, TimerExample.hello_upper, timer_start).

Lemma first_polls :
  poll_block TimerExample.run_code 20 TimerExample.hello_upper 1 timer_start =
    Ret (first_poll.1.1, first_poll.1.2, first_poll.2).
Proof. rewrite <- !surjective_pairing. apply run_ends. vm_compute. exact I. Qed.

Lemma blocks_keep_tables_witness : wf [] first_poll.2 /\ (w_next timer_start <= w_next first_poll.2)%nat.
Proof.
  exact (blocks_keep_tables TimerExample.run_code [] 20 TimerExample.hello_upper 1 timer_start first_poll.1.1
           first_poll.1.2 first_poll.2 (wf_init _ _) first_polls).
Defined.

(** The echo of two bytes. *)
Definition sock7 : TcpStream.TcpStream := TcpStream.MkStream 7.
Definition echo_demo :=
  alone (Val:=echo_value E) Done 400 (echo_loop (Code:=echo_code) (E:=E) sock7 0 [0]) (Script {[7 := [[104]; [105]]]} [] 0).

Lemma echo_echoes_witness : exists chunks, Z.of_nat (length chunks) = 2 /\ writes 7 echo_demo.1 = take 1 <$> chunks.
Proof.
  assert (halts (echo_loop sock7 0 [0]) echo_demo.1 (Ret (Ok 2))) as Hh.
  { apply (handle_halts (scripted_await (Done (E:=E))) scripted_call 400 _ (Script {[7 := [[104]; [105]]]} [] 0)).
    vm_compute. reflexivity. }
  destruct (echo_echoes sock7 echo_demo.1 (Ret (Ok 2)) Hh) as (chunks & tr1 & Etr & En & _ & _ & Hw & _).
  exists chunks. split; [symmetry; exact En|]. rewrite Etr. unfold writes. rewrite pick_app. fold (writes 7 tr1).
  rewrite app_nil_r. exact Hw.
Defined.

(** The text of [lock] and [connect], polled for the first time. *)
Abbreviation timer_world := (unit_world TimerExample.code).
Definition free_mutex : Mutex.Mutex nat := Mutex.MkMutex (Event.MkEvent 3) 0%nat.
Definition timer_ring : ReactorInner gslab lring sring nat := w_ring timer_start.
Definition timer_libc : process := w_libc timer_start.
Definition lock_machine : outcome (poll unit * Mutex.lock_state * timer_world) :=
  in_world timer_start (Mutex.lock free_mutex Mutex.Unresumed 1%nat timer_ring timer_libc).
Definition lock_text : outcome (poll unit * body TimerExample.code unit unit * timer_world) :=
  poll_body TimerExample.run_code 5 (lock_block free_mutex) 1 timer_start.

Lemma lock_is_block_witness : same_poll (lock_at free_mutex) lock_machine lock_text.
Proof.
  apply (lock_is_block TimerExample.run_code free_mutex Mutex.Unresumed (lock_block free_mutex) 1 timer_start 0).
  reflexivity.
Defined.

Abbreviation tcp_stream := (io_result TcpStream.TcpStream).
Definition one_address : io_result (list SocketAddr) := Ok [V4 LOCALHOST 80].
Definition connect_machine : outcome (poll tcp_stream * Connect.state * timer_world) :=
  in_world timer_start (Connect.poll (Connect.Unresumed one_address) 1%nat timer_ring timer_libc).
Definition connect_text : outcome (poll tcp_stream * body TimerExample.code unit tcp_stream * timer_world) :=
  poll_body TimerExample.run_code 6 (connect_block one_address) 1 timer_start.

Lemma connect_is_block_witness : same_poll connect_at connect_machine connect_text.
Proof.
  apply (connect_is_block TimerExample.run_code (Connect.Unresumed one_address) (connect_block one_address)
           1 timer_start [V4 LOCALHOST 80] 0); reflexivity.
Defined.
