(* ===== verification/SleepRuns.v ===== *)
(** timer.rs on a kernel that completes everything and a clock that moves: the theorems of
    Sleepers.v applied to it. *)
From ITree Require Import ITree.
From S2P Require Import Prelude Bytes Crates CrateModels Results Reactor Io Sqe Futures Libc LibcModel SockAddr Event ReadWrite Fs Timer Tcp Udp Mutex Task TaskProps TaskLoop Progress Joins Async AsyncProps Output Seen History Recorded Transcript Handlers Console Text Programs ProgramOutput Sleepers TaskTests ProgramTests.

Open Scope Z_scope.

#[local] Existing Instance little_endian.
#[local] Existing Instance swapping.
#[local] Existing Instance ering_futures.
#[local] Existing Instance ering_live.

(** The console changes no descriptor. *)
#[export] Instance console_libc_spec : LibcSpec process.
Proof.
  refine {| libc_view := fun l : process => kn_view l.1 |}; intros.
  - exact (last_os_error_spec l.1).
  - pose proof (eventfd_spec n fl l.1) as Hs. cbn in *. by destruct (m_open _ l.1).
  - pose proof (write_event_spec fd n c fl o l.1) as Hs. cbn in *. by destruct (m_change _ _ l.1).
  - pose proof (try_clone_spec fd l.1) as Hs. cbn in *. by destruct (fallible _ l.1 _).
  - exact (close_spec fd l.1).
  - pose proof (socket_spec fam ty proto l.1) as Hs. cbn in *. by destruct (m_open _ l.1).
  - pose proof (bind_spec fd addr n l.1) as Hs. cbn in *. by destruct (m_change _ _ l.1).
  - pose proof (listen_spec fd n l.1) as Hs. cbn in *. by destruct (m_change _ _ l.1).
  - pose proof (lseek_spec fd off whence l.1) as Hs. cbn in *. by destruct (fallible _ l.1 _).
  - pose proof (timerfd_create_spec clk fl l.1) as Hs. cbn in *. by destruct (m_open _ l.1).
  - pose proof (timerfd_settime_spec fd fl s ns l.1) as Hs. cbn in *. by destruct (m_change _ _ l.1).
  - pose proof (now_spec l.1) as Hs. cbn in *. by destruct (kn_clock l.1) as [|t [|t' ts]].
Defined.

(** Readings of a clock that never moves by a millisecond at once. *)
Fixpoint calm (ts : list Z) : Prop :=
  match ts with
  | t :: ((t' :: _) as ts) => t' < t + MS /\ calm ts
  | _ => True
  end.
Definition calm_kernel (k : kernel) : Prop :=
  kn_fail k = [] /\ kn_clock k <> [] /\ Forall (fun t => 0 <= t < 2 ^ 62 * NS) (kn_clock k) /\ calm (kn_clock k).

Lemma calm_change fd f (k : kernel) : calm_kernel k -> calm_kernel (m_change fd f k).2.
Proof.
  intros Hk. unfold m_change, fallible. rewrite (proj1 Hk).
  destruct (k_fds (kn_view k) !! fd) as [o|]; [|done]. destruct (k_objs (kn_view k) !! o) as [x|]; [|done].
  by destruct (f x) as [[r x']|].
Qed.

#[local] Instance process_roomy : Roomy process.
Proof.
  refine {| room l := calm_kernel l.1 |}; cbn.
  - intros n fl l Hl. unfold m_open, fallible. rewrite (proj1 Hl). cbn.
    split; [|done]. pose proof (next_fd_bounds (kn_view l.1)). lia.
  - intros fd l Hl [o Ho]. unfold fallible. rewrite (proj1 Hl). cbn in Ho. rewrite Ho. cbn. split; [by eexists|done].
  - intros fd bs l Hl. apply (calm_change fd (m_write bs)) in Hl. by destruct (m_change _ _ l.1).
  - done.
Defined.

Lemma calm_now (k : kernel) : calm_kernel k ->
  calm_kernel (sys_now k).2 /\ 0 <= (sys_now k).1 < 2 ^ 62 * NS /\ (sys_now (sys_now k).2).1 < (sys_now k).1 + MS.
Proof.
  destruct k as [v fs e [|t [|t' ts]]]; intros (Hf & Hne & Hr & Hc); cbn in *; [done| |]; apply Forall_cons in Hr as [Ht Hr].
  - split; [|split; [exact Ht|unfold MS; lia]]. split; [done|]. split; [done|]. split; [|done]. by constructor.
  - split; [|split; [exact Ht|]]; [split; [done|]; split; [done|]; split; [exact Hr|apply Hc]|].
    destruct ts as [|t2 ts]; apply Hc.
Qed.

#[local] Instance process_slow : SlowClock process.
Proof.
  split.
  - intros [k c] Hk. pose proof (proj1 (calm_now k Hk)) as Hn. cbn in *. by destruct (kn_clock k) as [|t [|t' ts]].
  - intros s [k c] Hk. by split.
  - intros [k c] Hk. pose proof (proj1 Hk) as Hf. cbn in *. unfold m_open, fallible. rewrite Hf. cbn. split; [|exact Hk].
    pose proof (next_fd_bounds (kn_view k)). lia.
  - intros fd o x fl s ns [k c] Hk _ _ Ho Hx. pose proof (proj1 Hk) as Hf. cbn in *. unfold m_change, fallible. rewrite Hf. cbn.
    rewrite Ho, Hx. cbn. split; [done|exact Hk].
  - intros [k c] Hk. pose proof (calm_now k Hk) as (_ & Hr & _). cbn in *. by destruct (kn_clock k) as [|t [|t' ts]].
  - intros [k c] Hk. pose proof (calm_now k Hk) as (_ & _ & Hs). destruct k as [v fs e [|t [|t' [|t2 ts]]]]; exact Hs.
  - intros [k c] Hk. pose proof (calm_now k Hk) as (_ & _ & Hs). pose proof (proj1 Hk) as Hf.
    destruct k as [v fs e [|t [|t' [|t2 ts]]]]; cbn in Hf; subst fs; exact Hs.
Qed.

(** ** Witnesses *)
Definition calm_process : process := (Kernel (KView ∅ ∅) [] 0 [1000; 2000; 2000; 500000; 900000], console_new ∅ ∅).
Lemma calm_room : room calm_process.
Proof. unfold calm_process. cbn. unfold calm_kernel, MS, NS. cbn. split_and!; try done; try lia. repeat constructor; lia. Qed.

Lemma timer_returns_witness :
  exists w' ls, TimerExample.main 10 1025 (world_init eager_ring calm_process) = Ret w' /\
    out (w_libc w') = ls /\ merge upper_lines lower_lines ls.
Proof.
  destruct (timer_returns (S:=gslab) (B:=lring) (U:=ering) (L:=process) 10 1025 eager_ring calm_process)
    as (w' & ls & E & _ & Ho & Hm).
  - reflexivity.
  - exact calm_room.
  - lia.
  - apply Nat.ltb_lt. vm_compute. reflexivity.
  - exists w', ls. split; [exact E|]. split; [exact Ho|exact Hm].
Defined.

Lemma sleepers_return_witness :
  exists w1 w2 : world gslab lring ering process (body TimerExample.code unit unit) unit,
    spawn_blocks TimerExample.run_code [TimerExample.Taska] (world_init eager_ring calm_process) = Ret w1 /\
    run (poll_block TimerExample.run_code 1025) 5 1025 w1 = Ret w2 /\ all_tasks (w_exec w2) = [].
Proof.
  apply (sleepers_return (S:=gslab) (B:=lring) (U:=ering) (L:=process) TimerExample.run_code 1025 (fun _ => 3%nat)
    [TimerExample.Taska] 5 1025 eager_ring calm_process).
  - reflexivity.
  - exact calm_room.
  - done.
  - apply Nat.leb_le. vm_compute. reflexivity.
  - constructor; [|done]. apply hello_naps. apply Nat.ltb_lt. vm_compute. reflexivity.
  - cbn. lia.
  - apply Nat.ltb_lt. vm_compute. reflexivity.
Defined.
