(* ===== verification/BorrowTests.v ===== *)
(** The borrows of a running thread: the theorems of Borrow.v at a concrete run. *)
From ITree Require Import ITree.
From S2P Require Import Prelude Bytes Crates CrateModels Results Reactor Io Sqe Libc LibcModel SockAddr Event ReadWrite Fs Timer Tcp Udp Mutex Task TaskProps TaskLoop Joins Async AsyncProps Output Seen History Handlers Console Text Programs ProgramTests Borrow.

Open Scope nat_scope.

#[local] Existing Instance little_endian.
#[local] Existing Instance swapping.
#[local] Instance script : KernelScript := demo.

(** The two tasks of timer.rs wait for their timers, and one expires. *)
Definition both_wait : unit_world TimerExample.code :=
  (run_end (after TimerExample.run_code 100 100 2 timer_spawned) (true, timer_start)).2.
Definition expired : ReactorInner gslab lring sring nat := run_end (react (w_ring both_wait)) (w_ring both_wait).
Definition woken : option nat * ReactorInner gslab lring sring nat := run_end (next expired) (None, expired).

(** A waker that looks at the reactor when it is woken. *)
Definition eager_wake (waker : nat) : on_thread (S:=gslab) (B:=lring) (U:=sring) (L:=process)
    (Fut:=body TimerExample.code unit unit) (Val:=unit) unit :=
  x ← with_mut Ring (mret tt); mret x.

Lemma waker_inside_reactor_panics_witness :
  returned (react_exec 100 both_wait) /\
  react_with eager_wake 100 (Thread both_wait Free Free) = Panic already_borrowed.
Proof.
  split; [vm_compute; exact I|].
  apply (waker_inside_reactor_panics eager_wake (mret tt) mret 99 both_wait Free (default 0 woken.1) expired woken.2).
  - unfold expired. apply run_ends. vm_compute. exact I.
  - unfold woken. rewrite (run_ends (next expired) (None, expired)) at 1 by (vm_compute; exact I). vm_compute. reflexivity.
  - reflexivity.
Defined.
