(* ===== verification/ServerTests.v ===== *)
(** Connections of the web server, and the witnesses of its properties. *)
From ITree Require Import ITree.
From S2P Require Import Prelude Bytes Crates CrateModels Results Reactor Io Sqe Libc LibcModel SockAddr Event ReadWrite Fs Timer Tcp Udp Mutex Task TaskProps TaskLoop Joins Async AsyncProps Output Seen History Recorded Handlers Console Text Programs ProgramProps ProgramTests WebServer RouteProps ServerProps ServerHistory.

Open Scope Z_scope.

#[local] Instance errors : Anyhow (list string * io_error) := {
  from_io e := ([], e);
  context s e := ([s], e);
}.
Abbreviation E := (list string * io_error)%type.

Definition www : list Z := lit "/srv/www".
Definition client : TcpStream.TcpStream := TcpStream.MkStream 7.
Definition page : File.File := File.MkFile 8.

(** A client that sends [pieces], when opening a file gives [ans]: the files opened, what the
    client gets, the descriptors closed, and how the task ends. *)
Definition visit (pieces : list (list Z)) (ans : io_result File.File) (content : list (list Z)) :=
  let (tr, o) := alone tt 400 (handle_connection (E:=E) www client)
                   (Script {[7 := pieces; 8 := content]} [ans] (Z.of_nat (length (concat content)))) in
  (opens tr, writes 7 tr, closes tr, o).

Definition request (line : string) : list Z :=
  lit (String.append line (String.append CRLF (String.append "Host: x" (String.append CRLF CRLF)))).

Definition header (c : Response.Response) (n : Z) : list Z := response_hdr c n.

(** A file of 3 bytes: 3 are promised, 4096 are sent. *)
Example get_page :
  visit [request "GET /a.html HTTP/1.1"] (Ok page) [replicate 3 65] =
  ([lit "/srv/www/a.html"], [header Response.Ok 3; replicate 3 65 ++ replicate 4093 0], [8; 7], Some (Ret (Ok tt))).
Proof. vm_compute. reflexivity. Qed.

(** The request may come in pieces; the root is the index. *)
Example get_index_missing :
  visit [lit "get / HT"; request "TP/1.1"] (Err (OsError 2)) [] =
  ([lit "/srv/www/index.html"], [header Response.NotFound 0], [7], Some (Ret (Ok tt))).
Proof. vm_compute. reflexivity. Qed.

Example post_refused :
  visit [request "POST / HTTP/1.1"] (Ok page) [] =
  ([], [header Response.NotImplemented 0], [7], Some (Ret (Ok tt))).
Proof. vm_compute. reflexivity. Qed.

(** The path may leave the root of the server. *)
Example get_outside :
  visit [request "GET /../../etc/passwd HTTP/1.1"] (Err (OsError 13)) [] =
  ([lit "/srv/www/../../etc/passwd"], [header Response.ServerError 0], [7], Some (Ret (Ok tt))).
Proof. vm_compute. reflexivity. Qed.

(** No path; a character cut in two by the reads; a client that leaves. *)
Example no_path : visit [request "GET"] (Ok page) [] = ([], [], [], Some (Panic IndexOutOfBounds)).
Proof. vm_compute. reflexivity. Qed.

Example cut_character :
  from_utf8 [71; 195; 169] = Some [71; 233] /\
  visit [[71; 195]; [169]] (Ok page) [] = ([], [], [], Some (Panic UnwrapErr)).
Proof. split; vm_compute; reflexivity. Qed.

Example client_leaves : visit [[71; 69; 84]] (Ok page) [] = ([], [], [], None).
Proof. vm_compute. reflexivity. Qed.

(** ** The whole server *)
#[local] Existing Instance little_endian.
#[local] Existing Instance swapping.

(** [main], when the client 9 sends [pieces]. *)
Definition server_run (script : KernelScript) (pieces : list (list Z)) :=
  lines snd (main (E:=E) (MkArgs 80 www) 100 100 (thread script {[9 := pieces]} ∅)).

(** A connection is served and the server waits for the next one. *)
Example server_waits :
  server_run [[(0%nat, 9, true)]; [(1%nat, 30, false)]; [(1%nat, 30, false)]] [request "GET / HTTP/1.1"] = Hang.
Proof. vm_compute. reflexivity. Qed.

(** A path with a NUL character panics when the file is opened, and takes the whole server down. *)
Definition nul_request : list Z := lit "GET /" ++ [0] ++ lit " HTTP/1.1" ++ END.
Example nul_in_path :
  server_run [[(0%nat, 9, true)]; [(1%nat, 20, false)]] [nul_request] = Panic UnwrapErr.
Proof. vm_compute. reflexivity. Qed.

(** When the operation of the listener ends (here with EMFILE) the loop ends
    too, and dropping the listener panics: [main] does not return. *)
Example listener_ends : server_run [[(0%nat, -24, false)]] [] = Panic UnwrapErr.
Proof. vm_compute. reflexivity. Qed.

(** ** Witnesses *)
Definition demo_script : script := Script {[7 := [request "GET /a.html HTTP/1.1"]; 8 := [[65; 66; 67]]]} [Ok page] 3.
Definition demo_run := alone tt 400 (handle_connection (E:=E) www client) demo_script.

Lemma demo_halts : halts (handle_connection (E:=E) www client : body code unit _) demo_run.1 (Ret (Ok tt)).
Proof.
  apply (handle_halts (scripted_await tt) scripted_call 400 _ demo_script).
  unfold demo_run, alone. vm_compute. reflexivity.
Qed.

(** The request read, and what was answered to it. *)
Lemma connection_answers_witness :
  exists chunks texts tr1 tr2, demo_run.1 = tr1 ++ tr2 /\
    ((completes [] texts /\ received client chunks texts [] tr1 /\
        answered_with www client (concat texts) tr2 (Ret (Ok tt))) \/
     (exists e u, received client chunks texts [Err e] tr1 /\ tr2 = [Obs (Call (CClose 7)) u] /\
        Ret (Ok tt) = Ret (Err (from_io (E:=E) e))) \/
     (exists bs, from_utf8 bs = None /\ received client chunks texts [Ok bs] tr1 /\ tr2 = [] /\
        Ret (Ok tt : result unit E) = Panic UnwrapErr)).
Proof. apply (connection_answers www client demo_run.1 (Ret (Ok tt)) demo_halts). Defined.

Definition file_run := alone tt 400 (send_file (E:=E) client (lit "/a")) demo_script.

Lemma file_halts : halts (send_file (E:=E) client (lit "/a") : body code unit _) file_run.1 (Ret (Ok tt)).
Proof.
  apply (handle_halts (scripted_await tt) scripted_call 400 _ demo_script).
  unfold file_run, alone. vm_compute. reflexivity.
Qed.

Lemma file_opened : opened file_run.1 = [Ok page].
Proof. vm_compute. reflexivity. Qed.

(** Three bytes promised, three read, 4096 sent. *)
Lemma content_length_witness :
  reads 8 file_run.1 = [Ok [65; 66; 67]; Ok []] /\
  exists n chunks body,
    writes 7 file_run.1 = response_hdr Response.Ok n :: body /\
    reads 8 file_run.1 = (Ok <$> chunks) ++ [Ok []] /\ length (concat body) = (4096 * length chunks)%nat.
Proof.
  split; [vm_compute; reflexivity|].
  destruct (content_length client (lit "/a") file_run.1 page file_halts file_opened)
    as (n & chunks & body & Hw & Hr & Hl & _).
  exists n, chunks, body. split; [exact Hw|]. split; [exact Hr|exact Hl].
Defined.

(** A listener that gives one connection, an error and its end. *)
Definition listener : TcpListener.TcpListener := TcpListener.MkListener 3 Multishot.New.
Definition listening X (a : awaitE unit X) (s : list (io_result TcpStream.TcpStream) * script) :
    X * (list (io_result TcpStream.TcpStream) * script) :=
  match a in awaitE _ X return X * (list (io_result TcpStream.TcpStream) * script) with
  | ANext l => match s.1 with x :: q => ((Some x, l), (q, s.2)) | [] => ((None, l), s) end
  | a => let (x, st) := scripted_await tt _ a s.2 in (x, (s.1, st))
  end.
Definition calling X (c : callE code X) (s : list (io_result TcpStream.TcpStream) * script) :
    X * (list (io_result TcpStream.TcpStream) * script) :=
  let (x, st) := scripted_call X c s.2 in (x, (s.1, st)).
Definition serve_run := handle listening calling 40 (serve listener) ([Ok client; Err (OsError 103); Ok client], demo_script).

Lemma serve_halts : halts (serve listener : body code unit unit) serve_run.1 (Ret tt).
Proof.
  apply (handle_halts listening calling 40 _ ([Ok client; Err (OsError 103); Ok client], demo_script)).
  vm_compute. reflexivity.
Qed.

Lemma accepted_spawned_witness :
  connections serve_run.1 = [client; client] /\
  (spawns serve_run.1 = Connection <$> connections serve_run.1 \/
   exists conn, Connection <$> connections serve_run.1 = spawns serve_run.1 ++ [Connection conn]).
Proof.
  split; [vm_compute; reflexivity|]. destruct serve_halts as (s & Hs & _). apply (accepted_spawned listener _ s Hs).
Defined.

(** The whole server, with two clients, after six rounds: both are accepted, and the request of the first is read. *)
#[local] Instance two_clients : KernelScript :=
  [[(0%nat, 9, true)]; [(0%nat, 10, true)]; [(1%nat, 30, false)]; [(1%nat, 30, false)]].
Abbreviation server_world := (world gslab lring sring process (body code unit unit) unit).
Definition up : server_world := thread two_clients {[9 := [request "GET / HTTP/1.1"]]} ∅.
Definition up_main : TaskJoiner * server_world :=
  run_end (spawn (run_code (E:=E) www (Server listener)) up) (MkJoiner 0 (Event.MkEvent 0) (EventWaiter.wait (Event.MkEvent 0)), up).
Definition up_six : server_world := (run_end (after (run_code (E:=E) www) 100 100 6 up_main.2) (true, up)).2.
Definition up_history : list (nat * seen code) := history (run_code (E:=E) www) 100 100 6 up_main.2.

Lemma up_empty : all_tasks (w_exec up) = [].
Proof. vm_compute. reflexivity. Qed.
Lemma up_spawned : spawn (run_code (E:=E) www (Server listener)) up = Ret (up_main.1, up_main.2).
Proof. unfold up_main; apply run_ends_pair. vm_compute. exact I. Qed.
Lemma up_ran : after (run_code (E:=E) www) 100 100 6 up_main.2 = Ret (false, up_six).
Proof. apply run_ends_at. vm_compute. reflexivity. Qed.

Lemma server_any_time_witness :
  (spawned up_history.*2).*1 = [Connection (TcpStream.MkStream 9); Connection (TcpStream.MkStream 10)] /\
  exists main conns, e_ch main = rx up_main.1 /\
    (e_code <$> conns = Connection <$> connections (e_trace main) \/
     exists conn, Connection <$> connections (e_trace main) = (e_code <$> conns) ++ [Connection conn]) /\
    forall e, e ∈ conns -> exists conn, e_code e = Connection conn /\
      goes_along up_history up_six e unit (run_code (E:=E) www (Connection conn)).
Proof.
  split; [vm_compute; reflexivity|].
  destruct (server_any_time www listener up up_main.2 up_six up_main.1 100 100 6 false up_empty up_spawned up_ran)
    as (main & conns & _ & _ & Ech & _ & Hacc & Hconns).
  exists main, conns. split; [exact Ech|]. split; [exact Hacc|]. intros e He.
  destruct (Hconns e He) as (conn & Ec & Hgo & _). exists conn. split; [exact Ec|exact Hgo].
Defined.

(** Routes *)
Definition get : str := lit "GeT".
Definition index_path : str := lit "/docs/../a.html".

Lemma route_request_witness :
  route www (get ++ 32 :: index_path ++ 32 :: lit "HTTP/1.1" ++ 10 :: lit "Host: x") =
    Ret (Serve (lit "/srv/www/docs/../a.html")).
Proof.
  rewrite (route_request www get index_path (lit "HTTP/1.1") (lit "Host: x")); [vm_compute; reflexivity| | |].
  - split; [done|]. by repeat constructor.
  - split; [done|]. by repeat constructor.
  - apply (bool_decide_unpack _). vm_compute. exact I.
Defined.

Definition up_request : str := lit "GET /docs/../a.html HTTP/1.1".

Lemma route_below_witness :
  exists path rel, index (split 32 (trim (first_line up_request))) 1 = Ret path /\
    lit "/srv/www/docs/../a.html" = path_join www rel /\ (DOTDOT ∈ split SLASH rel -> DOTDOT ∈ split SLASH (to_utf8 path)).
Proof.
  destruct (route_below www up_request (lit "/srv/www/docs/../a.html") ltac:(vm_compute; reflexivity))
    as (path & rel & Hp & Hf & _ & _ & Hd).
  exists path, rel. split; [exact Hp|]. split; [exact Hf|exact Hd].
Defined.
