(* ===== verification/UnitRuns.v ===== *)
(** The unit tests of UnitTests.v on scripted kernels, and those of fs.rs on a
    small file system. *)
From ITree Require Import ITree.
From S2P Require Import Prelude Bytes Crates CrateModels Results Reactor Io Sqe Libc LibcModel SockAddr Event ReadWrite Fs Timer Tcp Udp Mutex Task TaskProps TaskLoop Joins Async AsyncProps Handlers Console Text Programs ProgramTests UnitTests.

Open Scope Z_scope.

#[local] Existing Instance little_endian.
#[local] Existing Instance swapping.

(** A thread whose clock gives these readings, then the last one for ever. *)
Definition clocked {Code Val} (script : KernelScript) (clock : list Z) (names : gmap Z (list Z)) :
    world gslab lring sring process (body Code Val Val) Val :=
  world_init (MkReactor (SRing rv_empty RING_ENTRIES script) ∅ (MkResults ∅ ∅))
    (Kernel (KView ∅ ∅) [] 0 clock, console_new ∅ names).

(** How a run ended. *)
Definition ending {X} (o : outcome X) : outcome unit := _ ← o; mret tt.

(** ** event.rs *)
Definition event_run (script : KernelScript) (t : body EventTests.code unit unit) : outcome unit :=
  ending (block_on (poll_block EventTests.run_code 400) 100 100 t (clocked script [0] ∅)).

Example event_simple :
  event_run (one_by_one [(1%nat, 8); (0%nat, 8)]) EventTests.simple = Ret tt.
Proof. vm_compute. reflexivity. Qed.

(** The threads one after the other, or in turns. *)
Definition forty : KernelScript := one_by_one (replicate 40 (1%nat, 8) ++ [(0%nat, 8)]).
Example event_multi_notifiers :
  event_run forty (EventTests.multi_notifiers (replicate 20 true ++ replicate 20 false)) = Ret tt /\
  event_run forty (EventTests.multi_notifiers (concat (replicate 20 [true; false]))) = Ret tt.
Proof. split; vm_compute; reflexivity. Qed.

(** ** mutex.rs *)
Abbreviation mutex_world := (world gslab lring sring process (body MutexTests.code unit unit) unit).
Definition mutex_end (o : outcome (result unit io_error * mutex_world)) : outcome (result unit io_error * list Z) :=
  '(r, w) ← o;
  mret (r, load 0 (w_libc w)).
Definition simple_run (script : KernelScript) := mutex_end (MutexTests.simple 100 100 (clocked script [0] ∅)).
Definition multiple_run (script : KernelScript) := mutex_end (MutexTests.multiple_locks 100 100 (clocked script [0] ∅)).

Definition in_order (l : list nat) : KernelScript := one_by_one ((fun ud => (ud, 8)) <$> l).

(** The lock, the timer, the lock of the task, the joiner. *)
Example mutex_simple : simple_run (in_order [0; 0; 1; 0]%nat) = Ret (Ok tt, [0; 1; 2]).
Proof. vm_compute. reflexivity. Qed.

(** The locks of the tasks in two orders. *)
Example mutex_multiple_locks :
  multiple_run (in_order [0; 0; 1; 2; 3; 1; 4; 0; 0; 0; 0]%nat) = Ret (Ok tt, [0; 1; 2; 2; 2; 2]) /\
  multiple_run (in_order [0; 0; 4; 0; 1; 2; 3; 1; 0; 0; 0]%nat) = Ret (Ok tt, [0; 1; 2; 2; 2; 2]).
Proof. split; vm_compute; reflexivity. Qed.

(** ** timer.rs *)
Abbreviation timers_world := (world gslab lring sring process (body TimerTests.code unit unit) unit).
Definition clock (millis : list Z) : list Z := from_millis <$> millis.
Definition sleep_simple_run (script : KernelScript) (millis : list Z) : outcome unit :=
  ending (TimerTests.sleep_simple 100 100 (clocked script (clock millis) ∅ : timers_world)).
Definition multiple_tasks_run (script : KernelScript) (millis : list Z) : outcome unit :=
  ending (TimerTests.sleep_multiple_tasks 100 100 (clocked script (clock millis) ∅ : timers_world)).
Definition subtasks_run (script : KernelScript) (millis : list Z) : outcome unit :=
  ending (TimerTests.sleep_subtasks 100 100 (clocked script (clock millis) ∅ : timers_world)).
Definition readings (l : list (nat * Z)) : list Z := concat ((fun r => replicate r.1 r.2) <$> l).

(** The test passes when the clock says so, and fails when it says otherwise. *)
Example timer_sleep_simple :
  sleep_simple_run (in_order [0%nat]) (readings [(4%nat, 0); (2%nat, 1001)]) = Ret tt /\
  sleep_simple_run (in_order [0%nat]) (readings [(4%nat, 0); (2%nat, 899)]) = Panic (Explicit "assertion failed").
Proof. split; vm_compute; reflexivity. Qed.

Example timer_sleep_multiple_tasks :
  multiple_tasks_run (in_order [3; 2; 0; 0; 1; 0]%nat) (readings [(10%nat, 0); (4%nat, 1001); (3%nat, 2001)]) = Ret tt.
Proof. vm_compute. reflexivity. Qed.

Example timer_sleep_subtasks :
  subtasks_run (in_order [0; 1; 2; 0; 0]%nat) (readings [(4%nat, 0); (9%nat, 1001); (6%nat, 2002)]) = Ret tt.
Proof. vm_compute. reflexivity. Qed.

(** ** udp.rs *)
Definition send_recv_run (script : KernelScript) (names : gmap Z (list Z)) : outcome unit :=
  ending (block_on (poll_block UdpTests.run_code 100) 100 100 UdpTests.send_recv (clocked script [0] names)).

Example udp_send_recv : send_recv_run (all_at_once 4) localhost_names = Ret tt.
Proof. vm_compute. reflexivity. Qed.

(** ** fs.rs *)

(** A file system: the contents of the files, the directories, and for each
    open descriptor its file and its position. *)
Record disk := Disk {
  contents : gmap (list Z) (list Z);
  dirs : list (list Z);
  positions : gmap Z (list Z * Z);
}.

Definition empty_disk : disk := Disk ∅ [] ∅.
Definition with_file (path : list Z) (text : string) : disk := Disk {[path := lit text]} [] ∅.

Definition disk_open (f : FileOpen.FileOpen) (d : disk) : io_result File.File * disk :=
  let path := FileOpen.path f in
  let fd := Z.of_nat (size (positions d)) + 3 in
  let opened := Disk (contents d) (dirs d) (<[fd := (path, 0)]> (positions d)) in
  match contents d !! path with
  | Some _ => (Ok (File.MkFile fd), opened)
  | None =>
      if decide (Z.land (FileOpen.flags f) O_CREAT = 0) then (Err (OsError 2), d)
      else (Ok (File.MkFile fd), Disk (<[path := []]> (contents d)) (dirs d) (positions opened))
  end.

Definition disk_read (r : AsyncReader.AsyncReader) (d : disk) : io_result (list Z) * disk :=
  match positions d !! AsyncReader.fd r with
  | Some (path, off) =>
      let bs := take (Z.to_nat (AsyncReader.buf_len r)) (drop (Z.to_nat off) (default [] (contents d !! path))) in
      (Ok bs, Disk (contents d) (dirs d) (<[AsyncReader.fd r := (path, off + Z.of_nat (length bs))]> (positions d)))
  | None => (Err (OsError 9), d)
  end.

Definition disk_write (fd : Z) (bs : list Z) (d : disk) : io_result Z * disk :=
  match positions d !! fd with
  | Some (path, off) =>
      let text := default [] (contents d !! path) in
      let n := Z.of_nat (length bs) in
      let text := take (Z.to_nat off) text ++ bs ++ drop (Z.to_nat (off + n)) text in
      (Ok n, Disk (<[path := text]> (contents d)) (dirs d) (<[fd := (path, off + n)]> (positions d)))
  | None => (Err (OsError 9), d)
  end.

Definition disk_seek (fd : Z) (pos : File.SeekFrom) (d : disk) : io_result Z * disk :=
  match positions d !! fd with
  | Some (path, off) =>
      let off := match pos with
                 | File.Start n => n
                 | File.End n => Z.of_nat (length (default [] (contents d !! path))) + n
                 | File.Current n => off + n
                 end in
      if decide (off < 0) then (Err (OsError 22), d)
      else (Ok off, Disk (contents d) (dirs d) (<[fd := (path, off)]> (positions d)))
  | None => (Err (OsError 9), d)
  end.

Definition disk_await X (a : awaitE unit X) (d : disk) : X * disk :=
  match a in awaitE _ X return X * disk with
  | AOpen f => disk_open f d
  | ARead r => disk_read r d
  | AWrite bs w => disk_write (AsyncWriter.fd w) bs d
  | AMkdir m => (Ok tt, Disk (contents d) (dirs d ++ [Mkdir.path m]) (positions d))
  | a => ((scripted_await tt _ a (Script ∅ [] 0)).1, d)
  end.

(** The futures are made by the crate's own functions. *)
Definition made {F} (o : outcome F) (f : F) : F := match o with Ret x => x | _ => f end.
Definition disk_call X (c : callE unit X) (d : disk) : X * disk :=
  match c in callE _ X return X * disk with
  | COpen p => (made (FileOpen.open p) (FileOpen.MkOpen [] 0 Oneshot.New), d)
  | CCreate p => (made (FileOpen.create p) (FileOpen.MkOpen [] 0 Oneshot.New), d)
  | CMkdir p => (made (Mkdir.mkdir p) (Mkdir.MkMkdir Oneshot.New []), d)
  | CSeek f pos => disk_seek (File.inner f) pos d
  | CClose fd => (tt, Disk (contents d) (dirs d) (delete fd (positions d)))
  | c => ((scripted_call _ c (Script ∅ [] 0)).1, d)
  end.

(** How a block ends alone on a disk, and the disk at the end. *)
Definition on_disk {R} (t : body unit unit R) (d : disk) : option (outcome R * disk) :=
  (handle_with disk_await disk_call 200 t d).2.

Definition child : list Z := lit "/tmp/test.txt".
Definition fs_run {R} (t : body unit unit R) (d : disk) : option (outcome R * option (list Z)) :=
  '(o, d) ← on_disk t d; Some (o, contents d !! child).

Example fs_simple_write :
  fs_run (FsTests.simple_write child) empty_disk = Some (Ret 13, Some (lit "Hello, world!")).
Proof. vm_compute. reflexivity. Qed.

Example fs_simple_read :
  fs_run (FsTests.simple_read child) (with_file child "Hello, async!") = Some (Ret tt, Some (lit "Hello, async!")).
Proof. vm_compute. reflexivity. Qed.

Example fs_no_file_open_error : fs_run (FsTests.no_file_open_error child) empty_disk = Some (Ret tt, None).
Proof. vm_compute. reflexivity. Qed.

Example fs_create_on_existing_file :
  fs_run (FsTests.create_on_existing_file child) (with_file child "data") = Some (Ret tt, Some (lit "data")).
Proof. vm_compute. reflexivity. Qed.

Example fs_consecutive_writes :
  fs_run (FsTests.consecutive_writes child) empty_disk = Some (Ret tt, Some (lit "HelloABCD")).
Proof. vm_compute. reflexivity. Qed.

Example fs_consecutive_reads :
  fs_run (FsTests.consecutive_reads child) (with_file child "abcdef") = Some (Ret tt, Some (lit "abcdef")).
Proof. vm_compute. reflexivity. Qed.

(** Also with another content, where the assertion fails. *)
Example fs_simple_seek :
  fs_run (FsTests.simple_seek child) (with_file child "abcdef") = Some (Ret tt, Some (lit "abcdef")) /\
  fs_run (FsTests.simple_seek child) (with_file child "abcdeg") =
    Some (Panic (Explicit "assertion failed"), Some (lit "abcdeg")).
Proof. split; vm_compute; reflexivity. Qed.

Example fs_simple_mkdir :
  (fun x => (x.1, dirs x.2)) <$> on_disk (FsTests.simple_mkdir (lit "/tmp/dir")) empty_disk =
  Some (Ret tt, [lit "/tmp/dir/test_dir"]).
Proof. vm_compute. reflexivity. Qed.
