(* ===== verification/DocRuns.v ===== *)
(** The examples of the documentation on scripted kernels, and the theorems of
    Prompt.v and DocProps.v applied to them. *)
From ITree Require Import ITree.
From S2P Require Import Prelude Bytes Crates CrateModels Results Reactor Io Sqe Libc LibcModel SockAddr Event ReadWrite Fs Timer Tcp Udp Mutex Task TaskProps TaskLoop Joins Async AsyncProps Output Seen History Recorded Transcript Handlers Console Text Programs ProgramTests UnitTests UnitRuns Prompt DocTests DocProps.

Open Scope Z_scope.

#[local] Existing Instance little_endian.
#[local] Existing Instance swapping.

Definition printed {C V} (o : outcome (world gslab lring sring process (body C V V) V)) : outcome (list string) :=
  w ← o; mret (stdout (w_libc w).2).

(** ** task.rs and lib.rs: the kernel answers nothing to the tasks that never wait. *)
Abbreviation task_world := (unit_world TaskDocs.code).
#[local] Instance silent : KernelScript := [].
Definition no_kernel {C V} : world gslab lring sring process (body C V V) V := clocked silent [0] ∅.

Example doc_hello_world : printed (snd <$> TaskDocs.hello_world 1 100 no_kernel) = Ret ["Hello, world!"%string].
Proof. vm_compute. reflexivity. Qed.

Example doc_value : ending (TaskDocs.value 1 100 no_kernel) = Ret tt.
Proof. vm_compute. reflexivity. Qed.

(** The task spawned last comes first. *)
Example doc_two_tasks : printed (TaskDocs.two_tasks 2 100 no_kernel) = Ret ["World!"; "Hello"]%string.
Proof. vm_compute. reflexivity. Qed.

Example doc_not_sync : ending (TaskDocs.not_sync 2 100 no_kernel) = Ret tt.
Proof. vm_compute. reflexivity. Qed.

Example doc_threads : ending (TaskDocs.threads 2 100 no_kernel) = Ret tt.
Proof. vm_compute. reflexivity. Qed.

(** The two timers in either order. *)
Definition lib_run (script : KernelScript) : outcome (list string) := printed (LibDocs.main 100 100 (clocked script [0] ∅)).
Example doc_lib :
  lib_run (in_order [1; 0]%nat) = Ret ["Hello, "; "World!"]%string /\
  lib_run (in_order [0; 1]%nat) = Ret ["World!"; "Hello, "]%string.
Proof. split; vm_compute; reflexivity. Qed.

(** ** event.rs and mutex.rs *)
Definition event_doc (script : KernelScript) : outcome EventDocs.value :=
  fst <$> block_on (poll_block EventDocs.run_code 100) 100 100 (EventDocs.run_code EventDocs.Main) (clocked script [0] ∅).
Example doc_event : event_doc (in_order [0; 1; 0]%nat) = Ret (EventDocs.Res (Ok tt)).
Proof. vm_compute. reflexivity. Qed.

(** The tasks take the lock in either order. *)
Definition mutex_doc (script : KernelScript) : outcome (list Z) :=
  w ← MutexDocs.main 100 100 (clocked script [0] ∅); mret (load 0 (w_libc w)).
Example doc_mutex :
  mutex_doc (in_order [0; 1; 1; 0; 0]%nat) = Ret [2] /\ mutex_doc (in_order [1; 1; 0; 0; 0]%nat) = Ret [2].
Proof. split; vm_compute; reflexivity. Qed.

(** ** timer.rs, fs.rs, tcp.rs and udp.rs *)
Definition io_doc (script : KernelScript) (clock : list Z) (incoming : gmap Z (list (list Z))) (names : gmap Z (list Z))
    (t : body unit (result unit io_error) (result unit io_error)) : outcome (result unit io_error) :=
  fst <$> block_on (poll_block (fun _ => mret (Ok tt)) 100) 100 100 t
    (world_init (MkReactor (SRing rv_empty RING_ENTRIES script) ∅ (MkResults ∅ ∅))
       (Kernel (KView ∅ ∅) [] 0 clock, console_new incoming names)
      : world gslab lring sring process (body unit (result unit io_error) (result unit io_error)) (result unit io_error)).

(** The timer expires after more than two seconds; between two readings of its first poll; too early. *)
Definition timer_run_doc (before after : Z) (n : nat) : outcome (result unit io_error) :=
  io_doc (in_order [0%nat]) (clock (readings [(n, before); (2%nat, after)])) ∅ ∅ timer_doc.
Example doc_timer :
  timer_run_doc 0 2001 4 = Ret (Ok tt) /\ timer_run_doc 0 2001 3 = Panic UnwrapErr /\
  timer_run_doc 0 2000 4 = Panic (Explicit "assertion failed").
Proof. split_and!; vm_compute; reflexivity. Qed.

Example doc_fs : fs_run (fs_doc child) empty_disk = Some (Ret (Ok tt), Some (lit "Hello, world!")).
Proof. vm_compute. reflexivity. Qed.

(** One connection of two bytes, an error of the connection, an error of the listener. *)
Definition kernel_of (l : list (nat * Z * bool)) : KernelScript := (fun c => [c]) <$> l.
Definition io_done (n : Z) : nat * Z * bool := (1%nat, n, false).
Example doc_tcp :
  io_doc (kernel_of [(0%nat, 9, true); io_done 1; io_done 1; io_done 1; io_done 1; io_done 0]) [0] two_bytes ∅ tcp_doc = Ret (Ok tt) /\
  io_doc (kernel_of [(0%nat, 9, true); io_done 1; io_done (-5)]) [0] two_bytes ∅ tcp_doc = Ret (Err (OsError 5)) /\
  io_doc (kernel_of [(0%nat, -24, true)]) [0] two_bytes ∅ tcp_doc = Ret (Ok tt).
Proof. split_and!; vm_compute; reflexivity. Qed.

Example doc_udp :
  io_doc (in_order [0; 0; 0; 0]%nat ++ one_by_one [(0%nat, -5)]) [0] ∅ localhost_names udp_doc = Ret (Err (OsError 5)) /\
  io_doc (in_order [0%nat]) [0] ∅ localhost_names recv_from_doc = Ret (Ok tt) /\
  io_doc (in_order [0%nat]) [0] ∅ localhost_names send_to_doc = Ret (Ok tt).
Proof. split_and!; vm_compute; reflexivity. Qed.

(** ** Witnesses *)
Definition two_codes : list TaskDocs.code := [TaskDocs.Hello; TaskDocs.World].
Definition task_start : task_world := no_kernel.
Definition two_begun : task_world := run_end (spawn_blocks TaskDocs.run_code two_codes task_start) task_start.
Lemma two_begin : spawn_blocks TaskDocs.run_code two_codes task_start = Ret two_begun.
Proof. unfold two_begun; apply run_ends. vm_compute. exact I. Qed.

(** No round of the two processes a completion. *)
Lemma prompt_tasks_last_first_witness :
  exists w', run (poll_block TaskDocs.run_code 100) 2 0 two_begun = Ret w' /\
    out (w_libc w') = ["World!"; "Hello"]%string /\ all_tasks (w_exec w') = [].
Proof.
  destruct (prompt_tasks_last_first (view:=out) TaskDocs.run_code 100 (fun _ _ => True) DocProps.printed 2 0 two_codes task_start two_begun)
    as (w' & Hrun & E & Hend).
  - done.
  - cbn. lia.
  - vm_compute. reflexivity.
  - vm_compute. reflexivity.
  - repeat constructor; exists tt; apply println_prompt; first [done|lia].
  - done.
  - exact two_begin.
  - exists w'. split; [exact Hrun|]. split; [rewrite E; vm_compute; reflexivity|exact Hend].
Defined.

Definition adds : list TaskDocs.code := [TaskDocs.Add 0 1; TaskDocs.Add 0 1].
Definition cell_made : task_world := set_libc (store 0 [0] (w_libc task_start)) task_start.
Definition adds_begun : task_world := run_end (spawn_blocks TaskDocs.run_code adds cell_made) task_start.
Definition thread_ring : ReactorInner gslab lring sring nat := run_end reactor_new (w_ring task_start).
Definition thread_made : task_world := world_init thread_ring (w_libc adds_begun).
Definition thread_begun : task_world := run_end (spawn_blocks TaskDocs.run_code [TaskDocs.Add 0 1] thread_made) task_start.
Lemma adds_begin : spawn_blocks TaskDocs.run_code adds cell_made = Ret adds_begun.
Proof. unfold adds_begun; apply run_ends. vm_compute. exact I. Qed.
Lemma ring_made : reactor_new = Ret thread_ring.
Proof. unfold thread_ring; apply run_ends. vm_compute. exact I. Qed.
Lemma thread_begins : spawn_blocks TaskDocs.run_code [TaskDocs.Add 0 1] thread_made = Ret thread_begun.
Proof. unfold thread_begun; apply run_ends. vm_compute. exact I. Qed.

Lemma threads_doc_witness : exists w', TaskDocs.threads 2 100 task_start = Ret w' /\ all_tasks (w_exec w') = [].
Proof.
  apply (threads_doc 2 100 task_start adds_begun thread_begun thread_ring).
  - lia.
  - lia.
  - vm_compute. reflexivity.
  - vm_compute. reflexivity.
  - exact adds_begin.
  - exact ring_made.
  - exact thread_begins.
Defined.

(** A connection of two bytes, and its end. *)
Definition one_connection X (a : awaitE unit X) (s : script) : X * script :=
  match a in awaitE _ X return X * script with
  | ANext l => ((Some (Ok sock7), l), s)
  | a => scripted_await tt _ a s
  end.
Definition tcp_alone : list (obs (Code:=unit) (Val:=unit)) * option (outcome (result unit io_error)) :=
  handle one_connection (fun X => scripted_call X) 100 tcp_doc (Script {[7 := [[104]; [105]]]} [] 0).
Lemma tcp_halts : halts tcp_doc tcp_alone.1 (Ret (Ok tt)).
Proof.
  apply (handle_halts one_connection (fun X => scripted_call X) 100 _ (Script {[7 := [[104]; [105]]]} [] 0)).
  vm_compute. reflexivity.
Qed.

Lemma tcp_doc_serves_one_witness :
  accepts tcp_alone.1 = [Some (Ok sock7)] /\ writes 7 tcp_alone.1 = [[104]; [105]] /\
  exists l conn l' tr1,
    tcp_alone.1 = [Obs (Call (CBind (Ok [V4 UNSPECIFIED 8888]))) (Ok l); Obs (Await (ANext l)) (conn, l')] ++ tr1 ++
      [Obs (Call (CListenerDrop l')) tt].
Proof.
  split; [vm_compute; reflexivity|]. split; [vm_compute; reflexivity|].
  destruct (tcp_doc_serves_one tcp_alone.1 (Ret (Ok tt)) tcp_halts) as [(e & Er & _)|(l & conn & l' & r & tr1 & _ & Etr & _)].
  - discriminate Er.
  - exists l, conn, l', tr1. exact Etr.
Defined.
