(* ===== verification/MutexRuns.v ===== *)
(** The tests of mutex.rs at concrete kernels: the theorems of Critical.v and
    MutexData.v applied to them. *)
From ITree Require Import ITree.
From S2P Require Import Prelude Bytes Crates CrateModels Results Reactor Io Sqe Libc LibcModel SockAddr Event ReadWrite Fs Timer Tcp Udp Mutex Task TaskProps TaskLoop Joins Async AsyncProps Output Seen History Recorded Transcript Monitor Critical Handlers Console Text Programs ProgramTests UnitTests MutexData UnitRuns.

Open Scope nat_scope.
Import MutexTests.

#[local] Existing Instance little_endian.
#[local] Existing Instance swapping.

(** The thread of the test multiple_locks, on a kernel that gives the locks in this order. *)
#[local] Instance locks_script : KernelScript := in_order [0; 0; 4; 0; 1; 2; 3; 1; 0; 0; 0].
Definition start : mutex_world := clocked locks_script [0%Z] ∅.
Definition made : io_result (Mutex.Mutex nat) * process := Mutex.new 0 (store 0 [0%Z] (w_libc start)).
Definition mtx : Mutex.Mutex nat := Mutex.MkMutex (Event.MkEvent 3) 0.
Definition ready : mutex_world := set_libc made.2 start.
Definition the_main : TaskJoiner * mutex_world :=
  run_end (spawn (run_code (MultipleLocks mtx)) ready) (MkJoiner 0 (Event.MkEvent 0) (EventWaiter.wait (Event.MkEvent 0)), start).
Definition finished : mutex_world :=
  (run_end (block_on (poll_block run_code 100) 100 100 (run_code (MultipleLocks mtx)) ready) (tt, start)).2.
Definition the_history : list (nat * seen code) := history run_code 100 100 100 the_main.2.

(** A run is evaluated to see that it ends, never to print its last state. *)
Lemma run_ends_unit {B} (o : outcome (unit * B)) (d : unit * B) : returned o -> o = Ret (tt, (run_end o d).2).
Proof. by destruct o as [[[] x]| | |]. Qed.

Lemma start_empty : all_tasks (w_exec start) = [].
Proof. vm_compute. reflexivity. Qed.
Lemma made_mutex : Mutex.new 0 (store 0 [0%Z] (w_libc start)) = (Ok mtx, made.2).
Proof. vm_compute. reflexivity. Qed.
Lemma main_spawned : spawn (run_code (MultipleLocks mtx)) ready = Ret (the_main.1, the_main.2).
Proof. unfold the_main; apply run_ends_pair. vm_compute. exact I. Qed.
Lemma test_ran : block_on (poll_block run_code 100) 100 100 (run_code (MultipleLocks mtx)) ready = Ret (tt, finished).
Proof. apply run_ends_unit. vm_compute. exact I. Qed.
Lemma one_guard_only : semaphore 1 (mevents mtx the_history.*2).
Proof. vm_compute. exact I. Qed.


(** The thread after six rounds: the first section is open. *)
Definition begun : mutex_world := run_end (spawn_blocks run_code [MultipleLocks mtx] ready) start.
Definition paused : mutex_world := (run_end (after run_code 100 100 6 begun) (true, start)).2.
Definition so_far : list (nat * seen code) := history run_code 100 100 6 begun.

Lemma main_begun : spawn_blocks run_code [MultipleLocks mtx] ready = Ret begun.
Proof. apply run_ends. vm_compute. exact I. Qed.
Lemma main_paused : after run_code 100 100 6 begun = Ret (false, paused).
Proof.
  unfold paused. apply run_ends_at. vm_compute. done.
Qed.
Lemma ready_empty : all_tasks (w_exec ready) = [].
Proof. vm_compute. reflexivity. Qed.
Lemma one_guard_so_far : semaphore 1 (mevents mtx so_far.*2).
Proof. vm_compute. exact I. Qed.


(** A kernel that completes two reads of the event for one notification breaks the lock. *)
Example two_guards : simple_run (in_order [0; 1; 0; 0]) = Panic (Explicit "assertion `left == right` failed").
Proof. vm_compute. reflexivity. Qed.
