(* ===== verification/ThreadRuns.v ===== *)
(** Threads at concrete schedules, and the theorems of ThreadProps.v applied to them. *)
From ITree Require Import ITree.
From S2P Require Import Prelude Bytes Crates CrateModels Results Reactor Io Sqe Libc LibcModel SockAddr Event ReadWrite Fs Timer Tcp Udp Mutex Task TaskProps TaskLoop Joins Async AsyncProps Output Seen History Recorded Transcript Monitor Critical Threads ThreadProps Handlers Console Text Programs ProgramTests UnitTests DocTests EventThreads MutexData UnitRuns.

Open Scope nat_scope.

#[local] Existing Instance little_endian.
#[local] Existing Instance swapping.

(** The rings of all threads follow this script: each operation completes in turn. *)
#[local] Instance in_turn : KernelScript := in_order (replicate 40 0).

Abbreviation threads_of Code := (Proc (world gslab lring sring process (body Code unit unit) unit) (body Code unit unit) process).
Definition no_threads {Code} (l : process) : threads_of Code := MkProc [] l.
Definition system : process := (Kernel (KView ∅ ∅) [] 0 [0%Z], console_new ∅ ∅).

(** ** The threads of task.rs: two tasks on the main thread, one on another, joined between the assertions *)
Definition joiner (ch : nat) (fd : Z) : TaskJoiner := MkJoiner ch (Event.MkEvent fd) (EventWaiter.wait (Event.MkEvent fd)).
Definition spawns_one (i : nat) : list (action (Code:=TaskDocs.code)) :=
  [Sync i (CSpawn (TaskDocs.Add 0 1)); Sync i (CDetach (joiner 0 3))].
Definition doc_schedule : list (action (Code:=TaskDocs.code)) :=
  [Begin; Sync 0 (CStore 0 [0%Z])] ++ spawns_one 0 ++ [Sync 0 (CSpawn (TaskDocs.Add 0 1)); Sync 0 (CDetach (joiner 2 5));
   Begin; Sync 1 (CSpawn (TaskDocs.Add 0 1)); Sync 1 (CDetach (joiner 0 7)); Round 1; Sync 0 (CLoad 0);
   Round 0; Round 0; Sync 0 (CLoad 0)].
Definition loaded (i : nat) {Code} (h : list (nat * (option nat * seen Code))) : list access := accesses 0 (sync_of i h).

Example doc_threads_interleaved :
  (fst <$> acts TaskDocs.run_code 100 100 doc_schedule (no_threads system)) ≫= (fun h => mret (loaded 0 h)) =
  Ret [Store [0]; Load [1]; Load [3]]%Z.
Proof. vm_compute. reflexivity. Qed.

(** ** A mutex that two threads share *)
Import MutexTests.
Definition made : io_result (Mutex.Mutex nat) * process := Mutex.new 0 (store 0 [0%Z] system).
Definition mtx : Mutex.Mutex nat := Mutex.MkMutex (Event.MkEvent 3) 0.
Example shared_mutex_made : made.1 = Ok mtx.
Proof. vm_compute. reflexivity. Qed.

(** The steps of the polls of the two tasks are interleaved.  Both wait for the lock; the second thread has it, and
    is still in its poll, after the guard is dropped, when the first has it. *)
Definition both_wait : list (action (Code:=code)) :=
  [Begin; Sync 0 (CSpawn (Push mtx)); Begin; Sync 1 (CSpawn (Push mtx)); Take 0; Take 1; Poll 0; Poll 1].
Definition both_lock : list (action (Code:=code)) :=
  [Take 1; Poll 1; Poll 1; Poll 1; Poll 1; Take 0; Poll 0; Poll 1; Poll 0; Poll 0; Poll 0].
Definition none : threads_of code := no_threads made.2.
Definition run_threads (sched : list (action (Code:=code))) (p : threads_of code) :
    outcome (list (nat * (option nat * seen code)) * threads_of code) := acts run_code 100 100 sched p.
Definition waiting_both := run_end (run_threads both_wait none) ([], none).
Definition over_both := run_end (run_threads (both_wait ++ both_lock ++ [Poll 0]) none) ([], none).

Lemma none_idle : idle none.
Proof. constructor. Qed.
Lemma both_are_waiting : run_threads both_wait none = Ret (waiting_both.1, waiting_both.2).
Proof. unfold waiting_both; apply run_ends_pair. vm_compute. exact I. Qed.
Lemma both_are_over : run_threads (both_wait ++ both_lock ++ [Poll 0]) none = Ret (over_both.1, over_both.2).
Proof. unfold over_both; apply run_ends_pair. vm_compute. exact I. Qed.
(** Thread 0 locks while thread 1 is in its poll, after its last event. *)
Example who_did_what : fst <$> over_both.1 = [0; 1; 1; 1; 1; 1; 0; 0; 0; 0].
Proof. vm_compute. reflexivity. Qed.
Lemma over_steps : steps run_code 100 none over_both.1 over_both.2.
Proof. eapply acts_steps, both_are_over. Qed.
Lemma waiting_steps : steps run_code 100 none waiting_both.1 waiting_both.2.
Proof. eapply acts_steps, both_are_waiting. Qed.

Lemma threads_any_time_witness :
  replays (load 0 made.2) (accesses 0 over_both.1.*2.*2) (load 0 (p_libc over_both.2)) /\
  accesses 0 over_both.1.*2.*2 = [Load [0]; Store [0; 2]; Load [0; 2]; Store [0; 2; 2]]%Z /\
  forall i t, threads over_both.2 !! i = Some t ->
    exists es : list (entry (Code:=code) (Val:=unit)), born <$> es ≡ₚ spawned (proj i over_both.1).*2 /\
      forall e, e ∈ es -> proj (Some (e_ch e)) (proj i over_both.1) = see <$> e_trace e.
Proof.
  destruct (threads_any_time run_code 100 none over_both.1 over_both.2 none_idle over_steps) as (_ & Hr & _ & Ht).
  split; [exact (Hr 0)|]. split; [vm_compute; reflexivity|]. intros i t Hi. destruct (Ht i t Hi) as (es & _ & Hb & _ & He).
  exists es. split; [exact Hb|]. intros e Hin. exact (proj1 (He e Hin)).
Defined.

(** Thread 1 is over; the next step of thread 0 ends its poll and its loop. *)
Definition one_over := run_end (run_threads (both_wait ++ both_lock) none) ([], none).
Lemma one_is_over : run_threads (both_wait ++ both_lock) none = Ret (one_over.1, one_over.2).
Proof. unfold one_over; apply run_ends_pair. vm_compute. exact I. Qed.

Abbreviation thread_world := (world gslab lring sring process (body code unit unit) unit).
Abbreviation thread := (Thread thread_world (body code unit unit)).
Definition no_thread : thread := MkThread (clocked in_turn [0%Z] ∅) Outside.
Definition nth_thread (p : threads_of code) (i : nat) : thread := default no_thread (threads p !! i).
Lemma nth_thread_lookup p i : i < length (threads p) -> threads p !! i = Some (nth_thread p i).
Proof. intros [t Ht]%lookup_lt_is_Some. unfold nth_thread. by rewrite Ht. Qed.

Definition no_task : Task (body code unit unit) := MkTask 0 (MkTaskFuture (mret tt) (Event.MkEvent 0) 0).
Definition polling (t : thread) : Task (body code unit unit) := match t_phase t with Polling task => task | _ => no_task end.
Lemma polling_phase (t : thread) : in_poll t -> t_phase t = Polling (polling t).
Proof. unfold in_poll, polling. by destruct (t_phase t). Qed.

Definition last_task : Task (body code unit unit) := polling (nth_thread one_over.2 0).
Definition last_poll := poll_step run_code last_task (on one_over.2 (nth_thread one_over.2 0)).
Definition last_world : thread_world := (run_end last_poll ([], Outside, t_world no_thread)).2.
Lemma last_poll_ends : last_poll = Ret ([], Outside, last_world).
Proof. unfold last_world. apply run_ends_at. vm_compute. reflexivity. Qed.
Lemma two_threads_over : 0 < length (threads one_over.2).
Proof. assert (length (threads one_over.2) = 2) as -> by (vm_compute; reflexivity). lia. Qed.

Lemma threads_keep_tables_witness : tables_ok one_over.2 /\ wf [] last_world /\ all_tasks (w_exec last_world) = [].
Proof.
  apply (threads_keep_tables run_code 100 none one_over.1 one_over.2 0 (nth_thread one_over.2 0) last_task [] last_world).
  - constructor.
  - eapply acts_steps, one_is_over.
  - apply nth_thread_lookup, two_threads_over.
  - apply polling_phase. vm_compute. exact I.
  - exact last_poll_ends.
Defined.

(** Both threads wait, each with its task at key 0: thread 1 wakes the task of thread 0. *)
Abbreviation waiting_at p i k := (slab_view (waiting (w_exec (t_world (nth_thread p i)))) !! k).
Definition task_at (i : nat) : Task (body code unit unit) := default no_task (waiting_at waiting_both.2 i 0).
Lemma task_waits i : bool_decide (is_Some (waiting_at waiting_both.2 i 0)) -> waiting_at waiting_both.2 i 0 = Some (task_at i).
Proof. intros [t Ht]%bool_decide_unpack. unfold task_at. by rewrite Ht. Qed.
Lemma two_threads_wait : length (threads waiting_both.2) = 2.
Proof. vm_compute. reflexivity. Qed.
Lemma waiting_tables : tables_ok waiting_both.2.
Proof. eapply steps_tables; [exact waiting_steps|constructor]. Qed.

Lemma wake_from_elsewhere_witness : exists p' t',
  act run_code 100 0 (WakeFrom 0 (id (task_at 0)) 1) waiting_both.2 = Ret ([], p') /\
  threads p' !! 0 = Some (nth_thread waiting_both.2 0) /\ threads p' !! 1 = Some t' /\
  run_q (w_exec (t_world t')) = run_q (w_exec (t_world (nth_thread waiting_both.2 1))) ++ [task_at 1].
Proof.
  destruct (wake_from_elsewhere run_code 100 waiting_both.2 0 (nth_thread waiting_both.2 0) 1 (nth_thread waiting_both.2 1) 0 (task_at 0))
    as (p' & t' & Ha & H0 & H1 & _ & Hm).
  - lia.
  - apply nth_thread_lookup. rewrite two_threads_wait. lia.
  - apply nth_thread_lookup. rewrite two_threads_wait. lia.
  - exact waiting_tables.
  - apply task_waits. vm_compute. exact I.
  - exists p', t'. split; [exact Ha|]. split; [exact H0|]. split; [exact H1|].
    rewrite task_waits in Hm by (vm_compute; exact I). exact (proj2 Hm).
Defined.

(** The sections of the two threads. *)
Lemma both_aside : sync_aside (of_mutex mtx) mtx over_both.1.
Proof.
  apply (sync_aside_all (of_mutex mtx) mtx). vm_compute. exact I.
Qed.
Lemma one_guard_each_time : semaphore 1 (mevents mtx over_both.1.*2.*2).
Proof. vm_compute. exact I. Qed.


(** ** The events of event.rs, notified by two threads *)
Module Queue.
Import EventDocs.
(** The twenty waits, then that of the joiner. *)
#[local] Instance twenty : KernelScript := in_order (replicate 20 1 ++ [0]).
Abbreviation event_world := (world gslab lring sring process (body code value value) value).
Abbreviation event_block := (body code value value).
Abbreviation event_proc := (Proc event_world event_block process).
Definition nobody : event_proc := MkProc [] system.
Definition evt3 : Event.Event := Event.MkEvent 7.

(** The thread notifies while the task waits. *)
Definition schedule : list (action (Code:=code)) :=
  [Begin; Sync 0 (CSpawn Queued); Round 0; Begin] ++ replicate 8 (Round 0) ++ take 3 (notifier 1 evt3) ++
  replicate 5 (Round 0) ++ drop 3 (notifier 1 evt3) ++ replicate 9 (Round 0).
Definition ran : list (nat * (option nat * seen code)) * event_proc := run_end (acts run_code 100 100 schedule nobody) ([], nobody).
Lemma runs : acts run_code 100 100 schedule nobody = Ret (ran.1, ran.2).
Proof. unfold ran; apply run_ends_pair. vm_compute. exact I. Qed.

Definition the_thread : Thread event_world event_block := default (MkThread (clocked twenty [0%Z] ∅) Outside) (threads ran.2 !! 0).
Lemma the_thread_there : threads ran.2 !! 0 = Some the_thread.
Proof.
  assert (is_Some (threads ran.2 !! 0)) as [t Ht]; [|unfold the_thread; by rewrite Ht].
  apply lookup_lt_is_Some. assert (length (threads ran.2) = 2) as -> by (vm_compute; reflexivity). lia.
Qed.
Lemma nobody_left : tasks the_thread = [].
Proof. vm_compute. reflexivity. Qed.
Lemma spawned_first : (Queued, 0) ∈ spawned (proj 0 ran.1).*2.
Proof. assert (spawned (proj 0 ran.1).*2 = [(Queued, 0); (WaitsTwenty (Event.MkEvent 6), 2)]) as -> by (vm_compute; reflexivity). by left. Qed.

(** The clones that were made *)
Definition cloned (s : seen code) : option Event.Event :=
  match s with
  | Called c x => match c in callE _ Y return Y -> option Event.Event with CEventClone _ => Some | _ => fun _ => None end x
  | _ => None
  end.

End Queue.
